(** * Offline gallery (app.js)

    A shallow embedding of the credential store, the content repository, the
    cross-partition query layer and the deletion lifecycle of [app.js],
    followed by the properties proved about them.

    Conventions of the embedding.
    - A JavaScript string is a [string]; one character of the model is one
      code unit of the source, so the strings of the model are those whose
      code units are below 256.  The messages of the source that go beyond
      them are written as their UTF-8 bytes.
    - A plain object used as a dictionary is a [Dict.t]: the list of its own
      properties in enumeration order ([Object.keys] order, which is insertion
      order for the identifiers the program generates), read through the
      first binding of each key.  Only own properties are modelled: a
      read [obj[k]] of the source also sees what [Object.prototype] defines
      ([constructor], [toString], [__proto__], ...), and the engine
      enumerates a key written as a number before the others.  Where a
      statement leaves a key free, it says so when the key has to be an
      ordinary one ([inheritedName]); [signup], whose test of the index
      decides on a name typed by the user, models the inherited names.
    - [null], [undefined] and a missing field are [None].
    - The mutable globals ([state], [viewState.userId], the two localStorage
      slots, the toast host) and the two sources of non-determinism (the clock
      and the random generator) are gathered in a [World]; every function of
      the source that touches them is a computation in the state monad [M].
    - An object reference handed around by the source ([ud], [g], [p], [c]) is
      the path of that object in [state] (partition key, then property key). *)

From Stdlib Require Import String Ascii List Bool Arith NArith ZArith Lia.
Import ListNotations.
Open Scope string_scope.
Open Scope list_scope.

(* ================================================================== *)
(** ** Dictionaries: own properties in enumeration order *)
(* ================================================================== *)

Module Dict.

Definition t (V : Type) : Type := list (string * V).

Definition empty {V : Type} : t V := [].

(** [m[k]] *)
Fixpoint get {V : Type} (m : t V) (k : string) : option V :=
  match m with
  | [] => None
  | (k', v) :: m' => if String.eqb k' k then Some v else get m' k
  end.

(** [m[k] = v]: an existing property keeps its place, a new one goes last. *)
Fixpoint set {V : Type} (m : t V) (k : string) (v : V) : t V :=
  match m with
  | [] => [(k, v)]
  | (k', v') :: m' =>
      if String.eqb k' k then (k', v) :: m' else (k', v') :: set m' k v
  end.

(** [delete m[k]] *)
Definition del {V : Type} (m : t V) (k : string) : t V :=
  filter (fun kv => negb (String.eqb (fst kv) k)) m.

(** [Object.entries(m)], [Object.keys(m)], [Object.values(m)]: each key once,
    in the order of its first binding, with the value [get] reads.  On a list
    without repeated keys, which is what every object is, [entries m] is [m]. *)
Fixpoint entries {V : Type} (m : t V) : list (string * V) :=
  match m with
  | [] => []
  | (k, v) :: m' => (k, v) :: del (entries m') k
  end.

Definition keys {V : Type} (m : t V) : list string := map fst (entries m).
Definition values {V : Type} (m : t V) : list V := map snd (entries m).

End Dict.

(** The property names every plain object inherits from [Object.prototype].
    Read on an object that has no own property of that name, each gives a
    function, or for [__proto__] the prototype itself: a truthy value. *)
Definition inheritedNames : list string :=
  ["constructor"; "hasOwnProperty"; "isPrototypeOf"; "propertyIsEnumerable";
   "toLocaleString"; "toString"; "valueOf"; "__proto__";
   "__defineGetter__"; "__defineSetter__";
   "__lookupGetter__"; "__lookupSetter__"].

Definition inheritedName (k : string) : bool :=
  existsb (String.eqb k) inheritedNames.

(* ================================================================== *)
(** ** Strings *)
(* ================================================================== *)

(** Truthiness of a string and of a nullable string. *)
Definition truthy (s : string) : bool := negb (String.eqb s "").

Definition truthyO (o : option string) : bool :=
  match o with
  | Some s => truthy s
  | None => false
  end.

(** Truthiness of [m[k]] for a dictionary of strings: the own property when
    there is one, else what [Object.prototype] gives under that name. *)
Definition truthyAt (m : Dict.t string) (k : string) : bool :=
  match Dict.get m k with
  | Some v => truthy v
  | None => inheritedName k
  end.

(** [a || b] on nullable strings with a string default. *)
Definition orElse (o : option string) (d : string) : string :=
  match o with
  | Some s => if truthy s then s else d
  | None => d
  end.

(** [a ?? b] *)
Definition nullish {A : Type} (o : option A) (d : A) : A :=
  match o with
  | Some a => a
  | None => d
  end.

(** White space of [/\s/] and of [String.prototype.trim] among the one-byte
    code units: TAB, LF, VT, FF, CR, SPACE, NBSP. *)
Definition isSpace (c : ascii) : bool :=
  let n := N_of_ascii c in
  (N.leb 9 n && N.leb n 13) || N.eqb n 32 || N.eqb n 160.

Fixpoint trimStart (s : string) : string :=
  match s with
  | String c r => if isSpace c then trimStart r else s
  | EmptyString => EmptyString
  end.

Fixpoint trimEnd (s : string) : string :=
  match s with
  | String c r =>
      match trimEnd r with
      | EmptyString => if isSpace c then EmptyString else String c EmptyString
      | r' => String c r'
      end
  | EmptyString => EmptyString
  end.

Definition trim (s : string) : string := trimEnd (trimStart s).

Fixpoint existsbS (f : ascii -> bool) (s : string) : bool :=
  match s with
  | String c r => f c || existsbS f r
  | EmptyString => false
  end.

Fixpoint forallbS (f : ascii -> bool) (s : string) : bool :=
  match s with
  | String c r => f c && forallbS f r
  | EmptyString => true
  end.

Fixpoint mapS (f : ascii -> ascii) (s : string) : string :=
  match s with
  | String c r => String (f c) (mapS f r)
  | EmptyString => EmptyString
  end.

Definition isHexDigit (c : ascii) : bool :=
  let n := N_of_ascii c in
  (N.leb 48 n && N.leb n 57) || (N.leb 65 n && N.leb n 70)
  || (N.leb 97 n && N.leb n 102).

Definition toUpper (c : ascii) : ascii :=
  let n := N_of_ascii c in
  if N.leb 97 n && N.leb n 122 then ascii_of_N (n - 32)%N else c.

(** [isValidUsername] *)
Definition isValidUsername (u : string) : bool :=
  if negb (truthy u) then false
  else if Nat.ltb (String.length u) 2 || Nat.ltb 20 (String.length u) then false
  else if existsbS isSpace u then false
  else true.

(** [normalizeHex]: the pattern is [/^#?([0-9a-fA-F]{6})$/]. *)
Definition normalizeHex (hex : option string) : string :=
  let h := trim (orElse hex "") in
  let body := match h with
              | String "#"%char r => r
              | _ => h
              end in
  if Nat.eqb (String.length body) 6 && forallbS isHexDigit body
  then mapS toUpper (String "#"%char body)
  else "#6EE7FF".

(* ------------------------------------------------------------------ *)
(** *** Numbers and colours *)

(** A JavaScript number as far as [clampInt] tells numbers apart: a finite
    number, given as the rational [num / den] (every finite double is one),
    or one of [NaN], [Infinity] and [-Infinity]. *)
Inductive JsNumber : Type :=
| Finite (num : Z) (den : positive)
| NotFinite.

(** [Math.trunc] of a finite number: its integer part, towards zero. *)
Definition trunc (num : Z) (den : positive) : Z := Z.quot num (Z.pos den).

(** [clampInt]; [x] is [Number(n)], the bounds are integers. *)
Definition clampInt (x : JsNumber) (min max : Z) : Z :=
  match x with
  | NotFinite => min
  | Finite num den => Z.max min (Z.min max (trunc num den))
  end.

(** [x.toString(16)] for an integer [x]: lower-case digits, the most
    significant first, no leading zero, a minus sign for a negative [x].
    [fuel] bounds the number of digits. *)
Definition hexDigit (n : N) : ascii :=
  if N.ltb n 10 then ascii_of_N (48 + n)%N else ascii_of_N (87 + n)%N.

Fixpoint hexDigits (fuel : nat) (n : N) (acc : string) : string :=
  match fuel with
  | O => acc
  | S fuel' =>
      let acc' := String (hexDigit (n mod 16)%N) acc in
      if N.eqb (n / 16)%N 0%N then acc' else hexDigits fuel' (n / 16)%N acc'
  end.

Definition toString16 (x : Z) : string :=
  let n := Z.abs_N x in
  let digits := hexDigits (S (N.to_nat (N.log2 n))) n EmptyString in
  if Z.ltb x 0 then String "-"%char digits else digits.

(** [s.padStart(2, "0")] *)
Definition padStart2 (s : string) : string :=
  match s with
  | EmptyString => "00"
  | String c EmptyString => String "0"%char s
  | _ => s
  end.

(** [rgbToHex], on integers. *)
Definition rgbToHex (r g b : Z) : string :=
  mapS toUpper
    (String "#"%char
       (String.append (padStart2 (toString16 r))
          (String.append (padStart2 (toString16 g))
                         (padStart2 (toString16 b))))).

(** [parseInt(v, 16)] on a string of hexadecimal digits, which is what the
    pattern of [hexToRgb] lets through. *)
Definition hexDigitValue (c : ascii) : Z :=
  let n := Z.of_N (N_of_ascii c) in
  if Z.leb 48 n && Z.leb n 57 then (n - 48)%Z
  else if Z.leb 65 n && Z.leb n 70 then (n - 55)%Z
  else (n - 87)%Z.

Fixpoint parseHexFrom (acc : Z) (s : string) : Z :=
  match s with
  | String c r => parseHexFrom (acc * 16 + hexDigitValue c)%Z r
  | EmptyString => acc
  end.

Definition parseInt16 (s : string) : Z := parseHexFrom 0%Z s.

(** [hexToRgb]: the same pattern as [normalizeHex]. *)
Definition hexToRgb (hex : option string) : Z * Z * Z :=
  let h := trim (orElse hex "") in
  let v := match h with
           | String "#"%char r => r
           | _ => h
           end in
  if Nat.eqb (String.length v) 6 && forallbS isHexDigit v
  then (parseInt16 (substring 0 2 v), parseInt16 (substring 2 2 v),
        parseInt16 (substring 4 2 v))
  else (110%Z, 231%Z, 255%Z).

(** [getRgbUi] and the value [updateAccentPreviewFromRgb] returns.  The
    arguments are the values of the three number fields as [Number] reads
    them, [None] for a field the page does not have. *)
Definition getRgbUi (rgbR rgbG rgbB : option JsNumber) : Z * Z * Z :=
  (clampInt (nullish rgbR (Finite 110 1)) 0 255,
   clampInt (nullish rgbG (Finite 231 1)) 0 255,
   clampInt (nullish rgbB (Finite 255 1)) 0 255).

Definition updateAccentPreviewFromRgb (rgbR rgbG rgbB : option JsNumber)
  : string :=
  let '(r, g, b) := getRgbUi rgbR rgbG rgbB in
  rgbToHex r g b.

(* ------------------------------------------------------------------ *)
(** *** Escaping *)

(** [s.replaceAll(c, by)] for a pattern of one character and a replacement
    without [$]. *)
Fixpoint replaceAll (c : ascii) (by_ : string) (s : string) : string :=
  match s with
  | String a r =>
      if Ascii.eqb a c then String.append by_ (replaceAll c by_ r)
      else String a (replaceAll c by_ r)
  | EmptyString => EmptyString
  end.

(** The double quote and the single quote. *)
Definition dquote : ascii := ascii_of_N 34.
Definition squote : ascii := ascii_of_N 39.

(** [escapeHtml] *)
Definition escapeHtml (s : string) : string :=
  replaceAll squote "&#39;"
    (replaceAll dquote "&quot;"
       (replaceAll ">"%char "&gt;"
          (replaceAll "<"%char "&lt;"
             (replaceAll "&"%char "&amp;" s)))).

(* ================================================================== *)
(** ** Data model *)
(* ================================================================== *)

Module User.
Record t : Type := mk {
  userId : string;
  username : string;
  saltB64 : string;
  hashB64 : string;
  createdAt : string;
  role : string
}.
End User.

Module Settings.
Record t : Type := mk {
  theme : option string;
  accent : option string;
  viewMode : option string
}.
End Settings.

Module Gallery.
Record t : Type := mk {
  id : string;
  title : string;
  desc : string;
  icon : string;
  color : string;
  pinned : bool;
  createdAt : string;
  updatedAt : string;
  deletedAt : option string
}.
Definition set_deletedAt (g : t) (d : option string) : t :=
  mk (id g) (title g) (desc g) (icon g) (color g) (pinned g)
     (createdAt g) (updatedAt g) d.
Definition set_updatedAt (g : t) (u : string) : t :=
  mk (id g) (title g) (desc g) (icon g) (color g) (pinned g)
     (createdAt g) u (deletedAt g).
End Gallery.

Module Post.
Record t : Type := mk {
  id : string;
  galleryOwnerId : option string;
  galleryId : string;
  title : string;
  content : string;
  createdAt : string;
  updatedAt : string;
  deletedAt : option string;
  deletedByGallery : bool
}.
Definition set_deletedAt (p : t) (d : option string) : t :=
  mk (id p) (galleryOwnerId p) (galleryId p) (title p) (content p)
     (createdAt p) (updatedAt p) d (deletedByGallery p).
Definition set_updatedAt (p : t) (u : string) : t :=
  mk (id p) (galleryOwnerId p) (galleryId p) (title p) (content p)
     (createdAt p) u (deletedAt p) (deletedByGallery p).
Definition set_deletedByGallery (p : t) (b : bool) : t :=
  mk (id p) (galleryOwnerId p) (galleryId p) (title p) (content p)
     (createdAt p) (updatedAt p) (deletedAt p) b.
End Post.

Module Comment.
Record t : Type := mk {
  id : string;
  postId : string;
  text : string;
  createdAt : string;
  updatedAt : string;
  deletedAt : option string
}.
End Comment.

(** One user's partition.  A field the stored document lacks is [None];
    [ensureUserData] fills it in. *)
Module UserData.
Record t : Type := mk {
  settings : option Settings.t;
  galleries : option (Dict.t Gallery.t);
  posts : option (Dict.t Post.t);
  comments : option (Dict.t Comment.t);
  media : option (Dict.t unit)
}.
End UserData.

(** The persisted document. *)
Record State : Type := mkState {
  version : nat;
  users : Dict.t User.t;
  usernameIndex : Dict.t string;
  userData : Dict.t UserData.t
}.

Definition with_userData (s : State) (ud : Dict.t UserData.t) : State :=
  mkState (version s) (users s) (usernameIndex s) ud.

Module Toast.
Record t : Type := mk { title : string; message : string }.
End Toast.

(** Everything mutable the core reads or writes. *)
Record World : Type := mkWorld {
  state : State;
  viewState_userId : option string;
  storedState : option State;      (* localStorage[STORAGE_KEY] *)
  rememberedUser : option string;  (* localStorage[REMEMBER_KEY] *)
  toasts : list Toast.t;           (* toasts shown so far, oldest first *)
  ticks : nat;                     (* calls of nowISO so far *)
  draws : nat                      (* calls of crypto.getRandomValues so far *)
}.

(** [loadState] on an empty storage. *)
Definition emptyState : State := mkState 2 [] [] [].

Definition PBKDF2_ITERS : N := 120000%N.
Definition SALT_BYTES : nat := 16.

(* ================================================================== *)
(** ** The state monad of the application *)
(* ================================================================== *)

Definition M (A : Type) : Type := World -> A * World.

Definition ret {A : Type} (a : A) : M A := fun w => (a, w).

Definition bind {A B : Type} (m : M A) (k : A -> M B) : M B :=
  fun w => let (a, w') := m w in k a w'.

Notation "x <- m ;; k" := (bind m (fun x => k))
  (at level 61, m at next level, right associativity).
Notation "m ;;; k" := (bind m (fun _ => k))
  (at level 61, right associativity).

Definition gets {A : Type} (f : World -> A) : M A := fun w => (f w, w).

Definition modify (f : World -> World) : M unit := fun w => (tt, f w).

Fixpoint forEach {A : Type} (l : list A) (body : A -> M unit) : M unit :=
  match l with
  | [] => ret tt
  | a :: l' => body a ;;; forEach l' body
  end.

Definition getState : M State := gets state.

Definition putState (s : State) : M unit :=
  modify (fun w => mkWorld s (viewState_userId w) (storedState w)
                           (rememberedUser w) (toasts w) (ticks w) (draws w)).

(** [saveState] *)
Definition saveState : M unit :=
  modify (fun w => mkWorld (state w) (viewState_userId w) (Some (state w))
                           (rememberedUser w) (toasts w) (ticks w) (draws w)).

(** [toast] *)
Definition toast (title message : string) : M unit :=
  modify (fun w => mkWorld (state w) (viewState_userId w) (storedState w)
                           (rememberedUser w)
                           (toasts w ++ [Toast.mk title message])
                           (ticks w) (draws w)).

(* ================================================================== *)
(** ** Base64: [btoa] and [atob] *)
(* ================================================================== *)

Definition b64char (n : N) : ascii :=
  if N.ltb n 26 then ascii_of_N (n + 65)%N
  else if N.ltb n 52 then ascii_of_N (n + 71)%N
  else if N.ltb n 62 then ascii_of_N (n - 4)%N
  else if N.eqb n 62 then "+"%char
  else "/"%char.

Definition b64val (c : ascii) : option N :=
  let n := N_of_ascii c in
  if N.leb 65 n && N.leb n 90 then Some (n - 65)%N
  else if N.leb 97 n && N.leb n 122 then Some (n - 71)%N
  else if N.leb 48 n && N.leb n 57 then Some (n + 4)%N
  else if N.eqb n 43 then Some 62%N
  else if N.eqb n 47 then Some 63%N
  else None.

(** [btoa] of a binary string: three bytes give four characters, a last
    group of one or two bytes is padded with [=]. *)
Fixpoint btoa (s : string) : string :=
  match s with
  | EmptyString => EmptyString
  | String a EmptyString =>
      let x := N_of_ascii a in
      String (b64char (x / 4)%N)
        (String (b64char ((x mod 4) * 16)%N) "==")
  | String a (String b EmptyString) =>
      let x := N_of_ascii a in
      let y := N_of_ascii b in
      String (b64char (x / 4)%N)
        (String (b64char ((x mod 4) * 16 + y / 16)%N)
           (String (b64char ((y mod 16) * 4)%N) "="))
  | String a (String b (String c r)) =>
      let x := N_of_ascii a in
      let y := N_of_ascii b in
      let z := N_of_ascii c in
      String (b64char (x / 4)%N)
        (String (b64char ((x mod 4) * 16 + y / 16)%N)
           (String (b64char ((y mod 16) * 4 + z / 64)%N)
              (String (b64char (z mod 64)%N) (btoa r))))
  end.

(** [atob] is the forgiving base64 decoder: ASCII white space is dropped,
    one or two final [=] are dropped when the length is a multiple of four,
    a length of 1 modulo 4 or a character outside the alphabet raises
    ([None]), and the bits left over in a last group are discarded. *)
Definition isAsciiWhitespace (c : ascii) : bool :=
  let n := N_of_ascii c in
  N.eqb n 9 || N.eqb n 10 || N.eqb n 12 || N.eqb n 13 || N.eqb n 32.

Fixpoint filterS (f : ascii -> bool) (s : string) : string :=
  match s with
  | String c r => if f c then String c (filterS f r) else filterS f r
  | EmptyString => EmptyString
  end.

Fixpoint stripPadding (s : string) : string :=
  match s with
  | String "="%char EmptyString => EmptyString
  | String "="%char (String "="%char EmptyString) => EmptyString
  | String c r => String c (stripPadding r)
  | EmptyString => EmptyString
  end.

Fixpoint sextets (s : string) : option (list N) :=
  match s with
  | String c r =>
      match b64val c, sextets r with
      | Some n, Some l => Some (n :: l)
      | _, _ => None
      end
  | EmptyString => Some []
  end.

Fixpoint decodeSextets (l : list N) : string :=
  match l with
  | a :: b :: c :: d :: r =>
      String (ascii_of_N (a * 4 + b / 16)%N)
        (String (ascii_of_N ((b mod 16) * 16 + c / 4)%N)
           (String (ascii_of_N ((c mod 4) * 64 + d)%N) (decodeSextets r)))
  | [a; b; c] =>
      String (ascii_of_N (a * 4 + b / 16)%N)
        (String (ascii_of_N ((b mod 16) * 16 + c / 4)%N) EmptyString)
  | [a; b] => String (ascii_of_N (a * 4 + b / 16)%N) EmptyString
  | _ => EmptyString
  end.

Definition atob (s : string) : option string :=
  let d := filterS (fun c => negb (isAsciiWhitespace c)) s in
  let d := if Nat.eqb (Nat.modulo (String.length d) 4) 0
           then stripPadding d else d in
  if Nat.eqb (Nat.modulo (String.length d) 4) 1 then None
  else option_map decodeSextets (sextets d).

(** A [Uint8Array] is the list of its bytes. *)
Definition bytesToB64 (bytes : list ascii) : string :=
  btoa (string_of_list_ascii bytes).

Definition b64ToBytes (b64 : string) : option (list ascii) :=
  option_map list_ascii_of_string (atob b64).

(* ================================================================== *)
(** ** Contexts and listing entries *)
(* ================================================================== *)

(** What [resolveGalleryCtx] and [resolvePostCtx] return: [{ownerId, ud, g}]
    or [{ownerId, ud, p}].  [ud] is [state.userData[ownerId]] and the record
    is [ud.galleries[key]] (or [ud.posts[key]]); [item] is the record as it
    was when the context was built. *)
Module Ctx.
Record t (E : Type) : Type := mk {
  ownerId : string;
  key : string;
  item : E
}.
Arguments mk {E}.
Arguments ownerId {E}.
Arguments key {E}.
Arguments item {E}.
End Ctx.

(** An element of a listing: [{ownerId, ownerName, ud, g | p | c}]. *)
Module Entry.
Record t (E : Type) : Type := mk {
  ownerId : string;
  ownerName : string;
  key : string;
  item : E
}.
Arguments mk {E}.
Arguments ownerId {E}.
Arguments ownerName {E}.
Arguments key {E}.
Arguments item {E}.
End Entry.

(** Arguments of the create and update operations. *)
Module GalleryData.
Record t : Type := mk {
  title : option string;
  desc : option string;
  icon : option string;
  color : option string;
  pinned : bool
}.
End GalleryData.

Module GalleryPatch.
Record t : Type := mk {
  title : option string;
  desc : option string;
  icon : option string;
  color : option string;
  pinned : option bool
}.
End GalleryPatch.

Module PostData.
Record t : Type := mk {
  galleryId : option string;
  galleryOwnerId : option string;
  title : option string;
  content : option string
}.
End PostData.

Module PostPatch.
Record t : Type := mk {
  title : option string;
  content : option string
}.
End PostPatch.

Module CommentPatch.
Record t : Type := mk { text : option string }.
End CommentPatch.

(* ================================================================== *)
(** ** Partitions *)
(* ================================================================== *)

Definition defaultSettings : Settings.t :=
  Settings.mk (Some "dark") (Some "#6EE7FF") (Some "grid").

Definition defaultUserData : UserData.t :=
  UserData.mk (Some defaultSettings) (Some []) (Some []) (Some []) (Some []).

(** [ud.galleries || {}] and its siblings. *)
Definition galleriesOf (ud : UserData.t) : Dict.t Gallery.t :=
  nullish (UserData.galleries ud) [].
Definition postsOf (ud : UserData.t) : Dict.t Post.t :=
  nullish (UserData.posts ud) [].
Definition commentsOf (ud : UserData.t) : Dict.t Comment.t :=
  nullish (UserData.comments ud) [].

(** The body of [ensureUserData] after the partition exists: every missing
    field gets its default. *)
Definition normalizeSettings (st : Settings.t) : Settings.t :=
  Settings.mk (Some (orElse (Settings.theme st) "dark"))
              (Some (orElse (Settings.accent st) "#6EE7FF"))
              (Some (orElse (Settings.viewMode st) "grid")).

Definition normalizeUserData (ud : UserData.t) : UserData.t :=
  UserData.mk
    (Some (normalizeSettings (nullish (UserData.settings ud) defaultSettings)))
    (Some (galleriesOf ud))
    (Some (postsOf ud))
    (Some (commentsOf ud))
    (Some (nullish (UserData.media ud) [])).

(** [ensureUserData] *)
Definition ensureUserData (userId : string) : M UserData.t :=
  s <- getState ;;
  let ud0 := nullish (Dict.get (userData s) userId) defaultUserData in
  let ud := normalizeUserData ud0 in
  putState (with_userData s (Dict.set (userData s) userId ud)) ;;;
  ret ud.

(** Property key of a possibly null value: [obj[null]] reads ["null"]. *)
Definition propKey (k : option string) : string := nullish k "null".

(** [isAdmin] and [canManage] *)
Definition isAdmin (w : World) : bool :=
  match Dict.get (users (state w)) (propKey (viewState_userId w)) with
  | Some u => String.eqb (User.role u) "admin"
  | None => false
  end.

Definition canManage (userId : string) (w : World) : bool :=
  isAdmin w ||
  match viewState_userId w with
  | Some v => String.eqb userId v
  | None => false
  end.

(** [getUserName] *)
Definition getUserName (userId : string) (w : World) : string :=
  match Dict.get (users (state w)) userId with
  | Some u => orElse (Some (User.username u)) "unknown"
  | None => "unknown"
  end.

(** Writes through a reference: [state.userData[o].galleries[k] = g], the
    field assignments on [g], [p], [c] and the [delete]s. *)
Definition updPartition (o : string) (f : UserData.t -> UserData.t) : M unit :=
  s <- getState ;;
  match Dict.get (userData s) o with
  | Some ud => putState (with_userData s (Dict.set (userData s) o (f ud)))
  | None => ret tt
  end.

Definition withGalleries (f : Dict.t Gallery.t -> Dict.t Gallery.t)
  (ud : UserData.t) : UserData.t :=
  UserData.mk (UserData.settings ud) (Some (f (galleriesOf ud)))
              (UserData.posts ud) (UserData.comments ud) (UserData.media ud).

Definition withPosts (f : Dict.t Post.t -> Dict.t Post.t)
  (ud : UserData.t) : UserData.t :=
  UserData.mk (UserData.settings ud) (UserData.galleries ud)
              (Some (f (postsOf ud))) (UserData.comments ud) (UserData.media ud).

Definition withComments (f : Dict.t Comment.t -> Dict.t Comment.t)
  (ud : UserData.t) : UserData.t :=
  UserData.mk (UserData.settings ud) (UserData.galleries ud)
              (UserData.posts ud) (Some (f (commentsOf ud))) (UserData.media ud).

Definition putGallery (o k : string) (g : Gallery.t) : M unit :=
  updPartition o (withGalleries (fun m => Dict.set m k g)).
Definition putPost (o k : string) (p : Post.t) : M unit :=
  updPartition o (withPosts (fun m => Dict.set m k p)).
Definition putComment (o k : string) (c : Comment.t) : M unit :=
  updPartition o (withComments (fun m => Dict.set m k c)).
Definition delGallery (o k : string) : M unit :=
  updPartition o (withGalleries (fun m => Dict.del m k)).
Definition delPost (o k : string) : M unit :=
  updPartition o (withPosts (fun m => Dict.del m k)).
Definition delComment (o k : string) : M unit :=
  updPartition o (withComments (fun m => Dict.del m k)).

(** Reads through a path. *)
Definition galleryAt (s : State) (o k : string) : option Gallery.t :=
  match Dict.get (userData s) o with
  | Some ud => Dict.get (galleriesOf ud) k
  | None => None
  end.

Definition postAt (s : State) (o k : string) : option Post.t :=
  match Dict.get (userData s) o with
  | Some ud => Dict.get (postsOf ud) k
  | None => None
  end.

Definition commentAt (s : State) (o k : string) : option Comment.t :=
  match Dict.get (userData s) o with
  | Some ud => Dict.get (commentsOf ud) k
  | None => None
  end.

(* ================================================================== *)
(** ** The application *)
(* ================================================================== *)

Section App.

(** The string the [n]-th call of [nowISO] returns. *)
Variable clock : nat -> string.

(** The bytes the [n]-th call of [crypto.getRandomValues] writes into an
    array of the given length. *)
Variable randomBytes : nat -> nat -> list ascii.

(** PBKDF2 with HMAC-SHA-256 as [crypto.subtle.deriveBits] computes it:
    password (its UTF-8 encoding is the key material), salt, iteration count
    and number of bits give the derived bytes. *)
Variable pbkdf2 : string -> list ascii -> N -> nat -> list ascii.

(** The order [String.prototype.localeCompare] induces: [true] when the
    first string does not come after the second. *)
Variable localeLe : string -> string -> bool.

Definition nowISO : M string :=
  fun w => (clock (ticks w),
            mkWorld (state w) (viewState_userId w) (storedState w)
                    (rememberedUser w) (toasts w) (S (ticks w)) (draws w)).

Definition getRandomValues (n : nat) : M (list ascii) :=
  fun w => (randomBytes (draws w) n,
            mkWorld (state w) (viewState_userId w) (storedState w)
                    (rememberedUser w) (toasts w) (ticks w) (S (draws w))).

(** [safeId] *)
Definition safeId (prefix : string) : M string :=
  bytes <- getRandomValues 12 ;;
  let b64 :=
    filterS (fun c => negb (Ascii.eqb c "="%char))
      (mapS (fun c => if Ascii.eqb c "/"%char then "_"%char else c)
         (mapS (fun c => if Ascii.eqb c "+"%char then "-"%char else c)
            (btoa (string_of_list_ascii bytes)))) in
  ret (String.append prefix b64).

(** [deriveHashB64] *)
Definition deriveHashB64 (password : string) (saltBytes : list ascii) : string :=
  bytesToB64 (pbkdf2 password saltBytes PBKDF2_ITERS 256).

(* ------------------------------------------------------------------ *)
(** *** Data resolution (cross-user scan) *)

Fixpoint scanGalleries (gid : string) (owners : list string)
  : M (option (Ctx.t Gallery.t)) :=
  match owners with
  | [] => ret None
  | ownerId :: rest =>
      ud <- ensureUserData ownerId ;;
      match Dict.get (galleriesOf ud) gid with
      | Some g => ret (Some (Ctx.mk ownerId gid g))
      | None => scanGalleries gid rest
      end
  end.

(** [resolveGalleryCtx] *)
Definition resolveGalleryCtx (gid ownerHint : option string)
  : M (option (Ctx.t Gallery.t)) :=
  if negb (truthyO gid) then ret None
  else
    let gid := nullish gid "" in
    hit <- (if truthyO ownerHint then
              let ownerHint := nullish ownerHint "" in
              ud <- ensureUserData ownerHint ;;
              ret (option_map (Ctx.mk ownerHint gid)
                              (Dict.get (galleriesOf ud) gid))
            else ret None) ;;
    match hit with
    | Some ctx => ret (Some ctx)
    | None =>
        s <- getState ;;
        scanGalleries gid (Dict.keys (userData s))
    end.

Fixpoint scanPosts (pid : string) (owners : list string)
  : M (option (Ctx.t Post.t)) :=
  match owners with
  | [] => ret None
  | ownerId :: rest =>
      ud <- ensureUserData ownerId ;;
      match Dict.get (postsOf ud) pid with
      | Some p => ret (Some (Ctx.mk ownerId pid p))
      | None => scanPosts pid rest
      end
  end.

(** [resolvePostCtx] *)
Definition resolvePostCtx (pid authorHint : option string)
  : M (option (Ctx.t Post.t)) :=
  if negb (truthyO pid) then ret None
  else
    let pid := nullish pid "" in
    hit <- (if truthyO authorHint then
              let authorHint := nullish authorHint "" in
              ud <- ensureUserData authorHint ;;
              ret (option_map (Ctx.mk authorHint pid)
                              (Dict.get (postsOf ud) pid))
            else ret None) ;;
    match hit with
    | Some ctx => ret (Some ctx)
    | None =>
        s <- getState ;;
        scanPosts pid (Dict.keys (userData s))
    end.

(** The outer loop of the three listings: every partition in turn, the
    entries it contributes appended to [out]. *)
Fixpoint collect {B : Type} (owners : list string)
  (body : string -> M (list B)) : M (list B) :=
  match owners with
  | [] => ret []
  | o :: rest =>
      xs <- body o ;;
      ys <- collect rest body ;;
      ret (xs ++ ys)
  end.

Definition entriesOf {E : Type} (ownerId ownerName : string)
  (keep : E -> bool) (m : Dict.t E) : list (Entry.t E) :=
  map (fun kv => Entry.mk ownerId ownerName (fst kv) (snd kv))
      (filter (fun kv => keep (snd kv)) (Dict.entries m)).

(** [listAllGalleryEntries] *)
Definition listAllGalleryEntries (includeDeleted : bool)
  : M (list (Entry.t Gallery.t)) :=
  s <- getState ;;
  collect (Dict.keys (userData s)) (fun ownerId =>
    ud <- ensureUserData ownerId ;;
    name <- gets (getUserName ownerId) ;;
    ret (entriesOf ownerId name
           (fun g => negb (negb includeDeleted && truthyO (Gallery.deletedAt g)))
           (galleriesOf ud))).

(** The test of [listPostsInGallery]; a post without [galleryOwnerId] counts
    as posted in a gallery of its author. *)
Definition postInGallery (authorId galleryOwnerId galleryId : string)
  (p : Post.t) : bool :=
  let go := orElse (Post.galleryOwnerId p) authorId in
  String.eqb go galleryOwnerId && String.eqb (Post.galleryId p) galleryId.

(** [listPostsInGallery] *)
Definition listPostsInGallery (galleryOwnerId galleryId : string)
  (includeDeleted : bool) : M (list (Entry.t Post.t)) :=
  s <- getState ;;
  collect (Dict.keys (userData s)) (fun authorId =>
    ud <- ensureUserData authorId ;;
    name <- gets (getUserName authorId) ;;
    ret (entriesOf authorId name
           (fun p => postInGallery authorId galleryOwnerId galleryId p
                     && negb (negb includeDeleted && truthyO (Post.deletedAt p)))
           (postsOf ud))).

(** [Array.prototype.sort] is stable; insertion from the right keeps equal
    elements in their order. *)
Fixpoint insertBy {A : Type} (le : A -> A -> bool) (x : A) (l : list A) : list A :=
  match l with
  | [] => [x]
  | y :: l' => if le x y then x :: l else y :: insertBy le x l'
  end.

Definition sortBy {A : Type} (le : A -> A -> bool) (l : list A) : list A :=
  fold_right (insertBy le) [] l.

(** [listCommentsForPost] *)
Definition listCommentsForPost (postId : string) (includeDeleted : bool)
  : M (list (Entry.t Comment.t)) :=
  s <- getState ;;
  out <- collect (Dict.keys (userData s)) (fun authorId =>
    ud <- ensureUserData authorId ;;
    name <- gets (getUserName authorId) ;;
    ret (entriesOf authorId name
           (fun c => String.eqb (Comment.postId c) postId
                     && negb (negb includeDeleted && truthyO (Comment.deletedAt c)))
           (commentsOf ud))) ;;
  ret (sortBy (fun a b => localeLe (Comment.createdAt (Entry.item a))
                                   (Comment.createdAt (Entry.item b))) out).

(** [computeGalleryMeta] *)
Definition computeGalleryMeta (galleryOwnerId galleryId : string)
  : M (nat * nat * option string) :=
  posts <- listPostsInGallery galleryOwnerId galleryId true ;;
  let alive := filter (fun x => negb (truthyO (Post.deletedAt (Entry.item x)))) posts in
  let trashed := filter (fun x => truthyO (Post.deletedAt (Entry.item x))) posts in
  let latest :=
    fold_left (fun acc x =>
                 let t := Post.updatedAt (Entry.item x) in
                 let t := if truthy t then t else Post.createdAt (Entry.item x) in
                 if String.ltb t acc then acc else t)
              alive "" in
  ret (List.length alive, List.length trashed,
       if truthy latest then Some latest else None).

(* ------------------------------------------------------------------ *)
(** *** CRUD: Gallery *)

(** [createGallery] *)
Definition createGallery (ownerId : string) (data : GalleryData.t)
  : M (option Gallery.t) :=
  ok <- gets (canManage ownerId) ;;
  if negb ok then
    toast "권한 없음" "갤러리를 생성할 수 없습니다." ;;;
    ret None
  else
    ud <- ensureUserData ownerId ;;
    gid <- safeId "g_" ;;
    createdAt <- nowISO ;;
    updatedAt <- nowISO ;;
    let g := Gallery.mk gid
               (trim (orElse (GalleryData.title data) "새 갤러리"))
               (trim (orElse (GalleryData.desc data) ""))
               (orElse (GalleryData.icon data) "🖼️")
               (normalizeHex (Some (orElse (GalleryData.color data) "#6EE7FF")))
               (GalleryData.pinned data)
               createdAt updatedAt None in
    putGallery ownerId gid g ;;;
    saveState ;;;
    ret (Some g).

(** [updateGallery] *)
Definition updateGallery (ownerId gid : string) (patch : GalleryPatch.t)
  : M bool :=
  ok <- gets (canManage ownerId) ;;
  if negb ok then
    toast "권한 없음" "이 갤러리를 수정할 수 없습니다." ;;;
    ret false
  else
    ud <- ensureUserData ownerId ;;
    match Dict.get (galleriesOf ud) gid with
    | None => ret false
    | Some g =>
        if truthyO (Gallery.deletedAt g) then ret false
        else
          updatedAt <- nowISO ;;
          putGallery ownerId gid
            (Gallery.mk (Gallery.id g)
               (trim (nullish (GalleryPatch.title patch) (Gallery.title g)))
               (trim (nullish (GalleryPatch.desc patch) (Gallery.desc g)))
               (nullish (GalleryPatch.icon patch) (Gallery.icon g))
               (normalizeHex
                  (Some (nullish (GalleryPatch.color patch) (Gallery.color g))))
               (nullish (GalleryPatch.pinned patch) (Gallery.pinned g))
               (Gallery.createdAt g) updatedAt (Gallery.deletedAt g)) ;;;
          saveState ;;;
          ret true
    end.

(** The body of the loop of [deleteGallerySoft] over the posts listed. *)
Definition tombstoneByGallery (e : Entry.t Post.t) : M unit :=
  s <- getState ;;
  match postAt s (Entry.ownerId e) (Entry.key e) with
  | Some p =>
      if negb (truthyO (Post.deletedAt p)) then
        deletedAt <- nowISO ;;
        updatedAt <- nowISO ;;
        putPost (Entry.ownerId e) (Entry.key e)
          (Post.set_deletedByGallery
             (Post.set_updatedAt (Post.set_deletedAt p (Some deletedAt)) updatedAt)
             true)
      else ret tt
  | None => ret tt
  end.

(** [deleteGallerySoft] *)
Definition deleteGallerySoft (ownerId gid : string) : M bool :=
  ok <- gets (canManage ownerId) ;;
  if negb ok then
    toast "권한 없음" "이 갤러리를 삭제할 수 없습니다." ;;;
    ret false
  else
    ud <- ensureUserData ownerId ;;
    match Dict.get (galleriesOf ud) gid with
    | None => ret false
    | Some g =>
        if truthyO (Gallery.deletedAt g) then ret false
        else
          deletedAt <- nowISO ;;
          updatedAt <- nowISO ;;
          putGallery ownerId gid
            (Gallery.set_updatedAt (Gallery.set_deletedAt g (Some deletedAt))
                                   updatedAt) ;;;
          posts <- listPostsInGallery ownerId gid true ;;
          forEach posts tombstoneByGallery ;;;
          saveState ;;;
          ret true
    end.

(** The body of the loop of [restoreGallery] over the posts listed. *)
Definition restoreByGallery (e : Entry.t Post.t) : M unit :=
  s <- getState ;;
  match postAt s (Entry.ownerId e) (Entry.key e) with
  | Some p =>
      if truthyO (Post.deletedAt p) && Post.deletedByGallery p then
        updatedAt <- nowISO ;;
        putPost (Entry.ownerId e) (Entry.key e)
          (Post.set_updatedAt
             (Post.set_deletedByGallery (Post.set_deletedAt p None) false)
             updatedAt)
      else ret tt
  | None => ret tt
  end.

(** [restoreGallery] *)
Definition restoreGallery (ownerId gid : string) : M bool :=
  ok <- gets (canManage ownerId) ;;
  if negb ok then
    toast "권한 없음" "복원할 수 없습니다." ;;;
    ret false
  else
    ud <- ensureUserData ownerId ;;
    match Dict.get (galleriesOf ud) gid with
    | None => ret false
    | Some g =>
        if negb (truthyO (Gallery.deletedAt g)) then ret false
        else
          updatedAt <- nowISO ;;
          putGallery ownerId gid
            (Gallery.set_updatedAt (Gallery.set_deletedAt g None) updatedAt) ;;;
          posts <- listPostsInGallery ownerId gid true ;;
          forEach posts restoreByGallery ;;;
          saveState ;;;
          ret true
    end.

(** The comment sweep of the two purges: every comment of every partition
    whose [postId] satisfies [hit] is deleted. *)
Definition purgeComments (hit : string -> bool) : M unit :=
  s <- getState ;;
  forEach (Dict.keys (userData s)) (fun commenterId =>
    cud <- ensureUserData commenterId ;;
    forEach (Dict.entries (commentsOf cud)) (fun kc =>
      if hit (Comment.postId (snd kc))
      then delComment commenterId (fst kc)
      else ret tt)).

(** [purgeGallery] *)
Definition purgeGallery (ownerId gid : string) : M bool :=
  ok <- gets (canManage ownerId) ;;
  if negb ok then
    toast "권한 없음" "영구 삭제할 수 없습니다." ;;;
    ret false
  else
    ud <- ensureUserData ownerId ;;
    match Dict.get (galleriesOf ud) gid with
    | None => ret false
    | Some g =>
        posts <- listPostsInGallery ownerId gid true ;;
        let postIds := map (fun x => Post.id (Entry.item x)) posts in
        purgeComments (fun postId => existsb (String.eqb postId) postIds) ;;;
        forEach posts (fun e =>
          delPost (Entry.ownerId e) (Post.id (Entry.item e))) ;;;
        delGallery ownerId gid ;;;
        saveState ;;;
        ret true
    end.

(* ------------------------------------------------------------------ *)
(** *** CRUD: Post *)

(** [createPost] *)
Definition createPost (authorId : string) (data : PostData.t)
  : M (option Post.t) :=
  ok <- gets (canManage authorId) ;;
  if negb ok then
    toast "권한 없음" "게시물을 작성할 수 없습니다." ;;;
    ret None
  else
    gctx <- resolveGalleryCtx (PostData.galleryId data)
                              (PostData.galleryOwnerId data) ;;
    match gctx with
    | Some ctx =>
        if truthyO (Gallery.deletedAt (Ctx.item ctx)) then
          toast "오류" "유효한 갤러리를 선택하세요." ;;;
          ret None
        else
          ud <- ensureUserData authorId ;;
          pid <- safeId "p_" ;;
          createdAt <- nowISO ;;
          updatedAt <- nowISO ;;
          let p := Post.mk pid
                     (Some (Ctx.ownerId ctx))
                     (Gallery.id (Ctx.item ctx))
                     (trim (orElse (PostData.title data) "새 게시물"))
                     (trim (orElse (PostData.content data) ""))
                     createdAt updatedAt None false in
          putPost authorId pid p ;;;
          saveState ;;;
          ret (Some p)
    | None =>
        toast "오류" "유효한 갤러리를 선택하세요." ;;;
        ret None
    end.

(** [updatePost] *)
Definition updatePost (authorId pid : string) (patch : PostPatch.t) : M bool :=
  ok <- gets (canManage authorId) ;;
  if negb ok then
    toast "권한 없음" "이 게시물을 수정할 수 없습니다." ;;;
    ret false
  else
    ud <- ensureUserData authorId ;;
    match Dict.get (postsOf ud) pid with
    | None => ret false
    | Some p =>
        if truthyO (Post.deletedAt p) then ret false
        else
          updatedAt <- nowISO ;;
          putPost authorId pid
            (Post.mk (Post.id p) (Post.galleryOwnerId p) (Post.galleryId p)
               (trim (nullish (PostPatch.title patch) (Post.title p)))
               (trim (nullish (PostPatch.content patch) (Post.content p)))
               (Post.createdAt p) updatedAt (Post.deletedAt p)
               (Post.deletedByGallery p)) ;;;
          saveState ;;;
          ret true
    end.

(** [deletePostSoft] *)
Definition deletePostSoft (authorId pid : string) : M bool :=
  ok <- gets (canManage authorId) ;;
  if negb ok then
    toast "권한 없음" "이 게시물을 삭제할 수 없습니다." ;;;
    ret false
  else
    ud <- ensureUserData authorId ;;
    match Dict.get (postsOf ud) pid with
    | None => ret false
    | Some p =>
        if truthyO (Post.deletedAt p) then ret false
        else
          deletedAt <- nowISO ;;
          updatedAt <- nowISO ;;
          putPost authorId pid
            (Post.set_updatedAt
               (Post.set_deletedByGallery (Post.set_deletedAt p (Some deletedAt))
                                          false)
               updatedAt) ;;;
          saveState ;;;
          ret true
    end.

(** [restorePost] *)
Definition restorePost (authorId pid : string) : M bool :=
  ok <- gets (canManage authorId) ;;
  if negb ok then
    toast "권한 없음" "복원할 수 없습니다." ;;;
    ret false
  else
    ud <- ensureUserData authorId ;;
    match Dict.get (postsOf ud) pid with
    | None => ret false
    | Some p =>
        if negb (truthyO (Post.deletedAt p)) then ret false
        else
          gctx <- resolveGalleryCtx (Some (Post.galleryId p))
                                    (Post.galleryOwnerId p) ;;
          if match gctx with
             | Some ctx => truthyO (Gallery.deletedAt (Ctx.item ctx))
             | None => true
             end
          then
            toast "복원 불가"
                  "갤러리가 삭제된 상태입니다. 먼저 갤러리를 복원하세요." ;;;
            ret false
          else
            updatedAt <- nowISO ;;
            putPost authorId pid
              (Post.set_updatedAt
                 (Post.set_deletedByGallery (Post.set_deletedAt p None) false)
                 updatedAt) ;;;
            saveState ;;;
            ret true
    end.

(** [purgePost] *)
Definition purgePost (authorId pid : string) : M bool :=
  ok <- gets (canManage authorId) ;;
  if negb ok then
    toast "권한 없음" "영구 삭제할 수 없습니다." ;;;
    ret false
  else
    ud <- ensureUserData authorId ;;
    match Dict.get (postsOf ud) pid with
    | None => ret false
    | Some p =>
        purgeComments (fun postId => String.eqb postId pid) ;;;
        delPost authorId pid ;;;
        saveState ;;;
        ret true
    end.

(* ------------------------------------------------------------------ *)
(** *** CRUD: Comment *)

(** [createComment] *)
Definition createComment (authorId postId : string) (text : option string)
  : M (option Comment.t) :=
  ok <- gets (canManage authorId) ;;
  if negb ok then
    toast "권한 없음" "댓글을 작성할 수 없습니다." ;;;
    ret None
  else
    postCtx <- resolvePostCtx (Some postId) None ;;
    if match postCtx with
       | Some ctx => truthyO (Post.deletedAt (Ctx.item ctx))
       | None => true
       end
    then
      toast "오류" "유효한 게시물이 아닙니다." ;;;
      ret None
    else
      ud <- ensureUserData authorId ;;
      cid <- safeId "c_" ;;
      createdAt <- nowISO ;;
      updatedAt <- nowISO ;;
      let c := Comment.mk cid postId (trim (orElse text ""))
                          createdAt updatedAt None in
      putComment authorId cid c ;;;
      saveState ;;;
      ret (Some c).

(** [updateComment] *)
Definition updateComment (authorId cid : string) (patch : CommentPatch.t)
  : M bool :=
  ok <- gets (canManage authorId) ;;
  if negb ok then
    toast "권한 없음" "댓글을 수정할 수 없습니다." ;;;
    ret false
  else
    ud <- ensureUserData authorId ;;
    match Dict.get (commentsOf ud) cid with
    | None => ret false
    | Some c =>
        if truthyO (Comment.deletedAt c) then ret false
        else
          updatedAt <- nowISO ;;
          putComment authorId cid
            (Comment.mk (Comment.id c) (Comment.postId c)
               (trim (nullish (CommentPatch.text patch) (Comment.text c)))
               (Comment.createdAt c) updatedAt (Comment.deletedAt c)) ;;;
          saveState ;;;
          ret true
    end.

(** [deleteCommentSoft] *)
Definition deleteCommentSoft (authorId cid : string) : M bool :=
  ok <- gets (canManage authorId) ;;
  if negb ok then
    toast "권한 없음" "댓글을 삭제할 수 없습니다." ;;;
    ret false
  else
    ud <- ensureUserData authorId ;;
    match Dict.get (commentsOf ud) cid with
    | None => ret false
    | Some c =>
        if truthyO (Comment.deletedAt c) then ret false
        else
          deletedAt <- nowISO ;;
          updatedAt <- nowISO ;;
          putComment authorId cid
            (Comment.mk (Comment.id c) (Comment.postId c) (Comment.text c)
               (Comment.createdAt c) updatedAt (Some deletedAt)) ;;;
          saveState ;;;
          ret true
    end.

(* ------------------------------------------------------------------ *)
(** *** Auth *)

Definition setViewUser (u : option string) : M unit :=
  modify (fun w => mkWorld (state w) u (storedState w) (rememberedUser w)
                           (toasts w) (ticks w) (draws w)).

Definition setRemembered (u : option string) : M unit :=
  modify (fun w => mkWorld (state w) (viewState_userId w) (storedState w) u
                           (toasts w) (ticks w) (draws w)).

(** [enterApp] shows the application and renders it.  Rendering writes the
    page; on the [World] it only has the effect of the queries it runs:
    [renderTop] calls [ensureUserData(viewState.userId)] and the gallery list
    is built from [listAllGalleryEntries]. *)
Definition enterApp : M unit :=
  u <- gets viewState_userId ;;
  ensureUserData (propKey u) ;;;
  listAllGalleryEntries false ;;;
  ret tt.

(** [login].  The result is [None] when [atob] raises on the stored salt
    and the promise is rejected. *)
Definition login (username password : string) (remember : bool)
  : M (option bool) :=
  s <- getState ;;
  match
    match Dict.get (usernameIndex s) username with
    | Some uid =>
        if truthy uid
        then option_map (pair uid) (Dict.get (users s) uid)
        else None
    | None => None
    end
  with
  | None =>
      toast "로그인 실패" "아이디 또는 비밀번호가 올바르지 않습니다." ;;;
      ret (Some false)
  | Some (uid, user) =>
      match b64ToBytes (User.saltB64 user) with
      | None => ret None
      | Some salt =>
          let hashTry := deriveHashB64 password salt in
          if negb (String.eqb hashTry (User.hashB64 user)) then
            toast "로그인 실패" "아이디 또는 비밀번호가 올바르지 않습니다." ;;;
            ret (Some false)
          else
            setViewUser (Some uid) ;;;
            ensureUserData uid ;;;
            setRemembered (if remember then Some uid else None) ;;;
            toast "로그인" (String.append username " 님 환영합니다.") ;;;
            enterApp ;;;
            ret (Some true)
      end
  end.

(** [signup].  The test [state.usernameIndex?.[username]] is truthy also for
    a name the index does not hold but [Object.prototype] defines. *)
Definition signup (username password : string) : M bool :=
  if negb (isValidUsername username) then
    toast "회원가입 실패" "아이디 형식이 올바르지 않습니다." ;;;
    ret false
  else
    s <- getState ;;
    if truthyAt (usernameIndex s) username then
      toast "회원가입 실패" "이미 존재하는 아이디입니다." ;;;
      ret false
    else
      salt <- getRandomValues SALT_BYTES ;;
      let hashB64 := deriveHashB64 password salt in
      userId <- safeId "u_" ;;
      createdAt <- nowISO ;;
      s <- getState ;;
      putState (mkState (version s)
                  (Dict.set (users s) userId
                     (User.mk userId username (bytesToB64 salt) hashB64
                              createdAt "user"))
                  (Dict.set (usernameIndex s) username userId)
                  (userData s)) ;;;
      ensureUserData userId ;;;
      saveState ;;;
      toast "회원가입" "계정이 생성되었습니다. 로그인하세요." ;;;
      ret true.

(** [exitToAuth] as far as the [World] goes, and [logout]. *)
Definition logout : M unit :=
  setRemembered None ;;;
  setViewUser None ;;;
  toast "로그아웃" "로그아웃되었습니다.".

(* ------------------------------------------------------------------ *)
(** *** Bootstrap, page load and the two forms *)

Definition ADMIN_NAME : string := "admin".
Definition ADMIN_PW : string := "qwer0987@".

(** [ensureAdminAndRemoveDemo], run to its end without another handler in
    between. *)
Definition ensureAdminAndRemoveDemo : M unit :=
  s <- getState ;;
  (match Dict.get (usernameIndex s) "demo" with
   | Some demoId =>
       if truthy demoId then
         putState (mkState (version s)
                     (Dict.del (users s) demoId)
                     (Dict.del (usernameIndex s) "demo")
                     (Dict.del (userData s) demoId)) ;;;
         saveState
       else ret tt
   | None => ret tt
   end) ;;;
  s <- getState ;;
  match
    match Dict.get (usernameIndex s) ADMIN_NAME with
    | Some adminId =>
        if truthy adminId
        then option_map (pair adminId) (Dict.get (users s) adminId)
        else None
    | None => None
    end
  with
  | Some (adminId, user) =>
      putState (mkState (version s)
                  (Dict.set (users s) adminId
                     (User.mk (User.userId user) (User.username user)
                              (User.saltB64 user) (User.hashB64 user)
                              (User.createdAt user) "admin"))
                  (usernameIndex s) (userData s)) ;;;
      ensureUserData adminId ;;;
      saveState
  | None =>
      salt <- getRandomValues SALT_BYTES ;;
      let hashB64 := deriveHashB64 ADMIN_PW salt in
      userId <- safeId "u_" ;;
      createdAt <- nowISO ;;
      s <- getState ;;
      putState (mkState (version s)
                  (Dict.set (users s) userId
                     (User.mk userId ADMIN_NAME (bytesToB64 salt) hashB64
                              createdAt "admin"))
                  (Dict.set (usernameIndex s) ADMIN_NAME userId)
                  (userData s)) ;;;
      ensureUserData userId ;;;
      saveState
  end.

(** [exitToAuth] as far as the [World] goes. *)
Definition exitToAuth : M unit := setViewUser None.

(** The automatic login of the [DOMContentLoaded] handler.  The toast reads
    the user name once more; were the user gone by then the template would
    raise and no toast be shown. *)
Definition autoLogin : M unit :=
  remembered <- gets rememberedUser ;;
  s <- getState ;;
  match (if truthyO remembered
         then Dict.get (users s) (nullish remembered "")
         else None) with
  | Some _ =>
      setViewUser remembered ;;;
      ensureUserData (nullish remembered "") ;;;
      enterApp ;;;
      s' <- getState ;;
      match Dict.get (users s') (nullish remembered "") with
      | Some user =>
          toast "자동 로그인"
                (String.append (User.username user) " 님으로 로그인되었습니다.")
      | None => ret tt
      end
  | None => exitToAuth
  end.

(** The submit handlers of the login form and of the signup form; the
    arguments are the values of the input fields. *)
Definition submitLogin (loginId loginPw : string) (rememberMe : bool)
  : M unit :=
  login (trim loginId) loginPw rememberMe ;;;
  ret tt.

Definition submitSignup (signupId signupPw signupPw2 : string) : M unit :=
  let u := trim signupId in
  if negb (String.eqb signupPw signupPw2) then
    toast "회원가입 실패" "비밀번호가 일치하지 않습니다."
  else if Nat.ltb (String.length signupPw) 6 then
    toast "회원가입 실패" "비밀번호는 6자 이상이어야 합니다."
  else
    signup u signupPw ;;;
    ret tt.

End App.

(* ================================================================== *)
(** * Vocabulary of the statements *)
(* ================================================================== *)

(** [run m w a w']: started in [w], the computation [m] returns [a] and
    leaves [w']. *)
Definition run {A : Type} (m : M A) (w : World) (a : A) (w' : World) : Prop :=
  m w = (a, w').

(** The partition stored under a key, if any. *)
Definition partAt (s : State) (o : string) : option UserData.t :=
  Dict.get (userData s) o.

Definition setState (w : World) (s : State) : World :=
  mkWorld s (viewState_userId w) (storedState w) (rememberedUser w)
          (toasts w) (ticks w) (draws w).

(** A partition is normalised when [ensureUserData] has nothing to add. *)
Definition normalized (ud : UserData.t) : Prop := normalizeUserData ud = ud.

(** Tombstones. *)
Definition galleryDeleted (g : Gallery.t) : bool := truthyO (Gallery.deletedAt g).
Definition postDeleted (p : Post.t) : bool := truthyO (Post.deletedAt p).
Definition commentDeleted (c : Comment.t) : bool := truthyO (Comment.deletedAt c).

(** Two states hold the same galleries, posts and comments under the same
    paths. *)
Definition sameEntities (s s' : State) : Prop :=
  (forall o k, galleryAt s' o k = galleryAt s o k) /\
  (forall o k, postAt s' o k = postAt s o k) /\
  (forall o k, commentAt s' o k = commentAt s o k).

(** Nothing but [userData] differs, and no partition went away. *)
Definition sameRegistry (s s' : State) : Prop :=
  version s' = version s /\ users s' = users s /\
  usernameIndex s' = usernameIndex s /\
  (forall o, partAt s o <> None -> partAt s' o <> None).

(** The state [ensureUserData o] leaves. *)
Definition ensured (s : State) (o : string) : State :=
  with_userData s
    (Dict.set (userData s) o
       (normalizeUserData (nullish (partAt s o) defaultUserData))).

(** What a listing does to the document: every partition is normalised in
    place, nothing else changes. *)
Definition normalizedAll (s s' : State) : Prop :=
  version s' = version s /\ users s' = users s /\
  usernameIndex s' = usernameIndex s /\
  Dict.keys (userData s') = Dict.keys (userData s) /\
  forall o, partAt s' o = option_map normalizeUserData (partAt s o).

(** The partitions named in [l] are normalised in place, nothing else
    changes. *)
Definition normalizedOn (l : list string) (s s' : State) : Prop :=
  version s' = version s /\ users s' = users s /\
  usernameIndex s' = usernameIndex s /\
  Dict.keys (userData s') = Dict.keys (userData s) /\
  forall o, partAt s' o =
            if existsb (String.eqb o) l
            then option_map normalizeUserData (partAt s o)
            else partAt s o.

(** The state a write through [state.userData[o]] leaves. *)
Definition updated (s : State) (o : string) (f : UserData.t -> UserData.t)
  : State :=
  match partAt s o with
  | Some ud => with_userData s (Dict.set (userData s) o (f ud))
  | None => s
  end.

(** A post as the cascade of [deleteGallerySoft] leaves it, and as the
    cascade of [restoreGallery] or [restorePost] leaves it. *)
Definition tombstoned (p : Post.t) (deletedAt updatedAt : string) : Post.t :=
  Post.set_deletedByGallery
    (Post.set_updatedAt (Post.set_deletedAt p (Some deletedAt)) updatedAt) true.

Definition restored (p : Post.t) (updatedAt : string) : Post.t :=
  Post.set_updatedAt
    (Post.set_deletedByGallery (Post.set_deletedAt p None) false) updatedAt.

(** The path [(a, k)] is among the entries of a listing. *)
Definition listedAt {E : Type} (a k : string) (l : list (Entry.t E)) : bool :=
  existsb (fun e => String.eqb (Entry.ownerId e) a && String.eqb (Entry.key e) k) l.

(** A step that may only have rewritten posts in place. *)
Definition postsOnly (w w' : World) : Prop :=
  viewState_userId w' = viewState_userId w /\
  sameRegistry (state w) (state w') /\
  Dict.keys (userData (state w')) = Dict.keys (userData (state w)) /\
  (forall o k, galleryAt (state w') o k = galleryAt (state w) o k) /\
  (forall o k, commentAt (state w') o k = commentAt (state w) o k).

(** How the cascade of [deleteGallerySoft] relates a post before and after:
    a listed post that was alive is tombstoned and flagged, any other is
    left as it was. *)
Definition tombstoneRel (clock : nat -> string) (listed : bool)
  (old new : option Post.t) : Prop :=
  match old with
  | Some p =>
      if listed && negb (postDeleted p)
      then exists n m, new = Some (tombstoned p (clock n) (clock m))
      else new = old
  | None => new = None
  end.

(** How the cascade of [restoreGallery] relates a post before and after:
    a listed post that was tombstoned and flagged is restored and unflagged,
    any other is left as it was. *)
Definition restoreRel (clock : nat -> string) (listed : bool)
  (old new : option Post.t) : Prop :=
  match old with
  | Some p =>
      if listed && (postDeleted p && Post.deletedByGallery p)
      then exists n, new = Some (restored p (clock n))
      else new = old
  | None => new = None
  end.

(** The world after one call of [nowISO]. *)
Definition ticked (w : World) : World :=
  mkWorld (state w) (viewState_userId w) (storedState w) (rememberedUser w)
          (toasts w) (S (ticks w)) (draws w).

(** The world after [toast] and after [saveState]. *)
Definition toasted (w : World) (title message : string) : World :=
  mkWorld (state w) (viewState_userId w) (storedState w) (rememberedUser w)
          (toasts w ++ [Toast.mk title message]) (ticks w) (draws w).

Definition saved (w : World) : World :=
  mkWorld (state w) (viewState_userId w) (Some (state w)) (rememberedUser w)
          (toasts w) (ticks w) (draws w).

(** The world after one call of [crypto.getRandomValues]. *)
Definition drawn (w : World) : World :=
  mkWorld (state w) (viewState_userId w) (storedState w) (rememberedUser w)
          (toasts w) (ticks w) (S (draws w)).

(** The failure kinds, as the toast that reports them. *)
Definition PermissionDenied (message : string) : Toast.t :=
  Toast.mk "권한 없음" message.


Definition InvalidCredentials : Toast.t :=
  Toast.mk "로그인 실패" "아이디 또는 비밀번호가 올바르지 않습니다.".

(** The outcome of a call refused for lack of permission: the failure value
    is returned, a permission toast is shown, and nothing else of the world
    changes, neither the document in memory nor the stored one nor the
    session. *)
Definition deniedAt {A : Type} (w : World) (failure : A) (res : A * World)
  : Prop :=
  fst res = failure /\
  state (snd res) = state w /\
  storedState (snd res) = storedState w /\
  viewState_userId (snd res) = viewState_userId w /\
  exists message, snd res = toasted w "권한 없음" message.

(** What [resolveGalleryCtx] and [resolvePostCtx] return, read off the
    document: the record under the hinted partition if there is one, else the
    record of the first partition in enumeration order that has the key. *)
Fixpoint findGallery (s : State) (gid : string) (owners : list string)
  : option (Ctx.t Gallery.t) :=
  match owners with
  | [] => None
  | o :: rest =>
      match galleryAt s o gid with
      | Some g => Some (Ctx.mk o gid g)
      | None => findGallery s gid rest
      end
  end.

Definition resolvedGallery (s : State) (gid ownerHint : option string)
  : option (Ctx.t Gallery.t) :=
  if negb (truthyO gid) then None
  else
    match
      (if truthyO ownerHint
       then option_map (Ctx.mk (nullish ownerHint "") (nullish gid ""))
                       (galleryAt s (nullish ownerHint "") (nullish gid ""))
       else None)
    with
    | Some ctx => Some ctx
    | None => findGallery s (nullish gid "") (Dict.keys (userData s))
    end.

Fixpoint findPost (s : State) (pid : string) (owners : list string)
  : option (Ctx.t Post.t) :=
  match owners with
  | [] => None
  | o :: rest =>
      match postAt s o pid with
      | Some p => Some (Ctx.mk o pid p)
      | None => findPost s pid rest
      end
  end.

Definition resolvedPost (s : State) (pid authorHint : option string)
  : option (Ctx.t Post.t) :=
  if negb (truthyO pid) then None
  else
    match
      (if truthyO authorHint
       then option_map (Ctx.mk (nullish authorHint "") (nullish pid ""))
                       (postAt s (nullish authorHint "") (nullish pid ""))
       else None)
    with
    | Some ctx => Some ctx
    | None => findPost s (nullish pid "") (Dict.keys (userData s))
    end.

(** The partitions a scan visits: those up to and including the first one
    where [hit] holds. *)
Fixpoint scanned (hit : string -> bool) (owners : list string) : list string :=
  match owners with
  | [] => []
  | o :: rest => o :: (if hit o then [] else scanned hit rest)
  end.

Definition isSome {A : Type} (o : option A) : bool :=
  match o with
  | Some _ => true
  | None => false
  end.

(** A step that may only have removed or rewritten comments, and one that
    may only have removed posts. *)
Definition commentsOnly (w w' : World) : Prop :=
  viewState_userId w' = viewState_userId w /\
  sameRegistry (state w) (state w') /\
  Dict.keys (userData (state w')) = Dict.keys (userData (state w)) /\
  (forall o k, galleryAt (state w') o k = galleryAt (state w) o k) /\
  (forall o k, postAt (state w') o k = postAt (state w) o k).

(** The comment sweep of a purge: a comment whose [postId] is hit goes, every
    other comment stays as it was. *)
Definition sweptComment (hit : string -> bool) (old : option Comment.t)
  : option Comment.t :=
  match old with
  | Some c => if hit (Comment.postId c) then None else Some c
  | None => None
  end.

(** The post at [(a, k)] is deleted by the post loop of [purgeGallery] when
    some listed entry of author [a] carries a post whose [id] is [k]. *)
Definition purgedAt (a k : string) (l : list (Entry.t Post.t)) : bool :=
  existsb (fun e => String.eqb (Entry.ownerId e) a
                    && String.eqb (Post.id (Entry.item e)) k) l.

(** [L] lists the posts of gallery [(go, gid)] in document [s], tombstoned
    or not, each under its path. *)
Definition listsGallery (s : State) (go gid : string)
  (L : list (Entry.t Post.t)) : Prop :=
  forall a k p,
    (exists e, In e L /\ Entry.ownerId e = a /\ Entry.key e = k /\
               Entry.item e = p) <->
    (postAt s a k = Some p /\ postInGallery a go gid p = true).

(** Well-formedness of the document as the create operations build it: a
    record is stored under its own [id], and a gallery key is in use in one
    partition only. *)
Definition postsKeyedById (s : State) : Prop :=
  forall a k p, postAt s a k = Some p -> Post.id p = k.

Definition galleriesKeyedById (s : State) : Prop :=
  forall o k g, galleryAt s o k = Some g -> Gallery.id g = k.

Definition galleryKeysUnique (s : State) : Prop :=
  forall o o' k g g',
    galleryAt s o k = Some g -> galleryAt s o' k = Some g' -> o = o'.

(** The account a username logs into: the user the index points at, when
    the index has the name and the registry has the user. *)
Definition accountOf (s : State) (username : string) : option (string * User.t) :=
  match Dict.get (usernameIndex s) username with
  | Some uid =>
      if truthy uid
      then option_map (pair uid) (Dict.get (users s) uid)
      else None
  | None => None
  end.

(** The outcome of a refused login. *)
Definition loginRefused (w : World) : option bool * World :=
  (Some false,
   toasted w (Toast.title InvalidCredentials) (Toast.message InvalidCredentials)).

(** The sextets of the base64 alphabet. *)
Definition sextetsUpTo63 : list N :=
  map N.of_nat (seq 0 64).

(** The document once the hinted partition, if any hint is given, has been
    ensured. *)
Definition hintedState (s : State) (hint : option string) : State :=
  if truthyO hint then ensured s (nullish hint "") else s.

(** The partitions a resolution with a usable key visits after the hinted
    one: none when the hinted partition has the key, else those the scan goes
    through.  [has o] tells whether partition [o] has the key. *)
Definition visited (has : string -> bool) (s : State) (hint : option string)
  : list string :=
  if truthyO hint && has (nullish hint "") then []
  else scanned has (Dict.keys (userData (hintedState s hint))).


(** Normalising in the words of the specification: every field of the
    partition that is missing gets its default, a setting that is missing or
    empty gets its default, and what is there stays. *)
Definition defaultsFilled (old new : UserData.t) : Prop :=
  let st := nullish (UserData.settings old) defaultSettings in
  UserData.settings new =
  Some (Settings.mk (Some (orElse (Settings.theme st) "dark"))
                    (Some (orElse (Settings.accent st) "#6EE7FF"))
                    (Some (orElse (Settings.viewMode st) "grid"))) /\
  UserData.galleries new = Some (nullish (UserData.galleries old) []) /\
  UserData.posts new = Some (nullish (UserData.posts old) []) /\
  UserData.comments new = Some (nullish (UserData.comments old) []) /\
  UserData.media new = Some (nullish (UserData.media old) []).



(** Two documents hold the same galleries and the same posts. *)
Definition sameGP (s s' : State) : Prop :=
  (forall o k, galleryAt s' o k = galleryAt s o k) /\
  (forall a k, postAt s' a k = postAt s a k).

(** The gallery a post names, as [listPostsInGallery] reads it. *)
Definition galleryOwnerOf (authorId : string) (p : Post.t) : string :=
  orElse (Post.galleryOwnerId p) authorId.

(* ------------------------------------------------------------------ *)
(** ** Commands and reachable worlds *)

(** A document without content: no partition holds a gallery or a post, as
    on the first run, before and after the administrator is provisioned. *)
Definition withoutContent (s : State) : Prop :=
  (forall o k, galleryAt s o k = None) /\ (forall a k, postAt s a k = None).

Section Commands.

Variable clock : nat -> string.
Variable randomBytes : nat -> nat -> list ascii.
Variable pbkdf2 : string -> list ascii -> N -> nat -> list ascii.

(** The calls the user interface can issue. *)
Inductive Command : Type :=
| CreateGallery (ownerId : string) (data : GalleryData.t)
| UpdateGallery (ownerId gid : string) (patch : GalleryPatch.t)
| DeleteGallerySoft (ownerId gid : string)
| RestoreGallery (ownerId gid : string)
| PurgeGallery (ownerId gid : string)
| CreatePost (authorId : string) (data : PostData.t)
| UpdatePost (authorId pid : string) (patch : PostPatch.t)
| DeletePostSoft (authorId pid : string)
| RestorePost (authorId pid : string)
| PurgePost (authorId pid : string)
| CreateComment (authorId postId : string) (text : option string)
| UpdateComment (authorId cid : string) (patch : CommentPatch.t)
| DeleteCommentSoft (authorId cid : string)
| Signup (username password : string)
| Login (username password : string) (remember : bool)
| Logout.

Definition exec (c : Command) : M unit :=
  match c with
  | CreateGallery o d => createGallery clock randomBytes o d ;;; ret tt
  | UpdateGallery o g p => updateGallery clock o g p ;;; ret tt
  | DeleteGallerySoft o g => deleteGallerySoft clock o g ;;; ret tt
  | RestoreGallery o g => restoreGallery clock o g ;;; ret tt
  | PurgeGallery o g => purgeGallery o g ;;; ret tt
  | CreatePost a d => createPost clock randomBytes a d ;;; ret tt
  | UpdatePost a k p => updatePost clock a k p ;;; ret tt
  | DeletePostSoft a k => deletePostSoft clock a k ;;; ret tt
  | RestorePost a k => restorePost clock a k ;;; ret tt
  | PurgePost a k => purgePost a k ;;; ret tt
  | CreateComment a k t => createComment clock randomBytes a k t ;;; ret tt
  | UpdateComment a k p => updateComment clock a k p ;;; ret tt
  | DeleteCommentSoft a k => deleteCommentSoft clock a k ;;; ret tt
  | Signup u p => signup clock randomBytes pbkdf2 u p ;;; ret tt
  | Login u p r => login pbkdf2 u p r ;;; ret tt
  | Logout => logout
  end.

(** The identifier the next call of [safeId] returns. *)
Definition nextId (prefix : string) (w : World) : string :=
  fst (safeId randomBytes prefix w).

(** The random identifier a create operation draws is new: no gallery of
    any partition is stored under the next gallery id, no post under the next
    post id. *)
Definition freshFor (w : World) (c : Command) : Prop :=
  match c with
  | CreateGallery _ _ => forall o, galleryAt (state w) o (nextId "g_" w) = None
  | CreatePost _ _ => forall a, postAt (state w) a (nextId "p_" w) = None
  | _ => True
  end.

(** The worlds the application reaches from a document without content,
    whoever is registered or logged in, by commands that draw new
    identifiers. *)
Inductive reachable : World -> Prop :=
| reach_init (w : World) : withoutContent (state w) -> reachable w
| reach_step (w : World) (c : Command) :
    reachable w -> freshFor w c -> reachable (snd (exec c w)).

End Commands.

(** The invariants of the deletion flag. *)
Definition flagImpliesTombstone (s : State) : Prop :=
  forall a k p,
    postAt s a k = Some p -> Post.deletedByGallery p = true ->
    postDeleted p = true.

Definition flaggedUnderTombstone (s : State) : Prop :=
  forall a k p,
    postAt s a k = Some p -> Post.deletedByGallery p = true ->
    exists g, galleryAt s (galleryOwnerOf a p) (Post.galleryId p) = Some g /\
              galleryDeleted g = true.

Definition wellFormed (s : State) : Prop :=
  flagImpliesTombstone s /\ flaggedUnderTombstone s /\
  postsKeyedById s /\ galleriesKeyedById s /\ galleryKeysUnique s.

(* ------------------------------------------------------------------ *)
(** ** A small installation, for the instances of the theorems *)

Module Demo.

Definition clock (n : nat) : string := "2026-01-01T00:00:00.000Z".

Definition randomBytes (i n : nat) : list ascii :=
  repeat (ascii_of_nat (65 + i)) n.

(** A stand-in for the key derivation: any function of password and salt. *)
Definition pbkdf2 (password : string) (salt : list ascii) (iterations : N)
  (bits : nat) : list ascii :=
  list_ascii_of_string password ++ salt.

Definition localeLe (a b : string) : bool := String.leb a b.

Definition t0 : string := "2025-06-01T10:00:00.000Z".

(** Alice owns the gallery "Trip"; Bob posted "Day1" in it, and "Old",
    which he deleted himself; Alice commented on "Day1". *)
Definition gTrip : Gallery.t :=
  Gallery.mk "g1" "Trip" "" "G" "#6EE7FF" false t0 t0 None.

Definition pDay1 : Post.t :=
  Post.mk "p1" (Some "u_alice") "g1" "Day1" "" t0 t0 None false.

Definition pOld : Post.t :=
  Post.mk "p2" (Some "u_alice") "g1" "Old" "" t0 t0 (Some t0) false.

Definition cNice : Comment.t :=
  Comment.mk "c1" "p1" "Nice" t0 t0 None.

Definition partition (gs : Dict.t Gallery.t) (ps : Dict.t Post.t)
  (cs : Dict.t Comment.t) : UserData.t :=
  UserData.mk (Some defaultSettings) (Some gs) (Some ps) (Some cs) (Some []).

Definition sTrip : State :=
  mkState 2
    [("u_alice", User.mk "u_alice" "alice" "" "" t0 "user");
     ("u_bob", User.mk "u_bob" "bob" "" "" t0 "user");
     ("u_admin", User.mk "u_admin" "admin" "" "" t0 "admin")]
    [("alice", "u_alice"); ("bob", "u_bob"); ("admin", "u_admin")]
    [("u_alice", partition [("g1", gTrip)] [] [("c1", cNice)]);
     ("u_bob", partition [] [("p1", pDay1); ("p2", pOld)] []);
     ("u_admin", partition [] [] [])].

Definition session (s : State) (u : option string) : World :=
  mkWorld s u None None [] 0 0.

Definition wAlice : World := session sTrip (Some "u_alice").
Definition wBob : World := session sTrip (Some "u_bob").
Definition wAdmin : World := session sTrip (Some "u_admin").

(** The same installation once the administrator has soft-deleted "Trip". *)
Definition wTrash : World :=
  Eval vm_compute in snd (deleteGallerySoft clock "u_alice" "g1" wAdmin).

(** A first run: nothing stored, nobody logged in. *)
Definition wFresh : World := session emptyState None.

(** Alice signs up, logs in, creates a gallery, posts in it and soft-deletes
    the gallery. *)
Definition run (cs : list (Command)) (w : World) : World :=
  fold_left (fun w c => snd (exec clock randomBytes pbkdf2 c w)) cs w.

Definition aliceId : string :=
  Eval vm_compute in nextId randomBytes "u_" (drawn wFresh).

Definition wStory1 : World :=
  Eval vm_compute in run [Signup "alice" "pw"; Login "alice" "pw" false] wFresh.

Definition storyGid : string :=
  Eval vm_compute in nextId randomBytes "g_" wStory1.

Definition wStory2 : World :=
  Eval vm_compute in
    run [CreateGallery aliceId
           (GalleryData.mk (Some "Trip") None None None false)]
        wStory1.

Definition storyPid : string :=
  Eval vm_compute in nextId randomBytes "p_" wStory2.

Definition wStory3 : World :=
  Eval vm_compute in
    run [CreatePost aliceId (PostData.mk (Some storyGid) (Some aliceId)
                                         (Some "Day1") None)]
        wStory2.

Definition wStory4 : World :=
  Eval vm_compute in run [DeleteGallerySoft aliceId storyGid] wStory3.

End Demo.

(* ------------------------------------------------------------------ *)
(** ** Vocabulary of the further properties *)

(** The two digits [rgbToHex] writes for a byte, and their value. *)
Definition byteDigitsOk (x : Z) : bool :=
  match mapS toUpper (padStart2 (toString16 x)) with
  | String c1 (String c2 EmptyString) =>
      isHexDigit c1 && isHexDigit c2 &&
      Ascii.eqb (toUpper c1) c1 && Ascii.eqb (toUpper c2) c2 &&
      Z.eqb (parseInt16 (String c1 (String c2 EmptyString))) x
  | _ => false
  end.

(** The pattern of [normalizeHex] and [hexToRgb] on a string: an optional
    [#], then six hexadecimal digits, white space around them allowed. *)
Definition hexBody (hex : option string) : option string :=
  let h := trim (orElse hex "") in
  let v := match h with
           | String "#"%char r => r
           | _ => h
           end in
  if Nat.eqb (String.length v) 6 && forallbS isHexDigit v then Some v else None.

(** A colour in the normal form: [#] and six digits among [0-9A-F]. *)
Definition isUpperHex (c : ascii) : bool :=
  isHexDigit c && Ascii.eqb (toUpper c) c.

Definition isHexColor (s : string) : bool :=
  match s with
  | String "#"%char r => Nat.eqb (String.length r) 6 && forallbS isUpperHex r
  | _ => false
  end.

(** The digits [rgbToHex] writes for the value of two hexadecimal digits are
    these digits in upper case. *)
Definition digitPairOk (c1 c2 : ascii) : bool :=
  implb (isHexDigit c1 && isHexDigit c2)
    (String.eqb
       (mapS toUpper
          (padStart2 (toString16 (parseInt16 (String c1 (String c2 EmptyString))))))
       (String (toUpper c1) (String (toUpper c2) EmptyString))).

(** The five characters [escapeHtml] rewrites, and the four that must not
    reach [innerHTML]. *)
Definition isHtmlSpecial (c : ascii) : bool :=
  Ascii.eqb c "&"%char || Ascii.eqb c "<"%char || Ascii.eqb c ">"%char
  || Ascii.eqb c dquote || Ascii.eqb c squote.

Definition isHtmlDelimiter (c : ascii) : bool :=
  Ascii.eqb c "<"%char || Ascii.eqb c ">"%char
  || Ascii.eqb c dquote || Ascii.eqb c squote.

(** The entity of a character. *)
Definition entityOf (c : ascii) : string :=
  if Ascii.eqb c "&"%char then "&amp;"
  else if Ascii.eqb c "<"%char then "&lt;"
  else if Ascii.eqb c ">"%char then "&gt;"
  else if Ascii.eqb c dquote then "&quot;"
  else if Ascii.eqb c squote then "&#39;"
  else String c EmptyString.

Fixpoint flatMapS (f : ascii -> string) (s : string) : string :=
  match s with
  | String c r => String.append (f c) (flatMapS f r)
  | EmptyString => EmptyString
  end.

(** The base64 alphabet, the alphabet of [safeId], and the three
    replacements of [safeId]. *)
Definition isB64 (c : ascii) : bool := isSome (b64val c).

Definition isUrlSafe (c : ascii) : bool :=
  let n := N_of_ascii c in
  (N.leb 65 n && N.leb n 90) || (N.leb 97 n && N.leb n 122)
  || (N.leb 48 n && N.leb n 57) || N.eqb n 45 || N.eqb n 95.

Definition toUrlSafe (s : string) : string :=
  filterS (fun c => negb (Ascii.eqb c "="%char))
    (mapS (fun c => if Ascii.eqb c "/"%char then "_"%char else c)
       (mapS (fun c => if Ascii.eqb c "+"%char then "-"%char else c) s)).

(** The way back from the alphabet of [safeId] to the base64 alphabet. *)
Definition fromUrlSafe (c : ascii) : ascii :=
  if Ascii.eqb c "-"%char then "+"%char
  else if Ascii.eqb c "_"%char then "/"%char else c.

(** A character [atob] neither skips nor decodes. *)
Definition isNotBase64 (c : ascii) : bool :=
  negb (isB64 c || isAsciiWhitespace c || Ascii.eqb c "="%char).

(** [keeps I m]: whatever [m] returns, it leads from a world in [I] to a
    world in [I]. *)
Definition keeps {A : Type} (I : World -> Prop) (m : M A) : Prop :=
  forall w, I w -> I (snd (m w)).

(** What an invariant has to survive, one kind of write each. *)
Definition survivesEnsure (I : World -> Prop) : Prop :=
  forall w o, I w -> I (setState w (ensured (state w) o)).

Definition survivesPutGallery (I : World -> Prop) : Prop :=
  forall w o k g, I w ->
    I (setState w (updated (state w) o (withGalleries (fun m => Dict.set m k g)))).

Definition survivesDelGallery (I : World -> Prop) : Prop :=
  forall w o k, I w ->
    I (setState w (updated (state w) o (withGalleries (fun m => Dict.del m k)))).

Definition survivesPutPost (I : World -> Prop) : Prop :=
  forall w o k p, I w ->
    I (setState w (updated (state w) o (withPosts (fun m => Dict.set m k p)))).

Definition survivesDelPost (I : World -> Prop) : Prop :=
  forall w o k, I w ->
    I (setState w (updated (state w) o (withPosts (fun m => Dict.del m k)))).

Definition survivesPutComment (I : World -> Prop) : Prop :=
  forall w o k c, I w ->
    I (setState w (updated (state w) o (withComments (fun m => Dict.set m k c)))).

Definition survivesDelComment (I : World -> Prop) : Prop :=
  forall w o k, I w ->
    I (setState w (updated (state w) o (withComments (fun m => Dict.del m k)))).

Definition survivesToast (I : World -> Prop) : Prop :=
  forall w t m, I w -> I (toasted w t m).

Definition survivesClock (I : World -> Prop) : Prop :=
  (forall w, I w -> I (ticked w)) /\ (forall w, I w -> I (drawn w)).

Definition survivesSave (I : World -> Prop) : Prop :=
  forall w, I w -> I (saved w).

Definition survivesSession (I : World -> Prop) : Prop :=
  forall w v r, I w ->
    I (mkWorld (state w) v (storedState w) r (toasts w) (ticks w) (draws w)).

Definition survivesAccounts (I : World -> Prop) : Prop :=
  forall w U X, I w ->
    I (setState w (mkState (version (state w)) U X (userData (state w)))).

(** [post I m Q]: from a world in [I], [m] returns a value and leaves a
    world that [Q] relates. *)
Definition post {A : Type} (I : World -> Prop) (m : M A)
  (Q : A -> World -> Prop) : Prop :=
  forall w, I w -> Q (fst (m w)) (snd (m w)).

(** The stored copy is the document in memory. *)
Definition isSaved (w : World) : Prop := storedState w = Some (state w).

(** What a step leaves as it was: the accounts, the session, the records of
    one kind, the stored copy. *)
Definition sameAccounts (w w' : World) : Prop :=
  users (state w') = users (state w) /\
  usernameIndex (state w') = usernameIndex (state w) /\
  version (state w') = version (state w).

Definition sameSession (w w' : World) : Prop :=
  viewState_userId w' = viewState_userId w /\
  rememberedUser w' = rememberedUser w.

Definition sameGalleries (w w' : World) : Prop :=
  forall o k, galleryAt (state w') o k = galleryAt (state w) o k.

Definition samePosts (w w' : World) : Prop :=
  forall a k, postAt (state w') a k = postAt (state w) a k.

Definition sameComments (w w' : World) : Prop :=
  forall a k, commentAt (state w') a k = commentAt (state w) a k.

Definition sameStored (w w' : World) : Prop :=
  storedState w' = storedState w.

(** The stored copy after a call, by its success. *)
Definition storedAfter (w : World) (ok : bool) (w' : World) : Prop :=
  storedState w' = if ok then Some (state w') else storedState w.

(** What exists before a step still exists after it. *)
Definition keptGalleries (w w' : World) : Prop :=
  forall o k, galleryAt (state w) o k <> None ->
              galleryAt (state w') o k <> None.

Definition keptPosts (w w' : World) : Prop :=
  forall a k, postAt (state w) a k <> None -> postAt (state w') a k <> None.

Definition keptComments (w w' : World) : Prop :=
  forall a k, commentAt (state w) a k <> None ->
              commentAt (state w') a k <> None.

Definition keptPartitions (w w' : World) : Prop :=
  forall o, partAt (state w) o <> None -> partAt (state w') o <> None.

(** The outcome of a call on a target that is missing or in the wrong
    state: [false] is returned, no toast is shown, nothing is saved, the
    session, the accounts and every record stay, and the only write is that
    the partition addressed is ensured: it is there afterwards with its
    defaults filled in, from the default partition when it was missing, and
    every other partition is as it was. *)
Definition refusedAt (w : World) (o : string) (res : bool * World) : Prop :=
  let w' := snd res in
  fst res = false /\
  toasts w' = toasts w /\ ticks w' = ticks w /\ draws w' = draws w /\
  sameStored w w' /\ sameSession w w' /\ sameAccounts w w' /\
  sameGalleries w w' /\ samePosts w w' /\ sameComments w w' /\
  (forall o', o' <> o -> partAt (state w') o' = partAt (state w) o') /\
  exists new,
    partAt (state w') o = Some new /\
    defaultsFilled (nullish (partAt (state w) o) defaultUserData) new.

(** The outcome of a create call that is turned down with a toast: nothing
    is returned, the toast is the last one shown, no record is written and
    nothing is saved. *)
Definition rejectedWith {A : Type} (w : World) (title message : string)
  (res : option A * World) : Prop :=
  fst res = None /\
  toasts (snd res) = (toasts w ++ [Toast.mk title message])%list /\
  sameGalleries w (snd res) /\ samePosts w (snd res) /\
  sameComments w (snd res) /\ sameStored w (snd res).

(** The time [computeGalleryMeta] reads off a post:
    [p.updatedAt || p.createdAt]. *)
Definition stampOf (p : Post.t) : string :=
  if truthy (Post.updatedAt p) then Post.updatedAt p else Post.createdAt p.

(** The document once the first step of [ensureAdminAndRemoveDemo] has
    removed the account named "demo". *)
Definition withoutDemo (s : State) : State :=
  match Dict.get (usernameIndex s) "demo" with
  | Some demoId =>
      if truthy demoId
      then mkState (version s) (Dict.del (users s) demoId)
                   (Dict.del (usernameIndex s) "demo")
                   (Dict.del (userData s) demoId)
      else s
  | None => s
  end.

(** A user record with the role replaced. *)
Definition withRole (u : User.t) (role : string) : User.t :=
  User.mk (User.userId u) (User.username u) (User.saltB64 u) (User.hashB64 u)
          (User.createdAt u) role.

(** The comment stored under [(a, k)] is still [c], or it is gone. *)
Definition tombstoneStays (a k : string) (c : Comment.t) (w : World) : Prop :=
  commentAt (state w) a k = Some c \/ commentAt (state w) a k = None.

(** The demo installation once Alice has soft-deleted her comment. *)
Module Tour.

Definition wQuiet : World :=
  Eval vm_compute in
    snd (deleteCommentSoft Demo.clock "u_alice" "c1" Demo.wAlice).

Definition cGone : Comment.t :=
  Comment.mk "c1" "p1" "Nice" Demo.t0 (Demo.clock 1) (Some (Demo.clock 0)).

Definition newGallery : GalleryData.t :=
  GalleryData.mk (Some " Birds ") None None (Some "a1b2c3") false.

Definition newPost : PostData.t :=
  PostData.mk (Some "g1") (Some "u_alice") (Some "Day2") None.

End Tour.

(* ================================================================== *)
(** * Properties *)
(* ================================================================== *)

(* ------------------------------------------------------------------ *)
(** ** Dictionaries *)

Lemma Dict_get_set_eq {V : Type} (m : Dict.t V) (k : string) (v : V) :
  Dict.get (Dict.set m k v) k = Some v.
Proof.
  induction m as [|[k' v'] m IH]; simpl.
  - now rewrite String.eqb_refl.
  - destruct (String.eqb k' k) eqn:E; simpl; rewrite E; auto.
Qed.

Lemma Dict_get_set_ne {V : Type} (m : Dict.t V) (k k' : string) (v : V) :
  k <> k' -> Dict.get (Dict.set m k v) k' = Dict.get m k'.
Proof.
  intros Hne. induction m as [|[k0 v0] m IH]; simpl.
  - destruct (String.eqb k k') eqn:E; auto.
    apply String.eqb_eq in E. contradiction.
  - destruct (String.eqb k0 k) eqn:E; simpl.
    + apply String.eqb_eq in E. subst k0.
      destruct (String.eqb k k') eqn:E'; auto.
      apply String.eqb_eq in E'. contradiction.
    + now rewrite IH.
Qed.

Lemma Dict_get_set {V : Type} (m : Dict.t V) (k k' : string) (v : V) :
  Dict.get (Dict.set m k v) k' =
  if String.eqb k k' then Some v else Dict.get m k'.
Proof.
  destruct (String.eqb k k') eqn:E.
  - apply String.eqb_eq in E. subst. apply Dict_get_set_eq.
  - apply String.eqb_neq in E. now apply Dict_get_set_ne.
Qed.

Lemma Dict_get_del {V : Type} (m : Dict.t V) (k k' : string) :
  Dict.get (Dict.del m k) k' =
  if String.eqb k k' then None else Dict.get m k'.
Proof.
  induction m as [|[k0 v0] m IH]; simpl.
  - now destruct (String.eqb k k').
  - destruct (String.eqb k0 k) eqn:E; simpl.
    + apply String.eqb_eq in E. subst k0. rewrite IH.
      now destruct (String.eqb k k').
    + rewrite IH. destruct (String.eqb k k') eqn:E'; auto.
      apply String.eqb_eq in E'. subst k'. now rewrite E.
Qed.

Lemma Dict_in_del {V : Type} (m : Dict.t V) (k k' : string) (v : V) :
  In (k', v) (Dict.del m k) <-> In (k', v) m /\ k' <> k.
Proof.
  unfold Dict.del. rewrite filter_In. simpl.
  rewrite negb_true_iff, String.eqb_neq. tauto.
Qed.

(** The enumeration of a dictionary is exactly what [get] reads. *)
Lemma Dict_in_entries {V : Type} (m : Dict.t V) (k : string) (v : V) :
  In (k, v) (Dict.entries m) <-> Dict.get m k = Some v.
Proof.
  induction m as [|[k0 v0] m IH]; simpl.
  - split; [tauto | discriminate].
  - rewrite Dict_in_del, IH.
    destruct (String.eqb k0 k) eqn:E.
    + apply String.eqb_eq in E. subst k0. split.
      * intros [H | [_ H]]; [now inversion H | congruence].
      * intros H. left. congruence.
    + apply String.eqb_neq in E. split.
      * intros [H | [H _]]; [inversion H; congruence | exact H].
      * intros H. right. split; [exact H | congruence].
Qed.

Lemma Dict_in_keys {V : Type} (m : Dict.t V) (k : string) :
  In k (Dict.keys m) <-> exists v, Dict.get m k = Some v.
Proof.
  unfold Dict.keys. rewrite in_map_iff. split.
  - intros [[k' v] [Hk Hin]]. simpl in Hk. subst k'.
    exists v. now apply Dict_in_entries.
  - intros [v Hv]. exists (k, v). split; [reflexivity|].
    now apply Dict_in_entries.
Qed.

Lemma Dict_notin_keys {V : Type} (m : Dict.t V) (k : string) :
  ~ In k (Dict.keys m) <-> Dict.get m k = None.
Proof.
  rewrite Dict_in_keys. destruct (Dict.get m k) as [v|].
  - split; [intros H; exfalso; apply H; now exists v | discriminate].
  - split; [reflexivity | intros _ [v Hv]; discriminate].
Qed.

Lemma Dict_keys_del_entries {V : Type} (l : list (string * V)) (k : string) :
  map fst (Dict.del l k) = filter (fun k' => negb (String.eqb k' k)) (map fst l).
Proof.
  unfold Dict.del. induction l as [|[k0 v0] l IH]; simpl; auto.
  destruct (String.eqb k0 k); simpl; congruence.
Qed.

(** Assigning to a property that exists leaves the enumeration order alone. *)
Lemma Dict_keys_set_present {V : Type} (m : Dict.t V) (k : string) (v : V) :
  In k (Dict.keys m) -> Dict.keys (Dict.set m k v) = Dict.keys m.
Proof.
  unfold Dict.keys. induction m as [|[k0 v0] m IH]; simpl; [tauto|].
  intros Hin. destruct (String.eqb k0 k) eqn:E; simpl; [reflexivity|].
  f_equal. rewrite !Dict_keys_del_entries. f_equal. apply IH.
  destruct Hin as [H | H].
  - apply String.eqb_neq in E. contradiction.
  - rewrite Dict_keys_del_entries in H. apply filter_In in H. tauto.
Qed.

(** A new property goes last. *)
Lemma Dict_keys_set_absent {V : Type} (m : Dict.t V) (k : string) (v : V) :
  ~ In k (Dict.keys m) -> Dict.keys (Dict.set m k v) = Dict.keys m ++ [k].
Proof.
  unfold Dict.keys. induction m as [|[k0 v0] m IH]; simpl; [reflexivity|].
  intros Hnin. destruct (String.eqb k0 k) eqn:E; simpl.
  - apply String.eqb_eq in E. tauto.
  - f_equal. rewrite !Dict_keys_del_entries. rewrite IH.
    + rewrite filter_app. simpl. rewrite String.eqb_sym, E. reflexivity.
    + intros H. apply Hnin. right. rewrite Dict_keys_del_entries.
      apply filter_In. split; [exact H|].
      rewrite String.eqb_sym, E. reflexivity.
Qed.

(* ------------------------------------------------------------------ *)
(** ** The monad *)

Lemma run_ret {A : Type} (a b : A) (w w' : World) :
  run (ret a) w b w' <-> b = a /\ w' = w.
Proof.
  unfold run, ret. split.
  - intros H. inversion H. auto.
  - intros [-> ->]. reflexivity.
Qed.

Lemma run_bind {A B : Type} (m : M A) (k : A -> M B) (w w'' : World) (b : B) :
  run (bind m k) w b w'' <->
  exists a w', run m w a w' /\ run (k a) w' b w''.
Proof.
  unfold run, bind. destruct (m w) as [a w'] eqn:E. split.
  - intros H. exists a, w'. auto.
  - intros (a0 & w0 & H1 & H2). inversion H1. subst. exact H2.
Qed.

Lemma run_gets {A : Type} (f : World -> A) (w w' : World) (a : A) :
  run (gets f) w a w' <-> a = f w /\ w' = w.
Proof.
  unfold run, gets. split.
  - intros H. inversion H. auto.
  - intros [-> ->]. reflexivity.
Qed.

Lemma run_modify (f : World -> World) (w w' : World) (u : unit) :
  run (modify f) w u w' <-> w' = f w.
Proof.
  unfold run, modify. destruct u. split.
  - intros H. inversion H. auto.
  - intros ->. reflexivity.
Qed.

Lemma run_total {A : Type} (m : M A) (w : World) :
  run m w (fst (m w)) (snd (m w)).
Proof. unfold run. now destruct (m w). Qed.

Lemma run_fun {A : Type} (m : M A) (w : World) (a a' : A) (w1 w2 : World) :
  run m w a w1 -> run m w a' w2 -> a = a' /\ w1 = w2.
Proof. unfold run. intros H1 H2. rewrite H1 in H2. inversion H2. auto. Qed.

(** A loop keeps whatever each of its rounds keeps. *)
Lemma forEach_inv {A : Type} (P : World -> Prop) (body : A -> M unit)
  (l : list A) :
  (forall a w u w', In a l -> P w -> run (body a) w u w' -> P w') ->
  forall w u w', P w -> run (forEach l body) w u w' -> P w'.
Proof.
  induction l as [|a l IH]; simpl; intros Hb w u w' HP Hr.
  - apply run_ret in Hr. destruct Hr as [_ ->]. exact HP.
  - apply run_bind in Hr. destruct Hr as (u1 & w1 & H1 & H2).
    apply IH with (w := w1) (u := u); [ | | exact H2].
    + intros a0 w0 u0 w0' Hin. apply Hb. now right.
    + apply (Hb a w u1 w1); simpl; auto.
Qed.

Lemma collect_inv {B : Type} (P : World -> Prop) (body : string -> M (list B))
  (l : list string) :
  (forall o w r w', In o l -> P w -> run (body o) w r w' -> P w') ->
  forall w r w', P w -> run (collect l body) w r w' -> P w'.
Proof.
  induction l as [|o l IH]; simpl; intros Hb w r w' HP Hr.
  - apply run_ret in Hr. destruct Hr as [_ ->]. exact HP.
  - apply run_bind in Hr. destruct Hr as (xs & w1 & H1 & H2).
    apply run_bind in H2. destruct H2 as (ys & w2 & H2 & H3).
    apply run_ret in H3. destruct H3 as [_ ->].
    apply IH with (w := w1) (r := ys); [ | | exact H2].
    + intros o0 w0 r0 w0' Hin. apply Hb. now right.
    + apply (Hb o w xs w1); simpl; auto.
Qed.

(* ------------------------------------------------------------------ *)
(** ** Partitions and paths *)

Lemma partAt_set (s : State) (o o' : string) (ud : UserData.t) :
  partAt (with_userData s (Dict.set (userData s) o ud)) o' =
  if String.eqb o o' then Some ud else partAt s o'.
Proof. unfold partAt. simpl. apply Dict_get_set. Qed.

Lemma galleryAt_set (s : State) (o o' k : string) (ud : UserData.t) :
  galleryAt (with_userData s (Dict.set (userData s) o ud)) o' k =
  if String.eqb o o' then Dict.get (galleriesOf ud) k else galleryAt s o' k.
Proof.
  unfold galleryAt. simpl. rewrite Dict_get_set.
  now destruct (String.eqb o o').
Qed.

Lemma postAt_set (s : State) (o o' k : string) (ud : UserData.t) :
  postAt (with_userData s (Dict.set (userData s) o ud)) o' k =
  if String.eqb o o' then Dict.get (postsOf ud) k else postAt s o' k.
Proof.
  unfold postAt. simpl. rewrite Dict_get_set.
  now destruct (String.eqb o o').
Qed.

Lemma commentAt_set (s : State) (o o' k : string) (ud : UserData.t) :
  commentAt (with_userData s (Dict.set (userData s) o ud)) o' k =
  if String.eqb o o' then Dict.get (commentsOf ud) k else commentAt s o' k.
Proof.
  unfold commentAt. simpl. rewrite Dict_get_set.
  now destruct (String.eqb o o').
Qed.

Lemma galleriesOf_normalize (ud : UserData.t) :
  galleriesOf (normalizeUserData ud) = galleriesOf ud.
Proof. reflexivity. Qed.

Lemma postsOf_normalize (ud : UserData.t) :
  postsOf (normalizeUserData ud) = postsOf ud.
Proof. reflexivity. Qed.

Lemma commentsOf_normalize (ud : UserData.t) :
  commentsOf (normalizeUserData ud) = commentsOf ud.
Proof. reflexivity. Qed.

Lemma orElse_idem (o : option string) (d : string) :
  truthy d = true ->
  (if truthy (orElse o d) then orElse o d else d) = orElse o d.
Proof.
  intros Hd. unfold orElse. destruct o as [x|].
  - destruct (truthy x) eqn:E; [now rewrite E | now rewrite Hd].
  - now rewrite Hd.
Qed.

Lemma normalizeUserData_idem (ud : UserData.t) :
  normalized (normalizeUserData ud).
Proof.
  unfold normalized, normalizeUserData, normalizeSettings. simpl.
  now rewrite !orElse_idem.
Qed.

Lemma run_ensureUserData (o : string) (w w' : World) (ud : UserData.t) :
  run (ensureUserData o) w ud w' <->
  ud = normalizeUserData (nullish (partAt (state w) o) defaultUserData) /\
  w' = setState w (ensured (state w) o).
Proof.
  unfold run, ensureUserData, bind, getState, gets, putState, modify, ret.
  simpl. split.
  - intros H. inversion H. auto.
  - intros [-> ->]. reflexivity.
Qed.

Lemma partAt_ensured (s : State) (o o' : string) :
  partAt (ensured s o) o' =
  if String.eqb o o'
  then Some (normalizeUserData (nullish (partAt s o) defaultUserData))
  else partAt s o'.
Proof. apply partAt_set. Qed.

Lemma galleryAt_ensured (s : State) (o o' k : string) :
  galleryAt (ensured s o) o' k = galleryAt s o' k.
Proof.
  unfold ensured. rewrite galleryAt_set.
  destruct (String.eqb o o') eqn:E; auto.
  apply String.eqb_eq in E. subst o'.
  unfold galleryAt, partAt. now destruct (Dict.get (userData s) o).
Qed.

Lemma postAt_ensured (s : State) (o o' k : string) :
  postAt (ensured s o) o' k = postAt s o' k.
Proof.
  unfold ensured. rewrite postAt_set.
  destruct (String.eqb o o') eqn:E; auto.
  apply String.eqb_eq in E. subst o'.
  unfold postAt, partAt. now destruct (Dict.get (userData s) o).
Qed.

Lemma commentAt_ensured (s : State) (o o' k : string) :
  commentAt (ensured s o) o' k = commentAt s o' k.
Proof.
  unfold ensured. rewrite commentAt_set.
  destruct (String.eqb o o') eqn:E; auto.
  apply String.eqb_eq in E. subst o'.
  unfold commentAt, partAt. now destruct (Dict.get (userData s) o).
Qed.

Lemma sameEntities_refl (s : State) : sameEntities s s.
Proof. repeat split. Qed.

Lemma sameEntities_trans (s1 s2 s3 : State) :
  sameEntities s1 s2 -> sameEntities s2 s3 -> sameEntities s1 s3.
Proof.
  intros (A1 & A2 & A3) (B1 & B2 & B3). repeat split; intros; congruence.
Qed.

Lemma sameEntities_ensured (s : State) (o : string) :
  sameEntities s (ensured s o).
Proof.
  repeat split; intros;
    [apply galleryAt_ensured | apply postAt_ensured | apply commentAt_ensured].
Qed.

Lemma sameRegistry_refl (s : State) : sameRegistry s s.
Proof. repeat split; auto. Qed.

Lemma sameRegistry_trans (s1 s2 s3 : State) :
  sameRegistry s1 s2 -> sameRegistry s2 s3 -> sameRegistry s1 s3.
Proof.
  intros (A1 & A2 & A3 & A4) (B1 & B2 & B3 & B4).
  repeat split; try congruence. auto.
Qed.

Lemma sameRegistry_ensured (s : State) (o : string) :
  sameRegistry s (ensured s o).
Proof.
  repeat split; auto. intros o' H. rewrite partAt_ensured.
  destruct (String.eqb o o'); [discriminate | exact H].
Qed.

Lemma keys_ensured_present (s : State) (o : string) :
  partAt s o <> None ->
  Dict.keys (userData (ensured s o)) = Dict.keys (userData s).
Proof.
  intros H. unfold ensured. simpl. apply Dict_keys_set_present.
  apply Dict_in_keys. unfold partAt in H.
  destruct (Dict.get (userData s) o) as [ud|]; [now exists ud | congruence].
Qed.

Lemma keys_ensured_absent (s : State) (o : string) :
  partAt s o = None ->
  Dict.keys (userData (ensured s o)) = Dict.keys (userData s) ++ [o].
Proof.
  intros H. unfold ensured. simpl. apply Dict_keys_set_absent.
  now apply Dict_notin_keys.
Qed.

(* ------------------------------------------------------------------ *)
(** ** The sweep of the listings *)

Lemma setState_setState (w : World) (s s' : State) :
  setState (setState w s) s' = setState w s'.
Proof. reflexivity. Qed.

Lemma setState_state (w : World) : setState w (state w) = w.
Proof. now destruct w. Qed.

Lemma normalizedOn_nil (s : State) : normalizedOn [] s s.
Proof. repeat split; auto. Qed.

Lemma normalizedOn_cons (o : string) (l : list string) (s s' : State) :
  partAt s o <> None ->
  normalizedOn l (ensured s o) s' ->
  normalizedOn (o :: l) s s'.
Proof.
  intros Hp (A1 & A2 & A3 & A4 & A5). repeat split; auto.
  - rewrite A4. now apply keys_ensured_present.
  - intros o'. rewrite A5, partAt_ensured. simpl.
    rewrite (String.eqb_sym o' o).
    destruct (String.eqb o o') eqn:E; simpl.
    + apply String.eqb_eq in E. subst o'.
      destruct (partAt s o) as [ud|] eqn:Eo; [|congruence]. simpl.
      destruct (existsb (String.eqb o) l); simpl; auto.
      f_equal. apply normalizeUserData_idem.
    + reflexivity.
Qed.

Lemma normalizedOn_keys (s s' : State) :
  normalizedOn (Dict.keys (userData s)) s s' -> normalizedAll s s'.
Proof.
  intros (A1 & A2 & A3 & A4 & A5). repeat split; auto.
  intros o. rewrite A5.
  destruct (existsb (String.eqb o) (Dict.keys (userData s))) eqn:E; auto.
  destruct (partAt s o) as [ud|] eqn:Eo; auto.
  assert (In o (Dict.keys (userData s))) as Hin
    by (apply Dict_in_keys; now exists ud).
  assert (existsb (String.eqb o) (Dict.keys (userData s)) = true) as E'
    by (apply existsb_exists; exists o; split; auto; apply String.eqb_refl).
  congruence.
Qed.

Lemma getUserName_setState (o : string) (w : World) (s : State) :
  users s = users (state w) ->
  getUserName o (setState w s) = getUserName o w.
Proof. intros H. unfold getUserName. simpl. now rewrite H. Qed.

Lemma flat_map_agree {A B : Type} (f g : A -> list B) (l : list A) :
  (forall a, In a l -> f a = g a) -> flat_map f l = flat_map g l.
Proof.
  induction l as [|a l IH]; simpl; intros H; auto.
  rewrite H by now left. f_equal. apply IH. intros b Hb. apply H. now right.
Qed.

(** The loop shared by the listings, over any list of existing partitions. *)
Lemma run_listing_loop {B : Type} (F : string -> string -> UserData.t -> list B)
  (l : list string) :
  forall (w w' : World) (r : list B),
  (forall o, In o l -> partAt (state w) o <> None) ->
  run (collect l (fun o =>
         ud <- ensureUserData o ;;
         name <- gets (getUserName o) ;;
         ret (F o name ud))) w r w' ->
  (exists s', w' = setState w s' /\ normalizedOn l (state w) s') /\
  r = flat_map (fun o =>
        F o (getUserName o w)
          (normalizeUserData (nullish (partAt (state w) o) defaultUserData))) l.
Proof.
  induction l as [|o l IH]; simpl; intros w w' r Hp Hr.
  - apply run_ret in Hr. destruct Hr as [-> ->]. split; auto.
    exists (state w). split; [now rewrite setState_state | apply normalizedOn_nil].
  - apply run_bind in Hr. destruct Hr as (xs & w1 & H1 & H2).
    apply run_bind in H2. destruct H2 as (ys & w2 & H2 & H3).
    apply run_ret in H3. destruct H3 as [-> ->].
    apply run_bind in H1. destruct H1 as (ud & wa & Ha & Hb).
    apply run_bind in Hb. destruct Hb as (name & wb & Hb & Hc).
    apply run_ret in Hc. destruct Hc as [-> ->].
    apply run_gets in Hb. destruct Hb as [-> ->].
    apply run_ensureUserData in Ha. destruct Ha as [-> ->].
    assert (partAt (state w) o <> None) as Ho by (apply Hp; now left).
    apply IH in H2.
    + destruct H2 as [(s' & -> & Hn) ->]. simpl in Hn. split.
      * exists s'. split; [reflexivity|]. now apply normalizedOn_cons.
      * rewrite getUserName_setState by reflexivity. f_equal.
        apply flat_map_agree. intros o' Hin. simpl.
        rewrite getUserName_setState by reflexivity. f_equal.
        rewrite partAt_ensured.
        destruct (String.eqb o o') eqn:E; auto.
        apply String.eqb_eq in E. subst o'. simpl.
        apply normalizeUserData_idem.
    + intros o' Hin. simpl. rewrite partAt_ensured.
      destruct (String.eqb o o'); [discriminate | apply Hp; now right].
Qed.

(* ------------------------------------------------------------------ *)
(** ** Writes through a partition *)

Lemma run_updPartition (o : string) (f : UserData.t -> UserData.t)
  (w w' : World) (u : unit) :
  run (updPartition o f) w u w' <-> w' = setState w (updated (state w) o f).
Proof.
  unfold run, updPartition, updated, partAt, bind, getState, gets. simpl.
  destruct (Dict.get (userData (state w)) o) as [ud|]; destruct u.
  - unfold putState, modify. split.
    + intros H. inversion H. reflexivity.
    + intros ->. reflexivity.
  - unfold ret. rewrite setState_state. split.
    + intros H. inversion H. reflexivity.
    + intros ->. reflexivity.
Qed.

Lemma partAt_updated (s : State) (o o' : string) (f : UserData.t -> UserData.t) :
  partAt (updated s o f) o' =
  if String.eqb o o' then option_map f (partAt s o) else partAt s o'.
Proof.
  unfold updated. destruct (partAt s o) as [ud|] eqn:E.
  - apply partAt_set.
  - destruct (String.eqb o o') eqn:E'; auto.
    apply String.eqb_eq in E'. subst o'. exact E.
Qed.

Lemma galleryAt_updated (s : State) (o o' k : string)
  (f : UserData.t -> UserData.t) :
  galleryAt (updated s o f) o' k =
  if String.eqb o o'
  then match partAt s o with
       | Some ud => Dict.get (galleriesOf (f ud)) k
       | None => None
       end
  else galleryAt s o' k.
Proof.
  unfold updated. destruct (partAt s o) as [ud|] eqn:E.
  - apply galleryAt_set.
  - destruct (String.eqb o o') eqn:E'; auto.
    apply String.eqb_eq in E'. subst o'.
    unfold galleryAt. unfold partAt in E. now rewrite E.
Qed.

Lemma postAt_updated (s : State) (o o' k : string)
  (f : UserData.t -> UserData.t) :
  postAt (updated s o f) o' k =
  if String.eqb o o'
  then match partAt s o with
       | Some ud => Dict.get (postsOf (f ud)) k
       | None => None
       end
  else postAt s o' k.
Proof.
  unfold updated. destruct (partAt s o) as [ud|] eqn:E.
  - apply postAt_set.
  - destruct (String.eqb o o') eqn:E'; auto.
    apply String.eqb_eq in E'. subst o'.
    unfold postAt. unfold partAt in E. now rewrite E.
Qed.

Lemma commentAt_updated (s : State) (o o' k : string)
  (f : UserData.t -> UserData.t) :
  commentAt (updated s o f) o' k =
  if String.eqb o o'
  then match partAt s o with
       | Some ud => Dict.get (commentsOf (f ud)) k
       | None => None
       end
  else commentAt s o' k.
Proof.
  unfold updated. destruct (partAt s o) as [ud|] eqn:E.
  - apply commentAt_set.
  - destruct (String.eqb o o') eqn:E'; auto.
    apply String.eqb_eq in E'. subst o'.
    unfold commentAt. unfold partAt in E. now rewrite E.
Qed.

Lemma sameRegistry_updated (s : State) (o : string)
  (f : UserData.t -> UserData.t) :
  sameRegistry s (updated s o f).
Proof.
  unfold updated. destruct (partAt s o) as [ud|] eqn:E.
  - repeat split; auto. intros o' H. rewrite partAt_set.
    destruct (String.eqb o o'); [discriminate | exact H].
  - apply sameRegistry_refl.
Qed.

Lemma keys_updated (s : State) (o : string) (f : UserData.t -> UserData.t) :
  Dict.keys (userData (updated s o f)) = Dict.keys (userData s).
Proof.
  unfold updated. destruct (partAt s o) as [ud|] eqn:E; auto.
  simpl. apply Dict_keys_set_present. apply Dict_in_keys. now exists ud.
Qed.

(** Reading a path of one kind after a write to a path of any kind. *)
Lemma galleryAt_withGalleries (s : State) (o o' k : string)
  (f : Dict.t Gallery.t -> Dict.t Gallery.t) :
  galleryAt (updated s o (withGalleries f)) o' k =
  if String.eqb o o'
  then match partAt s o with
       | Some ud => Dict.get (f (galleriesOf ud)) k
       | None => None
       end
  else galleryAt s o' k.
Proof. apply galleryAt_updated. Qed.

Lemma galleryAt_withPosts (s : State) (o o' k : string)
  (f : Dict.t Post.t -> Dict.t Post.t) :
  galleryAt (updated s o (withPosts f)) o' k = galleryAt s o' k.
Proof.
  rewrite galleryAt_updated. destruct (String.eqb o o') eqn:E; auto.
  apply String.eqb_eq in E. subst o'. unfold galleryAt, partAt.
  now destruct (Dict.get (userData s) o).
Qed.

Lemma galleryAt_withComments (s : State) (o o' k : string)
  (f : Dict.t Comment.t -> Dict.t Comment.t) :
  galleryAt (updated s o (withComments f)) o' k = galleryAt s o' k.
Proof.
  rewrite galleryAt_updated. destruct (String.eqb o o') eqn:E; auto.
  apply String.eqb_eq in E. subst o'. unfold galleryAt, partAt.
  now destruct (Dict.get (userData s) o).
Qed.

Lemma postAt_withPosts (s : State) (o o' k : string)
  (f : Dict.t Post.t -> Dict.t Post.t) :
  postAt (updated s o (withPosts f)) o' k =
  if String.eqb o o'
  then match partAt s o with
       | Some ud => Dict.get (f (postsOf ud)) k
       | None => None
       end
  else postAt s o' k.
Proof. apply postAt_updated. Qed.

Lemma postAt_withGalleries (s : State) (o o' k : string)
  (f : Dict.t Gallery.t -> Dict.t Gallery.t) :
  postAt (updated s o (withGalleries f)) o' k = postAt s o' k.
Proof.
  rewrite postAt_updated. destruct (String.eqb o o') eqn:E; auto.
  apply String.eqb_eq in E. subst o'. unfold postAt, partAt.
  now destruct (Dict.get (userData s) o).
Qed.

Lemma postAt_withComments (s : State) (o o' k : string)
  (f : Dict.t Comment.t -> Dict.t Comment.t) :
  postAt (updated s o (withComments f)) o' k = postAt s o' k.
Proof.
  rewrite postAt_updated. destruct (String.eqb o o') eqn:E; auto.
  apply String.eqb_eq in E. subst o'. unfold postAt, partAt.
  now destruct (Dict.get (userData s) o).
Qed.

Lemma commentAt_withComments (s : State) (o o' k : string)
  (f : Dict.t Comment.t -> Dict.t Comment.t) :
  commentAt (updated s o (withComments f)) o' k =
  if String.eqb o o'
  then match partAt s o with
       | Some ud => Dict.get (f (commentsOf ud)) k
       | None => None
       end
  else commentAt s o' k.
Proof. apply commentAt_updated. Qed.

Lemma commentAt_withGalleries (s : State) (o o' k : string)
  (f : Dict.t Gallery.t -> Dict.t Gallery.t) :
  commentAt (updated s o (withGalleries f)) o' k = commentAt s o' k.
Proof.
  rewrite commentAt_updated. destruct (String.eqb o o') eqn:E; auto.
  apply String.eqb_eq in E. subst o'. unfold commentAt, partAt.
  now destruct (Dict.get (userData s) o).
Qed.

Lemma commentAt_withPosts (s : State) (o o' k : string)
  (f : Dict.t Post.t -> Dict.t Post.t) :
  commentAt (updated s o (withPosts f)) o' k = commentAt s o' k.
Proof.
  rewrite commentAt_updated. destruct (String.eqb o o') eqn:E; auto.
  apply String.eqb_eq in E. subst o'. unfold commentAt, partAt.
  now destruct (Dict.get (userData s) o).
Qed.

(** Writing one post. *)
Lemma postAt_putPost (s : State) (o k o' k' : string) (p : Post.t) :
  partAt s o <> None ->
  postAt (updated s o (withPosts (fun m => Dict.set m k p))) o' k' =
  if String.eqb o o' && String.eqb k k' then Some p else postAt s o' k'.
Proof.
  intros H. rewrite postAt_withPosts.
  destruct (String.eqb o o') eqn:E; simpl; auto.
  apply String.eqb_eq in E. subst o'.
  destruct (partAt s o) as [ud|] eqn:Eo; [|congruence].
  rewrite Dict_get_set. destruct (String.eqb k k'); auto.
  unfold postAt. unfold partAt in Eo. now rewrite Eo.
Qed.

Lemma postAt_delPost (s : State) (o k o' k' : string) :
  postAt (updated s o (withPosts (fun m => Dict.del m k))) o' k' =
  if String.eqb o o' && String.eqb k k' then None else postAt s o' k'.
Proof.
  rewrite postAt_withPosts.
  destruct (String.eqb o o') eqn:E; simpl; auto.
  apply String.eqb_eq in E. subst o'.
  unfold postAt, partAt. destruct (Dict.get (userData s) o) as [ud|].
  - apply Dict_get_del.
  - now destruct (String.eqb k k').
Qed.

Lemma galleryAt_putGallery (s : State) (o k o' k' : string) (g : Gallery.t) :
  partAt s o <> None ->
  galleryAt (updated s o (withGalleries (fun m => Dict.set m k g))) o' k' =
  if String.eqb o o' && String.eqb k k' then Some g else galleryAt s o' k'.
Proof.
  intros H. rewrite galleryAt_withGalleries.
  destruct (String.eqb o o') eqn:E; simpl; auto.
  apply String.eqb_eq in E. subst o'.
  destruct (partAt s o) as [ud|] eqn:Eo; [|congruence].
  rewrite Dict_get_set. destruct (String.eqb k k'); auto.
  unfold galleryAt. unfold partAt in Eo. now rewrite Eo.
Qed.

Lemma galleryAt_delGallery (s : State) (o k o' k' : string) :
  galleryAt (updated s o (withGalleries (fun m => Dict.del m k))) o' k' =
  if String.eqb o o' && String.eqb k k' then None else galleryAt s o' k'.
Proof.
  rewrite galleryAt_withGalleries.
  destruct (String.eqb o o') eqn:E; simpl; auto.
  apply String.eqb_eq in E. subst o'.
  unfold galleryAt, partAt. destruct (Dict.get (userData s) o) as [ud|].
  - apply Dict_get_del.
  - now destruct (String.eqb k k').
Qed.

Lemma commentAt_putComment (s : State) (o k o' k' : string) (c : Comment.t) :
  partAt s o <> None ->
  commentAt (updated s o (withComments (fun m => Dict.set m k c))) o' k' =
  if String.eqb o o' && String.eqb k k' then Some c else commentAt s o' k'.
Proof.
  intros H. rewrite commentAt_withComments.
  destruct (String.eqb o o') eqn:E; simpl; auto.
  apply String.eqb_eq in E. subst o'.
  destruct (partAt s o) as [ud|] eqn:Eo; [|congruence].
  rewrite Dict_get_set. destruct (String.eqb k k'); auto.
  unfold commentAt. unfold partAt in Eo. now rewrite Eo.
Qed.

Lemma commentAt_delComment (s : State) (o k o' k' : string) :
  commentAt (updated s o (withComments (fun m => Dict.del m k))) o' k' =
  if String.eqb o o' && String.eqb k k' then None else commentAt s o' k'.
Proof.
  rewrite commentAt_withComments.
  destruct (String.eqb o o') eqn:E; simpl; auto.
  apply String.eqb_eq in E. subst o'.
  unfold commentAt, partAt. destruct (Dict.get (userData s) o) as [ud|].
  - apply Dict_get_del.
  - now destruct (String.eqb k k').
Qed.

Lemma postAt_present (s : State) (o k : string) (p : Post.t) :
  postAt s o k = Some p -> partAt s o <> None.
Proof.
  unfold postAt, partAt. destruct (Dict.get (userData s) o); congruence.
Qed.

Lemma galleryAt_present (s : State) (o k : string) (g : Gallery.t) :
  galleryAt s o k = Some g -> partAt s o <> None.
Proof.
  unfold galleryAt, partAt. destruct (Dict.get (userData s) o); congruence.
Qed.

Lemma commentAt_present (s : State) (o k : string) (c : Comment.t) :
  commentAt s o k = Some c -> partAt s o <> None.
Proof.
  unfold commentAt, partAt. destruct (Dict.get (userData s) o); congruence.
Qed.

(* ------------------------------------------------------------------ *)
(** ** The listings *)

Lemma normalizedAll_sameEntities (s s' : State) :
  normalizedAll s s' -> sameEntities s s'.
Proof.
  intros (_ & _ & _ & _ & H).
  repeat split; intros o k;
    unfold galleryAt, postAt, commentAt;
    specialize (H o); unfold partAt in H; rewrite H;
    now destruct (Dict.get (userData s) o).
Qed.

Lemma normalizedAll_sameRegistry (s s' : State) :
  normalizedAll s s' -> sameRegistry s s'.
Proof.
  intros (A1 & A2 & A3 & _ & H). repeat split; auto.
  intros o Ho. rewrite H. destruct (partAt s o); [discriminate | congruence].
Qed.

Lemma in_entriesOf {E : Type} (a name : string) (keep : E -> bool)
  (m : Dict.t E) (e : Entry.t E) :
  In e (entriesOf a name keep m) <->
  Entry.ownerId e = a /\ Entry.ownerName e = name /\
  Dict.get m (Entry.key e) = Some (Entry.item e) /\
  keep (Entry.item e) = true.
Proof.
  unfold entriesOf. rewrite in_map_iff. split.
  - intros ([k v] & He & Hin). apply filter_In in Hin. destruct Hin as [Hin Hk].
    apply Dict_in_entries in Hin. subst e. simpl in *. auto.
  - intros (H1 & H2 & H3 & H4). exists (Entry.key e, Entry.item e). split.
    + destruct e. simpl in *. now subst.
    + apply filter_In. split; [now apply Dict_in_entries | exact H4].
Qed.

Lemma run_listPostsInGallery (go gid : string) (incl : bool)
  (w w' : World) (L : list (Entry.t Post.t)) :
  run (listPostsInGallery go gid incl) w L w' ->
  (exists s', w' = setState w s' /\ normalizedAll (state w) s') /\
  forall e, In e L <->
    postAt (state w) (Entry.ownerId e) (Entry.key e) = Some (Entry.item e) /\
    postInGallery (Entry.ownerId e) go gid (Entry.item e) = true /\
    (incl = false -> postDeleted (Entry.item e) = false) /\
    Entry.ownerName e = getUserName (Entry.ownerId e) w.
Proof.
  unfold listPostsInGallery. intros Hr.
  apply run_bind in Hr. destruct Hr as (s & w0 & H0 & Hr).
  apply run_gets in H0. destruct H0 as [-> ->].
  apply (run_listing_loop
           (fun authorId name ud =>
              entriesOf authorId name
                (fun p => postInGallery authorId go gid p
                          && negb (negb incl && truthyO (Post.deletedAt p)))
                (postsOf ud))) in Hr.
  - destruct Hr as [(s' & -> & Hn) ->]. split.
    + exists s'. split; auto. now apply normalizedOn_keys.
    + intros e. rewrite in_flat_map. split.
      * intros (a & Ha & He). apply in_entriesOf in He.
        destruct He as (E1 & E2 & E3 & E4).
        apply Dict_in_keys in Ha. destruct Ha as [ud Hud].
        unfold partAt in E3. rewrite Hud in E3. simpl in E3.
        apply andb_true_iff in E4. destruct E4 as [E4 E5].
        subst a. repeat split; auto.
        -- unfold postAt. now rewrite Hud.
        -- intros ->. simpl in E5. unfold postDeleted.
           now apply negb_true_iff in E5.
      * intros (E1 & E2 & E3 & E4).
        pose proof (postAt_present _ _ _ _ E1) as Hp.
        unfold partAt in Hp.
        destruct (Dict.get (userData (state w)) (Entry.ownerId e)) as [ud|] eqn:Hud;
          [|congruence].
        exists (Entry.ownerId e). split; [apply Dict_in_keys; now exists ud|].
        apply in_entriesOf. repeat split; auto.
        -- unfold partAt. rewrite Hud. simpl.
           unfold postAt in E1. now rewrite Hud in E1.
        -- rewrite E2. simpl. destruct incl; simpl; auto.
           unfold postDeleted in E3. now rewrite E3.
  - intros o Ho. apply Dict_in_keys in Ho. destruct Ho as [ud Hud].
    unfold partAt. congruence.
Qed.

Lemma run_listAllGalleryEntries (incl : bool)
  (w w' : World) (L : list (Entry.t Gallery.t)) :
  run (listAllGalleryEntries incl) w L w' ->
  (exists s', w' = setState w s' /\ normalizedAll (state w) s') /\
  forall e, In e L <->
    galleryAt (state w) (Entry.ownerId e) (Entry.key e) = Some (Entry.item e) /\
    (incl = false -> galleryDeleted (Entry.item e) = false) /\
    Entry.ownerName e = getUserName (Entry.ownerId e) w.
Proof.
  unfold listAllGalleryEntries. intros Hr.
  apply run_bind in Hr. destruct Hr as (s & w0 & H0 & Hr).
  apply run_gets in H0. destruct H0 as [-> ->].
  apply (run_listing_loop
           (fun ownerId name ud =>
              entriesOf ownerId name
                (fun g => negb (negb incl && truthyO (Gallery.deletedAt g)))
                (galleriesOf ud))) in Hr.
  - destruct Hr as [(s' & -> & Hn) ->]. split.
    + exists s'. split; auto. now apply normalizedOn_keys.
    + intros e. rewrite in_flat_map. split.
      * intros (a & Ha & He). apply in_entriesOf in He.
        destruct He as (E1 & E2 & E3 & E4).
        apply Dict_in_keys in Ha. destruct Ha as [ud Hud].
        unfold partAt in E3. rewrite Hud in E3. simpl in E3.
        subst a. repeat split; auto.
        -- unfold galleryAt. now rewrite Hud.
        -- intros ->. simpl in E4. unfold galleryDeleted.
           now apply negb_true_iff in E4.
      * intros (E1 & E2 & E3).
        pose proof (galleryAt_present _ _ _ _ E1) as Hp.
        unfold partAt in Hp.
        destruct (Dict.get (userData (state w)) (Entry.ownerId e)) as [ud|] eqn:Hud;
          [|congruence].
        exists (Entry.ownerId e). split; [apply Dict_in_keys; now exists ud|].
        apply in_entriesOf. repeat split; auto.
        -- unfold partAt. rewrite Hud. simpl.
           unfold galleryAt in E1. now rewrite Hud in E1.
        -- destruct incl; simpl; auto.
           unfold galleryDeleted in E2. now rewrite E2.
  - intros o Ho. apply Dict_in_keys in Ho. destruct Ho as [ud Hud].
    unfold partAt. congruence.
Qed.

(* ------------------------------------------------------------------ *)
(** ** The cascades of the gallery lifecycle *)

Lemma postsOnly_refl (w : World) : postsOnly w w.
Proof.
  unfold postsOnly. split; [reflexivity|].
  split; [apply sameRegistry_refl|]. auto.
Qed.

Lemma postsOnly_trans (w1 w2 w3 : World) :
  postsOnly w1 w2 -> postsOnly w2 w3 -> postsOnly w1 w3.
Proof.
  intros (A1 & A2 & A3 & A4 & A5) (B1 & B2 & B3 & B4 & B5).
  split; [congruence|]. split; [eapply sameRegistry_trans; eauto|].
  split; [congruence|]. split; intros.
  - now rewrite B4, A4.
  - now rewrite B5, A5.
Qed.

Lemma postsOnly_putPost (w : World) (o k : string) (p : Post.t) :
  postsOnly w
    (setState w (updated (state w) o (withPosts (fun m => Dict.set m k p)))).
Proof.
  unfold postsOnly. simpl. split; [reflexivity|].
  split; [apply sameRegistry_updated|]. split; [apply keys_updated|].
  split; intros; [apply galleryAt_withPosts | apply commentAt_withPosts].
Qed.

Lemma postsOnly_ticked (w : World) : postsOnly w (ticked w).
Proof.
  unfold postsOnly. simpl. split; [reflexivity|].
  split; [apply sameRegistry_refl|]. auto.
Qed.

Section Facts.

Variable clock : nat -> string.
Variable randomBytes : nat -> nat -> list ascii.
Variable pbkdf2 : string -> list ascii -> N -> nat -> list ascii.
Variable localeLe : string -> string -> bool.

(** [toISOString] never returns the empty string. *)
Hypothesis clock_truthy : forall n, truthy (clock n) = true.

Set Default Proof Using "Type".

Lemma run_nowISO (w w' : World) (t : string) :
  run (nowISO clock) w t w' <-> t = clock (ticks w) /\ w' = ticked w.
Proof.
  unfold run, nowISO, ticked. split.
  - intros H. inversion H. auto.
  - intros [-> ->]. reflexivity.
Qed.

Lemma postDeleted_tombstoned (p : Post.t) (n m : nat) :
  postDeleted (tombstoned p (clock n) (clock m)) = true.
Proof using clock_truthy. unfold postDeleted. simpl. apply clock_truthy. Qed.

Lemma postDeleted_restored (p : Post.t) (t : string) :
  postDeleted (restored p t) = false.
Proof. reflexivity. Qed.

(** One round of the loop of [deleteGallerySoft]. *)
Lemma run_tombstoneByGallery (e : Entry.t Post.t) (w w' : World) (u : unit) :
  run (tombstoneByGallery clock e) w u w' ->
  postsOnly w w' /\
  forall a k,
    postAt (state w') a k =
    match postAt (state w) a k with
    | Some p =>
        if (String.eqb (Entry.ownerId e) a && String.eqb (Entry.key e) k)
           && negb (postDeleted p)
        then Some (tombstoned p (clock (ticks w)) (clock (S (ticks w))))
        else Some p
    | None => None
    end.
Proof.
  unfold tombstoneByGallery. intros Hr.
  apply run_bind in Hr. destruct Hr as (s & w0 & H0 & Hr).
  apply run_gets in H0. destruct H0 as [-> ->].
  destruct (postAt (state w) (Entry.ownerId e) (Entry.key e)) as [p|] eqn:Ep.
  - fold (postDeleted p) in Hr. destruct (postDeleted p) eqn:Ed; simpl in Hr.
    + apply run_ret in Hr. destruct Hr as [_ ->]. split; [apply postsOnly_refl|].
      intros a k. destruct (postAt (state w) a k) as [q|] eqn:Eq; auto.
      destruct (String.eqb (Entry.ownerId e) a && String.eqb (Entry.key e) k) eqn:E;
        simpl; auto.
      apply andb_true_iff in E. destruct E as [E1 E2].
      apply String.eqb_eq in E1, E2. subst a k.
      assert (q = p) by congruence. subst q. now rewrite Ed.
    + apply run_bind in Hr. destruct Hr as (t1 & w1 & H1 & Hr).
      apply run_nowISO in H1. destruct H1 as [-> ->].
      apply run_bind in Hr. destruct Hr as (t2 & w2 & H2 & Hr).
      apply run_nowISO in H2. destruct H2 as [-> ->].
      apply run_updPartition in Hr. subst w'. split.
      * apply postsOnly_trans with (w2 := ticked (ticked w));
          [|apply postsOnly_putPost].
        apply postsOnly_trans with (w2 := ticked w); apply postsOnly_ticked.
      * simpl. intros a k. rewrite postAt_putPost by (eapply postAt_present; eauto).
        destruct (String.eqb (Entry.ownerId e) a && String.eqb (Entry.key e) k) eqn:E;
          simpl.
        -- apply andb_true_iff in E. destruct E as [E1 E2].
           apply String.eqb_eq in E1, E2. subst a k. now rewrite Ep, Ed.
        -- now destruct (postAt (state w) a k).
  - apply run_ret in Hr. destruct Hr as [_ ->]. split; [apply postsOnly_refl|].
    intros a k. destruct (postAt (state w) a k) as [q|] eqn:Eq; auto.
    destruct (String.eqb (Entry.ownerId e) a && String.eqb (Entry.key e) k) eqn:E;
      simpl; auto.
    apply andb_true_iff in E. destruct E as [E1 E2].
    apply String.eqb_eq in E1, E2. subst a k. congruence.
Qed.

(** The whole loop of [deleteGallerySoft]. *)
Lemma run_tombstone_loop (L : list (Entry.t Post.t)) :
  forall (w w' : World) (u : unit),
  run (forEach L (tombstoneByGallery clock)) w u w' ->
  postsOnly w w' /\
  forall a k,
    tombstoneRel clock (listedAt a k L)
                 (postAt (state w) a k) (postAt (state w') a k).
Proof using clock_truthy.
  induction L as [|e L IH]; simpl; intros w w' u Hr.
  - apply run_ret in Hr. destruct Hr as [_ ->]. split; [apply postsOnly_refl|].
    intros a k. unfold tombstoneRel. simpl.
    now destruct (postAt (state w) a k).
  - apply run_bind in Hr. destruct Hr as (u1 & w1 & H1 & H2).
    apply run_tombstoneByGallery in H1. destruct H1 as [F1 P1].
    apply IH in H2. destruct H2 as [F2 P2].
    split; [eapply postsOnly_trans; eauto|].
    intros a k. specialize (P1 a k). specialize (P2 a k).
    unfold tombstoneRel in *.
    destruct (postAt (state w) a k) as [p|] eqn:Ep.
    + destruct (postDeleted p) eqn:Ed; simpl negb in *.
      * rewrite andb_false_r in P1. rewrite P1 in P2.
        rewrite Ed in P2. simpl negb in P2. rewrite andb_false_r in P2.
        now rewrite andb_false_r.
      * rewrite andb_true_r in P1. rewrite andb_true_r.
        destruct (String.eqb (Entry.ownerId e) a && String.eqb (Entry.key e) k) eqn:E;
          simpl orb.
        -- rewrite P1 in P2. rewrite postDeleted_tombstoned in P2.
           simpl negb in P2. rewrite andb_false_r in P2. simpl. eauto.
        -- rewrite P1 in P2. rewrite Ed in P2. simpl negb in P2.
           rewrite andb_true_r in P2. simpl. exact P2.
    + rewrite P1 in P2. exact P2.
Qed.

(** One round of the loop of [restoreGallery]. *)
Lemma run_restoreByGallery (e : Entry.t Post.t) (w w' : World) (u : unit) :
  run (restoreByGallery clock e) w u w' ->
  postsOnly w w' /\
  forall a k,
    postAt (state w') a k =
    match postAt (state w) a k with
    | Some p =>
        if (String.eqb (Entry.ownerId e) a && String.eqb (Entry.key e) k)
           && (postDeleted p && Post.deletedByGallery p)
        then Some (restored p (clock (ticks w)))
        else Some p
    | None => None
    end.
Proof.
  unfold restoreByGallery. intros Hr.
  apply run_bind in Hr. destruct Hr as (s & w0 & H0 & Hr).
  apply run_gets in H0. destruct H0 as [-> ->].
  destruct (postAt (state w) (Entry.ownerId e) (Entry.key e)) as [p|] eqn:Ep.
  - fold (postDeleted p) in Hr.
    destruct (postDeleted p && Post.deletedByGallery p) eqn:Ed.
    + apply run_bind in Hr. destruct Hr as (t1 & w1 & H1 & Hr).
      apply run_nowISO in H1. destruct H1 as [-> ->].
      apply run_updPartition in Hr. subst w'. split.
      * apply postsOnly_trans with (w2 := ticked w);
          [apply postsOnly_ticked | apply postsOnly_putPost].
      * simpl. intros a k. rewrite postAt_putPost by (eapply postAt_present; eauto).
        destruct (String.eqb (Entry.ownerId e) a && String.eqb (Entry.key e) k) eqn:E;
          simpl.
        -- apply andb_true_iff in E. destruct E as [E1 E2].
           apply String.eqb_eq in E1, E2. subst a k. now rewrite Ep, Ed.
        -- now destruct (postAt (state w) a k).
    + apply run_ret in Hr. destruct Hr as [_ ->]. split; [apply postsOnly_refl|].
      intros a k. destruct (postAt (state w) a k) as [q|] eqn:Eq; auto.
      destruct (String.eqb (Entry.ownerId e) a && String.eqb (Entry.key e) k) eqn:E;
        simpl; auto.
      apply andb_true_iff in E. destruct E as [E1 E2].
      apply String.eqb_eq in E1, E2. subst a k.
      assert (q = p) by congruence. subst q. now rewrite Ed.
  - apply run_ret in Hr. destruct Hr as [_ ->]. split; [apply postsOnly_refl|].
    intros a k. destruct (postAt (state w) a k) as [q|] eqn:Eq; auto.
    destruct (String.eqb (Entry.ownerId e) a && String.eqb (Entry.key e) k) eqn:E;
      simpl; auto.
    apply andb_true_iff in E. destruct E as [E1 E2].
    apply String.eqb_eq in E1, E2. subst a k. congruence.
Qed.

(** The whole loop of [restoreGallery]. *)
Lemma run_restore_loop (L : list (Entry.t Post.t)) :
  forall (w w' : World) (u : unit),
  run (forEach L (restoreByGallery clock)) w u w' ->
  postsOnly w w' /\
  forall a k,
    restoreRel clock (listedAt a k L)
               (postAt (state w) a k) (postAt (state w') a k).
Proof.
  induction L as [|e L IH]; simpl; intros w w' u Hr.
  - apply run_ret in Hr. destruct Hr as [_ ->]. split; [apply postsOnly_refl|].
    intros a k. unfold restoreRel. simpl.
    now destruct (postAt (state w) a k).
  - apply run_bind in Hr. destruct Hr as (u1 & w1 & H1 & H2).
    apply run_restoreByGallery in H1. destruct H1 as [F1 P1].
    apply IH in H2. destruct H2 as [F2 P2].
    split; [eapply postsOnly_trans; eauto|].
    intros a k. specialize (P1 a k). specialize (P2 a k).
    unfold restoreRel in *.
    destruct (postAt (state w) a k) as [p|] eqn:Ep.
    + destruct (postDeleted p && Post.deletedByGallery p) eqn:Ed.
      * rewrite andb_true_r in P1. rewrite andb_true_r.
        destruct (String.eqb (Entry.ownerId e) a && String.eqb (Entry.key e) k) eqn:E;
          simpl orb.
        -- rewrite P1 in P2. rewrite postDeleted_restored in P2.
           simpl andb in P2. rewrite andb_false_r in P2. simpl. eauto.
        -- rewrite P1 in P2. rewrite Ed in P2.
           rewrite andb_true_r in P2. simpl. exact P2.
      * rewrite andb_false_r in P1. rewrite P1 in P2.
        rewrite Ed in P2. rewrite andb_false_r in P2.
        now rewrite andb_false_r.
    + rewrite P1 in P2. exact P2.
Qed.


Lemma run_toast (t m : string) (w w' : World) (u : unit) :
  run (toast t m) w u w' <-> w' = toasted w t m.
Proof. unfold toast. apply run_modify. Qed.

Lemma run_saveState (w w' : World) (u : unit) :
  run saveState w u w' <-> w' = saved w.
Proof. unfold saveState. apply run_modify. Qed.

Lemma run_getState (w w' : World) (s : State) :
  run getState w s w' <-> s = state w /\ w' = w.
Proof. unfold getState. apply run_gets. Qed.

Lemma get_galleries_ensure (s : State) (o k : string) :
  Dict.get (galleriesOf (normalizeUserData (nullish (partAt s o) defaultUserData))) k
  = galleryAt s o k.
Proof.
  unfold galleryAt, partAt. now destruct (Dict.get (userData s) o).
Qed.

Lemma get_posts_ensure (s : State) (o k : string) :
  Dict.get (postsOf (normalizeUserData (nullish (partAt s o) defaultUserData))) k
  = postAt s o k.
Proof.
  unfold postAt, partAt. now destruct (Dict.get (userData s) o).
Qed.

Lemma get_comments_ensure (s : State) (o k : string) :
  Dict.get (commentsOf (normalizeUserData (nullish (partAt s o) defaultUserData))) k
  = commentAt s o k.
Proof.
  unfold commentAt, partAt. now destruct (Dict.get (userData s) o).
Qed.

Lemma partAt_ensured_self (s : State) (o : string) :
  partAt (ensured s o) o <> None.
Proof. rewrite partAt_ensured, String.eqb_refl. discriminate. Qed.

Lemma listedAt_true {E : Type} (a k : string) (l : list (Entry.t E)) :
  listedAt a k l = true <->
  exists e, In e l /\ Entry.ownerId e = a /\ Entry.key e = k.
Proof.
  unfold listedAt. rewrite existsb_exists. split.
  - intros (e & Hin & He). apply andb_true_iff in He. destruct He as [H1 H2].
    apply String.eqb_eq in H1, H2. eauto.
  - intros (e & Hin & H1 & H2). exists e. split; auto.
    subst. now rewrite !String.eqb_refl.
Qed.

(** In a listing of the posts of a gallery, a path is listed exactly when
    the post under it belongs to the gallery. *)
Lemma listedAt_listing (s : State) (go gid : string) (name : string -> string)
  (L : list (Entry.t Post.t)) (a k : string) (p : Post.t) :
  (forall e, In e L <->
     postAt s (Entry.ownerId e) (Entry.key e) = Some (Entry.item e) /\
     postInGallery (Entry.ownerId e) go gid (Entry.item e) = true /\
     (true = false -> postDeleted (Entry.item e) = false) /\
     Entry.ownerName e = name (Entry.ownerId e)) ->
  postAt s a k = Some p ->
  listedAt a k L = postInGallery a go gid p.
Proof.
  intros HL Hp. destruct (postInGallery a go gid p) eqn:E.
  - apply listedAt_true. exists (Entry.mk a (name a) k p). split; auto.
    apply HL. simpl. repeat split; auto. discriminate.
  - destruct (listedAt a k L) eqn:El; auto.
    apply listedAt_true in El. destruct El as (e & Hin & <- & <-).
    apply HL in Hin. destruct Hin as (H1 & H2 & _).
    rewrite Hp in H1. inversion H1. subst p. congruence.
Qed.

(** Symbolic execution of one monadic step. *)
Ltac mprim R :=
  lazymatch type of R with
  | run (gets _) _ _ _ => apply run_gets in R; destruct R as [-> ->]
  | run getState _ _ _ => apply run_getState in R; destruct R as [-> ->]
  | run (ensureUserData _) _ _ _ =>
      apply run_ensureUserData in R; destruct R as [-> ->]
  | run (nowISO _) _ _ _ => apply run_nowISO in R; destruct R as [-> ->]
  | run (toast _ _) _ _ _ => apply run_toast in R; subst
  | run saveState _ _ _ => apply run_saveState in R; subst
  | run (ret _) _ _ _ => apply run_ret in R; destruct R as [-> ->]
  | run (updPartition _ _) _ _ _ => apply run_updPartition in R; subst
  | run (putGallery _ _ _) _ _ _ => apply run_updPartition in R; subst
  | run (putPost _ _ _) _ _ _ => apply run_updPartition in R; subst
  | run (putComment _ _ _) _ _ _ => apply run_updPartition in R; subst
  | run (delGallery _ _) _ _ _ => apply run_updPartition in R; subst
  | run (delPost _ _) _ _ _ => apply run_updPartition in R; subst
  | run (delComment _ _) _ _ _ => apply run_updPartition in R; subst
  | _ => idtac
  end.

Ltac mstep H :=
  let x := fresh "x" in
  let wx := fresh "wx" in
  let R := fresh "R" in
  apply run_bind in H; destruct H as (x & wx & R & H); mprim R.

Lemma deleteGallerySoft_ok (w w' : World) (ownerId gid : string)
  (g : Gallery.t) (r : bool) :
  canManage ownerId w = true ->
  galleryAt (state w) ownerId gid = Some g ->
  galleryDeleted g = false ->
  run (deleteGallerySoft clock ownerId gid) w r w' ->
  r = true /\
  viewState_userId w' = viewState_userId w /\
  sameRegistry (state w) (state w') /\
  Dict.keys (userData (state w')) = Dict.keys (userData (state w)) /\
  (forall o k,
     galleryAt (state w') o k =
     if String.eqb ownerId o && String.eqb gid k
     then Some (Gallery.set_updatedAt
                  (Gallery.set_deletedAt g (Some (clock (ticks w))))
                  (clock (S (ticks w))))
     else galleryAt (state w) o k) /\
  (forall o k, commentAt (state w') o k = commentAt (state w) o k) /\
  (forall a k,
     tombstoneRel clock
       (match postAt (state w) a k with
        | Some p => postInGallery a ownerId gid p
        | None => false
        end)
       (postAt (state w) a k) (postAt (state w') a k)).
Proof using clock_truthy.
  intros Hperm Hg Hd Hr. unfold deleteGallerySoft in Hr.
  mstep Hr. rewrite Hperm in Hr. simpl in Hr.
  mstep Hr. rewrite get_galleries_ensure, Hg in Hr.
  fold (galleryDeleted g) in Hr. rewrite Hd in Hr.
  mstep Hr. mstep Hr. mstep Hr.
  mstep Hr. apply run_listPostsInGallery in R.
  destruct R as [(s4 & -> & Hn) HL].
  pose proof (fun a k p =>
    listedAt_listing _ _ _ (fun o => getUserName o _) _ a k p HL) as HL'.
  clear HL.
  mstep Hr. apply run_tombstone_loop in R. destruct R as [F P].
  mstep Hr. mprim Hr.
  simpl in *.
  pose proof (galleryAt_present _ _ _ _ Hg) as Hpres.
  pose proof (normalizedAll_sameEntities _ _ Hn) as (N1 & N2 & N3).
  pose proof (normalizedAll_sameRegistry _ _ Hn) as NR.
  destruct Hn as (_ & _ & _ & NK & _).
  destruct F as (F1 & F2 & F3 & F4 & F5). simpl in *.
  split; [reflexivity|]. split; [exact F1|]. split.
  { eapply sameRegistry_trans; [|exact F2].
    eapply sameRegistry_trans; [|exact NR].
    eapply sameRegistry_trans; [apply sameRegistry_ensured|].
    apply sameRegistry_updated. }
  split.
  { rewrite F3, NK, keys_updated. now apply keys_ensured_present. }
  split.
  { intros o k. rewrite F4, N1.
    rewrite galleryAt_putGallery by apply partAt_ensured_self.
    now rewrite galleryAt_ensured. }
  split.
  { intros o k. rewrite F5, N3, commentAt_withGalleries.
    apply commentAt_ensured. }
  intros a k. specialize (P a k).
  assert (postAt s4 a k = postAt (state w) a k) as E4.
  { rewrite N2, postAt_withGalleries. apply postAt_ensured. }
  rewrite E4 in P.
  destruct (postAt (state w) a k) as [p|] eqn:Ep; [|exact P].
  rewrite (HL' a k p) in P; [exact P|].
  now rewrite postAt_withGalleries, postAt_ensured.
Qed.


Lemma restoreGallery_ok (w w' : World) (ownerId gid : string)
  (g : Gallery.t) (r : bool) :
  canManage ownerId w = true ->
  galleryAt (state w) ownerId gid = Some g ->
  galleryDeleted g = true ->
  run (restoreGallery clock ownerId gid) w r w' ->
  r = true /\
  viewState_userId w' = viewState_userId w /\
  sameRegistry (state w) (state w') /\
  Dict.keys (userData (state w')) = Dict.keys (userData (state w)) /\
  (forall o k,
     galleryAt (state w') o k =
     if String.eqb ownerId o && String.eqb gid k
     then Some (Gallery.set_updatedAt (Gallery.set_deletedAt g None)
                                      (clock (ticks w)))
     else galleryAt (state w) o k) /\
  (forall o k, commentAt (state w') o k = commentAt (state w) o k) /\
  (forall a k,
     restoreRel clock
       (match postAt (state w) a k with
        | Some p => postInGallery a ownerId gid p
        | None => false
        end)
       (postAt (state w) a k) (postAt (state w') a k)).
Proof.
  intros Hperm Hg Hd Hr. unfold restoreGallery in Hr.
  mstep Hr. rewrite Hperm in Hr. simpl in Hr.
  mstep Hr. rewrite get_galleries_ensure, Hg in Hr.
  fold (galleryDeleted g) in Hr. rewrite Hd in Hr. simpl in Hr.
  mstep Hr. mstep Hr.
  mstep Hr. apply run_listPostsInGallery in R.
  destruct R as [(s4 & -> & Hn) HL].
  pose proof (fun a k p =>
    listedAt_listing _ _ _ (fun o => getUserName o _) _ a k p HL) as HL'.
  clear HL.
  mstep Hr. apply run_restore_loop in R. destruct R as [F P].
  mstep Hr. mprim Hr.
  simpl in *.
  pose proof (galleryAt_present _ _ _ _ Hg) as Hpres.
  pose proof (normalizedAll_sameEntities _ _ Hn) as (N1 & N2 & N3).
  pose proof (normalizedAll_sameRegistry _ _ Hn) as NR.
  destruct Hn as (_ & _ & _ & NK & _).
  destruct F as (F1 & F2 & F3 & F4 & F5). simpl in *.
  split; [reflexivity|]. split; [exact F1|]. split.
  { eapply sameRegistry_trans; [|exact F2].
    eapply sameRegistry_trans; [|exact NR].
    eapply sameRegistry_trans; [apply sameRegistry_ensured|].
    apply sameRegistry_updated. }
  split.
  { rewrite F3, NK, keys_updated. now apply keys_ensured_present. }
  split.
  { intros o k. rewrite F4, N1.
    rewrite galleryAt_putGallery by apply partAt_ensured_self.
    now rewrite galleryAt_ensured. }
  split.
  { intros o k. rewrite F5, N3, commentAt_withGalleries.
    apply commentAt_ensured. }
  intros a k. specialize (P a k).
  assert (postAt s4 a k = postAt (state w) a k) as E4.
  { rewrite N2, postAt_withGalleries. apply postAt_ensured. }
  rewrite E4 in P.
  destruct (postAt (state w) a k) as [p|] eqn:Ep; [|exact P].
  rewrite (HL' a k p) in P; [exact P|].
  now rewrite postAt_withGalleries, postAt_ensured.
Qed.

(** C2.  [restoreGallery] by an actor who may manage the owner's partition,
    on a tombstoned gallery: the call returns [true], the tombstone of the
    gallery is cleared, and among the posts of all partitions that belong to
    the gallery exactly the tombstoned ones with [deletedByGallery = true]
    are restored: their [deletedAt] becomes [null] and their flag [false].
    A post of the gallery whose flag is [false] keeps its tombstone and every
    other field, and so does every post of another gallery. *)
Theorem C2_restoreGallery_cascade (w : World) (ownerId gid : string)
  (g : Gallery.t) :
  canManage ownerId w = true ->
  galleryAt (state w) ownerId gid = Some g ->
  galleryDeleted g = true ->
  let res := restoreGallery clock ownerId gid w in
  let s' := state (snd res) in
  fst res = true /\
  (exists g', galleryAt s' ownerId gid = Some g' /\ Gallery.deletedAt g' = None) /\
  (forall a k p,
     postAt (state w) a k = Some p ->
     postInGallery a ownerId gid p = true ->
     postDeleted p = true -> Post.deletedByGallery p = true ->
     exists t, postAt s' a k = Some (restored p t)) /\
  (forall a k p,
     postAt (state w) a k = Some p -> Post.deletedByGallery p = false ->
     postAt s' a k = Some p) /\
  (forall a k p,
     postAt (state w) a k = Some p -> postDeleted p = false ->
     postAt s' a k = Some p) /\
  (forall a k p,
     postAt (state w) a k = Some p -> postInGallery a ownerId gid p = false ->
     postAt s' a k = Some p) /\
  (forall a k, postAt (state w) a k = None -> postAt s' a k = None).
Proof.
  intros Hperm Hg Hd res s'.
  pose proof (run_total (restoreGallery clock ownerId gid) w) as Hr.
  fold res in Hr.
  destruct (restoreGallery_ok _ _ _ _ _ _ Hperm Hg Hd Hr)
    as (R1 & _ & _ & _ & R5 & _ & R7).
  fold s' in R5, R7. split; [exact R1|]. split.
  { eexists. split.
    - rewrite R5, !String.eqb_refl. reflexivity.
    - reflexivity. }
  split.
  { intros a k p Hp Hin Hdel Hflag. specialize (R7 a k). rewrite Hp in R7.
    unfold restoreRel in R7. rewrite Hin, Hdel, Hflag in R7. simpl in R7.
    destruct R7 as (n & R7). exists (clock n). auto. }
  split.
  { intros a k p Hp Hflag. specialize (R7 a k). rewrite Hp in R7.
    unfold restoreRel in R7. rewrite Hflag, !andb_false_r in R7. exact R7. }
  split.
  { intros a k p Hp Hal. specialize (R7 a k). rewrite Hp in R7.
    unfold restoreRel in R7. rewrite Hal, andb_false_r in R7. exact R7. }
  split.
  { intros a k p Hp Hout. specialize (R7 a k). rewrite Hp in R7.
    unfold restoreRel in R7. rewrite Hout in R7. exact R7. }
  intros a k Hp. specialize (R7 a k). rewrite Hp in R7. exact R7.
Qed.

(* ------------------------------------------------------------------ *)
(** ** Permission *)

Lemma canManage_false (userId : string) (w : World) :
  canManage userId w = false <->
  isAdmin w = false /\ viewState_userId w <> Some userId.
Proof.
  unfold canManage. rewrite orb_false_iff. split; intros [H1 H2]; split; auto.
  - intros E. rewrite E, String.eqb_refl in H2. discriminate.
  - destruct (viewState_userId w) as [v|]; auto.
    destruct (String.eqb userId v) eqn:E; auto.
    apply String.eqb_eq in E. subst v. congruence.
Qed.

Lemma deniedAt_toasted {A : Type} (w : World) (failure : A) (m : string) :
  deniedAt w failure (failure, toasted w "권한 없음" m).
Proof. unfold deniedAt. simpl. repeat split; auto. now exists m. Qed.

Ltac deny H :=
  unfold createGallery, updateGallery, deleteGallerySoft, restoreGallery,
    purgeGallery, createPost, updatePost, deletePostSoft, restorePost,
    purgePost, createComment, updateComment, deleteCommentSoft,
    bind, gets;
  rewrite H; simpl; apply deniedAt_toasted.

(** C5.  When the actor is not an administrator and is not the user whose
    partition the operation targets, each of the thirteen mutating
    operations returns its failure value ([null] or [false]), shows the
    permission toast and leaves the whole document, the stored copy and the
    session as they were.  An administrator passes the permission check on
    every partition. *)
Theorem C5_permission_gate (w : World) (userId : string) :
  (isAdmin w = false -> viewState_userId w <> Some userId ->
   (forall data,
      deniedAt w None (createGallery clock randomBytes userId data w)) /\
   (forall gid patch, deniedAt w false (updateGallery clock userId gid patch w)) /\
   (forall gid, deniedAt w false (deleteGallerySoft clock userId gid w)) /\
   (forall gid, deniedAt w false (restoreGallery clock userId gid w)) /\
   (forall gid, deniedAt w false (purgeGallery userId gid w)) /\
   (forall data, deniedAt w None (createPost clock randomBytes userId data w)) /\
   (forall pid patch, deniedAt w false (updatePost clock userId pid patch w)) /\
   (forall pid, deniedAt w false (deletePostSoft clock userId pid w)) /\
   (forall pid, deniedAt w false (restorePost clock userId pid w)) /\
   (forall pid, deniedAt w false (purgePost userId pid w)) /\
   (forall postId text,
      deniedAt w None (createComment clock randomBytes userId postId text w)) /\
   (forall cid patch, deniedAt w false (updateComment clock userId cid patch w)) /\
   (forall cid, deniedAt w false (deleteCommentSoft clock userId cid w)))
  /\ (isAdmin w = true -> canManage userId w = true).
Proof.
  split.
  - intros Ha Hu.
    assert (canManage userId w = false) as H by (apply canManage_false; auto).
    do 12 (split; [intros; deny H|]). intros; deny H.
  - intros Ha. unfold canManage. now rewrite Ha.
Qed.

(* ------------------------------------------------------------------ *)
(** ** Resolution *)

Lemma normalizedOn_sameEntities (l : list string) (s s' : State) :
  normalizedOn l s s' -> sameEntities s s'.
Proof.
  intros (_ & _ & _ & _ & H).
  repeat split; intros o k;
    unfold galleryAt, postAt, commentAt;
    specialize (H o); unfold partAt in H; rewrite H;
    destruct (existsb (String.eqb o) l); auto;
    now destruct (Dict.get (userData s) o).
Qed.

Lemma normalizedOn_sameRegistry (l : list string) (s s' : State) :
  normalizedOn l s s' -> sameRegistry s s'.
Proof.
  intros (A1 & A2 & A3 & _ & H). repeat split; auto.
  intros o Ho. rewrite H. destruct (existsb (String.eqb o) l); auto.
  destruct (partAt s o); [discriminate | congruence].
Qed.

Lemma findGallery_ext (s s' : State) (gid : string) (l : list string) :
  (forall o, galleryAt s' o gid = galleryAt s o gid) ->
  findGallery s' gid l = findGallery s gid l.
Proof.
  intros H. induction l as [|o l IH]; simpl; auto. now rewrite H, IH.
Qed.

Lemma findPost_ext (s s' : State) (pid : string) (l : list string) :
  (forall o, postAt s' o pid = postAt s o pid) ->
  findPost s' pid l = findPost s pid l.
Proof.
  intros H. induction l as [|o l IH]; simpl; auto. now rewrite H, IH.
Qed.

Lemma findGallery_app_miss (s : State) (gid o : string) (l : list string) :
  galleryAt s o gid = None ->
  findGallery s gid (l ++ [o]) = findGallery s gid l.
Proof.
  intros H. induction l as [|o' l IH]; simpl.
  - now rewrite H.
  - now rewrite IH.
Qed.

Lemma findPost_app_miss (s : State) (pid o : string) (l : list string) :
  postAt s o pid = None ->
  findPost s pid (l ++ [o]) = findPost s pid l.
Proof.
  intros H. induction l as [|o' l IH]; simpl.
  - now rewrite H.
  - now rewrite IH.
Qed.

Lemma scanned_ext (f g : string -> bool) (l : list string) :
  (forall o, f o = g o) -> scanned f l = scanned g l.
Proof.
  intros H. induction l as [|o l IH]; simpl; auto. now rewrite H, IH.
Qed.

(** The scan of [resolveGalleryCtx]. *)
Lemma run_scanGalleries (gid : string) (l : list string) :
  forall (w w' : World) (r : option (Ctx.t Gallery.t)),
  (forall o, In o l -> partAt (state w) o <> None) ->
  run (scanGalleries gid l) w r w' ->
  r = findGallery (state w) gid l /\
  exists s', w' = setState w s' /\
    normalizedOn (scanned (fun o => isSome (galleryAt (state w) o gid)) l)
                 (state w) s'.
Proof.
  induction l as [|o l IH]; simpl; intros w w' r Hp Hr.
  - mprim Hr. split; auto. exists (state w).
    split; [now rewrite setState_state | apply normalizedOn_nil].
  - mstep Hr. rewrite get_galleries_ensure in Hr.
    assert (partAt (state w) o <> None) as Ho by (apply Hp; now left).
    destruct (galleryAt (state w) o gid) as [g|] eqn:Eg; simpl.
    + mprim Hr. split; auto. eexists. split; [reflexivity|].
      apply normalizedOn_cons; auto. apply normalizedOn_nil.
    + apply IH in Hr.
      * destruct Hr as [-> (s' & -> & Hn)]. simpl in *. split.
        -- apply findGallery_ext. intros. apply galleryAt_ensured.
        -- exists s'. split; auto. apply normalizedOn_cons; auto.
           rewrite (scanned_ext _
                      (fun o0 => isSome (galleryAt (ensured (state w) o) o0 gid)));
             [exact Hn|].
           intros o0. now rewrite galleryAt_ensured.
      * intros o' Hin. simpl. rewrite partAt_ensured.
        destruct (String.eqb o o'); [discriminate | apply Hp; now right].
Qed.

Lemma keys_present (s : State) (o : string) :
  In o (Dict.keys (userData s)) -> partAt s o <> None.
Proof.
  intros H. apply Dict_in_keys in H. destruct H as [ud H].
  unfold partAt. congruence.
Qed.

Lemma findGallery_keys_ensured (s : State) (gid h : string) :
  galleryAt s h gid = None ->
  findGallery (ensured s h) gid (Dict.keys (userData (ensured s h))) =
  findGallery s gid (Dict.keys (userData s)).
Proof.
  intros Hm.
  rewrite (findGallery_ext s) by (intros; apply galleryAt_ensured).
  destruct (partAt s h) as [ud|] eqn:E.
  - rewrite keys_ensured_present; [auto | congruence].
  - rewrite keys_ensured_absent by exact E. now apply findGallery_app_miss.
Qed.

(** [resolveGalleryCtx] returns what [resolvedGallery] reads off the
    document, and changes no gallery, post or comment. *)
Lemma run_resolveGalleryCtx (gid hint : option string) (w w' : World)
  (r : option (Ctx.t Gallery.t)) :
  run (resolveGalleryCtx gid hint) w r w' ->
  r = resolvedGallery (state w) gid hint /\
  exists s', w' = setState w s' /\
    sameEntities (state w) s' /\ sameRegistry (state w) s'.
Proof.
  unfold resolveGalleryCtx, resolvedGallery. intros Hr.
  destruct (truthyO gid) eqn:Eg; simpl in *.
  - mstep Hr. destruct (truthyO hint) eqn:Eh.
    + mstep R. mprim R. rewrite get_galleries_ensure in Hr.
      destruct (galleryAt (state w) (nullish hint "") (nullish gid "")) as [g|] eqn:Ea;
        simpl in *.
      * mprim Hr. split; auto. eexists. split; [reflexivity|].
        split; [apply sameEntities_ensured | apply sameRegistry_ensured].
      * mstep Hr. apply run_scanGalleries in Hr.
        -- destruct Hr as [-> (s' & -> & Hn)]. simpl in *. split.
           ++ now apply findGallery_keys_ensured.
           ++ exists s'. split; auto. split.
              ** eapply sameEntities_trans; [apply sameEntities_ensured|].
                 eapply normalizedOn_sameEntities; eauto.
              ** eapply sameRegistry_trans; [apply sameRegistry_ensured|].
                 eapply normalizedOn_sameRegistry; eauto.
        -- intros o Ho. now apply keys_present.
    + mprim R. mstep Hr. apply run_scanGalleries in Hr.
      * destruct Hr as [-> (s' & -> & Hn)]. split; auto.
        exists s'. split; auto. split.
        -- eapply normalizedOn_sameEntities; eauto.
        -- eapply normalizedOn_sameRegistry; eauto.
      * intros o Ho. now apply keys_present.
  - mprim Hr. split; auto. exists (state w).
    split; [now rewrite setState_state|].
    split; [apply sameEntities_refl | apply sameRegistry_refl].
Qed.

Lemma findGallery_sound (s : State) (gid : string) (l : list string)
  (c : Ctx.t Gallery.t) :
  findGallery s gid l = Some c ->
  Ctx.key c = gid /\ galleryAt s (Ctx.ownerId c) gid = Some (Ctx.item c).
Proof.
  induction l as [|o l IH]; simpl; [discriminate|].
  destruct (galleryAt s o gid) as [g|] eqn:E; auto.
  intros H. inversion H. subst c. simpl. auto.
Qed.

Lemma resolvedGallery_sound (s : State) (gid hint : option string)
  (c : Ctx.t Gallery.t) :
  resolvedGallery s gid hint = Some c ->
  truthyO gid = true /\ Ctx.key c = nullish gid "" /\
  galleryAt s (Ctx.ownerId c) (Ctx.key c) = Some (Ctx.item c).
Proof.
  unfold resolvedGallery. destruct (truthyO gid); simpl; [|discriminate].
  destruct (truthyO hint).
  - destruct (galleryAt s (nullish hint "") (nullish gid "")) as [g|] eqn:E; simpl.
    + intros H. inversion H. subst c. simpl. auto.
    + intros H. apply findGallery_sound in H. destruct H as [H1 H2].
      rewrite H1. auto.
  - intros H. apply findGallery_sound in H. destruct H as [H1 H2].
    rewrite H1. auto.
Qed.



Lemma resolvedGallery_ext (s s' : State) (gid hint : option string) :
  Dict.keys (userData s') = Dict.keys (userData s) ->
  (forall o k, galleryAt s' o k = galleryAt s o k) ->
  resolvedGallery s' gid hint = resolvedGallery s gid hint.
Proof.
  intros Hk H. unfold resolvedGallery. rewrite Hk, H.
  now rewrite (findGallery_ext s s') by (intros; apply H).
Qed.

(** The two outcomes of [restorePost] on a tombstoned post, by what the
    gallery it names resolves to. *)
Lemma restorePost_run (w w' : World) (authorId pid : string) (p : Post.t)
  (r : bool) :
  canManage authorId w = true ->
  postAt (state w) authorId pid = Some p ->
  postDeleted p = true ->
  run (restorePost clock authorId pid) w r w' ->
  match resolvedGallery (state w) (Some (Post.galleryId p))
                        (Post.galleryOwnerId p) with
  | Some c =>
      if galleryDeleted (Ctx.item c)
      then r = false /\
           exists s', w' = toasted (setState w s') "복원 불가"
                       "갤러리가 삭제된 상태입니다. 먼저 갤러리를 복원하세요." /\
                      sameEntities (state w) s' /\ sameRegistry (state w) s'
      else r = true /\
           viewState_userId w' = viewState_userId w /\
           sameRegistry (state w) (state w') /\
           (forall o k, galleryAt (state w') o k = galleryAt (state w) o k) /\
           (forall o k, commentAt (state w') o k = commentAt (state w) o k) /\
           (forall a k,
              postAt (state w') a k =
              if String.eqb authorId a && String.eqb pid k
              then Some (restored p (clock (ticks w)))
              else postAt (state w) a k)
  | None =>
      r = false /\
      exists s', w' = toasted (setState w s') "복원 불가"
                  "갤러리가 삭제된 상태입니다. 먼저 갤러리를 복원하세요." /\
                 sameEntities (state w) s' /\ sameRegistry (state w) s'
  end.
Proof.
  intros Hperm Hp Hd Hr. unfold restorePost in Hr.
  mstep Hr. rewrite Hperm in Hr. simpl in Hr.
  mstep Hr. rewrite get_posts_ensure, Hp in Hr.
  fold (postDeleted p) in Hr. rewrite Hd in Hr. simpl in Hr.
  mstep Hr. apply run_resolveGalleryCtx in R.
  destruct R as [-> (s2 & -> & SE & SR)]. simpl in SE, SR.
  pose proof (postAt_present _ _ _ _ Hp) as Hpres.
  rewrite resolvedGallery_ext with (s := state w) in Hr;
    [| now apply keys_ensured_present | intros; apply galleryAt_ensured].
  assert (sameEntities (state w) s2) as SE'
    by (eapply sameEntities_trans; [apply sameEntities_ensured | exact SE]).
  assert (sameRegistry (state w) s2) as SR'
    by (eapply sameRegistry_trans; [apply sameRegistry_ensured | exact SR]).
  destruct (resolvedGallery (state w) (Some (Post.galleryId p))
                            (Post.galleryOwnerId p)) as [c|] eqn:Ec.
  - fold (galleryDeleted (Ctx.item c)) in Hr.
    destruct (galleryDeleted (Ctx.item c)) eqn:Eg.
    + mstep Hr. mprim Hr. split; auto. exists s2. auto.
    + mstep Hr. mstep Hr. mstep Hr. mprim Hr. simpl.
      destruct SE' as (E1 & E2 & E3).
      split; auto. split; auto. split.
      { eapply sameRegistry_trans; [exact SR' | apply sameRegistry_updated]. }
      split. { intros. now rewrite galleryAt_withPosts. }
      split. { intros. now rewrite commentAt_withPosts. }
      intros a k. rewrite postAt_putPost; [now rewrite E2|].
      destruct SR' as (_ & _ & _ & SP). now apply SP.
  - mstep Hr. mprim Hr. split; auto. exists s2. auto.
Qed.

Lemma canManage_frame (userId : string) (w w' : World) :
  viewState_userId w' = viewState_userId w ->
  users (state w') = users (state w) ->
  canManage userId w' = canManage userId w.
Proof.
  intros H1 H2. unfold canManage, isAdmin. now rewrite H1, H2.
Qed.


(* ------------------------------------------------------------------ *)
(** ** Purge *)

Lemma commentsOnly_refl (w : World) : commentsOnly w w.
Proof.
  unfold commentsOnly. split; [reflexivity|].
  split; [apply sameRegistry_refl|]. auto.
Qed.

Lemma commentsOnly_trans (w1 w2 w3 : World) :
  commentsOnly w1 w2 -> commentsOnly w2 w3 -> commentsOnly w1 w3.
Proof.
  intros (A1 & A2 & A3 & A4 & A5) (B1 & B2 & B3 & B4 & B5).
  split; [congruence|]. split; [eapply sameRegistry_trans; eauto|].
  split; [congruence|]. split; intros.
  - now rewrite B4, A4.
  - now rewrite B5, A5.
Qed.

(** The inner loop of the comment sweep, over a snapshot [E] of the
    commenter's comments. *)
Lemma run_purge_inner (hit : string -> bool) (commenterId : string)
  (E : list (string * Comment.t)) :
  forall (w w' : World) (u : unit),
  run (forEach E (fun kc =>
         if hit (Comment.postId (snd kc))
         then delComment commenterId (fst kc)
         else ret tt)) w u w' ->
  commentsOnly w w' /\
  forall a k,
    commentAt (state w') a k =
    if String.eqb commenterId a
       && existsb (fun kc => String.eqb (fst kc) k
                             && hit (Comment.postId (snd kc))) E
    then None
    else commentAt (state w) a k.
Proof.
  induction E as [|[k0 c0] E IH]; simpl; intros w w' u Hr.
  - mprim Hr. split; [apply commentsOnly_refl|].
    intros a k. now rewrite andb_false_r.
  - mstep Hr. apply IH in Hr. destruct Hr as [F P].
    destruct (hit (Comment.postId c0)) eqn:Eh.
    + mprim R. split.
      * eapply commentsOnly_trans; [|exact F].
        unfold commentsOnly. simpl. split; [reflexivity|].
        split; [apply sameRegistry_updated|]. split; [apply keys_updated|].
        split; intros; [apply galleryAt_withComments | apply postAt_withComments].
      * intros a k. rewrite P. simpl. rewrite commentAt_delComment.
        rewrite andb_true_r.
        destruct (String.eqb commenterId a); simpl; auto.
        destruct (String.eqb k0 k); simpl; auto.
        now destruct (existsb _ E).
    + mprim R. split; auto. intros a k. rewrite P.
      now rewrite andb_false_r.
Qed.

Lemma existsb_entries_hit (hit : string -> bool) (m : Dict.t Comment.t)
  (k : string) :
  existsb (fun kc => String.eqb (fst kc) k && hit (Comment.postId (snd kc)))
          (Dict.entries m)
  = match Dict.get m k with
    | Some c => hit (Comment.postId c)
    | None => false
    end.
Proof.
  destruct (Dict.get m k) as [c|] eqn:E.
  - destruct (hit (Comment.postId c)) eqn:Eh.
    + apply existsb_exists. exists (k, c). split.
      * now apply Dict_in_entries.
      * simpl. now rewrite String.eqb_refl.
    + destruct (existsb _ (Dict.entries m)) eqn:Ex; auto.
      apply existsb_exists in Ex. destruct Ex as ([k' c'] & Hin & Hc).
      simpl in Hc. apply andb_true_iff in Hc. destruct Hc as [H1 H2].
      apply String.eqb_eq in H1. subst k'.
      apply Dict_in_entries in Hin. congruence.
  - destruct (existsb _ (Dict.entries m)) eqn:Ex; auto.
    apply existsb_exists in Ex. destruct Ex as ([k' c'] & Hin & Hc).
    simpl in Hc. apply andb_true_iff in Hc. destruct Hc as [H1 H2].
    apply String.eqb_eq in H1. subst k'.
    apply Dict_in_entries in Hin. congruence.
Qed.

(** The outer loop of the comment sweep, over any list of existing
    partitions. *)
Lemma run_purge_outer (hit : string -> bool) (l : list string) :
  forall (w w' : World) (u : unit),
  (forall o, In o l -> partAt (state w) o <> None) ->
  run (forEach l (fun commenterId =>
         cud <- ensureUserData commenterId ;;
         forEach (Dict.entries (commentsOf cud)) (fun kc =>
           if hit (Comment.postId (snd kc))
           then delComment commenterId (fst kc)
           else ret tt))) w u w' ->
  commentsOnly w w' /\
  forall a k,
    commentAt (state w') a k =
    if existsb (String.eqb a) l
    then sweptComment hit (commentAt (state w) a k)
    else commentAt (state w) a k.
Proof.
  induction l as [|o l IH]; simpl; intros w w' u Hp Hr.
  - mprim Hr. split; [apply commentsOnly_refl | auto].
  - mstep Hr. mstep R. apply run_purge_inner in R. destruct R as [F1 P1].
    assert (partAt (state w) o <> None) as Ho by (apply Hp; now left).
    assert (commentsOnly w wx) as F1'.
    { eapply commentsOnly_trans; [|exact F1].
      unfold commentsOnly. simpl. split; [reflexivity|].
      split; [apply sameRegistry_ensured|].
      split; [now apply keys_ensured_present|].
      split; intros; [apply galleryAt_ensured | apply postAt_ensured]. }
    apply IH in Hr.
    + destruct Hr as [F2 P2]. split; [eapply commentsOnly_trans; eauto|].
      intros a k. rewrite P2, P1. simpl.
      rewrite existsb_entries_hit, get_comments_ensure, commentAt_ensured.
      rewrite (String.eqb_sym a o).
      destruct (String.eqb o a) eqn:E; simpl.
      * apply String.eqb_eq in E. subst a.
        unfold sweptComment.
        destruct (commentAt (state w) o k) as [c|] eqn:Ec;
          destruct (existsb (String.eqb o) l); auto.
        destruct (hit (Comment.postId c)) eqn:Eh; auto. now rewrite Eh.
      * reflexivity.
    + intros o' Hin. destruct F1' as (_ & (_ & _ & _ & SP) & _).
      apply SP. apply Hp. now right.
Qed.

(** The comment sweep of the two purges. *)
Lemma run_purgeComments (hit : string -> bool) (w w' : World) (u : unit) :
  run (purgeComments hit) w u w' ->
  commentsOnly w w' /\
  forall a k,
    commentAt (state w') a k = sweptComment hit (commentAt (state w) a k).
Proof.
  unfold purgeComments. intros Hr. mstep Hr.
  apply run_purge_outer in Hr.
  - destruct Hr as [F P]. split; auto. intros a k. rewrite P.
    destruct (existsb (String.eqb a) (Dict.keys (userData (state w)))) eqn:E; auto.
    destruct (commentAt (state w) a k) as [c|] eqn:Ec; auto.
    apply commentAt_present in Ec. unfold partAt in Ec.
    destruct (Dict.get (userData (state w)) a) as [ud|] eqn:Eu; [|congruence].
    assert (existsb (String.eqb a) (Dict.keys (userData (state w))) = true) as E'.
    { apply existsb_exists. exists a. split; [|apply String.eqb_refl].
      apply Dict_in_keys. now exists ud. }
    congruence.
  - intros o Ho. now apply keys_present.
Qed.

(** The post loop of [purgeGallery]. *)
Lemma run_purge_posts (L : list (Entry.t Post.t)) :
  forall (w w' : World) (u : unit),
  run (forEach L (fun e =>
         delPost (Entry.ownerId e) (Post.id (Entry.item e)))) w u w' ->
  viewState_userId w' = viewState_userId w /\
  sameRegistry (state w) (state w') /\
  (forall o k, galleryAt (state w') o k = galleryAt (state w) o k) /\
  (forall o k, commentAt (state w') o k = commentAt (state w) o k) /\
  forall a k,
    postAt (state w') a k =
    if purgedAt a k L then None else postAt (state w) a k.
Proof.
  induction L as [|e L IH]; simpl; intros w w' u Hr.
  - mprim Hr. repeat split; auto.
  - mstep Hr. apply IH in Hr. simpl in Hr.
    destruct Hr as (A1 & A2 & A3 & A4 & A5).
    split; auto. split.
    { eapply sameRegistry_trans; [apply sameRegistry_updated | exact A2]. }
    split. { intros. now rewrite A3, galleryAt_withPosts. }
    split. { intros. now rewrite A4, commentAt_withPosts. }
    intros a k. rewrite A5, postAt_delPost.
    destruct (String.eqb (Entry.ownerId e) a
              && String.eqb (Post.id (Entry.item e)) k); simpl; auto.
    now destruct (purgedAt a k L).
Qed.

Lemma listing_listsGallery (s : State) (go gid : string)
  (name : string -> string) (L : list (Entry.t Post.t)) :
  (forall e, In e L <->
     postAt s (Entry.ownerId e) (Entry.key e) = Some (Entry.item e) /\
     postInGallery (Entry.ownerId e) go gid (Entry.item e) = true /\
     (true = false -> postDeleted (Entry.item e) = false) /\
     Entry.ownerName e = name (Entry.ownerId e)) ->
  listsGallery s go gid L.
Proof. clear localeLe pbkdf2.
  intros HL a k p. split.
  - intros (e & Hin & <- & <- & <-). apply HL in Hin. tauto.
  - intros [H1 H2]. exists (Entry.mk a (name a) k p). simpl.
    repeat split; auto. apply HL. simpl. repeat split; auto. discriminate.
Qed.

Lemma listsGallery_ext (s s' : State) (go gid : string)
  (L : list (Entry.t Post.t)) :
  (forall a k, postAt s' a k = postAt s a k) ->
  listsGallery s' go gid L -> listsGallery s go gid L.
Proof. clear localeLe pbkdf2.
  intros H HL a k p. rewrite (HL a k p), H. tauto.
Qed.

Lemma purgedAt_true (s : State) (go gid : string) (L : list (Entry.t Post.t))
  (a k : string) :
  listsGallery s go gid L ->
  (purgedAt a k L = true <->
   exists k0 p, postAt s a k0 = Some p /\ postInGallery a go gid p = true /\
                Post.id p = k).
Proof.
  intros HL. unfold purgedAt. rewrite existsb_exists. split.
  - intros (e & Hin & He). apply andb_true_iff in He. destruct He as [H1 H2].
    apply String.eqb_eq in H1, H2.
    exists (Entry.key e), (Entry.item e).
    destruct (proj1 (HL a (Entry.key e) (Entry.item e))) as [Q1 Q2]; eauto.
  - intros (k0 & p & H1 & H2 & H3).
    destruct (proj2 (HL a k0 p)) as (e & Hin & E1 & E2 & E3); auto.
    exists e. split; auto. subst. now rewrite !String.eqb_refl.
Qed.

Lemma postIds_hit (s : State) (go gid : string) (L : list (Entry.t Post.t))
  (i : string) :
  listsGallery s go gid L ->
  (existsb (String.eqb i) (map (fun x => Post.id (Entry.item x)) L) = true <->
   exists a k p, postAt s a k = Some p /\ postInGallery a go gid p = true /\
                 Post.id p = i).
Proof.
  intros HL. rewrite existsb_exists. split.
  - intros (j & Hin & Hj). apply String.eqb_eq in Hj. subst j.
    apply in_map_iff in Hin. destruct Hin as (e & He & Hin).
    exists (Entry.ownerId e), (Entry.key e), (Entry.item e).
    destruct (proj1 (HL (Entry.ownerId e) (Entry.key e) (Entry.item e)));
      eauto.
  - intros (a & k & p & H1 & H2 & H3).
    destruct (proj2 (HL a k p)) as (e & Hin & E1 & E2 & E3); auto.
    exists i. split; [|apply String.eqb_refl].
    apply in_map_iff. exists e. split; auto. now subst.
Qed.

Lemma purgeGallery_ok (w w' : World) (ownerId gid : string)
  (g : Gallery.t) (r : bool) :
  canManage ownerId w = true ->
  galleryAt (state w) ownerId gid = Some g ->
  run (purgeGallery ownerId gid) w r w' ->
  r = true /\
  viewState_userId w' = viewState_userId w /\
  sameRegistry (state w) (state w') /\
  (forall o k,
     galleryAt (state w') o k =
     if String.eqb ownerId o && String.eqb gid k then None
     else galleryAt (state w) o k) /\
  exists L,
    listsGallery (state w) ownerId gid L /\
    (forall a k,
       postAt (state w') a k =
       if purgedAt a k L then None else postAt (state w) a k) /\
    (forall a k,
       commentAt (state w') a k =
       sweptComment
         (fun i => existsb (String.eqb i)
                           (map (fun x => Post.id (Entry.item x)) L))
         (commentAt (state w) a k)).
Proof.
  intros Hperm Hg Hr. unfold purgeGallery in Hr.
  mstep Hr. rewrite Hperm in Hr. simpl in Hr.
  mstep Hr. rewrite get_galleries_ensure, Hg in Hr.
  mstep Hr. apply run_listPostsInGallery in R.
  destruct R as [(s2 & -> & Hn) HL].
  apply (listing_listsGallery _ _ _ (fun o => getUserName o _)) in HL.
  simpl in HL.
  apply listsGallery_ext with (s := state w) in HL;
    [|intros; apply postAt_ensured].
  mstep Hr. apply run_purgeComments in R. destruct R as [FC PC].
  mstep Hr. apply run_purge_posts in R.
  destruct R as (P1 & P2 & P3 & P4 & P5).
  mstep Hr. mstep Hr. mprim Hr. simpl in *.
  pose proof (normalizedAll_sameEntities _ _ Hn) as (N1 & N2 & N3).
  pose proof (normalizedAll_sameRegistry _ _ Hn) as NR.
  destruct FC as (C1 & C2 & C3 & C4 & C5). simpl in *.
  split; auto. split; [congruence|]. split.
  { eapply sameRegistry_trans; [apply sameRegistry_ensured|].
    eapply sameRegistry_trans; [exact NR|].
    eapply sameRegistry_trans; [exact C2|].
    eapply sameRegistry_trans; [exact P2|]. apply sameRegistry_updated. }
  split.
  { intros o k. rewrite galleryAt_delGallery, P3, C4, N1.
    now rewrite galleryAt_ensured. }
  exists x. split; auto. split.
  - intros a k. rewrite postAt_withGalleries, P5, C5, N2.
    now rewrite postAt_ensured.
  - intros a k. rewrite commentAt_withGalleries, P4, PC, N3.
    now rewrite commentAt_ensured.
Qed.

Lemma purgePost_ok (w w' : World) (authorId pid : string)
  (p : Post.t) (r : bool) :
  canManage authorId w = true ->
  postAt (state w) authorId pid = Some p ->
  run (purgePost authorId pid) w r w' ->
  r = true /\
  viewState_userId w' = viewState_userId w /\
  sameRegistry (state w) (state w') /\
  (forall o k, galleryAt (state w') o k = galleryAt (state w) o k) /\
  (forall a k,
     postAt (state w') a k =
     if String.eqb authorId a && String.eqb pid k then None
     else postAt (state w) a k) /\
  (forall a k,
     commentAt (state w') a k =
     sweptComment (fun postId => String.eqb postId pid)
                  (commentAt (state w) a k)).
Proof.
  intros Hperm Hp Hr. unfold purgePost in Hr.
  mstep Hr. rewrite Hperm in Hr. simpl in Hr.
  mstep Hr. rewrite get_posts_ensure, Hp in Hr.
  mstep Hr. apply run_purgeComments in R. destruct R as [FC PC].
  mstep Hr. mstep Hr. mprim Hr. simpl in *.
  destruct FC as (C1 & C2 & C3 & C4 & C5). simpl in *.
  split; auto. split; auto. split.
  { eapply sameRegistry_trans; [apply sameRegistry_ensured|].
    eapply sameRegistry_trans; [exact C2|]. apply sameRegistry_updated. }
  split. { intros. now rewrite galleryAt_withPosts, C4, galleryAt_ensured. }
  split. { intros. now rewrite postAt_delPost, C5, postAt_ensured. }
  intros a k. now rewrite commentAt_withPosts, PC, commentAt_ensured.
Qed.

(** C4.  [purgeGallery] by an actor who may manage the owner's partition, on
    a gallery [g] that exists under [(ownerId, gid)], whatever the tombstones
    of the gallery, of its posts and of their comments: the call returns
    [true]; the gallery is gone from its partition, and no gallery with its
    id is left in any partition of a document whose galleries are stored
    under their ids, one partition per key; every post that belonged to the
    gallery is gone from the slot of its id, so that in a document whose
    posts are stored under their ids no post of any partition belongs to the
    gallery any more; and no comment of any partition refers to a post that
    belonged to the gallery. *)
Theorem C4_purgeGallery_cascade (w : World) (ownerId gid : string)
  (g : Gallery.t) :
  canManage ownerId w = true ->
  galleryAt (state w) ownerId gid = Some g ->
  let res := purgeGallery ownerId gid w in
  let s' := state (snd res) in
  fst res = true /\
  galleryAt s' ownerId gid = None /\
  (galleriesKeyedById (state w) -> galleryKeysUnique (state w) ->
   forall o k g', galleryAt s' o k = Some g' -> Gallery.id g' <> Gallery.id g) /\
  (forall a k p,
     postAt (state w) a k = Some p -> postInGallery a ownerId gid p = true ->
     postAt s' a (Post.id p) = None) /\
  (postsKeyedById (state w) ->
   forall a k p, postAt s' a k = Some p -> postInGallery a ownerId gid p = false) /\
  (forall a k c,
     commentAt s' a k = Some c ->
     forall a' k' p,
       postAt (state w) a' k' = Some p ->
       postInGallery a' ownerId gid p = true ->
       Comment.postId c <> Post.id p).
Proof.
  intros Hperm Hg res s'.
  pose proof (run_total (purgeGallery ownerId gid) w) as Hr. fold res in Hr.
  destruct (purgeGallery_ok _ _ _ _ _ _ Hperm Hg Hr)
    as (R1 & _ & _ & RG & L & HL & RP & RC).
  fold s' in RG, RP, RC. split; auto. split.
  { now rewrite RG, !String.eqb_refl. }
  split.
  { intros Hkey Huniq o k g' Hg' Hid. rewrite RG in Hg'.
    destruct (String.eqb ownerId o && String.eqb gid k) eqn:E; [discriminate|].
    pose proof (Hkey _ _ _ Hg') as K1. pose proof (Hkey _ _ _ Hg) as K2.
    assert (k = gid) as Ek by congruence. rewrite Ek in Hg', E.
    pose proof (Huniq _ _ _ _ _ Hg' Hg) as Eo. rewrite Eo in E.
    now rewrite !String.eqb_refl in E. }
  split.
  { intros a k p Hp Hin. rewrite RP.
    assert (purgedAt a (Post.id p) L = true) as ->; auto.
    apply (proj2 (purgedAt_true _ _ _ _ a (Post.id p) HL)).
    exists k, p. auto. }
  split.
  { intros Hkey a k p Hp. rewrite RP in Hp.
    destruct (purgedAt a k L) eqn:E; [discriminate|].
    destruct (postInGallery a ownerId gid p) eqn:Ein; auto.
    assert (purgedAt a k L = true); [|congruence].
    apply (proj2 (purgedAt_true _ _ _ _ a k HL)).
    exists k, p. repeat split; auto. now apply (Hkey a). }
  intros a k c Hc a' k' p Hp Hin Heq. rewrite RC in Hc.
  unfold sweptComment in Hc.
  destruct (commentAt (state w) a k) as [c0|]; [|discriminate].
  destruct (existsb (String.eqb (Comment.postId c0))
              (map (fun x => Post.id (Entry.item x)) L)) eqn:E; [discriminate|].
  inversion Hc. subst c0.
  assert (existsb (String.eqb (Comment.postId c))
            (map (fun x => Post.id (Entry.item x)) L) = true); [|congruence].
  apply (proj2 (postIds_hit _ _ _ _ (Comment.postId c) HL)).
  exists a', k', p. auto.
Qed.

(** C9.  The two purges ask for nothing but permission and existence: on a
    gallery, or on a post, that exists and is in any state, in particular
    one that was never soft-deleted, the purge returns [true] and the whole
    cascade is applied: the record is gone, the posts of the gallery are gone
    from the slots of their ids, and no comment is left that refers to a
    purged post. *)
Theorem C9_purge_needs_no_tombstone (w : World) (o k : string) :
  canManage o w = true ->
  (forall g,
     galleryAt (state w) o k = Some g ->
     let res := purgeGallery o k w in
     let s' := state (snd res) in
     fst res = true /\
     galleryAt s' o k = None /\
     (forall a k0 p,
        postAt (state w) a k0 = Some p -> postInGallery a o k p = true ->
        postAt s' a (Post.id p) = None) /\
     (forall a k0 c,
        commentAt s' a k0 = Some c ->
        forall a' k' p,
          postAt (state w) a' k' = Some p -> postInGallery a' o k p = true ->
          Comment.postId c <> Post.id p))
  /\
  (forall p,
     postAt (state w) o k = Some p ->
     let res := purgePost o k w in
     let s' := state (snd res) in
     fst res = true /\
     postAt s' o k = None /\
     (forall a k0 c, commentAt s' a k0 = Some c -> Comment.postId c <> k)).
Proof.
  intros Hperm. split.
  - intros g Hg res s'.
    pose proof (run_total (purgeGallery o k) w) as Hr. fold res in Hr.
    destruct (purgeGallery_ok _ _ _ _ _ _ Hperm Hg Hr)
      as (R1 & _ & _ & RG & L & HL & RP & RC).
    fold s' in RG, RP, RC. split; auto. split.
    { now rewrite RG, !String.eqb_refl. }
    split.
    { intros a k0 p Hp Hin. rewrite RP.
      assert (purgedAt a (Post.id p) L = true) as ->; auto.
      apply (proj2 (purgedAt_true _ _ _ _ a (Post.id p) HL)).
      exists k0, p. auto. }
    intros a k0 c Hc a' k' p Hp Hin Heq. rewrite RC in Hc.
    unfold sweptComment in Hc.
    destruct (commentAt (state w) a k0) as [c0|]; [|discriminate].
    destruct (existsb (String.eqb (Comment.postId c0))
                (map (fun x => Post.id (Entry.item x)) L)) eqn:E; [discriminate|].
    inversion Hc. subst c0.
    assert (existsb (String.eqb (Comment.postId c))
              (map (fun x => Post.id (Entry.item x)) L) = true); [|congruence].
    apply (proj2 (postIds_hit _ _ _ _ (Comment.postId c) HL)).
    exists a', k', p. auto.
  - intros p Hp res s'.
    pose proof (run_total (purgePost o k) w) as Hr. fold res in Hr.
    destruct (purgePost_ok _ _ _ _ _ _ Hperm Hp Hr)
      as (R1 & _ & _ & _ & RP & RC).
    fold s' in RP, RC. split; auto. split.
    { now rewrite RP, !String.eqb_refl. }
    intros a k0 c Hc Heq. rewrite RC in Hc. unfold sweptComment in Hc.
    destruct (commentAt (state w) a k0) as [c0|]; [|discriminate].
    destruct (String.eqb (Comment.postId c0) k) eqn:E; [discriminate|].
    inversion Hc. subst c0. apply String.eqb_neq in E. contradiction.
Qed.

(* ------------------------------------------------------------------ *)
(** ** Base64 *)

Lemma string_ind3 (P : string -> Prop) :
  P EmptyString ->
  (forall a, P (String a EmptyString)) ->
  (forall a b, P (String a (String b EmptyString))) ->
  (forall a b c r, P r -> P (String a (String b (String c r)))) ->
  forall s, P s.
Proof.
  intros H0 H1 H2 H3.
  assert (forall s, P s /\ (forall a, P (String a s))
                    /\ (forall a b, P (String a (String b s)))) as H.
  { induction s as [|c r (IH0 & IH1 & IH2)]; repeat split; auto. }
  intros s. apply H.
Qed.

Lemma in_sextetsUpTo63 (n : N) : (n < 64)%N -> In n sextetsUpTo63.
Proof.
  intros H. unfold sextetsUpTo63. apply in_map_iff.
  exists (N.to_nat n). split; [apply N2Nat.id|].
  apply in_seq. lia.
Qed.

Lemma b64val_b64char (n : N) : (n < 64)%N -> b64val (b64char n) = Some n.
Proof.
  intros H. apply in_sextetsUpTo63 in H.
  assert (forallb (fun m => match b64val (b64char m) with
                            | Some k => N.eqb k m
                            | None => false
                            end) sextetsUpTo63 = true) as Hall
    by (vm_compute; reflexivity).
  rewrite forallb_forall in Hall. specialize (Hall n H).
  destruct (b64val (b64char n)) as [k|]; [|discriminate].
  apply N.eqb_eq in Hall. now subst.
Qed.

Lemma b64char_clip (n : N) : b64char n = b64char (N.min n 63).
Proof.
  destruct (N.ltb n 63) eqn:E.
  - apply N.ltb_lt in E. now rewrite N.min_l by lia.
  - apply N.ltb_ge in E. rewrite N.min_r by lia.
    unfold b64char.
    destruct (N.ltb n 26) eqn:E1; [apply N.ltb_lt in E1; lia|].
    destruct (N.ltb n 52) eqn:E2; [apply N.ltb_lt in E2; lia|].
    destruct (N.ltb n 62) eqn:E3; [apply N.ltb_lt in E3; lia|].
    destruct (N.eqb n 62) eqn:E4; [apply N.eqb_eq in E4; lia|].
    reflexivity.
Qed.

Lemma b64char_plain (n : N) :
  isAsciiWhitespace (b64char n) = false /\
  Ascii.eqb (b64char n) "="%char = false.
Proof.
  rewrite b64char_clip.
  assert (In (N.min n 63) sextetsUpTo63) as H
    by (apply in_sextetsUpTo63; lia).
  assert (forallb (fun m => negb (isAsciiWhitespace (b64char m))
                            && negb (Ascii.eqb (b64char m) "="%char))
                  sextetsUpTo63 = true) as Hall
    by (vm_compute; reflexivity).
  rewrite forallb_forall in Hall. specialize (Hall _ H).
  apply andb_true_iff in Hall. destruct Hall as [H1 H2].
  now apply negb_true_iff in H1, H2.
Qed.

Lemma stripPadding_plain (c : ascii) (r : string) :
  Ascii.eqb c "="%char = false ->
  stripPadding (String c r) = String c (stripPadding r).
Proof.
  intros H. destruct c as [[] [] [] [] [] [] [] []];
    try reflexivity; discriminate.
Qed.

Lemma byte_bound (a : ascii) : (N_of_ascii a < 256)%N.
Proof. apply N_ascii_bounded. Qed.

Lemma ascii_of_N_of_ascii (a : ascii) (n : N) :
  n = N_of_ascii a -> ascii_of_N n = a.
Proof. intros ->. apply ascii_N_embedding. Qed.

Ltac divlia := zify; Z.to_euclidean_division_equations; lia.

Lemma sextet_bounds (x y z : N) :
  (x < 256)%N -> (y < 256)%N -> (z < 256)%N ->
  (x / 4 < 64)%N /\ ((x mod 4) * 16 < 64)%N /\
  ((x mod 4) * 16 + y / 16 < 64)%N /\ ((y mod 16) * 4 < 64)%N /\
  ((y mod 16) * 4 + z / 64 < 64)%N /\ (z mod 64 < 64)%N.
Proof. intros. repeat split; divlia. Qed.

Lemma sextet_bytes (x y z : N) :
  (x < 256)%N -> (y < 256)%N -> (z < 256)%N ->
  ((x / 4) * 4 + ((x mod 4) * 16 + y / 16) / 16 = x)%N /\
  ((((x mod 4) * 16 + y / 16) mod 16) * 16 + ((y mod 16) * 4 + z / 64) / 4 = y)%N /\
  ((((y mod 16) * 4 + z / 64) mod 4) * 64 + z mod 64 = z)%N /\
  ((x / 4) * 4 + ((x mod 4) * 16) / 16 = x)%N /\
  ((((x mod 4) * 16 + y / 16) mod 16) * 16 + ((y mod 16) * 4) / 4 = y)%N.
Proof. intros. repeat split; divlia. Qed.

Lemma filterS_plain (c : ascii) (r : string) :
  isAsciiWhitespace c = false ->
  filterS (fun c => negb (isAsciiWhitespace c)) (String c r) =
  String c (filterS (fun c => negb (isAsciiWhitespace c)) r).
Proof. intros H. cbn [filterS]. now rewrite H. Qed.

Lemma sextets_cons (n : N) (r : string) (l : list N) :
  (n < 64)%N -> sextets r = Some l ->
  sextets (String (b64char n) r) = Some (n :: l).
Proof. intros Hn Hr. cbn [sextets]. now rewrite b64val_b64char, Hr. Qed.

Lemma btoa_decodes (s : string) :
  filterS (fun c => negb (isAsciiWhitespace c)) (btoa s) = btoa s /\
  (exists k, String.length (btoa s) = k * 4) /\
  (exists k j, String.length (stripPadding (btoa s)) = j + k * 4
               /\ (j = 0 \/ j = 2 \/ j = 3)) /\
  exists l, sextets (stripPadding (btoa s)) = Some l /\ decodeSextets l = s.
Proof.
  induction s as [| a | a b | a b c r (IH1 & (k1 & IH2) & (k2 & j & IH3 & IHj) & l & IH4 & IH5)]
    using string_ind3.
  - repeat split.
    + now exists 0.
    + exists 0, 0. auto.
    + exists []. auto.
  - pose proof (byte_bound a) as Ba.
    destruct (sextet_bounds (N_of_ascii a) 0 0) as (B1 & B2 & _); [lia..|].
    destruct (sextet_bytes (N_of_ascii a) 0 0) as (_ & _ & _ & E1 & _); [lia..|].
    cbn [btoa].
    set (s1 := (N_of_ascii a / 4)%N) in *.
    set (s2 := ((N_of_ascii a mod 4) * 16)%N) in *.
    destruct (b64char_plain s1) as [W1 P1].
    destruct (b64char_plain s2) as [W2 P2].
    repeat split.
    + now rewrite !filterS_plain.
    + now exists 1.
    + exists 0, 2. rewrite !stripPadding_plain by assumption. auto.
    + exists [s1; s2]. rewrite !stripPadding_plain by assumption. split.
      * cbn [stripPadding]. repeat (apply sextets_cons; [assumption|]). reflexivity.
      * cbn [decodeSextets]. f_equal. now apply ascii_of_N_of_ascii.
  - pose proof (byte_bound a) as Ba. pose proof (byte_bound b) as Bb.
    destruct (sextet_bounds (N_of_ascii a) (N_of_ascii b) 0)
      as (B1 & _ & B2 & B3 & _); [lia..|].
    destruct (sextet_bytes (N_of_ascii a) (N_of_ascii b) 0)
      as (E1 & _ & _ & _ & E2); [lia..|].
    cbn [btoa].
    set (s1 := (N_of_ascii a / 4)%N) in *.
    set (s2 := ((N_of_ascii a mod 4) * 16 + N_of_ascii b / 16)%N) in *.
    set (s3 := ((N_of_ascii b mod 16) * 4)%N) in *.
    destruct (b64char_plain s1) as [W1 P1].
    destruct (b64char_plain s2) as [W2 P2].
    destruct (b64char_plain s3) as [W3 P3].
    repeat split.
    + now rewrite !filterS_plain.
    + now exists 1.
    + exists 0, 3. rewrite !stripPadding_plain by assumption. auto.
    + exists [s1; s2; s3]. rewrite !stripPadding_plain by assumption. split.
      * cbn [stripPadding]. repeat (apply sextets_cons; [assumption|]). reflexivity.
      * cbn [decodeSextets]. f_equal; [|f_equal]; now apply ascii_of_N_of_ascii.
  - pose proof (byte_bound a) as Ba. pose proof (byte_bound b) as Bb.
    pose proof (byte_bound c) as Bc.
    destruct (sextet_bounds (N_of_ascii a) (N_of_ascii b) (N_of_ascii c))
      as (B1 & _ & B2 & _ & B3 & B4); [lia..|].
    destruct (sextet_bytes (N_of_ascii a) (N_of_ascii b) (N_of_ascii c))
      as (E1 & E2 & E3 & _); [lia..|].
    cbn [btoa].
    set (s1 := (N_of_ascii a / 4)%N) in *.
    set (s2 := ((N_of_ascii a mod 4) * 16 + N_of_ascii b / 16)%N) in *.
    set (s3 := ((N_of_ascii b mod 16) * 4 + N_of_ascii c / 64)%N) in *.
    set (s4 := (N_of_ascii c mod 64)%N) in *.
    destruct (b64char_plain s1) as [W1 P1].
    destruct (b64char_plain s2) as [W2 P2].
    destruct (b64char_plain s3) as [W3 P3].
    destruct (b64char_plain s4) as [W4 P4].
    repeat split.
    + rewrite !filterS_plain by assumption. now rewrite IH1.
    + exists (S k1). cbn [String.length]. rewrite IH2. lia.
    + exists (S k2), j. rewrite !stripPadding_plain by assumption.
      cbn [String.length]. rewrite IH3. split; [lia | exact IHj].
    + exists (s1 :: s2 :: s3 :: s4 :: l).
      rewrite !stripPadding_plain by assumption. split.
      * repeat (apply sextets_cons; [assumption|]). exact IH4.
      * cbn [decodeSextets]. rewrite IH5.
        f_equal; [|f_equal; [|f_equal]]; now apply ascii_of_N_of_ascii.
Qed.

(** Decoding what [btoa] produced gives the bytes back. *)
Lemma atob_btoa (s : string) : atob (btoa s) = Some s.
Proof.
  destruct (btoa_decodes s) as (H1 & (k1 & H2) & (k2 & j & H3 & Hj) & l & H4 & H5).
  unfold atob. rewrite H1, H2, Nat.Div0.mod_mul. cbn [Nat.eqb].
  rewrite H3, Nat.Div0.mod_add, H4. simpl. rewrite H5.
  destruct Hj as [-> | [-> | ->]]; reflexivity.
Qed.

Lemma b64ToBytes_bytesToB64 (bytes : list ascii) :
  b64ToBytes (bytesToB64 bytes) = Some bytes.
Proof.
  unfold b64ToBytes, bytesToB64. rewrite atob_btoa. simpl.
  now rewrite list_ascii_of_string_of_list_ascii.
Qed.

(* ------------------------------------------------------------------ *)
(** ** Credentials *)

Lemma login_account (username password : string) (remember : bool) (w : World) :
  login pbkdf2 username password remember w =
  match accountOf (state w) username with
  | None => loginRefused w
  | Some (uid, user) =>
      match b64ToBytes (User.saltB64 user) with
      | None => (None, w)
      | Some salt =>
          if String.eqb (deriveHashB64 pbkdf2 password salt) (User.hashB64 user)
          then
            (setViewUser (Some uid) ;;;
             ensureUserData uid ;;;
             setRemembered (if remember then Some uid else None) ;;;
             toast "로그인" (String.append username " 님 환영합니다.") ;;;
             enterApp ;;;
             ret (Some true)) w
          else loginRefused w
      end
  end.
Proof.
  unfold login, accountOf, loginRefused, bind at 1, getState, gets.
  destruct (Dict.get (usernameIndex (state w)) username) as [uid|]; auto.
  destruct (truthy uid); auto.
  destruct (Dict.get (users (state w)) uid) as [user|]; auto. simpl.
  destruct (b64ToBytes (User.saltB64 user)) as [salt|]; auto.
  now destruct (String.eqb (deriveHashB64 pbkdf2 password salt) (User.hashB64 user)).
Qed.

(** C7.  [login] has one failure for a wrong password and for an unknown
    name: when the name resolves to no account, and when it resolves to an
    account whose stored hash differs from the hash derived from the
    password and the stored salt, the call returns [false] with the very same
    toast and changes nothing else, so the two outcomes are equal.  A name
    that the index lacks resolves to no account. *)
Theorem C7_login_single_failure_kind (w : World) (username password : string)
  (remember : bool) :
  let res := login pbkdf2 username password remember w in
  (accountOf (state w) username = None -> res = loginRefused w) /\
  (forall uid user salt,
     accountOf (state w) username = Some (uid, user) ->
     b64ToBytes (User.saltB64 user) = Some salt ->
     deriveHashB64 pbkdf2 password salt <> User.hashB64 user ->
     res = loginRefused w) /\
  (Dict.get (usernameIndex (state w)) username = None ->
   accountOf (state w) username = None) /\
  fst (loginRefused w) = Some false /\
  toasts (snd (loginRefused w)) = toasts w ++ [InvalidCredentials] /\
  state (snd (loginRefused w)) = state w /\
  viewState_userId (snd (loginRefused w)) = viewState_userId w.
Proof.
  intros res. unfold res. rewrite login_account. repeat split.
  - intros ->. reflexivity.
  - intros uid user salt -> -> Hne.
    apply String.eqb_neq in Hne. now rewrite Hne.
  - intros H. unfold accountOf. now rewrite H.
Qed.

Lemma run_enterApp (w w' : World) (u : unit) :
  run enterApp w u w' ->
  exists s', w' = setState w s' /\
    sameEntities (state w) s' /\ sameRegistry (state w) s'.
Proof.
  unfold enterApp. intros Hr. mstep Hr. mstep Hr.
  mstep Hr. apply run_listAllGalleryEntries in R.
  destruct R as [(s' & -> & Hn) _]. mprim Hr. simpl in *.
  exists s'. split; auto. split.
  - eapply sameEntities_trans;
      [|eapply normalizedAll_sameEntities; exact Hn].
    apply sameEntities_ensured.
  - eapply sameRegistry_trans;
      [|eapply normalizedAll_sameRegistry; exact Hn].
    apply sameRegistry_ensured.
Qed.

(** The branch of [login] taken when the hashes agree. *)
Lemma login_enters (username uid : string) (remember : bool)
  (w w' : World) (r : option bool) :
  run (setViewUser (Some uid) ;;;
       ensureUserData uid ;;;
       setRemembered (if remember then Some uid else None) ;;;
       toast "로그인" (String.append username " 님 환영합니다.") ;;;
       enterApp ;;;
       ret (Some true)) w r w' ->
  r = Some true /\ viewState_userId w' = Some uid /\
  rememberedUser w' = (if remember then Some uid else None) /\
  sameEntities (state w) (state w') /\ sameRegistry (state w) (state w').
Proof.
  intros Hr. mstep Hr. apply run_modify in R. subst wx.
  mstep Hr. mstep Hr. apply run_modify in R. subst wx.
  mstep Hr. mstep Hr. apply run_enterApp in R.
  destruct R as (s' & -> & SE & SR). mprim Hr. simpl in *.
  repeat split; auto.
  - destruct SE as (E1 & _ & _). intros. now rewrite E1, galleryAt_ensured.
  - destruct SE as (_ & E2 & _). intros. now rewrite E2, postAt_ensured.
  - destruct SE as (_ & _ & E3). intros. now rewrite E3, commentAt_ensured.
  - now destruct SR as (? & _).
  - now destruct SR as (_ & ? & _).
  - now destruct SR as (_ & _ & ? & _).
  - intros o Ho. destruct SR as (_ & _ & _ & SP). apply SP.
    now apply sameRegistry_ensured.
Qed.

(** What a successful [signup] leaves. *)
Lemma signup_run (u p : string) (w : World) :
  isValidUsername u = true ->
  truthyAt (usernameIndex (state w)) u = false ->
  let s := state w in
  let salt := randomBytes (draws w) SALT_BYTES in
  let userId := fst (safeId randomBytes "u_" (drawn w)) in
  let user := User.mk userId u (bytesToB64 salt)
                      (deriveHashB64 pbkdf2 p salt) (clock (ticks w)) "user" in
  let s1 := mkState (version s) (Dict.set (users s) userId user)
                    (Dict.set (usernameIndex s) u userId) (userData s) in
  signup clock randomBytes pbkdf2 u p w =
  (true,
   toasted (saved (setState (ticked (drawn (drawn w))) (ensured s1 userId)))
           "회원가입" "계정이 생성되었습니다. 로그인하세요.").
Proof.
  intros Hv Hi. unfold signup. rewrite Hv. simpl.
  unfold bind at 1, getState, gets. rewrite Hi. reflexivity.
Qed.

Lemma safeId_truthy (prefix : string) (c : ascii) (w : World) :
  truthy (fst (safeId randomBytes (String c prefix) w)) = true.
Proof. reflexivity. Qed.


(* ------------------------------------------------------------------ *)
(** ** What the queries write *)

Lemma run_scanPosts (pid : string) (l : list string) :
  forall (w w' : World) (r : option (Ctx.t Post.t)),
  (forall o, In o l -> partAt (state w) o <> None) ->
  run (scanPosts pid l) w r w' ->
  r = findPost (state w) pid l /\
  exists s', w' = setState w s' /\
    normalizedOn (scanned (fun o => isSome (postAt (state w) o pid)) l)
                 (state w) s'.
Proof.
  induction l as [|o l IH]; simpl; intros w w' r Hp Hr.
  - mprim Hr. split; auto. exists (state w).
    split; [now rewrite setState_state | apply normalizedOn_nil].
  - mstep Hr. rewrite get_posts_ensure in Hr.
    assert (partAt (state w) o <> None) as Ho by (apply Hp; now left).
    destruct (postAt (state w) o pid) as [g|] eqn:Eg; simpl.
    + mprim Hr. split; auto. eexists. split; [reflexivity|].
      apply normalizedOn_cons; auto. apply normalizedOn_nil.
    + apply IH in Hr.
      * destruct Hr as [-> (s' & -> & Hn)]. simpl in *. split.
        -- apply findPost_ext. intros. apply postAt_ensured.
        -- exists s'. split; auto. apply normalizedOn_cons; auto.
           rewrite (scanned_ext _
                      (fun o0 => isSome (postAt (ensured (state w) o) o0 pid)));
             [exact Hn|].
           intros o0. now rewrite postAt_ensured.
      * intros o' Hin. simpl. rewrite partAt_ensured.
        destruct (String.eqb o o'); [discriminate | apply Hp; now right].
Qed.


(** The document [resolvePostCtx] leaves, when the key is usable. *)
Lemma resolvePostCtx_writes (pid hint : option string) (w w' : World)
  (r : option (Ctx.t Post.t)) :
  truthyO pid = true ->
  run (resolvePostCtx pid hint) w r w' ->
  exists s', w' = setState w s' /\
    normalizedOn
      (visited (fun o => isSome (postAt (state w) o (nullish pid "")))
               (state w) hint)
      (hintedState (state w) hint) s'.
Proof.
  unfold resolvePostCtx, visited, hintedState. intros Eg Hr.
  rewrite Eg in Hr. simpl in Hr.
  mstep Hr. destruct (truthyO hint) eqn:Eh; simpl.
  - mstep R. mprim R. rewrite get_posts_ensure in Hr.
    destruct (postAt (state w) (nullish hint "") (nullish pid "")) as [g|] eqn:Ea;
      simpl in *.
    + mprim Hr. eexists. split; [reflexivity | apply normalizedOn_nil].
    + mstep Hr. apply run_scanPosts in Hr.
      * destruct Hr as [_ (s' & -> & Hn)]. simpl in *.
        exists s'. split; auto.
        rewrite (scanned_ext _
          (fun o => isSome (postAt (ensured (state w) (nullish hint "")) o
                                   (nullish pid ""))));
          [exact Hn|].
        intros o. now rewrite postAt_ensured.
      * intros o Ho. now apply keys_present.
  - mprim R. mstep Hr. apply run_scanPosts in Hr.
    + destruct Hr as [_ (s' & -> & Hn)]. exists s'. auto.
    + intros o Ho. now apply keys_present.
Qed.

Lemma normalize_default : normalizeUserData defaultUserData = defaultUserData.
Proof. reflexivity. Qed.

Lemma scanned_incl (has : string -> bool) (l : list string) (o : string) :
  In o (scanned has l) -> In o l.
Proof.
  induction l as [|o' l IH]; simpl; auto.
  intros [H | H]; auto. destruct (has o'); [contradiction | auto].
Qed.


Lemma normalizeUserData_fills (ud : UserData.t) :
  defaultsFilled ud (normalizeUserData ud).
Proof. repeat split. Qed.










(* ------------------------------------------------------------------ *)
(** ** The effect of every operation on galleries and posts *)

Lemma sameGP_refl (s : State) : sameGP s s.
Proof. split; auto. Qed.

Lemma sameGP_trans (s1 s2 s3 : State) :
  sameGP s1 s2 -> sameGP s2 s3 -> sameGP s1 s3.
Proof. intros (A1 & A2) (B1 & B2). split; intros; congruence. Qed.

Lemma sameGP_ensured (s : State) (o : string) : sameGP s (ensured s o).
Proof. split; intros; [apply galleryAt_ensured | apply postAt_ensured]. Qed.

Lemma sameEntities_sameGP (s s' : State) : sameEntities s s' -> sameGP s s'.
Proof. intros (A & B & _). split; auto. Qed.

Lemma run_safeId (prefix : string) (w w' : World) (i : string) :
  run (safeId randomBytes prefix) w i w' <->
  i = nextId randomBytes prefix w /\ w' = drawn w.
Proof.
  unfold run, nextId, safeId, bind, getRandomValues, ret, drawn. simpl. split.
  - intros H. inversion H. auto.
  - intros [-> ->]. reflexivity.
Qed.

Lemma nextId_setState (prefix : string) (w : World) (s : State) :
  nextId randomBytes prefix (setState w s) = nextId randomBytes prefix w.
Proof. reflexivity. Qed.

Lemma createGallery_effect (o : string) (d : GalleryData.t)
  (w w' : World) (r : option Gallery.t) :
  run (createGallery clock randomBytes o d) w r w' ->
  sameGP (state w) (state w') \/
  exists g,
    Gallery.id g = nextId randomBytes "g_" w /\
    Gallery.deletedAt g = None /\
    (forall o' k,
       galleryAt (state w') o' k =
       if String.eqb o o' && String.eqb (nextId randomBytes "g_" w) k
       then Some g else galleryAt (state w) o' k) /\
    (forall a k, postAt (state w') a k = postAt (state w) a k).
Proof.
  unfold createGallery. intros Hr. mstep Hr.
  destruct (canManage o w); simpl in Hr.
  - mstep Hr. mstep Hr. apply run_safeId in R. destruct R as [-> ->].
    mstep Hr. mstep Hr. mstep Hr. mstep Hr. mprim Hr. right.
    eexists. split; [|split; [|split]]; cycle 2.
    + intros o' k. simpl.
      rewrite galleryAt_putGallery by apply partAt_ensured_self.
      rewrite galleryAt_ensured. reflexivity.
    + intros a k. simpl. now rewrite postAt_withGalleries, postAt_ensured.
    + reflexivity.
    + reflexivity.
  - mstep Hr. mprim Hr. left. apply sameGP_refl.
Qed.

Lemma updateGallery_effect (o gid : string) (patch : GalleryPatch.t)
  (w w' : World) (r : bool) :
  run (updateGallery clock o gid patch) w r w' ->
  sameGP (state w) (state w') \/
  exists g g',
    galleryAt (state w) o gid = Some g /\ galleryDeleted g = false /\
    Gallery.id g' = Gallery.id g /\ Gallery.deletedAt g' = Gallery.deletedAt g /\
    (forall o' k,
       galleryAt (state w') o' k =
       if String.eqb o o' && String.eqb gid k
       then Some g' else galleryAt (state w) o' k) /\
    (forall a k, postAt (state w') a k = postAt (state w) a k).
Proof.
  unfold updateGallery. intros Hr. mstep Hr.
  destruct (canManage o w); simpl in Hr.
  - mstep Hr. rewrite get_galleries_ensure in Hr.
    destruct (galleryAt (state w) o gid) as [g|] eqn:Eg.
    + fold (galleryDeleted g) in Hr. destruct (galleryDeleted g) eqn:Ed.
      * mprim Hr. left. apply sameGP_ensured.
      * mstep Hr. mstep Hr. mstep Hr. mprim Hr. right.
        exists g. eexists. split; auto. split; auto.
        split; [|split; [|split]]; cycle 2.
        -- intros o' k. simpl.
           rewrite galleryAt_putGallery by apply partAt_ensured_self.
           rewrite galleryAt_ensured. reflexivity.
        -- intros a k. simpl. now rewrite postAt_withGalleries, postAt_ensured.
        -- reflexivity.
        -- reflexivity.
    + mprim Hr. left. apply sameGP_ensured.
  - mstep Hr. mprim Hr. left. apply sameGP_refl.
Qed.

Lemma deleteGallerySoft_effect (o gid : string) (w w' : World) (r : bool) :
  run (deleteGallerySoft clock o gid) w r w' ->
  sameGP (state w) (state w') \/
  exists g,
    galleryAt (state w) o gid = Some g /\ galleryDeleted g = false /\
    (forall o' k,
       galleryAt (state w') o' k =
       if String.eqb o o' && String.eqb gid k
       then Some (Gallery.set_updatedAt
                    (Gallery.set_deletedAt g (Some (clock (ticks w))))
                    (clock (S (ticks w))))
       else galleryAt (state w) o' k) /\
    (forall a k,
       tombstoneRel clock
         (match postAt (state w) a k with
          | Some p => postInGallery a o gid p
          | None => false
          end)
         (postAt (state w) a k) (postAt (state w') a k)).
Proof using clock_truthy.
  intros Hr. destruct (canManage o w) eqn:Hperm.
  - destruct (galleryAt (state w) o gid) as [g|] eqn:Eg.
    + destruct (galleryDeleted g) eqn:Ed.
      * unfold deleteGallerySoft in Hr. mstep Hr. rewrite Hperm in Hr.
        simpl in Hr. mstep Hr. rewrite get_galleries_ensure, Eg in Hr.
        fold (galleryDeleted g) in Hr. rewrite Ed in Hr. mprim Hr.
        left. apply sameGP_ensured.
      * right. exists g.
        destruct (deleteGallerySoft_ok _ _ _ _ _ _ Hperm Eg Ed Hr)
          as (_ & _ & _ & _ & R5 & _ & R7). auto.
    + unfold deleteGallerySoft in Hr. mstep Hr. rewrite Hperm in Hr.
      simpl in Hr. mstep Hr. rewrite get_galleries_ensure, Eg in Hr.
      mprim Hr. left. apply sameGP_ensured.
  - unfold deleteGallerySoft in Hr. mstep Hr. rewrite Hperm in Hr.
    simpl in Hr. mstep Hr. mprim Hr. left. apply sameGP_refl.
Qed.

Lemma restoreGallery_effect (o gid : string) (w w' : World) (r : bool) :
  run (restoreGallery clock o gid) w r w' ->
  sameGP (state w) (state w') \/
  exists g,
    galleryAt (state w) o gid = Some g /\ galleryDeleted g = true /\
    (forall o' k,
       galleryAt (state w') o' k =
       if String.eqb o o' && String.eqb gid k
       then Some (Gallery.set_updatedAt (Gallery.set_deletedAt g None)
                                        (clock (ticks w)))
       else galleryAt (state w) o' k) /\
    (forall a k,
       restoreRel clock
         (match postAt (state w) a k with
          | Some p => postInGallery a o gid p
          | None => false
          end)
         (postAt (state w) a k) (postAt (state w') a k)).
Proof.
  intros Hr. destruct (canManage o w) eqn:Hperm.
  - destruct (galleryAt (state w) o gid) as [g|] eqn:Eg.
    + destruct (galleryDeleted g) eqn:Ed.
      * right. exists g.
        destruct (restoreGallery_ok _ _ _ _ _ _ Hperm Eg Ed Hr)
          as (_ & _ & _ & _ & R5 & _ & R7). auto.
      * unfold restoreGallery in Hr. mstep Hr. rewrite Hperm in Hr.
        simpl in Hr. mstep Hr. rewrite get_galleries_ensure, Eg in Hr.
        fold (galleryDeleted g) in Hr. rewrite Ed in Hr. simpl in Hr.
        mprim Hr. left. apply sameGP_ensured.
    + unfold restoreGallery in Hr. mstep Hr. rewrite Hperm in Hr.
      simpl in Hr. mstep Hr. rewrite get_galleries_ensure, Eg in Hr.
      mprim Hr. left. apply sameGP_ensured.
  - unfold restoreGallery in Hr. mstep Hr. rewrite Hperm in Hr.
    simpl in Hr. mstep Hr. mprim Hr. left. apply sameGP_refl.
Qed.

Lemma purgeGallery_effect (o gid : string) (w w' : World) (r : bool) :
  run (purgeGallery o gid) w r w' ->
  sameGP (state w) (state w') \/
  exists g L,
    galleryAt (state w) o gid = Some g /\
    listsGallery (state w) o gid L /\
    (forall o' k,
       galleryAt (state w') o' k =
       if String.eqb o o' && String.eqb gid k then None
       else galleryAt (state w) o' k) /\
    (forall a k,
       postAt (state w') a k =
       if purgedAt a k L then None else postAt (state w) a k).
Proof.
  intros Hr. destruct (canManage o w) eqn:Hperm.
  - destruct (galleryAt (state w) o gid) as [g|] eqn:Eg.
    + right. exists g.
      destruct (purgeGallery_ok _ _ _ _ _ _ Hperm Eg Hr)
        as (_ & _ & _ & RG & L & HL & RP & _).
      exists L. auto.
    + unfold purgeGallery in Hr. mstep Hr. rewrite Hperm in Hr.
      simpl in Hr. mstep Hr. rewrite get_galleries_ensure, Eg in Hr.
      mprim Hr. left. apply sameGP_ensured.
  - unfold purgeGallery in Hr. mstep Hr. rewrite Hperm in Hr.
    simpl in Hr. mstep Hr. mprim Hr. left. apply sameGP_refl.
Qed.

Lemma createPost_effect (a : string) (d : PostData.t)
  (w w' : World) (r : option Post.t) :
  run (createPost clock randomBytes a d) w r w' ->
  sameGP (state w) (state w') \/
  exists p,
    Post.id p = nextId randomBytes "p_" w /\
    Post.deletedByGallery p = false /\
    (forall o k, galleryAt (state w') o k = galleryAt (state w) o k) /\
    (forall a' k,
       postAt (state w') a' k =
       if String.eqb a a' && String.eqb (nextId randomBytes "p_" w) k
       then Some p else postAt (state w) a' k).
Proof.
  unfold createPost. intros Hr. mstep Hr.
  destruct (canManage a w); simpl in Hr.
  - mstep Hr. apply run_resolveGalleryCtx in R.
    destruct R as [-> (s2 & -> & SE & SR)].
    destruct (resolvedGallery (state w) (PostData.galleryId d)
                              (PostData.galleryOwnerId d)) as [c|].
    + destruct (truthyO (Gallery.deletedAt (Ctx.item c))).
      * mstep Hr. mprim Hr. left. simpl. now apply sameEntities_sameGP.
      * mstep Hr. mstep Hr. apply run_safeId in R. destruct R as [-> ->].
        mstep Hr. mstep Hr. mstep Hr. mstep Hr. mprim Hr. right.
        destruct SE as (E1 & E2 & _).
        eexists. split; [|split; [|split]]; cycle 2.
        -- intros o k. simpl.
           now rewrite galleryAt_withPosts, galleryAt_ensured, E1.
        -- intros a' k. simpl.
           rewrite postAt_putPost by apply partAt_ensured_self.
           rewrite postAt_ensured, E2. reflexivity.
        -- reflexivity.
        -- reflexivity.
    + mstep Hr. mprim Hr. left. simpl. now apply sameEntities_sameGP.
  - mstep Hr. mprim Hr. left. apply sameGP_refl.
Qed.

Lemma updatePost_effect (a pid : string) (patch : PostPatch.t)
  (w w' : World) (r : bool) :
  run (updatePost clock a pid patch) w r w' ->
  sameGP (state w) (state w') \/
  exists p p',
    postAt (state w) a pid = Some p /\ postDeleted p = false /\
    Post.id p' = Post.id p /\
    Post.galleryOwnerId p' = Post.galleryOwnerId p /\
    Post.galleryId p' = Post.galleryId p /\
    Post.deletedAt p' = Post.deletedAt p /\
    Post.deletedByGallery p' = Post.deletedByGallery p /\
    (forall o k, galleryAt (state w') o k = galleryAt (state w) o k) /\
    (forall a' k,
       postAt (state w') a' k =
       if String.eqb a a' && String.eqb pid k
       then Some p' else postAt (state w) a' k).
Proof.
  unfold updatePost. intros Hr. mstep Hr.
  destruct (canManage a w); simpl in Hr.
  - mstep Hr. rewrite get_posts_ensure in Hr.
    destruct (postAt (state w) a pid) as [p|] eqn:Ep.
    + fold (postDeleted p) in Hr. destruct (postDeleted p) eqn:Ed.
      * mprim Hr. left. apply sameGP_ensured.
      * mstep Hr. mstep Hr. mstep Hr. mprim Hr. right.
        exists p.
        match goal with |- context [Dict.set _ _ ?P] => exists P end.
        do 7 (split; [auto|]). split.
        -- intros o k. simpl.
           now rewrite galleryAt_withPosts, galleryAt_ensured.
        -- intros a' k. simpl.
           rewrite postAt_putPost by apply partAt_ensured_self.
           rewrite postAt_ensured. reflexivity.
    + mprim Hr. left. apply sameGP_ensured.
  - mstep Hr. mprim Hr. left. apply sameGP_refl.
Qed.

Lemma deletePostSoft_effect (a pid : string) (w w' : World) (r : bool) :
  run (deletePostSoft clock a pid) w r w' ->
  sameGP (state w) (state w') \/
  exists p p',
    postAt (state w) a pid = Some p /\ postDeleted p = false /\
    Post.id p' = Post.id p /\
    postDeleted p' = true /\
    Post.deletedByGallery p' = false /\
    (forall o k, galleryAt (state w') o k = galleryAt (state w) o k) /\
    (forall a' k,
       postAt (state w') a' k =
       if String.eqb a a' && String.eqb pid k
       then Some p' else postAt (state w) a' k).
Proof using clock_truthy.
  unfold deletePostSoft. intros Hr. mstep Hr.
  destruct (canManage a w); simpl in Hr.
  - mstep Hr. rewrite get_posts_ensure in Hr.
    destruct (postAt (state w) a pid) as [p|] eqn:Ep.
    + fold (postDeleted p) in Hr. destruct (postDeleted p) eqn:Ed.
      * mprim Hr. left. apply sameGP_ensured.
      * mstep Hr. mstep Hr. mstep Hr. mstep Hr. mprim Hr. right.
        exists p.
        match goal with |- context [Dict.set _ _ ?P] => exists P end.
        do 3 (split; [auto|]).
        split; [unfold postDeleted; simpl; apply clock_truthy|].
        split; [reflexivity|]. split.
        -- intros o k. simpl.
           now rewrite galleryAt_withPosts, galleryAt_ensured.
        -- intros a' k. simpl.
           rewrite postAt_putPost by apply partAt_ensured_self.
           rewrite postAt_ensured. reflexivity.
    + mprim Hr. left. apply sameGP_ensured.
  - mstep Hr. mprim Hr. left. apply sameGP_refl.
Qed.

Lemma restorePost_effect (a pid : string) (w w' : World) (r : bool) :
  run (restorePost clock a pid) w r w' ->
  sameGP (state w) (state w') \/
  exists p c t,
    postAt (state w) a pid = Some p /\ postDeleted p = true /\
    resolvedGallery (state w) (Some (Post.galleryId p))
                    (Post.galleryOwnerId p) = Some c /\
    galleryDeleted (Ctx.item c) = false /\
    (forall o k, galleryAt (state w') o k = galleryAt (state w) o k) /\
    (forall a' k,
       postAt (state w') a' k =
       if String.eqb a a' && String.eqb pid k
       then Some (restored p t) else postAt (state w) a' k).
Proof.
  intros Hr. destruct (canManage a w) eqn:Hperm.
  - destruct (postAt (state w) a pid) as [p|] eqn:Ep.
    + destruct (postDeleted p) eqn:Ed.
      * pose proof (restorePost_run _ _ _ _ _ _ Hperm Ep Ed Hr) as H.
        destruct (resolvedGallery (state w) (Some (Post.galleryId p))
                                  (Post.galleryOwnerId p)) as [c|] eqn:Ec.
        -- destruct (galleryDeleted (Ctx.item c)) eqn:Eg.
           ++ destruct H as (_ & s' & -> & SE & _). left. simpl.
              now apply sameEntities_sameGP.
           ++ destruct H as (_ & _ & _ & G & _ & P). right.
              exists p, c, (clock (ticks w)). auto 10.
        -- destruct H as (_ & s' & -> & SE & _). left. simpl.
           now apply sameEntities_sameGP.
      * unfold restorePost in Hr. mstep Hr. rewrite Hperm in Hr.
        simpl in Hr. mstep Hr. rewrite get_posts_ensure, Ep in Hr.
        fold (postDeleted p) in Hr. rewrite Ed in Hr. simpl in Hr.
        mprim Hr. left. apply sameGP_ensured.
    + unfold restorePost in Hr. mstep Hr. rewrite Hperm in Hr.
      simpl in Hr. mstep Hr. rewrite get_posts_ensure, Ep in Hr.
      mprim Hr. left. apply sameGP_ensured.
  - unfold restorePost in Hr. mstep Hr. rewrite Hperm in Hr.
    simpl in Hr. mstep Hr. mprim Hr. left. apply sameGP_refl.
Qed.

Lemma purgePost_effect (a pid : string) (w w' : World) (r : bool) :
  run (purgePost a pid) w r w' ->
  sameGP (state w) (state w') \/
  ((forall o k, galleryAt (state w') o k = galleryAt (state w) o k) /\
   (forall a' k,
      postAt (state w') a' k =
      if String.eqb a a' && String.eqb pid k then None
      else postAt (state w) a' k)).
Proof.
  intros Hr. destruct (canManage a w) eqn:Hperm.
  - destruct (postAt (state w) a pid) as [p|] eqn:Ep.
    + right. destruct (purgePost_ok _ _ _ _ _ _ Hperm Ep Hr)
        as (_ & _ & _ & G & P & _). auto.
    + unfold purgePost in Hr. mstep Hr. rewrite Hperm in Hr.
      simpl in Hr. mstep Hr. rewrite get_posts_ensure, Ep in Hr.
      mprim Hr. left. apply sameGP_ensured.
  - unfold purgePost in Hr. mstep Hr. rewrite Hperm in Hr.
    simpl in Hr. mstep Hr. mprim Hr. left. apply sameGP_refl.
Qed.

Lemma hintedState_sameEntities (s : State) (hint : option string) :
  sameEntities s (hintedState s hint).
Proof.
  unfold hintedState. destruct (truthyO hint);
    [apply sameEntities_ensured | apply sameEntities_refl].
Qed.

Lemma resolvePostCtx_frame (pid hint : option string) (w w' : World)
  (r : option (Ctx.t Post.t)) :
  run (resolvePostCtx pid hint) w r w' ->
  exists s', w' = setState w s' /\ sameEntities (state w) s'.
Proof.
  intros Hr. destruct (truthyO pid) eqn:Ep.
  - apply resolvePostCtx_writes in Hr; auto.
    destruct Hr as (s' & -> & Hn). exists s'. split; auto.
    eapply sameEntities_trans; [apply hintedState_sameEntities|].
    eapply normalizedOn_sameEntities; eauto.
  - unfold resolvePostCtx in Hr. rewrite Ep in Hr. simpl in Hr. mprim Hr.
    exists (state w). split; [now rewrite setState_state|].
    apply sameEntities_refl.
Qed.

Lemma createComment_effect (a postId : string) (text : option string)
  (w w' : World) (r : option Comment.t) :
  run (createComment clock randomBytes a postId text) w r w' ->
  sameGP (state w) (state w').
Proof.
  unfold createComment. intros Hr. mstep Hr.
  destruct (canManage a w); simpl in Hr.
  - mstep Hr. apply resolvePostCtx_frame in R.
    destruct R as (s2 & -> & (E1 & E2 & _)).
    match type of Hr with
    | run (if ?b then _ else _) _ _ _ => destruct b
    end.
    + mstep Hr. mprim Hr. simpl. split; auto.
    + mstep Hr. mstep Hr. apply run_safeId in R. destruct R as [-> ->].
      mstep Hr. mstep Hr. mstep Hr. mstep Hr. mprim Hr. simpl. split.
      * intros. now rewrite galleryAt_withComments, galleryAt_ensured, E1.
      * intros. now rewrite postAt_withComments, postAt_ensured, E2.
  - mstep Hr. mprim Hr. apply sameGP_refl.
Qed.

Lemma updateComment_effect (a cid : string) (patch : CommentPatch.t)
  (w w' : World) (r : bool) :
  run (updateComment clock a cid patch) w r w' ->
  sameGP (state w) (state w').
Proof.
  unfold updateComment. intros Hr. mstep Hr.
  destruct (canManage a w); simpl in Hr.
  - mstep Hr. destruct (Dict.get _ cid) as [c|].
    + destruct (truthyO (Comment.deletedAt c)).
      * mprim Hr. apply sameGP_ensured.
      * mstep Hr. mstep Hr. mstep Hr. mprim Hr. simpl. split.
        -- intros. now rewrite galleryAt_withComments, galleryAt_ensured.
        -- intros. now rewrite postAt_withComments, postAt_ensured.
    + mprim Hr. apply sameGP_ensured.
  - mstep Hr. mprim Hr. apply sameGP_refl.
Qed.

Lemma deleteCommentSoft_effect (a cid : string) (w w' : World) (r : bool) :
  run (deleteCommentSoft clock a cid) w r w' ->
  sameGP (state w) (state w').
Proof.
  unfold deleteCommentSoft. intros Hr. mstep Hr.
  destruct (canManage a w); simpl in Hr.
  - mstep Hr. destruct (Dict.get _ cid) as [c|].
    + destruct (truthyO (Comment.deletedAt c)).
      * mprim Hr. apply sameGP_ensured.
      * mstep Hr. mstep Hr. mstep Hr. mstep Hr. mprim Hr. simpl. split.
        -- intros. now rewrite galleryAt_withComments, galleryAt_ensured.
        -- intros. now rewrite postAt_withComments, postAt_ensured.
    + mprim Hr. apply sameGP_ensured.
  - mstep Hr. mprim Hr. apply sameGP_refl.
Qed.

Lemma signup_effect (u p : string) (w : World) :
  sameGP (state w) (state (snd (signup clock randomBytes pbkdf2 u p w))).
Proof.
  destruct (isValidUsername u) eqn:Ev.
  - destruct (truthyAt (usernameIndex (state w)) u) eqn:Ei.
    + unfold signup. rewrite Ev. simpl. unfold bind at 1, getState, gets.
      rewrite Ei. apply sameGP_refl.
    + rewrite signup_run by auto. simpl. split; intros.
      * now rewrite galleryAt_ensured.
      * now rewrite postAt_ensured.
  - unfold signup. rewrite Ev. apply sameGP_refl.
Qed.

Lemma login_effect (u p : string) (remember : bool) (w : World) :
  sameGP (state w) (state (snd (login pbkdf2 u p remember w))).
Proof.
  rewrite login_account.
  destruct (accountOf (state w) u) as [[uid user]|]; [|apply sameGP_refl].
  destruct (b64ToBytes (User.saltB64 user)) as [salt|]; [|apply sameGP_refl].
  destruct (String.eqb _ _); [|apply sameGP_refl].
  match goal with
  | |- sameGP _ (state (snd (?m ?w0))) =>
      pose proof (run_total m w0) as Hr; apply login_enters in Hr
  end.
  destruct Hr as (_ & _ & _ & SE & _). now apply sameEntities_sameGP.
Qed.

(* ------------------------------------------------------------------ *)
(** ** The invariants of the reachable worlds *)

Lemma wellFormed_sameGP (s s' : State) :
  sameGP s s' -> wellFormed s -> wellFormed s'.
Proof.
  intros (G & P) (I1 & I3 & I4 & I5 & I2).
  unfold wellFormed, flagImpliesTombstone, flaggedUnderTombstone,
    postsKeyedById, galleriesKeyedById, galleryKeysUnique in *.
  repeat split; intros *.
  - rewrite P. apply I1.
  - rewrite P, G. apply I3.
  - rewrite P. apply I4.
  - rewrite G. apply I5.
  - rewrite !G. apply I2.
Qed.

Lemma eqb_pair_true (a b c d : string) :
  String.eqb a b && String.eqb c d = true <-> a = b /\ c = d.
Proof. clear localeLe pbkdf2. rewrite andb_true_iff, !String.eqb_eq. tauto. Qed.

(** One post path rewritten, galleries untouched. *)
Lemma wellFormed_post_update (s s' : State) (a0 k0 : string)
  (np : option Post.t) :
  wellFormed s ->
  (forall o k, galleryAt s' o k = galleryAt s o k) ->
  (forall a k,
     postAt s' a k =
     if String.eqb a0 a && String.eqb k0 k then np else postAt s a k) ->
  (forall p', np = Some p' ->
     Post.id p' = k0 /\
     (Post.deletedByGallery p' = true ->
      postDeleted p' = true /\
      exists g, galleryAt s (galleryOwnerOf a0 p') (Post.galleryId p') = Some g /\
                galleryDeleted g = true)) ->
  wellFormed s'.
Proof.
  intros (I1 & I3 & I4 & I5 & I2) G P N.
  unfold wellFormed, flagImpliesTombstone, flaggedUnderTombstone,
    postsKeyedById, galleriesKeyedById, galleryKeysUnique in *.
  repeat split; intros *.
  - rewrite P. destruct (String.eqb a0 a && String.eqb k0 k) eqn:E.
    + intros Hp Hf. destruct (N _ Hp) as [_ H]. now apply H.
    + apply I1.
  - rewrite P. destruct (String.eqb a0 a && String.eqb k0 k) eqn:E.
    + intros Hp Hf. apply eqb_pair_true in E. destruct E as [<- <-].
      destruct (N _ Hp) as [_ H]. destruct (H Hf) as [_ (g & Hg & Hd)].
      exists g. now rewrite G.
    + intros Hp Hf. destruct (I3 _ _ _ Hp Hf) as (g & Hg & Hd).
      exists g. now rewrite G.
  - rewrite P. destruct (String.eqb a0 a && String.eqb k0 k) eqn:E.
    + intros Hp. apply eqb_pair_true in E. destruct E as [<- <-].
      now destruct (N _ Hp) as [H _].
    + apply I4.
  - rewrite G. apply I5.
  - rewrite !G. apply I2.
Qed.

(** One gallery path written, posts untouched. *)
Lemma wellFormed_gallery_update (s s' : State) (o0 k0 : string)
  (g' : Gallery.t) :
  wellFormed s ->
  (forall a k, postAt s' a k = postAt s a k) ->
  (forall o k,
     galleryAt s' o k =
     if String.eqb o0 o && String.eqb k0 k then Some g' else galleryAt s o k) ->
  Gallery.id g' = k0 ->
  (forall o, galleryAt s o k0 <> None -> o = o0) ->
  (forall g, galleryAt s o0 k0 = Some g -> galleryDeleted g = true ->
             galleryDeleted g' = true) ->
  wellFormed s'.
Proof.
  intros (I1 & I3 & I4 & I5 & I2) P G Hid Hu Hd.
  unfold wellFormed, flagImpliesTombstone, flaggedUnderTombstone,
    postsKeyedById, galleriesKeyedById, galleryKeysUnique in *.
  repeat split; intros *.
  - rewrite P. apply I1.
  - rewrite P, G. intros Hp Hf. destruct (I3 _ _ _ Hp Hf) as (g & Hg & Hgd).
    destruct (String.eqb o0 (galleryOwnerOf a p)
              && String.eqb k0 (Post.galleryId p)) eqn:E.
    + apply eqb_pair_true in E. destruct E as [E1 E2].
      rewrite <- E1, <- E2 in Hg. eauto.
    + eauto.
  - rewrite P. apply I4.
  - rewrite G. destruct (String.eqb o0 o && String.eqb k0 k) eqn:E.
    + apply eqb_pair_true in E. destruct E as [<- <-]. congruence.
    + apply I5.
  - rewrite !G.
    destruct (String.eqb o0 o && String.eqb k0 k) eqn:E;
      destruct (String.eqb o0 o' && String.eqb k0 k) eqn:E'.
    + apply eqb_pair_true in E, E'. destruct E, E'. congruence.
    + apply eqb_pair_true in E. destruct E as [<- <-].
      intros _ Hg'. symmetry. apply Hu. congruence.
    + apply eqb_pair_true in E'. destruct E' as [<- <-].
      intros Hg _. apply Hu. congruence.
    + apply I2.
Qed.

Lemma postInGallery_iff (a o k : string) (p : Post.t) :
  postInGallery a o k p = true <->
  galleryOwnerOf a p = o /\ Post.galleryId p = k.
Proof. unfold postInGallery, galleryOwnerOf. apply eqb_pair_true. Qed.

Lemma galleryKeysUnique_shrink (s s' : State) :
  (forall o k, galleryAt s' o k <> None -> galleryAt s o k <> None) ->
  galleryKeysUnique s -> galleryKeysUnique s'.
Proof.
  intros H I2 o o' k g g' Hg Hg'.
  assert (galleryAt s o k <> None) as A by (apply H; congruence).
  assert (galleryAt s o' k <> None) as B by (apply H; congruence).
  destruct (galleryAt s o k) as [x|] eqn:Ex; [|congruence].
  destruct (galleryAt s o' k) as [y|] eqn:Ey; [|congruence].
  eapply I2; eauto.
Qed.

(** The cascade of [deleteGallerySoft]. *)
Lemma wellFormed_deleteGallery (s s' : State) (o0 k0 : string)
  (g g' : Gallery.t) :
  wellFormed s ->
  galleryAt s o0 k0 = Some g -> galleryDeleted g = false ->
  Gallery.id g' = Gallery.id g -> galleryDeleted g' = true ->
  (forall o k,
     galleryAt s' o k =
     if String.eqb o0 o && String.eqb k0 k then Some g' else galleryAt s o k) ->
  (forall a k,
     tombstoneRel clock
       (match postAt s a k with
        | Some p => postInGallery a o0 k0 p
        | None => false
        end)
       (postAt s a k) (postAt s' a k)) ->
  wellFormed s'.
Proof using clock_truthy.
  intros (I1 & I3 & I4 & I5 & I2) Hg Hgd Hid Hgd' G P.
  assert (forall a k p',
            postAt s' a k = Some p' ->
            postAt s a k = Some p' \/
            exists p n m, postAt s a k = Some p /\
                          postInGallery a o0 k0 p = true /\
                          p' = tombstoned p (clock n) (clock m)) as Hcase.
  { intros a k p' Hp'. specialize (P a k). unfold tombstoneRel in P.
    destruct (postAt s a k) as [p|]; [|congruence].
    destruct (postInGallery a o0 k0 p) eqn:Ein; simpl in P.
    - destruct (postDeleted p); simpl in P.
      + left. congruence.
      + destruct P as (n & m & P). right. exists p, n, m.
        repeat split; auto. congruence.
    - left. congruence. }
  unfold wellFormed. repeat split.
  - intros a k p' Hp' Hf. destruct (Hcase _ _ _ Hp') as [H | (p & n & m & H & _ & ->)].
    + eapply I1; eauto.
    + apply postDeleted_tombstoned.
  - intros a k p' Hp' Hf. rewrite G.
    destruct (Hcase _ _ _ Hp') as [H | (p & n & m & H & Hin & ->)].
    + destruct (I3 _ _ _ H Hf) as (g0 & Hg0 & Hd0).
      destruct (String.eqb o0 (galleryOwnerOf a p')
                && String.eqb k0 (Post.galleryId p')) eqn:E; eauto.
    + apply postInGallery_iff in Hin. destruct Hin as [E1 E2].
      unfold galleryOwnerOf in *. simpl. rewrite E1, E2, !String.eqb_refl.
      simpl. eauto.
  - intros a k p' Hp'. destruct (Hcase _ _ _ Hp') as [H | (p & n & m & H & _ & ->)].
    + eapply I4; eauto.
    + simpl. eapply I4; eauto.
  - intros o k g1. rewrite G.
    destruct (String.eqb o0 o && String.eqb k0 k) eqn:E.
    + apply eqb_pair_true in E. destruct E as [<- <-].
      intros H. inversion H. subst g1. rewrite Hid. eapply I5; eauto.
    + apply I5.
  - apply (galleryKeysUnique_shrink s); auto.
    intros o k. rewrite G.
    destruct (String.eqb o0 o && String.eqb k0 k) eqn:E; auto.
    apply eqb_pair_true in E. destruct E as [<- <-]. congruence.
Qed.

(** The cascade of [restoreGallery]. *)
Lemma wellFormed_restoreGallery (s s' : State) (o0 k0 : string)
  (g g' : Gallery.t) :
  wellFormed s ->
  galleryAt s o0 k0 = Some g ->
  Gallery.id g' = Gallery.id g ->
  (forall o k,
     galleryAt s' o k =
     if String.eqb o0 o && String.eqb k0 k then Some g' else galleryAt s o k) ->
  (forall a k,
     restoreRel clock
       (match postAt s a k with
        | Some p => postInGallery a o0 k0 p
        | None => false
        end)
       (postAt s a k) (postAt s' a k)) ->
  wellFormed s'.
Proof.
  intros (I1 & I3 & I4 & I5 & I2) Hg Hid G P.
  assert (forall a k p',
            postAt s' a k = Some p' ->
            (postAt s a k = Some p' /\
             (postInGallery a o0 k0 p' = true ->
              postDeleted p' && Post.deletedByGallery p' = false)) \/
            exists p n, postAt s a k = Some p /\ p' = restored p (clock n))
    as Hcase.
  { intros a k p' Hp'. specialize (P a k). unfold restoreRel in P.
    destruct (postAt s a k) as [p|]; [|congruence].
    destruct (postInGallery a o0 k0 p) eqn:Ein; simpl in P.
    - destruct (postDeleted p && Post.deletedByGallery p) eqn:Ef.
      + destruct P as (n & P). right. exists p, n. split; auto. congruence.
      + left. assert (p' = p) as -> by congruence. auto.
    - left. assert (p' = p) as -> by congruence. split; auto. congruence. }
  unfold wellFormed. repeat split.
  - intros a k p' Hp' Hf. destruct (Hcase _ _ _ Hp') as [[H _] | (p & n & H & ->)].
    + eapply I1; eauto.
    + discriminate.
  - intros a k p' Hp' Hf. rewrite G.
    destruct (Hcase _ _ _ Hp') as [[H Hout] | (p & n & H & ->)]; [|discriminate].
    destruct (I3 _ _ _ H Hf) as (g0 & Hg0 & Hd0).
    destruct (String.eqb o0 (galleryOwnerOf a p')
              && String.eqb k0 (Post.galleryId p')) eqn:E; eauto.
    apply eqb_pair_true in E. destruct E as [E1 E2].
    assert (postInGallery a o0 k0 p' = true) as Hin
      by (apply postInGallery_iff; auto).
    specialize (Hout Hin). rewrite (I1 _ _ _ H Hf), Hf in Hout. discriminate.
  - intros a k p' Hp'. destruct (Hcase _ _ _ Hp') as [[H _] | (p & n & H & ->)].
    + eapply I4; eauto.
    + simpl. eapply I4; eauto.
  - intros o k g1. rewrite G.
    destruct (String.eqb o0 o && String.eqb k0 k) eqn:E.
    + apply eqb_pair_true in E. destruct E as [<- <-].
      intros H. inversion H. subst g1. rewrite Hid. eapply I5; eauto.
    + apply I5.
  - apply (galleryKeysUnique_shrink s); auto.
    intros o k. rewrite G.
    destruct (String.eqb o0 o && String.eqb k0 k) eqn:E; auto.
    apply eqb_pair_true in E. destruct E as [<- <-]. congruence.
Qed.

(** The cascade of [purgeGallery]. *)
Lemma wellFormed_purgeGallery (s s' : State) (o0 k0 : string)
  (L : list (Entry.t Post.t)) :
  wellFormed s ->
  listsGallery s o0 k0 L ->
  (forall o k,
     galleryAt s' o k =
     if String.eqb o0 o && String.eqb k0 k then None else galleryAt s o k) ->
  (forall a k,
     postAt s' a k = if purgedAt a k L then None else postAt s a k) ->
  wellFormed s'.
Proof.
  intros (I1 & I3 & I4 & I5 & I2) HL G P.
  assert (forall a k p', postAt s' a k = Some p' ->
                         postAt s a k = Some p' /\ purgedAt a k L = false)
    as Hcase.
  { intros a k p'. rewrite P. destruct (purgedAt a k L); [discriminate|auto]. }
  unfold wellFormed. repeat split.
  - intros a k p' Hp' Hf. destruct (Hcase _ _ _ Hp') as [H _]. eapply I1; eauto.
  - intros a k p' Hp' Hf. rewrite G. destruct (Hcase _ _ _ Hp') as [H Hnp].
    destruct (I3 _ _ _ H Hf) as (g0 & Hg0 & Hd0).
    destruct (String.eqb o0 (galleryOwnerOf a p')
              && String.eqb k0 (Post.galleryId p')) eqn:E; eauto.
    apply eqb_pair_true in E. destruct E as [E1 E2].
    assert (purgedAt a k L = true); [|congruence].
    apply (proj2 (purgedAt_true _ _ _ _ a k HL)).
    exists k, p'. repeat split; auto.
    + apply postInGallery_iff. auto.
    + eapply I4; eauto.
  - intros a k p' Hp'. destruct (Hcase _ _ _ Hp') as [H _]. eapply I4; eauto.
  - intros o k g1. rewrite G.
    destruct (String.eqb o0 o && String.eqb k0 k); [discriminate | apply I5].
  - apply (galleryKeysUnique_shrink s); auto.
    intros o k. rewrite G.
    destruct (String.eqb o0 o && String.eqb k0 k); auto.
Qed.

Lemma snd_then_ret {A : Type} (m : M A) (w : World) :
  snd ((m ;;; ret tt) w) = snd (m w).
Proof. unfold bind, ret. now destruct (m w). Qed.

(** Every command keeps the invariants. *)
Lemma exec_wellFormed (c : Command) (w : World) :
  wellFormed (state w) ->
  freshFor randomBytes w c ->
  wellFormed (state (snd (exec clock randomBytes pbkdf2 c w))).
Proof using clock_truthy.
  intros Hwf Hfresh. pose proof Hwf as (I1 & I3 & I4 & I5 & I2).
  destruct c; simpl exec; rewrite ?snd_then_ret.
  - pose proof (run_total (createGallery clock randomBytes ownerId data) w) as Hr.
    apply createGallery_effect in Hr.
    destruct Hr as [H | (g & Hid & Hd & G & P)];
      [eapply wellFormed_sameGP; eauto|].
    simpl in Hfresh.
    eapply wellFormed_gallery_update; eauto.
    + intros o Ho. now rewrite Hfresh in Ho.
    + intros g0 Hg0. now rewrite Hfresh in Hg0.
  - pose proof (run_total (updateGallery clock ownerId gid patch) w) as Hr.
    apply updateGallery_effect in Hr.
    destruct Hr as [H | (g & g' & Hg & Hal & Hid & Hd & G & P)];
      [eapply wellFormed_sameGP; eauto|].
    eapply wellFormed_gallery_update; eauto.
    + rewrite Hid. eapply I5; eauto.
    + intros o Ho. destruct (galleryAt (state w) o gid) as [g0|] eqn:E0;
        [|congruence]. eapply I2; eauto.
    + intros g0 Hg0 Hd0. congruence.
  - pose proof (run_total (deleteGallerySoft clock ownerId gid) w) as Hr.
    apply deleteGallerySoft_effect in Hr.
    destruct Hr as [H | (g & Hg & Hal & G & P)];
      [eapply wellFormed_sameGP; eauto|].
    refine (wellFormed_deleteGallery _ _ _ _ _ _ Hwf Hg Hal _ _ G P).
    + reflexivity.
    + unfold galleryDeleted. simpl. apply clock_truthy.
  - pose proof (run_total (restoreGallery clock ownerId gid) w) as Hr.
    apply restoreGallery_effect in Hr.
    destruct Hr as [H | (g & Hg & Hal & G & P)];
      [eapply wellFormed_sameGP; eauto|].
    refine (wellFormed_restoreGallery _ _ _ _ _ _ Hwf Hg _ G P). reflexivity.
  - pose proof (run_total (purgeGallery ownerId gid) w) as Hr.
    apply purgeGallery_effect in Hr.
    destruct Hr as [H | (g & L & Hg & HL & G & P)];
      [eapply wellFormed_sameGP; eauto|].
    eapply wellFormed_purgeGallery; eauto.
  - pose proof (run_total (createPost clock randomBytes authorId data) w) as Hr.
    apply createPost_effect in Hr.
    destruct Hr as [H | (p & Hid & Hf & G & P)];
      [eapply wellFormed_sameGP; eauto|].
    eapply wellFormed_post_update; eauto.
    intros p' Hp'. inversion Hp'. subst p'. split; auto. congruence.
  - pose proof (run_total (updatePost clock authorId pid patch) w) as Hr.
    apply updatePost_effect in Hr.
    destruct Hr as [H | (p & p' & Hp & Hal & Hid & Ho & Hg & Hd & Hf & G & P)];
      [eapply wellFormed_sameGP; eauto|].
    eapply wellFormed_post_update; eauto.
    intros q Hq. inversion Hq. subst q. split.
    + rewrite Hid. eapply I4; eauto.
    + intros Hf'. rewrite Hf in Hf'.
      pose proof (I1 _ _ _ Hp Hf'). congruence.
  - pose proof (run_total (deletePostSoft clock authorId pid) w) as Hr.
    apply deletePostSoft_effect in Hr.
    destruct Hr as [H | (p & p' & Hp & Hal & Hid & Hd & Hf & G & P)];
      [eapply wellFormed_sameGP; eauto|].
    eapply wellFormed_post_update; eauto.
    intros q Hq. inversion Hq. subst q. split.
    + rewrite Hid. eapply I4; eauto.
    + congruence.
  - pose proof (run_total (restorePost clock authorId pid) w) as Hr.
    apply restorePost_effect in Hr.
    destruct Hr as [H | (p & c & t & Hp & Hd & Hc & Hg & G & P)];
      [eapply wellFormed_sameGP; eauto|].
    eapply wellFormed_post_update; eauto.
    intros q Hq. inversion Hq. subst q. split.
    + simpl. eapply I4; eauto.
    + discriminate.
  - pose proof (run_total (purgePost authorId pid) w) as Hr.
    apply purgePost_effect in Hr.
    destruct Hr as [H | (G & P)];
      [eapply wellFormed_sameGP; eauto|].
    eapply wellFormed_post_update; eauto. discriminate.
  - pose proof (run_total (createComment clock randomBytes authorId postId text) w)
      as Hr.
    apply createComment_effect in Hr. eapply wellFormed_sameGP; eauto.
  - pose proof (run_total (updateComment clock authorId cid patch) w) as Hr.
    apply updateComment_effect in Hr. eapply wellFormed_sameGP; eauto.
  - pose proof (run_total (deleteCommentSoft clock authorId cid) w) as Hr.
    apply deleteCommentSoft_effect in Hr. eapply wellFormed_sameGP; eauto.
  - eapply wellFormed_sameGP; [apply signup_effect | auto].
  - eapply wellFormed_sameGP; [apply login_effect | auto].
  - exact Hwf.
Qed.

Lemma wellFormed_empty (s : State) : withoutContent s -> wellFormed s.
Proof.
  intros [G P].
  unfold wellFormed, flagImpliesTombstone, flaggedUnderTombstone,
    postsKeyedById, galleriesKeyedById, galleryKeysUnique.
  repeat split; intros *; rewrite ?P, ?G; discriminate.
Qed.

(** Every reachable world is well formed. *)
Lemma reachable_wellFormed (w : World) :
  reachable clock randomBytes pbkdf2 w -> wellFormed (state w).
Proof using clock_truthy.
  induction 1 as [w H | w c _ IH Hf].
  - now apply wellFormed_empty.
  - now apply exec_wellFormed.
Qed.

(** In a well-formed document the gallery of a flagged post resolves to a
    tombstoned gallery, whatever the hint. *)
Lemma flagged_resolves_tombstoned (s : State) (a k : string) (p : Post.t)
  (c : Ctx.t Gallery.t) :
  wellFormed s ->
  postAt s a k = Some p -> Post.deletedByGallery p = true ->
  resolvedGallery s (Some (Post.galleryId p)) (Post.galleryOwnerId p) = Some c ->
  galleryDeleted (Ctx.item c) = true.
Proof.
  intros (I1 & I3 & I4 & I5 & I2) Hp Hf Hc.
  destruct (I3 _ _ _ Hp Hf) as (g & Hg & Hd).
  apply resolvedGallery_sound in Hc. simpl in Hc.
  destruct Hc as (_ & Hk & Hat). rewrite Hk in Hat.
  pose proof (I2 _ _ _ _ _ Hat Hg) as Eo. rewrite Eo in Hat. congruence.
Qed.

(** The only command that takes the flag of a post from [true] to [false]
    is [restoreGallery]. *)
Lemma exec_unflag (c : Command) (w : World) (a k : string) (p p' : Post.t) :
  wellFormed (state w) ->
  freshFor randomBytes w c ->
  postAt (state w) a k = Some p ->
  postAt (state (snd (exec clock randomBytes pbkdf2 c w))) a k = Some p' ->
  Post.deletedByGallery p = true ->
  Post.deletedByGallery p' = false ->
  exists o gid, c = RestoreGallery o gid.
Proof using clock_truthy.
  intros Hwf Hfresh Hp Hp' Hf Hf'. pose proof Hwf as (I1 & I3 & I4 & I5 & I2).
  assert (forall s', sameGP (state w) s' -> postAt s' a k = Some p' -> False)
    as Hsame.
  { intros s' (_ & P) H. rewrite P in H. congruence. }
  destruct c; simpl exec in Hp'; rewrite ?snd_then_ret in Hp'.
  1-3: exfalso. 5-16: exfalso.
  - pose proof (run_total (createGallery clock randomBytes ownerId data) w) as Hr.
    apply createGallery_effect in Hr.
    destruct Hr as [H | (g & Hid & Hd & G & P)]; [eapply Hsame; eauto|].
    rewrite P in Hp'. congruence.
  - pose proof (run_total (updateGallery clock ownerId gid patch) w) as Hr.
    apply updateGallery_effect in Hr.
    destruct Hr as [H | (g & g' & Hg & Hal & Hid & Hd & G & P)];
      [eapply Hsame; eauto|].
    rewrite P in Hp'. congruence.
  - pose proof (run_total (deleteGallerySoft clock ownerId gid) w) as Hr.
    apply deleteGallerySoft_effect in Hr.
    destruct Hr as [H | (g & Hg & Hal & G & P)]; [eapply Hsame; eauto|].
    specialize (P a k). rewrite Hp, Hp' in P. unfold tombstoneRel in P.
    destruct (postInGallery a ownerId gid p && negb (postDeleted p)).
    + destruct P as (n & m & P). inversion P. subst p'. discriminate.
    + congruence.
  - eauto.
  - pose proof (run_total (purgeGallery ownerId gid) w) as Hr.
    apply purgeGallery_effect in Hr.
    destruct Hr as [H | (g & L & Hg & HL & G & P)]; [eapply Hsame; eauto|].
    rewrite P in Hp'. destruct (purgedAt a k L); congruence.
  - pose proof (run_total (createPost clock randomBytes authorId data) w) as Hr.
    apply createPost_effect in Hr.
    destruct Hr as [H | (q & Hid & Hq & G & P)]; [eapply Hsame; eauto|].
    rewrite P in Hp'. simpl in Hfresh.
    destruct (String.eqb authorId a
              && String.eqb (nextId randomBytes "p_" w) k) eqn:E.
    + apply eqb_pair_true in E. destruct E as [<- <-].
      rewrite Hfresh in Hp. discriminate.
    + congruence.
  - pose proof (run_total (updatePost clock authorId pid patch) w) as Hr.
    apply updatePost_effect in Hr.
    destruct Hr as [H | (q & q' & Hq & Hal & Hid & Ho & Hg & Hd & Hfq & G & P)];
      [eapply Hsame; eauto|].
    rewrite P in Hp'.
    destruct (String.eqb authorId a && String.eqb pid k) eqn:E.
    + apply eqb_pair_true in E. destruct E as [<- <-]. congruence.
    + congruence.
  - pose proof (run_total (deletePostSoft clock authorId pid) w) as Hr.
    apply deletePostSoft_effect in Hr.
    destruct Hr as [H | (q & q' & Hq & Hal & Hid & Hd & Hfq & G & P)];
      [eapply Hsame; eauto|].
    rewrite P in Hp'.
    destruct (String.eqb authorId a && String.eqb pid k) eqn:E.
    + apply eqb_pair_true in E. destruct E as [<- <-].
      assert (q = p) as -> by congruence.
      pose proof (I1 _ _ _ Hp Hf). congruence.
    + congruence.
  - pose proof (run_total (restorePost clock authorId pid) w) as Hr.
    apply restorePost_effect in Hr.
    destruct Hr as [H | (q & c & t & Hq & Hd & Hc & Hg & G & P)];
      [eapply Hsame; eauto|].
    rewrite P in Hp'.
    destruct (String.eqb authorId a && String.eqb pid k) eqn:E.
    + apply eqb_pair_true in E. destruct E as [<- <-].
      assert (q = p) as -> by congruence.
      pose proof (flagged_resolves_tombstoned _ _ _ _ _ Hwf Hp Hf Hc).
      congruence.
    + congruence.
  - pose proof (run_total (purgePost authorId pid) w) as Hr.
    apply purgePost_effect in Hr.
    destruct Hr as [H | (G & P)]; [eapply Hsame; eauto|].
    rewrite P in Hp'.
    destruct (String.eqb authorId a && String.eqb pid k); congruence.
  - pose proof (run_total (createComment clock randomBytes authorId postId text) w)
      as Hr.
    apply createComment_effect in Hr. eapply Hsame; eauto.
  - pose proof (run_total (updateComment clock authorId cid patch) w) as Hr.
    apply updateComment_effect in Hr. eapply Hsame; eauto.
  - pose proof (run_total (deleteCommentSoft clock authorId cid) w) as Hr.
    apply deleteCommentSoft_effect in Hr. eapply Hsame; eauto.
  - eapply Hsame; [apply signup_effect | eauto].
  - eapply Hsame; [apply login_effect | eauto].
  - simpl in Hp'. congruence.
Qed.

(** C3.  In every world the application reaches from a document without
    content by commands that draw new identifiers, a post with
    [deletedByGallery = true] has a tombstone; and from such a world the only
    command after which a post that had the flag no longer has it is
    [restoreGallery]: no other command, [restorePost] included, takes the
    flag of a post from [true] to [false]. *)
Theorem C3_deletedByGallery_invariant (w : World) :
  reachable clock randomBytes pbkdf2 w ->
  (forall a k p,
     postAt (state w) a k = Some p ->
     Post.deletedByGallery p = true ->
     Post.deletedAt p <> None /\ postDeleted p = true) /\
  (forall c a k p p',
     freshFor randomBytes w c ->
     postAt (state w) a k = Some p ->
     postAt (state (snd (exec clock randomBytes pbkdf2 c w))) a k = Some p' ->
     Post.deletedByGallery p = true ->
     Post.deletedByGallery p' = false ->
     exists o gid, c = RestoreGallery o gid) /\
  (forall a k p,
     postAt (state w) a k = Some p ->
     Post.deletedByGallery p = true ->
     fst (restorePost clock a k w) = false /\
     postAt (state (snd (restorePost clock a k w))) a k = Some p).
Proof using clock_truthy. clear localeLe.
  intros Hreach. apply reachable_wellFormed in Hreach.
  pose proof Hreach as (I1 & I3 & I4 & I5 & I2). repeat split.
  - pose proof (I1 _ _ _ H H0) as Hd. unfold postDeleted in Hd.
    destruct (Post.deletedAt p); [discriminate | discriminate].
  - eapply I1; eauto.
  - intros. eapply exec_unflag; eauto.
  - destruct (canManage a w) eqn:Hperm.
    + pose proof (run_total (restorePost clock a k) w) as Hr.
      pose proof (I1 _ _ _ H H0) as Hd.
      apply (restorePost_run _ _ _ _ p) in Hr; auto.
      destruct (resolvedGallery (state w) (Some (Post.galleryId p))
                                (Post.galleryOwnerId p)) as [c|] eqn:Ec.
      * rewrite (flagged_resolves_tombstoned _ _ _ _ _ Hreach H H0 Ec) in Hr.
        tauto.
      * tauto.
    + unfold restorePost, bind, gets. rewrite Hperm. reflexivity.
  - destruct (canManage a w) eqn:Hperm.
    + pose proof (run_total (restorePost clock a k) w) as Hr.
      pose proof (I1 _ _ _ H H0) as Hd.
      apply (restorePost_run _ _ _ _ p) in Hr; auto.
      assert (exists s', snd (restorePost clock a k w) =
                toasted (setState w s') "복원 불가"
                  "갤러리가 삭제된 상태입니다. 먼저 갤러리를 복원하세요." /\
                sameEntities (state w) s') as (s' & -> & (_ & E2 & _)).
      { destruct (resolvedGallery (state w) (Some (Post.galleryId p))
                                  (Post.galleryOwnerId p)) as [c|] eqn:Ec.
        - rewrite (flagged_resolves_tombstoned _ _ _ _ _ Hreach H H0 Ec) in Hr.
          destruct Hr as (_ & s' & ? & ? & _). eauto.
        - destruct Hr as (_ & s' & ? & ? & _). eauto. }
      simpl. now rewrite E2.
    + unfold restorePost, bind, gets. rewrite Hperm. simpl. exact H.
Qed.

End Facts.

(* ------------------------------------------------------------------ *)
(** ** Instances on the demo installation *)

Lemma Demo_clock_truthy (n : nat) : truthy (Demo.clock n) = true.
Proof. reflexivity. Qed.

Lemma Dict_get_in {V : Type} (m : Dict.t V) (k : string) (v : V) :
  Dict.get m k = Some v -> In (k, v) m.
Proof.
  induction m as [|[k0 v0] m IH]; simpl; [discriminate|].
  destruct (String.eqb k0 k) eqn:E.
  - apply String.eqb_eq in E. intros H. inversion H. subst. now left.
  - intros H. right. now apply IH.
Qed.

Lemma galleryAt_absent (s : State) (k : string) :
  forallb (fun e => negb (isSome (Dict.get (galleriesOf (snd e)) k)))
          (userData s) = true ->
  forall o, galleryAt s o k = None.
Proof.
  intros H o. unfold galleryAt.
  destruct (Dict.get (userData s) o) as [ud|] eqn:E; auto.
  apply Dict_get_in in E. rewrite forallb_forall in H.
  specialize (H _ E). simpl in H.
  now destruct (Dict.get (galleriesOf ud) k).
Qed.

Lemma postAt_absent (s : State) (k : string) :
  forallb (fun e => negb (isSome (Dict.get (postsOf (snd e)) k)))
          (userData s) = true ->
  forall a, postAt s a k = None.
Proof.
  intros H a. unfold postAt.
  destruct (Dict.get (userData s) a) as [ud|] eqn:E; auto.
  apply Dict_get_in in E. rewrite forallb_forall in H.
  specialize (H _ E). simpl in H.
  now destruct (Dict.get (postsOf ud) k).
Qed.

(** The story of [Demo] is a run of the application. *)
Lemma Demo_story_reachable :
  reachable Demo.clock Demo.randomBytes Demo.pbkdf2 Demo.wStory4.
Proof.
  pose (step := fun c w => snd (exec Demo.clock Demo.randomBytes Demo.pbkdf2 c w)).
  assert (E1 : Demo.wStory1
               = step (Login "alice" "pw" false)
                      (step (Signup "alice" "pw") Demo.wFresh))
    by (vm_compute; reflexivity).
  assert (E2 : Demo.wStory2
               = step (CreateGallery Demo.aliceId
                         (GalleryData.mk (Some "Trip") None None None false))
                      Demo.wStory1)
    by (vm_compute; reflexivity).
  assert (E3 : Demo.wStory3
               = step (CreatePost Demo.aliceId
                         (PostData.mk (Some Demo.storyGid) (Some Demo.aliceId)
                                      (Some "Day1") None))
                      Demo.wStory2)
    by (vm_compute; reflexivity).
  assert (E4 : Demo.wStory4
               = step (DeleteGallerySoft Demo.aliceId Demo.storyGid)
                      Demo.wStory3)
    by (vm_compute; reflexivity).
  rewrite E4. apply reach_step; [|exact I].
  rewrite E3. apply reach_step.
  - rewrite E2. apply reach_step.
    + rewrite E1. apply reach_step; [|exact I].
      apply reach_step; [|exact I]. apply reach_init.
      split; reflexivity.
    + refine (galleryAt_absent _ _ _). vm_compute. reflexivity.
  - refine (postAt_absent _ _ _). vm_compute. reflexivity.
Qed.


Lemma C2_witness :
  canManage "u_alice" Demo.wTrash = true /\
  galleryAt (state Demo.wTrash) "u_alice" "g1"
  = Some (Gallery.set_updatedAt
            (Gallery.set_deletedAt Demo.gTrip (Some (Demo.clock 0)))
            (Demo.clock 1)) /\
  postAt (state Demo.wTrash) "u_bob" "p1"
  = Some (tombstoned Demo.pDay1 (Demo.clock 0) (Demo.clock 1)) /\
  (exists t,
     postAt (state (snd (restoreGallery Demo.clock "u_alice" "g1"
                                        Demo.wTrash)))
            "u_bob" "p1"
     = Some (restored (tombstoned Demo.pDay1 (Demo.clock 0) (Demo.clock 1))
                      t)) /\
  postAt (state (snd (restoreGallery Demo.clock "u_alice" "g1" Demo.wTrash)))
         "u_bob" "p2"
  = Some Demo.pOld.
Proof.
  split; [reflexivity|]. split; [reflexivity|]. split; [reflexivity|].
  destruct (C2_restoreGallery_cascade Demo.clock Demo.wTrash "u_alice" "g1"
              (Gallery.set_updatedAt
                 (Gallery.set_deletedAt Demo.gTrip (Some (Demo.clock 0)))
                 (Demo.clock 1))
              eq_refl eq_refl eq_refl)
    as (_ & _ & H3 & H4 & _).
  split.
  - exact (H3 "u_bob" "p1"
              (tombstoned Demo.pDay1 (Demo.clock 0) (Demo.clock 1))
              eq_refl eq_refl eq_refl eq_refl).
  - exact (H4 "u_bob" "p2" Demo.pOld eq_refl eq_refl).
Defined.

Lemma C3_witness :
  reachable Demo.clock Demo.randomBytes Demo.pbkdf2 Demo.wStory4 /\
  exists p,
    postAt (state Demo.wStory4) Demo.aliceId Demo.storyPid = Some p /\
    Post.deletedByGallery p = true /\
    postDeleted p = true /\
    fst (restorePost Demo.clock Demo.aliceId Demo.storyPid Demo.wStory4)
    = false.
Proof.
  split; [exact Demo_story_reachable|].
  destruct (C3_deletedByGallery_invariant Demo.clock Demo.randomBytes
              Demo.pbkdf2 Demo_clock_truthy Demo.wStory4 Demo_story_reachable)
    as (H1 & _ & H3).
  eexists. split; [vm_compute; reflexivity|]. split; [reflexivity|]. split.
  - exact (proj2 (H1 Demo.aliceId Demo.storyPid _ eq_refl eq_refl)).
  - exact (proj1 (H3 Demo.aliceId Demo.storyPid _ eq_refl eq_refl)).
Defined.

Lemma postAt_in (s : State) (a k : string) (p : Post.t) :
  postAt s a k = Some p ->
  exists ud, In (a, ud) (userData s) /\ In (k, p) (postsOf ud).
Proof.
  unfold postAt, partAt.
  destruct (Dict.get (userData s) a) as [ud|] eqn:E; [|discriminate].
  intros H. exists ud. split; now apply Dict_get_in.
Qed.

Lemma galleryAt_in (s : State) (o k : string) (g : Gallery.t) :
  galleryAt s o k = Some g ->
  exists ud, In (o, ud) (userData s) /\ In (k, g) (galleriesOf ud).
Proof.
  unfold galleryAt, partAt.
  destruct (Dict.get (userData s) o) as [ud|] eqn:E; [|discriminate].
  intros H. exists ud. split; now apply Dict_get_in.
Qed.

(** Case analysis on membership in a list written out. *)
Ltac members H :=
  cbv in H;
  repeat match type of H with
         | _ \/ _ => destruct H as [H|H]
         | False => destruct H
         end;
  try (inversion H; subst; clear H).

(** The demo document is stored the way the create operations store. *)
Lemma Demo_keyed :
  postsKeyedById (state Demo.wAlice) /\
  galleriesKeyedById (state Demo.wAlice) /\
  galleryKeysUnique (state Demo.wAlice).
Proof.
  split; [|split].
  - intros a k p H. apply postAt_in in H. destruct H as (ud & Hu & Hp).
    members Hu; members Hp; reflexivity.
  - intros o k g H. apply galleryAt_in in H. destruct H as (ud & Hu & Hg).
    members Hu; members Hg; reflexivity.
  - intros o o' k g g' H H'.
    apply galleryAt_in in H. destruct H as (ud & Hu & Hg).
    apply galleryAt_in in H'. destruct H' as (ud' & Hu' & Hg').
    members Hu; members Hg; members Hu'; members Hg'; reflexivity.
Qed.

Lemma C4_witness :
  canManage "u_alice" Demo.wAlice = true /\
  galleryAt (state Demo.wAlice) "u_alice" "g1" = Some Demo.gTrip /\
  fst (purgeGallery "u_alice" "g1" Demo.wAlice) = true /\
  galleryAt (state (snd (purgeGallery "u_alice" "g1" Demo.wAlice)))
            "u_alice" "g1" = None /\
  (forall o k g',
     galleryAt (state (snd (purgeGallery "u_alice" "g1" Demo.wAlice))) o k
     = Some g' ->
     Gallery.id g' <> Gallery.id Demo.gTrip) /\
  postAt (state (snd (purgeGallery "u_alice" "g1" Demo.wAlice)))
         "u_bob" (Post.id Demo.pDay1) = None /\
  postAt (state (snd (purgeGallery "u_alice" "g1" Demo.wAlice)))
         "u_bob" (Post.id Demo.pOld) = None /\
  (forall a k p,
     postAt (state (snd (purgeGallery "u_alice" "g1" Demo.wAlice))) a k
     = Some p ->
     postInGallery a "u_alice" "g1" p = false) /\
  (forall a k c,
     commentAt (state (snd (purgeGallery "u_alice" "g1" Demo.wAlice))) a k
     = Some c ->
     Comment.postId c <> Post.id Demo.pDay1).
Proof.
  split; [reflexivity|]. split; [reflexivity|].
  destruct Demo_keyed as (K1 & K2 & K3).
  destruct (C4_purgeGallery_cascade Demo.wAlice "u_alice" "g1" Demo.gTrip
              eq_refl eq_refl)
    as (H1 & H2 & H3 & H4 & H5 & H6).
  split; [exact H1|]. split; [exact H2|]. split; [exact (H3 K2 K3)|].
  split; [exact (H4 "u_bob" "p1" Demo.pDay1 eq_refl eq_refl)|].
  split; [exact (H4 "u_bob" "p2" Demo.pOld eq_refl eq_refl)|].
  split; [exact (H5 K1)|].
  intros a k c Hc.
  exact (H6 a k c Hc "u_bob" "p1" Demo.pDay1 eq_refl eq_refl).
Defined.

Lemma C5_witness :
  isAdmin Demo.wBob = false /\
  viewState_userId Demo.wBob <> Some "u_alice" /\
  deniedAt Demo.wBob false (purgeGallery "u_alice" "g1" Demo.wBob) /\
  deniedAt Demo.wBob false
           (updatePost Demo.clock "u_alice" "p1" (PostPatch.mk None None)
                       Demo.wBob) /\
  canManage "u_alice" Demo.wAdmin = true.
Proof.
  assert (Hne : viewState_userId Demo.wBob <> Some "u_alice")
    by discriminate.
  split; [reflexivity|]. split; [exact Hne|].
  destruct (proj1 (C5_permission_gate Demo.clock Demo.randomBytes
                     Demo.wBob "u_alice") eq_refl Hne)
    as (_ & _ & _ & _ & H5 & _ & H7 & _).
  split; [exact (H5 "g1")|]. split; [exact (H7 "p1" (PostPatch.mk None None))|].
  exact (proj2 (C5_permission_gate Demo.clock Demo.randomBytes
                  Demo.wAdmin "u_alice") eq_refl).
Defined.


Lemma C7_witness :
  accountOf (state Demo.wAlice) "carol" = None /\
  login Demo.pbkdf2 "carol" "secret" false Demo.wAlice
  = loginRefused Demo.wAlice /\
  toasts (snd (loginRefused Demo.wAlice))
  = (toasts Demo.wAlice ++ [InvalidCredentials])%list.
Proof.
  split; [reflexivity|].
  destruct (C7_login_single_failure_kind Demo.pbkdf2 Demo.wAlice
              "carol" "secret" false)
    as (H1 & _ & _ & _ & H5 & _).
  split; [exact (H1 eq_refl) | exact H5].
Defined.



Lemma C9_witness :
  canManage "u_alice" Demo.wAdmin = true /\
  galleryAt (state Demo.wAdmin) "u_alice" "g1" = Some Demo.gTrip /\
  galleryDeleted Demo.gTrip = false /\
  fst (purgeGallery "u_alice" "g1" Demo.wAdmin) = true /\
  galleryAt (state (snd (purgeGallery "u_alice" "g1" Demo.wAdmin)))
            "u_alice" "g1" = None.
Proof.
  split; [reflexivity|]. split; [reflexivity|]. split; [reflexivity|].
  destruct (proj1 (C9_purge_needs_no_tombstone Demo.wAdmin "u_alice" "g1"
                     eq_refl) Demo.gTrip eq_refl)
    as (H1 & H2 & _).
  split; [exact H1 | exact H2].
Defined.



(* ================================================================== *)
(** * Further properties *)
(* ================================================================== *)

(* ------------------------------------------------------------------ *)
(** ** Colours *)

(** Facts about one character are checked on the 256 characters. *)
Ltac each_ascii c :=
  destruct c as [[] [] [] [] [] [] [] []]; vm_compute; try reflexivity;
  try discriminate; auto.

Lemma ascii_in_range (c : ascii) : In (nat_of_ascii c) (seq 0 256).
Proof. apply in_seq. pose proof (nat_ascii_bounded c). lia. Qed.

Lemma forall_ascii (P : ascii -> bool) :
  forallb (fun n => P (ascii_of_nat n)) (seq 0 256) = true ->
  forall c, P c = true.
Proof.
  intros H c. rewrite forallb_forall in H.
  specialize (H _ (ascii_in_range c)). now rewrite ascii_nat_embedding in H.
Qed.

Lemma forall_byte (P : Z -> bool) :
  forallb (fun n => P (Z.of_nat n)) (seq 0 256) = true ->
  forall x, (0 <= x <= 255)%Z -> P x = true.
Proof.
  intros H x Hx. rewrite forallb_forall in H.
  specialize (H (Z.to_nat x)). rewrite Z2Nat.id in H by lia.
  apply H. apply in_seq. lia.
Qed.

Lemma mapS_append (f : ascii -> ascii) (a b : string) :
  mapS f (String.append a b) = String.append (mapS f a) (mapS f b).
Proof. induction a as [|c a IH]; simpl; [reflexivity | now rewrite IH]. Qed.

Lemma trimEnd_plain (s : string) :
  existsbS isSpace s = false -> trimEnd s = s.
Proof.
  induction s as [|c r IH]; simpl; [reflexivity|].
  intros H. apply orb_false_iff in H. destruct H as [Hc Hr].
  rewrite (IH Hr). destruct r; [now rewrite Hc | reflexivity].
Qed.

Lemma trim_plain (s : string) :
  existsbS isSpace s = false -> trim s = s.
Proof.
  intros H. unfold trim.
  assert (trimStart s = s) as ->.
  { destruct s as [|c r]; simpl in *; [reflexivity|].
    apply orb_false_iff in H. now rewrite (proj1 H). }
  now apply trimEnd_plain.
Qed.

Lemma hex_upper (c : ascii) :
  isHexDigit c = true ->
  isHexDigit (toUpper c) = true /\ toUpper (toUpper c) = toUpper c /\
  isSpace (toUpper c) = false /\ isSpace c = false /\
  Ascii.eqb c "#"%char = false /\ Ascii.eqb (toUpper c) "#"%char = false.
Proof. each_ascii c; repeat split; reflexivity. Qed.

Lemma byte_digits (x : Z) :
  (0 <= x <= 255)%Z ->
  exists c1 c2,
    mapS toUpper (padStart2 (toString16 x)) = String c1 (String c2 EmptyString) /\
    isHexDigit c1 = true /\ isHexDigit c2 = true /\
    toUpper c1 = c1 /\ toUpper c2 = c2 /\
    parseInt16 (String c1 (String c2 EmptyString)) = x.
Proof.
  intros Hx.
  assert (byteDigitsOk x = true) as H
    by (apply forall_byte; [vm_compute; reflexivity | exact Hx]).
  unfold byteDigitsOk in H.
  destruct (mapS toUpper (padStart2 (toString16 x))) as [|c1 [|c2 [|? ?]]];
    try discriminate.
  repeat (apply andb_true_iff in H; destruct H as [H ?]).
  exists c1, c2. repeat split; auto.
  - now apply Ascii.eqb_eq.
  - now apply Ascii.eqb_eq.
  - now apply Z.eqb_eq.
Qed.

Lemma rgbToHex_digits (r g b : Z) :
  rgbToHex r g b =
  String "#"%char
    (String.append (mapS toUpper (padStart2 (toString16 r)))
       (String.append (mapS toUpper (padStart2 (toString16 g)))
                      (mapS toUpper (padStart2 (toString16 b))))).
Proof. unfold rgbToHex. cbn [mapS]. now rewrite !mapS_append. Qed.

Lemma normalizeHex_body (hex : option string) :
  normalizeHex hex =
  match hexBody hex with
  | Some v => mapS toUpper (String "#"%char v)
  | None => "#6EE7FF"
  end.
Proof.
  unfold normalizeHex, hexBody.
  destruct (trim (orElse hex "")) as [|c r]; [reflexivity|].
  destruct (Ascii.eqb_spec c "#"%char) as [->|Hc].
  - now destruct (Nat.eqb (String.length r) 6 && forallbS isHexDigit r).
  - assert (match c with
            | "#"%char => r
            | _ => String c r
            end = String c r) as E.
    { destruct c as [[] [] [] [] [] [] [] []]; try reflexivity.
      now elim Hc. }
    cbv zeta. rewrite E.
    now destruct (Nat.eqb (String.length (String c r)) 6
                  && forallbS isHexDigit (String c r)).
Qed.

Lemma hexToRgb_body (hex : option string) :
  hexToRgb hex =
  match hexBody hex with
  | Some v => (parseInt16 (substring 0 2 v), parseInt16 (substring 2 2 v),
               parseInt16 (substring 4 2 v))
  | None => (110%Z, 231%Z, 255%Z)
  end.
Proof.
  unfold hexToRgb, hexBody.
  destruct (trim (orElse hex "")) as [|c r]; [reflexivity|].
  destruct (Ascii.eqb_spec c "#"%char) as [->|Hc].
  - now destruct (Nat.eqb (String.length r) 6 && forallbS isHexDigit r).
  - assert (match c with
            | "#"%char => r
            | _ => String c r
            end = String c r) as E.
    { destruct c as [[] [] [] [] [] [] [] []]; try reflexivity.
      now elim Hc. }
    cbv zeta. rewrite E.
    now destruct (Nat.eqb (String.length (String c r)) 6
                  && forallbS isHexDigit (String c r)).
Qed.

Lemma six_chars (v : string) :
  String.length v = 6 ->
  exists c1 c2 c3 c4 c5 c6,
    v = String c1 (String c2 (String c3 (String c4 (String c5
          (String c6 EmptyString))))).
Proof.
  intros H.
  destruct v as [|c1 [|c2 [|c3 [|c4 [|c5 [|c6 [|c7 v]]]]]]];
    try discriminate.
  now exists c1, c2, c3, c4, c5, c6.
Qed.

Lemma hexBody_of_color (c1 c2 c3 c4 c5 c6 : ascii) :
  isHexDigit c1 = true -> isHexDigit c2 = true -> isHexDigit c3 = true ->
  isHexDigit c4 = true -> isHexDigit c5 = true -> isHexDigit c6 = true ->
  let v := String c1 (String c2 (String c3 (String c4 (String c5
             (String c6 EmptyString))))) in
  hexBody (Some (String "#"%char v)) = Some v.
Proof.
  intros H1 H2 H3 H4 H5 H6 v. unfold hexBody.
  assert (orElse (Some (String "#"%char v)) "" = String "#"%char v) as ->
    by reflexivity.
  rewrite trim_plain.
  - destruct (hex_upper _ H1) as (_ & _ & _ & _ & _ & _).
    cbv zeta. unfold v. cbn [String.length forallbS Nat.eqb].
    now rewrite H1, H2, H3, H4, H5, H6.
  - unfold v. cbn [existsbS].
    destruct (hex_upper _ H1) as (_ & _ & _ & -> & _).
    destruct (hex_upper _ H2) as (_ & _ & _ & -> & _).
    destruct (hex_upper _ H3) as (_ & _ & _ & -> & _).
    destruct (hex_upper _ H4) as (_ & _ & _ & -> & _).
    destruct (hex_upper _ H5) as (_ & _ & _ & -> & _).
    destruct (hex_upper _ H6) as (_ & _ & _ & -> & _).
    reflexivity.
Qed.

Lemma rgbToHex_read (r g b : Z) :
  (0 <= r <= 255)%Z -> (0 <= g <= 255)%Z -> (0 <= b <= 255)%Z ->
  exists v,
    hexBody (Some (rgbToHex r g b)) = Some v /\
    parseInt16 (substring 0 2 v) = r /\
    parseInt16 (substring 2 2 v) = g /\
    parseInt16 (substring 4 2 v) = b.
Proof.
  intros Hr Hg Hb.
  destruct (byte_digits r Hr) as (r1 & r2 & Er & R1 & R2 & _ & _ & Vr).
  destruct (byte_digits g Hg) as (g1 & g2 & Eg & G1 & G2 & _ & _ & Vg).
  destruct (byte_digits b Hb) as (b1 & b2 & Eb & B1 & B2 & _ & _ & Vb).
  rewrite rgbToHex_digits, Er, Eg, Eb. cbn [String.append].
  rewrite (hexBody_of_color r1 r2 g1 g2 b1 b2) by assumption.
  eexists. split; [reflexivity|]. cbn [substring]. auto.
Qed.

(** X1.  [hexToRgb] reads back the three bytes [rgbToHex] wrote. *)
Theorem hexToRgb_rgbToHex (r g b : Z) :
  (0 <= r <= 255)%Z -> (0 <= g <= 255)%Z -> (0 <= b <= 255)%Z ->
  hexToRgb (Some (rgbToHex r g b)) = (r, g, b).
Proof.
  intros Hr Hg Hb.
  destruct (rgbToHex_read r g b Hr Hg Hb) as (v & E & Vr & Vg & Vb).
  rewrite hexToRgb_body, E.
  now rewrite Vr, Vg, Vb.
Qed.

Lemma digit_pair (c1 c2 : ascii) :
  isHexDigit c1 = true -> isHexDigit c2 = true ->
  mapS toUpper
    (padStart2 (toString16 (parseInt16 (String c1 (String c2 EmptyString)))))
  = String (toUpper c1) (String (toUpper c2) EmptyString).
Proof.
  intros H1 H2.
  assert (digitPairOk c1 c2 = true) as H.
  { clear H1 H2. revert c2. apply (forall_ascii (digitPairOk c1)).
    revert c1.
    apply (forall_ascii
             (fun c1 => forallb (fun n => digitPairOk c1 (ascii_of_nat n))
                                (seq 0 256))).
    vm_compute. reflexivity. }
  unfold digitPairOk in H. rewrite H1, H2 in H. simpl in H.
  now apply String.eqb_eq.
Qed.

Lemma hexdigits_plain (v : string) :
  forallbS isHexDigit v = true -> existsbS isSpace v = false.
Proof.
  induction v as [|c r IH]; simpl; [reflexivity|].
  intros H. apply andb_true_iff in H. destruct H as [Hc Hr].
  destruct (hex_upper _ Hc) as (_ & _ & _ & -> & _). now apply IH.
Qed.

Lemma hexBody_hash (v : string) :
  String.length v = 6 -> forallbS isHexDigit v = true ->
  hexBody (Some (String "#"%char v)) = Some v.
Proof.
  intros Hl Hv. unfold hexBody.
  assert (orElse (Some (String "#"%char v)) "" = String "#"%char v) as ->
    by reflexivity.
  rewrite trim_plain.
  - cbv zeta. now rewrite Hl, Hv.
  - cbn [existsbS]. now rewrite hexdigits_plain.
Qed.

Lemma hexBody_some (hex : option string) (v : string) :
  hexBody hex = Some v ->
  String.length v = 6 /\ forallbS isHexDigit v = true.
Proof.
  unfold hexBody. cbv zeta.
  match goal with
  | |- (if ?b then _ else _) = _ -> _ => destruct b eqn:E
  end; [|discriminate].
  intros H. inversion H. subst v.
  apply andb_true_iff in E. destruct E as [E1 E2].
  split; [now apply Nat.eqb_eq | exact E2].
Qed.

(** X2.  Writing the bytes [hexToRgb] read gives the colour [normalizeHex]
    returns, also for a string that is no colour. *)
Theorem rgbToHex_hexToRgb (hex : option string) :
  (let '(r, g, b) := hexToRgb hex in rgbToHex r g b) = normalizeHex hex.
Proof.
  rewrite hexToRgb_body, normalizeHex_body.
  destruct (hexBody hex) as [v|] eqn:E; [|vm_compute; reflexivity].
  apply hexBody_some in E. destruct E as [Hl Hv].
  destruct (six_chars v Hl) as (c1 & c2 & c3 & c4 & c5 & c6 & ->).
  cbn [forallbS] in Hv.
  repeat (apply andb_true_iff in Hv; destruct Hv as [? Hv]).
  cbn [substring]. rewrite rgbToHex_digits, !digit_pair by assumption.
  reflexivity.
Qed.

Lemma upper_hexdigits (v : string) :
  forallbS isHexDigit v = true ->
  forallbS isUpperHex (mapS toUpper v) = true /\
  String.length (mapS toUpper v) = String.length v.
Proof.
  induction v as [|c r IH]; simpl; [auto|].
  intros H. apply andb_true_iff in H. destruct H as [Hc Hr].
  destruct (IH Hr) as [-> ->].
  destruct (hex_upper _ Hc) as (U1 & U2 & _).
  unfold isUpperHex. rewrite U1, U2, Ascii.eqb_refl. auto.
Qed.

Lemma upperhex_fixed (v : string) :
  forallbS isUpperHex v = true ->
  forallbS isHexDigit v = true /\ mapS toUpper v = v.
Proof.
  induction v as [|c r IH]; simpl; [auto|].
  intros H. apply andb_true_iff in H. destruct H as [Hc Hr].
  destruct (IH Hr) as [-> ->].
  unfold isUpperHex in Hc. apply andb_true_iff in Hc. destruct Hc as [H1 H2].
  apply Ascii.eqb_eq in H2. now rewrite H1, H2.
Qed.

Lemma normalizeHex_shape (hex : option string) :
  isHexColor (normalizeHex hex) = true.
Proof.
  rewrite normalizeHex_body.
  destruct (hexBody hex) as [v|] eqn:E; [|reflexivity].
  apply hexBody_some in E. destruct E as [Hl Hv].
  destruct (upper_hexdigits v Hv) as [U L].
  cbn [mapS]. change (toUpper "#"%char) with "#"%char.
  cbn [isHexColor]. now rewrite L, Hl, U.
Qed.

Lemma normalizeHex_fixed (s : string) :
  isHexColor s = true -> normalizeHex (Some s) = s.
Proof.
  intros H. destruct s as [|c r]; [discriminate|].
  assert (c = "#"%char) as ->.
  { destruct c as [[] [] [] [] [] [] [] []]; try discriminate H.
    reflexivity. }
  cbn [isHexColor] in H. apply andb_true_iff in H. destruct H as [Hl Hu].
  apply Nat.eqb_eq in Hl. destruct (upperhex_fixed r Hu) as [Hd Hf].
  rewrite normalizeHex_body, (hexBody_hash r Hl Hd).
  cbn [mapS]. now rewrite Hf.
Qed.

(** X3.  [normalizeHex] returns a colour in the normal form, and the colours
    in the normal form are the strings it returns unchanged. *)
Theorem normalizeHex_normal_form (hex : option string) (s : string) :
  isHexColor (normalizeHex hex) = true /\
  (normalizeHex (Some s) = s <-> isHexColor s = true).
Proof.
  split; [apply normalizeHex_shape|]. split.
  - intros E. rewrite <- E. apply normalizeHex_shape.
  - apply normalizeHex_fixed.
Qed.

Lemma byte_color (r g b : Z) :
  (0 <= r <= 255)%Z -> (0 <= g <= 255)%Z -> (0 <= b <= 255)%Z ->
  isHexColor (rgbToHex r g b) = true.
Proof.
  intros Hr Hg Hb.
  destruct (byte_digits r Hr) as (r1 & r2 & Er & R1 & R2 & R3 & R4 & _).
  destruct (byte_digits g Hg) as (g1 & g2 & Eg & G1 & G2 & G3 & G4 & _).
  destruct (byte_digits b Hb) as (b1 & b2 & Eb & B1 & B2 & B3 & B4 & _).
  rewrite rgbToHex_digits, Er, Eg, Eb. cbn [String.append].
  cbn [isHexColor String.length Nat.eqb forallbS]. unfold isUpperHex.
  rewrite R1, R2, G1, G2, B1, B2, R3, R4, G3, G4, B3, B4, !Ascii.eqb_refl.
  reflexivity.
Qed.

(** X4.  [clampInt] keeps to its bounds, returns the lower bound for a
    number that is not finite and an integer within the bounds as it is.
    The colour the settings panel builds from its three fields is in the
    normal form, so [normalizeHex] keeps it, and [hexToRgb] reads the three
    clamped values back from it. *)
Theorem clampInt_bytes (x : JsNumber) (min max n : Z)
  (rgbR rgbG rgbB : option JsNumber) :
  (clampInt NotFinite min max = min) /\
  (min <= clampInt x min max)%Z /\
  ((min <= max)%Z -> (clampInt x min max <= max)%Z) /\
  ((min <= n <= max)%Z -> clampInt (Finite n 1) min max = n) /\
  let hex := updateAccentPreviewFromRgb rgbR rgbG rgbB in
  isHexColor hex = true /\
  normalizeHex (Some hex) = hex /\
  hexToRgb (Some hex) = getRgbUi rgbR rgbG rgbB.
Proof.
  assert (forall v lo hi, (lo <= clampInt v lo hi)%Z /\
                          ((lo <= hi)%Z -> (clampInt v lo hi <= hi)%Z)) as B.
  { intros [num den|] lo hi; unfold clampInt; lia. }
  split; [reflexivity|]. split; [apply B|]. split; [apply B|]. split.
  - intros Hn. unfold clampInt, trunc. rewrite Z.quot_1_r. lia.
  - unfold updateAccentPreviewFromRgb, getRgbUi. cbv zeta.
    set (r := clampInt (nullish rgbR (Finite 110 1)) 0 255).
    set (g := clampInt (nullish rgbG (Finite 231 1)) 0 255).
    set (b := clampInt (nullish rgbB (Finite 255 1)) 0 255).
    assert (0 <= r <= 255)%Z as Hr by (split; apply B; lia).
    assert (0 <= g <= 255)%Z as Hg by (split; apply B; lia).
    assert (0 <= b <= 255)%Z as Hb by (split; apply B; lia).
    split; [now apply byte_color|]. split.
    + apply normalizeHex_fixed. now apply byte_color.
    + destruct (rgbToHex_read r g b Hr Hg Hb) as (v & E & Vr & Vg & Vb).
      rewrite hexToRgb_body, E. now rewrite Vr, Vg, Vb.
Qed.

(* ------------------------------------------------------------------ *)
(** ** Escaping *)

Lemma append_assoc (a b c : string) :
  String.append (String.append a b) c = String.append a (String.append b c).
Proof. induction a as [|x a IH]; simpl; [reflexivity | now rewrite IH]. Qed.

Lemma replaceAll_append (c : ascii) (by_ a b : string) :
  replaceAll c by_ (String.append a b) =
  String.append (replaceAll c by_ a) (replaceAll c by_ b).
Proof.
  induction a as [|x a IH]; simpl; [reflexivity|].
  destruct (Ascii.eqb x c); rewrite IH; [|reflexivity].
  now rewrite append_assoc.
Qed.

Lemma existsbS_append (f : ascii -> bool) (a b : string) :
  existsbS f (String.append a b) = existsbS f a || existsbS f b.
Proof.
  induction a as [|x a IH]; simpl; [reflexivity|].
  now rewrite IH, orb_assoc.
Qed.

Lemma escapeHtml_cons (c : ascii) (r : string) :
  escapeHtml (String c r) = String.append (entityOf c) (escapeHtml r).
Proof.
  unfold escapeHtml, entityOf. cbn [replaceAll].
  destruct (Ascii.eqb_spec c "&"%char) as [->|H1].
  { now rewrite !replaceAll_append. }
  cbn [replaceAll].
  destruct (Ascii.eqb_spec c "<"%char) as [->|H2].
  { now rewrite !replaceAll_append. }
  cbn [replaceAll].
  destruct (Ascii.eqb_spec c ">"%char) as [->|H3].
  { now rewrite !replaceAll_append. }
  cbn [replaceAll].
  destruct (Ascii.eqb_spec c dquote) as [->|H4].
  { now rewrite !replaceAll_append. }
  cbn [replaceAll].
  destruct (Ascii.eqb_spec c squote) as [->|H5].
  { reflexivity. }
  reflexivity.
Qed.

Lemma escapeHtml_one_pass (s : string) :
  escapeHtml s = flatMapS entityOf s.
Proof.
  induction s as [|c r IH]; [reflexivity|].
  now rewrite escapeHtml_cons, IH.
Qed.

Lemma entity_clean (c : ascii) :
  existsbS isHtmlDelimiter (entityOf c) = false /\
  (isHtmlSpecial c = false -> entityOf c = String c EmptyString).
Proof.
  destruct c as [[] [] [] [] [] [] [] []];
    (split; [reflexivity | intros H; try discriminate H; reflexivity]).
Qed.

(** X5.  Nothing [escapeHtml] returns holds [<], [>] or a quote; the five
    special characters are replaced by their entities in one pass, left to
    right, and a text without them is returned as it is. *)
Theorem escapeHtml_safe (s : string) :
  existsbS isHtmlDelimiter (escapeHtml s) = false /\
  escapeHtml s = flatMapS entityOf s /\
  (existsbS isHtmlSpecial s = false -> escapeHtml s = s).
Proof.
  split; [|split].
  - induction s as [|c r IH]; [reflexivity|].
    rewrite escapeHtml_cons, existsbS_append, IH.
    now rewrite (proj1 (entity_clean c)).
  - apply escapeHtml_one_pass.
  - induction s as [|c r IH]; [reflexivity|].
    cbn [existsbS]. intros H. apply orb_false_iff in H. destruct H as [Hc Hr].
    rewrite escapeHtml_cons, (proj2 (entity_clean c) Hc), (IH Hr).
    reflexivity.
Qed.

(* ------------------------------------------------------------------ *)
(** ** Identifiers *)

Lemma b64char_alpha (n : N) : isB64 (b64char n) = true.
Proof.
  unfold isB64. rewrite b64char_clip, b64val_b64char; [reflexivity | lia].
Qed.

Lemma btoa_triples (s : string) (k : nat) :
  String.length s = 3 * k ->
  forallbS isB64 (btoa s) = true /\ String.length (btoa s) = 4 * k.
Proof.
  revert k. induction s as [| a | a b | a b c r IH] using string_ind3;
    intros k Hk; cbn [String.length] in Hk.
  - assert (k = 0) as -> by lia. auto.
  - lia.
  - lia.
  - destruct k as [|k]; [lia|].
    destruct (IH k) as [I1 I2]; [lia|].
    cbn [btoa forallbS String.length]. rewrite !b64char_alpha, I1, I2.
    split; [reflexivity | lia].
Qed.

Lemma urlsafe_char (c : ascii) :
  isB64 c = true ->
  let c' := (fun c => if Ascii.eqb c "/"%char then "_"%char else c)
              ((fun c => if Ascii.eqb c "+"%char then "-"%char else c) c) in
  isUrlSafe c' = true /\ Ascii.eqb c' "="%char = false /\ fromUrlSafe c' = c.
Proof.
  destruct c as [[] [] [] [] [] [] [] []]; intros H; try discriminate H;
    repeat split; reflexivity.
Qed.

Lemma toUrlSafe_alpha (s : string) :
  forallbS isB64 s = true ->
  forallbS isUrlSafe (toUrlSafe s) = true /\
  String.length (toUrlSafe s) = String.length s /\
  mapS fromUrlSafe (toUrlSafe s) = s.
Proof.
  unfold toUrlSafe. induction s as [|c r IH]; [auto|].
  cbn [forallbS]. intros H. apply andb_true_iff in H. destruct H as [Hc Hr].
  destruct (IH Hr) as (I1 & I2 & I3).
  destruct (urlsafe_char c Hc) as (U1 & U2 & U3). cbv zeta in U1, U2, U3.
  cbn [mapS filterS]. rewrite U2. cbn [negb forallbS String.length mapS].
  now rewrite U1, I1, I2, I3, U3.
Qed.

Lemma append_inj (p a b : string) :
  String.append p a = String.append p b -> a = b.
Proof.
  induction p as [|c p IH]; simpl; [auto|].
  intros H. inversion H. auto.
Qed.

Lemma append_length (a b : string) :
  String.length (String.append a b) = String.length a + String.length b.
Proof. induction a as [|c a IH]; simpl; [reflexivity | now rewrite IH]. Qed.

Lemma length_string_of_list (l : list ascii) :
  String.length (string_of_list_ascii l) = List.length l.
Proof. induction l as [|c l IH]; simpl; [reflexivity | now rewrite IH]. Qed.

Lemma safeId_body (randomBytes : nat -> nat -> list ascii) (prefix : string)
  (w : World) :
  fst (safeId randomBytes prefix w) =
  String.append prefix
    (toUrlSafe (btoa (string_of_list_ascii (randomBytes (draws w) 12)))).
Proof. reflexivity. Qed.

(** X6.  An identifier is its prefix followed by sixteen characters among
    letters, digits, [-] and [_]. *)
Theorem safeId_shape (randomBytes : nat -> nat -> list ascii)
  (prefix : string) (w : World) :
  List.length (randomBytes (draws w) 12) = 12 ->
  exists body,
    fst (safeId randomBytes prefix w) = String.append prefix body /\
    String.length body = 16 /\ forallbS isUrlSafe body = true.
Proof.
  intros H. rewrite safeId_body. eexists. split; [reflexivity|].
  destruct (btoa_triples (string_of_list_ascii (randomBytes (draws w) 12)) 4)
    as [A L]; [now rewrite length_string_of_list|].
  destruct (toUrlSafe_alpha _ A) as (U1 & U2 & _).
  split; [now rewrite U2, L | exact U1].
Qed.

(** X7.  The identifier determines the twelve random bytes it was made of:
    two calls return the same identifier only if they drew the same bytes. *)
Theorem safeId_injective (randomBytes : nat -> nat -> list ascii)
  (prefix : string) (w1 w2 : World) :
  List.length (randomBytes (draws w1) 12) = 12 ->
  List.length (randomBytes (draws w2) 12) = 12 ->
  fst (safeId randomBytes prefix w1) = fst (safeId randomBytes prefix w2) ->
  randomBytes (draws w1) 12 = randomBytes (draws w2) 12.
Proof.
  intros H1 H2 E. rewrite !safeId_body in E. apply append_inj in E.
  destruct (btoa_triples (string_of_list_ascii (randomBytes (draws w1) 12)) 4)
    as [A1 _]; [now rewrite length_string_of_list|].
  destruct (btoa_triples (string_of_list_ascii (randomBytes (draws w2) 12)) 4)
    as [A2 _]; [now rewrite length_string_of_list|].
  destruct (toUrlSafe_alpha _ A1) as (_ & _ & B1).
  destruct (toUrlSafe_alpha _ A2) as (_ & _ & B2).
  rewrite E, B2 in B1.
  assert (atob (btoa (string_of_list_ascii (randomBytes (draws w2) 12)))
          = atob (btoa (string_of_list_ascii (randomBytes (draws w1) 12))))
    as D by now rewrite B1.
  rewrite !atob_btoa in D. inversion D as [D'].
  rewrite <- (list_ascii_of_string_of_list_ascii (randomBytes (draws w1) 12)).
  rewrite <- (list_ascii_of_string_of_list_ascii (randomBytes (draws w2) 12)).
  now rewrite D'.
Qed.

(* ------------------------------------------------------------------ *)
(** ** Base64 *)

Lemma btoa_length (s : string) :
  String.length (btoa s) = 4 * ((String.length s + 2) / 3).
Proof.
  induction s as [| a | a b | a b c r IH] using string_ind3;
    try reflexivity.
  cbn [btoa String.length]. rewrite IH.
  replace (S (S (S (String.length r))) + 2)
    with ((String.length r + 2) + 1 * 3) by lia.
  rewrite Nat.div_add by lia. lia.
Qed.

Lemma btoa_alphabet (s : string) :
  forallbS (fun c => isB64 c || Ascii.eqb c "="%char) (btoa s) = true.
Proof.
  induction s as [| a | a b | a b c r IH] using string_ind3;
    cbn [btoa forallbS]; rewrite ?b64char_alpha, ?IH; reflexivity.
Qed.

Lemma stray_filter (s : string) :
  existsbS isNotBase64 s = true ->
  existsbS isNotBase64 (filterS (fun c => negb (isAsciiWhitespace c)) s) = true.
Proof.
  induction s as [|c r IH]; simpl; [auto|].
  intros H. apply orb_true_iff in H.
  destruct (isAsciiWhitespace c) eqn:W; simpl.
  - destruct H as [H|H]; [|auto].
    unfold isNotBase64 in H. rewrite W, orb_true_r in H. discriminate.
  - destruct H as [->|H]; [reflexivity|]. rewrite (IH H). apply orb_true_r.
Qed.

Lemma stray_strip (s : string) :
  existsbS isNotBase64 s = true ->
  existsbS isNotBase64 (stripPadding s) = true.
Proof.
  induction s as [|c r IH]; [auto|].
  intros H. cbn [existsbS] in H.
  destruct (Ascii.eqb_spec c "="%char) as [->|Hc].
  - assert (existsbS isNotBase64 r = true) as Hr by exact H.
    destruct r as [|c2 r2]; [discriminate|].
    destruct (Ascii.eqb_spec c2 "="%char) as [->|Hc2].
    + destruct r2 as [|c3 r3]; [discriminate|].
      change (stripPadding (String "=" (String "=" (String c3 r3))))
        with (String "="%char (stripPadding (String "=" (String c3 r3)))).
      cbn [existsbS]. rewrite (IH Hr). apply orb_true_r.
    + assert (stripPadding (String "=" (String c2 r2))
              = String "="%char (stripPadding (String c2 r2))) as ->.
      { destruct c2 as [[] [] [] [] [] [] [] []]; try reflexivity.
        now elim Hc2. }
      cbn [existsbS]. rewrite (IH Hr). apply orb_true_r.
  - rewrite stripPadding_plain by now apply Ascii.eqb_neq.
    cbn [existsbS]. apply orb_true_iff in H.
    destruct H as [->|H]; [reflexivity|]. rewrite (IH H). apply orb_true_r.
Qed.

Lemma stray_sextets (s : string) :
  existsbS isNotBase64 s = true -> sextets s = None.
Proof.
  induction s as [|c r IH]; simpl; [discriminate|].
  intros H. apply orb_true_iff in H. destruct H as [H|H].
  - unfold isNotBase64, isB64 in H. destruct (b64val c); [discriminate|].
    reflexivity.
  - rewrite (IH H). now destruct (b64val c).
Qed.

(** X8.  Decoding what [bytesToB64] wrote gives the bytes back; the text has
    four characters for every three bytes begun, all of the alphabet or
    [=]; and [b64ToBytes] raises on a text with a character that is neither
    of the alphabet nor white space nor [=]. *)
Theorem base64_round_trip (bytes : list ascii) (s : string) :
  b64ToBytes (bytesToB64 bytes) = Some bytes /\
  String.length (bytesToB64 bytes) = 4 * ((List.length bytes + 2) / 3) /\
  forallbS (fun c => isB64 c || Ascii.eqb c "="%char) (bytesToB64 bytes) = true /\
  (existsbS isNotBase64 s = true -> b64ToBytes s = None).
Proof.
  split; [apply b64ToBytes_bytesToB64|]. split.
  { unfold bytesToB64. now rewrite btoa_length, length_string_of_list. }
  split; [apply btoa_alphabet|].
  intros H. unfold b64ToBytes, atob. cbv zeta.
  apply stray_filter in H.
  set (d := filterS (fun c => negb (isAsciiWhitespace c)) s) in *.
  assert (sextets (if Nat.eqb (Nat.modulo (String.length d) 4) 0
                   then stripPadding d else d) = None) as E.
  { apply stray_sextets.
    destruct (Nat.eqb (Nat.modulo (String.length d) 4) 0);
      [now apply stray_strip | exact H]. }
  rewrite E.
  now destruct (Nat.eqb (Nat.modulo (String.length
      (if Nat.eqb (Nat.modulo (String.length d) 4) 0
       then stripPadding d else d)) 4) 1).
Qed.

(* ------------------------------------------------------------------ *)
(** ** The operations, one by one *)

Section More.

Variable clock : nat -> string.
Variable randomBytes : nat -> nat -> list ascii.
Variable pbkdf2 : string -> list ascii -> N -> nat -> list ascii.
Variable localeLe : string -> string -> bool.

Hypothesis clock_truthy : forall n, truthy (clock n) = true.

Set Default Proof Using "Type".

Ltac mprim R :=
  lazymatch type of R with
  | run (gets _) _ _ _ => apply run_gets in R; destruct R as [-> ->]
  | run getState _ _ _ => apply run_getState in R; destruct R as [-> ->]
  | run (ensureUserData _) _ _ _ =>
      apply run_ensureUserData in R; destruct R as [-> ->]
  | run (nowISO _) _ _ _ => apply run_nowISO in R; destruct R as [-> ->]
  | run (safeId _ _) _ _ _ => apply run_safeId in R; destruct R as [-> ->]
  | run (toast _ _) _ _ _ => apply run_toast in R; subst
  | run saveState _ _ _ => apply run_saveState in R; subst
  | run (ret _) _ _ _ => apply run_ret in R; destruct R as [-> ->]
  | run (updPartition _ _) _ _ _ => apply run_updPartition in R; subst
  | run (putGallery _ _ _) _ _ _ => apply run_updPartition in R; subst
  | run (putPost _ _ _) _ _ _ => apply run_updPartition in R; subst
  | run (putComment _ _ _) _ _ _ => apply run_updPartition in R; subst
  | run (delGallery _ _) _ _ _ => apply run_updPartition in R; subst
  | run (delPost _ _) _ _ _ => apply run_updPartition in R; subst
  | run (delComment _ _) _ _ _ => apply run_updPartition in R; subst
  | _ => idtac
  end.

Ltac mstep H :=
  let x := fresh "x" in
  let wx := fresh "wx" in
  let R := fresh "R" in
  apply run_bind in H; destruct H as (x & wx & R & H); mprim R.

(* ------------------------------------------------------------------ *)
(** ** Soft deletion and restoration undo each other *)

Lemma deletePostSoft_ok (w w' : World) (a pid : string) (p : Post.t)
  (r : bool) :
  canManage a w = true ->
  postAt (state w) a pid = Some p ->
  postDeleted p = false ->
  run (deletePostSoft clock a pid) w r w' ->
  r = true /\
  viewState_userId w' = viewState_userId w /\
  sameRegistry (state w) (state w') /\
  Dict.keys (userData (state w')) = Dict.keys (userData (state w)) /\
  (forall o k, galleryAt (state w') o k = galleryAt (state w) o k) /\
  (forall o k, commentAt (state w') o k = commentAt (state w) o k) /\
  (forall a' k',
     postAt (state w') a' k' =
     if String.eqb a a' && String.eqb pid k'
     then Some (Post.set_updatedAt
                  (Post.set_deletedByGallery
                     (Post.set_deletedAt p (Some (clock (ticks w)))) false)
                  (clock (S (ticks w))))
     else postAt (state w) a' k').
Proof.
  intros Hperm Hp Hd Hr. unfold deletePostSoft in Hr.
  mstep Hr. rewrite Hperm in Hr. simpl in Hr.
  mstep Hr. rewrite get_posts_ensure, Hp in Hr.
  fold (postDeleted p) in Hr. rewrite Hd in Hr.
  mstep Hr. mstep Hr. mstep Hr. mstep Hr. mprim Hr. simpl.
  pose proof (postAt_present _ _ _ _ Hp) as Hpres.
  split; [reflexivity|]. split; [reflexivity|]. split.
  { eapply sameRegistry_trans; [apply sameRegistry_ensured|].
    apply sameRegistry_updated. }
  split; [rewrite keys_updated; now apply keys_ensured_present|].
  split; [intros; rewrite galleryAt_withPosts; apply galleryAt_ensured|].
  split; [intros; rewrite commentAt_withPosts; apply commentAt_ensured|].
  intros a' k'. rewrite postAt_putPost by apply partAt_ensured_self.
  now rewrite postAt_ensured.
Qed.

(** X9.  [deletePostSoft] followed by [restorePost] gives the post back: when
    the gallery of an alive post resolves to a gallery that is not
    tombstoned, both calls succeed and leave the post as it was but for
    [updatedAt] (and with [deletedAt] null and the flag off); every other
    post, every gallery and every comment is what it was. *)
Theorem deletePost_restorePost (w : World) (a pid : string) (p : Post.t)
  (c : Ctx.t Gallery.t) :
  canManage a w = true ->
  postAt (state w) a pid = Some p ->
  postDeleted p = false ->
  resolvedGallery (state w) (Some (Post.galleryId p)) (Post.galleryOwnerId p)
  = Some c ->
  galleryDeleted (Ctx.item c) = false ->
  let r1 := deletePostSoft clock a pid w in
  let r2 := restorePost clock a pid (snd r1) in
  fst r1 = true /\ fst r2 = true /\
  (exists p1, postAt (state (snd r1)) a pid = Some p1 /\
              postDeleted p1 = true) /\
  (exists t, postAt (state (snd r2)) a pid = Some (restored p t)) /\
  (forall a' k', String.eqb a a' && String.eqb pid k' = false ->
                 postAt (state (snd r2)) a' k' = postAt (state w) a' k') /\
  (forall o k, galleryAt (state (snd r2)) o k = galleryAt (state w) o k) /\
  (forall o k, commentAt (state (snd r2)) o k = commentAt (state w) o k).
Proof using clock_truthy.
  intros Hperm Hp Hd Hc Hg r1 r2.
  destruct (deletePostSoft_ok w (snd r1) a pid p (fst r1) Hperm Hp Hd
              (run_total _ _))
    as (E1 & V1 & R1 & K1 & G1 & C1 & P1).
  set (p1 := Post.set_updatedAt
               (Post.set_deletedByGallery
                  (Post.set_deletedAt p (Some (clock (ticks w)))) false)
               (clock (S (ticks w)))) in *.
  assert (postAt (state (snd r1)) a pid = Some p1) as Hp1
    by (rewrite P1, !String.eqb_refl; reflexivity).
  assert (postDeleted p1 = true) as Hd1 by apply clock_truthy.
  assert (canManage a (snd r1) = true) as Hperm1.
  { rewrite (canManage_frame a w (snd r1)); auto. apply R1. }
  pose proof (restorePost_run clock (snd r1) (snd r2) a pid p1 (fst r2)
                Hperm1 Hp1 Hd1 (run_total _ _)) as H2.
  assert (resolvedGallery (state (snd r1)) (Some (Post.galleryId p1))
                          (Post.galleryOwnerId p1) = Some c) as Hc1.
  { change (Post.galleryId p1) with (Post.galleryId p).
    change (Post.galleryOwnerId p1) with (Post.galleryOwnerId p).
    rewrite <- Hc. now apply resolvedGallery_ext. }
  rewrite Hc1, Hg in H2.
  destruct H2 as (E2 & V2 & R2 & G2 & C2 & P2).
  split; [exact E1|]. split; [exact E2|].
  split; [exists p1; auto|]. split.
  { exists (clock (ticks (snd r1))). rewrite P2, !String.eqb_refl.
    reflexivity. }
  split.
  { intros a' k' Hne. now rewrite P2, Hne, P1, Hne. }
  split; intros; [now rewrite G2, G1 | now rewrite C2, C1].
Qed.

(** X10.  [deleteGallerySoft] followed by [restoreGallery] gives the gallery
    and its posts back.  When no post of the gallery carries the flag
    beforehand, both calls succeed; the gallery is as it was but for
    [updatedAt]; a post of the gallery that was alive is as it was but for
    [updatedAt]; every other post and every comment is exactly what it
    was. *)
Theorem deleteGallery_restoreGallery (w : World) (o gid : string)
  (g : Gallery.t) :
  canManage o w = true ->
  galleryAt (state w) o gid = Some g ->
  galleryDeleted g = false ->
  (forall a k p, postAt (state w) a k = Some p ->
                 postInGallery a o gid p = true ->
                 Post.deletedByGallery p = false) ->
  let r1 := deleteGallerySoft clock o gid w in
  let r2 := restoreGallery clock o gid (snd r1) in
  fst r1 = true /\ fst r2 = true /\
  (exists t, galleryAt (state (snd r2)) o gid
             = Some (Gallery.set_updatedAt (Gallery.set_deletedAt g None) t)) /\
  (forall o' k', String.eqb o o' && String.eqb gid k' = false ->
                 galleryAt (state (snd r2)) o' k' = galleryAt (state w) o' k') /\
  (forall a k,
     match postAt (state w) a k with
     | Some p =>
         if postInGallery a o gid p && negb (postDeleted p)
         then exists t, postAt (state (snd r2)) a k = Some (restored p t)
         else postAt (state (snd r2)) a k = Some p
     | None => postAt (state (snd r2)) a k = None
     end) /\
  (forall a k, commentAt (state (snd r2)) a k = commentAt (state w) a k).
Proof using clock_truthy.
  intros Hperm Hg Hd Hflag r1 r2.
  destruct (deleteGallerySoft_ok clock clock_truthy w (snd r1) o gid g
              (fst r1) Hperm Hg Hd (run_total _ _))
    as (E1 & V1 & R1 & K1 & G1 & C1 & P1).
  set (g1 := Gallery.set_updatedAt
               (Gallery.set_deletedAt g (Some (clock (ticks w))))
               (clock (S (ticks w)))) in *.
  assert (galleryAt (state (snd r1)) o gid = Some g1) as Hg1
    by (rewrite G1, !String.eqb_refl; reflexivity).
  assert (galleryDeleted g1 = true) as Hd1 by apply clock_truthy.
  assert (canManage o (snd r1) = true) as Hperm1.
  { rewrite (canManage_frame o w (snd r1)); auto. apply R1. }
  destruct (restoreGallery_ok clock (snd r1) (snd r2) o gid g1 (fst r2)
              Hperm1 Hg1 Hd1 (run_total _ _))
    as (E2 & V2 & R2 & K2 & G2 & C2 & P2).
  split; [exact E1|]. split; [exact E2|]. split.
  { exists (clock (ticks (snd r1))). rewrite G2, !String.eqb_refl.
    reflexivity. }
  split.
  { intros o' k' Hne. now rewrite G2, Hne, G1, Hne. }
  split; [|intros; now rewrite C2, C1].
  intros a k. specialize (P1 a k). specialize (P2 a k).
  unfold tombstoneRel in P1. unfold restoreRel in P2.
  destruct (postAt (state w) a k) as [p|] eqn:Ep.
  - destruct (postInGallery a o gid p) eqn:Ein.
    + destruct (postDeleted p) eqn:Edel; simpl in P1 |- *.
      * rewrite P1 in P2. rewrite Ein, Edel, (Hflag a k p Ep Ein) in P2.
        exact P2.
      * destruct P1 as (n & m & P1). rewrite P1 in P2.
        change (postInGallery a o gid (tombstoned p (clock n) (clock m)))
          with (postInGallery a o gid p) in P2.
        rewrite Ein in P2.
        assert (postDeleted (tombstoned p (clock n) (clock m)) = true) as T
          by apply clock_truthy.
        rewrite T in P2. simpl in P2. destruct P2 as (n2 & P2).
        exists (clock n2). exact P2.
    + simpl in P1 |- *. rewrite P1 in P2. rewrite Ein in P2. exact P2.
  - rewrite P1 in P2. exact P2.
Qed.

(* ------------------------------------------------------------------ *)
(** ** Resolution *)

Lemma findGallery_hit (s : State) (gid o : string) (l : list string) :
  In o l -> galleryAt s o gid <> None -> findGallery s gid l <> None.
Proof.
  induction l as [|o' l IH]; simpl; [intros []|].
  intros [->|Hin] Ho.
  - destruct (galleryAt s o gid); [discriminate | congruence].
  - destruct (galleryAt s o' gid); [discriminate | auto].
Qed.

Lemma findPost_hit (s : State) (pid o : string) (l : list string) :
  In o l -> postAt s o pid <> None -> findPost s pid l <> None.
Proof.
  induction l as [|o' l IH]; simpl; [intros []|].
  intros [->|Hin] Ho.
  - destruct (postAt s o pid); [discriminate | congruence].
  - destruct (postAt s o' pid); [discriminate | auto].
Qed.

Lemma findGallery_miss (s : State) (gid : string) (l : list string) :
  (forall o, galleryAt s o gid = None) -> findGallery s gid l = None.
Proof. intros H. induction l as [|o l IH]; simpl; [|rewrite H]; auto. Qed.

Lemma findPost_miss (s : State) (pid : string) (l : list string) :
  (forall o, postAt s o pid = None) -> findPost s pid l = None.
Proof. intros H. induction l as [|o l IH]; simpl; [|rewrite H]; auto. Qed.

Lemma in_keys_present (s : State) (o : string) :
  partAt s o <> None -> In o (Dict.keys (userData s)).
Proof.
  intros H. apply Dict_in_keys. unfold partAt in H.
  destruct (Dict.get (userData s) o) as [ud|]; [now exists ud | congruence].
Qed.

Lemma resolvedGallery_none (s : State) (gid hint : option string) :
  resolvedGallery s gid hint = None <->
  (truthyO gid = false \/ forall o, galleryAt s o (nullish gid "") = None).
Proof.
  unfold resolvedGallery. destruct (truthyO gid); simpl.
  - split.
    + intros H. right. intros o.
      destruct (galleryAt s o (nullish gid "")) as [g|] eqn:Eo; [|reflexivity].
      exfalso.
      assert (findGallery s (nullish gid "") (Dict.keys (userData s)) <> None)
        as F.
      { apply (findGallery_hit s _ o); [|congruence].
        apply in_keys_present. eapply galleryAt_present; eauto. }
      destruct (truthyO hint); simpl in H.
      * destruct (galleryAt s (nullish hint "") (nullish gid ""));
          simpl in H; [discriminate | contradiction].
      * contradiction.
    + intros [H|H]; [discriminate|].
      destruct (truthyO hint); [rewrite H; simpl|];
        now apply findGallery_miss.
  - split; auto.
Qed.

Lemma findPost_sound (s : State) (pid : string) (l : list string)
  (c : Ctx.t Post.t) :
  findPost s pid l = Some c ->
  Ctx.key c = pid /\ postAt s (Ctx.ownerId c) pid = Some (Ctx.item c).
Proof.
  induction l as [|o l IH]; simpl; [discriminate|].
  destruct (postAt s o pid) as [p|] eqn:E; [|exact IH].
  intros H. inversion H. subst c. simpl. auto.
Qed.

Lemma resolvedPost_sound (s : State) (pid hint : option string)
  (c : Ctx.t Post.t) :
  resolvedPost s pid hint = Some c ->
  truthyO pid = true /\ Ctx.key c = nullish pid "" /\
  postAt s (Ctx.ownerId c) (Ctx.key c) = Some (Ctx.item c).
Proof.
  unfold resolvedPost. destruct (truthyO pid); simpl; [|discriminate].
  intros H. split; [reflexivity|].
  destruct (truthyO hint); simpl in H.
  - destruct (postAt s (nullish hint "") (nullish pid "")) as [p|] eqn:E;
      simpl in H.
    + inversion H. subst c. simpl. auto.
    + apply findPost_sound in H. destruct H as [-> H]. auto.
  - apply findPost_sound in H. destruct H as [-> H]. auto.
Qed.

Lemma resolvedPost_none (s : State) (pid hint : option string) :
  resolvedPost s pid hint = None <->
  (truthyO pid = false \/ forall o, postAt s o (nullish pid "") = None).
Proof.
  unfold resolvedPost. destruct (truthyO pid); simpl.
  - split.
    + intros H. right. intros o.
      destruct (postAt s o (nullish pid "")) as [g|] eqn:Eo; [|reflexivity].
      exfalso.
      assert (findPost s (nullish pid "") (Dict.keys (userData s)) <> None)
        as F.
      { apply (findPost_hit s _ o); [|congruence].
        apply in_keys_present. eapply postAt_present; eauto. }
      destruct (truthyO hint); simpl in H.
      * destruct (postAt s (nullish hint "") (nullish pid ""));
          simpl in H; [discriminate | contradiction].
      * contradiction.
    + intros [H|H]; [discriminate|].
      destruct (truthyO hint); [rewrite H; simpl|];
        now apply findPost_miss.
  - split; auto.
Qed.

Lemma findPost_keys_ensured (s : State) (pid h : string) :
  postAt s h pid = None ->
  findPost (ensured s h) pid (Dict.keys (userData (ensured s h))) =
  findPost s pid (Dict.keys (userData s)).
Proof.
  intros Hm.
  rewrite (findPost_ext s) by (intros; apply postAt_ensured).
  destruct (partAt s h) as [ud|] eqn:E.
  - rewrite keys_ensured_present; [auto | congruence].
  - rewrite keys_ensured_absent by exact E. now apply findPost_app_miss.
Qed.

Lemma run_resolvePostCtx (pid hint : option string) (w w' : World)
  (r : option (Ctx.t Post.t)) :
  run (resolvePostCtx pid hint) w r w' ->
  r = resolvedPost (state w) pid hint /\
  exists s', w' = setState w s' /\
    sameEntities (state w) s' /\ sameRegistry (state w) s'.
Proof.
  unfold resolvePostCtx, resolvedPost. intros Hr.
  destruct (truthyO pid) eqn:Eg; simpl in *.
  - mstep Hr. destruct (truthyO hint) eqn:Eh.
    + mstep R. mprim R. rewrite get_posts_ensure in Hr.
      destruct (postAt (state w) (nullish hint "") (nullish pid ""))
        as [g|] eqn:Ea; simpl in *.
      * mprim Hr. split; auto. eexists. split; [reflexivity|].
        split; [apply sameEntities_ensured | apply sameRegistry_ensured].
      * mstep Hr. apply run_scanPosts in Hr.
        -- destruct Hr as [-> (s' & -> & Hn)]. simpl in *. split.
           ++ now apply findPost_keys_ensured.
           ++ exists s'. split; auto. split.
              ** eapply sameEntities_trans; [apply sameEntities_ensured|].
                 eapply normalizedOn_sameEntities; eauto.
              ** eapply sameRegistry_trans; [apply sameRegistry_ensured|].
                 eapply normalizedOn_sameRegistry; eauto.
        -- intros o Ho. now apply keys_present.
    + mprim R. mstep Hr. apply run_scanPosts in Hr.
      * destruct Hr as [-> (s' & -> & Hn)]. split; auto.
        exists s'. split; auto. split.
        -- eapply normalizedOn_sameEntities; eauto.
        -- eapply normalizedOn_sameRegistry; eauto.
      * intros o Ho. now apply keys_present.
  - mprim Hr. split; auto. exists (state w).
    split; [now rewrite setState_state|].
    split; [apply sameEntities_refl | apply sameRegistry_refl].
Qed.

(** X11.  [resolveGalleryCtx] and [resolvePostCtx], called with a key and a
    hint that are not the name of a member of [Object.prototype], find a
    record whenever some partition holds the key: the result is [null] only
    for an empty key or a key no partition holds; a record found is the one
    stored under the returned owner; the hinted partition wins when it holds
    the key; and the call changes no gallery, post or comment. *)
Theorem resolution_finds (w : World) (key hint : option string) :
  inheritedName (nullish key "") = false ->
  inheritedName (nullish hint "") = false ->
  (let res := resolveGalleryCtx key hint w in
   (fst res = None <->
    truthyO key = false \/
    forall o, galleryAt (state w) o (nullish key "") = None) /\
   (forall c, fst res = Some c ->
      Ctx.key c = nullish key "" /\
      galleryAt (state w) (Ctx.ownerId c) (Ctx.key c) = Some (Ctx.item c)) /\
   (forall g, truthyO key = true -> truthyO hint = true ->
      galleryAt (state w) (nullish hint "") (nullish key "") = Some g ->
      fst res = Some (Ctx.mk (nullish hint "") (nullish key "") g)) /\
   sameEntities (state w) (state (snd res))) /\
  (let res := resolvePostCtx key hint w in
   (fst res = None <->
    truthyO key = false \/
    forall o, postAt (state w) o (nullish key "") = None) /\
   (forall c, fst res = Some c ->
      Ctx.key c = nullish key "" /\
      postAt (state w) (Ctx.ownerId c) (Ctx.key c) = Some (Ctx.item c)) /\
   (forall p, truthyO key = true -> truthyO hint = true ->
      postAt (state w) (nullish hint "") (nullish key "") = Some p ->
      fst res = Some (Ctx.mk (nullish hint "") (nullish key "") p)) /\
   sameEntities (state w) (state (snd res))).
Proof.
  intros _ _. split; intros res.
  - destruct (run_resolveGalleryCtx key hint w (snd res) (fst res)
                (run_total _ _)) as [E (s' & Ew & SE & _)].
    rewrite E, Ew. split; [apply resolvedGallery_none|]. split.
    + intros c Hc. apply resolvedGallery_sound in Hc.
      destruct Hc as (_ & ? & ?). auto.
    + split; [|exact SE].
      intros g Hk Hh Hg. unfold resolvedGallery. now rewrite Hk, Hh, Hg.
  - destruct (run_resolvePostCtx key hint w (snd res) (fst res)
                (run_total _ _)) as [E (s' & Ew & SE & _)].
    rewrite E, Ew. split; [apply resolvedPost_none|]. split.
    + intros c Hc. apply resolvedPost_sound in Hc.
      destruct Hc as (_ & ? & ?). auto.
    + split; [|exact SE].
      intros g Hk Hh Hg. unfold resolvedPost. now rewrite Hk, Hh, Hg.
Qed.

(* ------------------------------------------------------------------ *)
(** ** Listings *)

Lemma insertBy_in {A : Type} (le : A -> A -> bool) (x y : A) (l : list A) :
  In y (insertBy le x l) <-> y = x \/ In y l.
Proof.
  induction l as [|z l IH]; simpl.
  - split; intros [H|H]; auto.
  - destruct (le x z); simpl.
    + split; intros [H|H]; auto.
    + rewrite IH. split.
      * intros [H|[H|H]]; auto.
      * intros [H|[H|H]]; auto.
Qed.

Lemma sortBy_in {A : Type} (le : A -> A -> bool) (y : A) (l : list A) :
  In y (sortBy le l) <-> In y l.
Proof.
  unfold sortBy. induction l as [|x l IH]; simpl; [reflexivity|].
  rewrite insertBy_in, IH. split; intros [H|H]; auto.
Qed.

Lemma run_listCommentsForPost (postId : string) (incl : bool)
  (w w' : World) (L : list (Entry.t Comment.t)) :
  run (listCommentsForPost localeLe postId incl) w L w' ->
  forall e, In e L <->
    commentAt (state w) (Entry.ownerId e) (Entry.key e) = Some (Entry.item e) /\
    Comment.postId (Entry.item e) = postId /\
    (incl = false -> commentDeleted (Entry.item e) = false) /\
    Entry.ownerName e = getUserName (Entry.ownerId e) w.
Proof.
  unfold listCommentsForPost. intros Hr. mstep Hr. mstep Hr.
  apply (run_listing_loop
           (fun authorId name ud =>
              entriesOf authorId name
                (fun c => String.eqb (Comment.postId c) postId
                          && negb (negb incl && truthyO (Comment.deletedAt c)))
                (commentsOf ud))) in R.
  - destruct R as [_ ->]. mprim Hr.
    intros e. rewrite sortBy_in, in_flat_map. split.
    + intros (a & Ha & He). apply in_entriesOf in He.
      destruct He as (E1 & E2 & E3 & E4).
      apply Dict_in_keys in Ha. destruct Ha as [ud Hud].
      unfold partAt in E3. rewrite Hud in E3. simpl in E3.
      apply andb_true_iff in E4. destruct E4 as [E4 E5].
      apply String.eqb_eq in E4.
      subst a. repeat split; auto.
      * unfold commentAt. now rewrite Hud.
      * intros ->. simpl in E5. unfold commentDeleted.
        now apply negb_true_iff in E5.
    + intros (E1 & E2 & E3 & E4).
      pose proof (commentAt_present _ _ _ _ E1) as Hp.
      unfold partAt in Hp.
      destruct (Dict.get (userData (state w)) (Entry.ownerId e)) as [ud|] eqn:Hud;
        [|congruence].
      exists (Entry.ownerId e). split; [apply Dict_in_keys; now exists ud|].
      apply in_entriesOf. repeat split; auto.
      * unfold partAt. rewrite Hud. simpl.
        unfold commentAt in E1. now rewrite Hud in E1.
      * rewrite E2, String.eqb_refl. simpl. destruct incl; simpl; auto.
        unfold commentDeleted in E3. now rewrite E3.
  - intros o Ho. now apply keys_present.
Qed.

(** X12.  The three listings return the records stored that match, and only
    those, each with the name of the user it is stored under: a gallery is
    listed when it is stored, a post when it is stored and belongs to the
    gallery asked for, a comment when it is stored and refers to the post
    asked for; a tombstoned record is listed only with [includeDeleted]. *)
Theorem listings_exact (w : World) (incl : bool) :
  (forall e,
     In e (fst (listAllGalleryEntries incl w)) <->
     galleryAt (state w) (Entry.ownerId e) (Entry.key e) = Some (Entry.item e) /\
     (incl = false -> galleryDeleted (Entry.item e) = false) /\
     Entry.ownerName e = getUserName (Entry.ownerId e) w) /\
  (forall go gid e,
     In e (fst (listPostsInGallery go gid incl w)) <->
     postAt (state w) (Entry.ownerId e) (Entry.key e) = Some (Entry.item e) /\
     postInGallery (Entry.ownerId e) go gid (Entry.item e) = true /\
     (incl = false -> postDeleted (Entry.item e) = false) /\
     Entry.ownerName e = getUserName (Entry.ownerId e) w) /\
  (forall postId e,
     In e (fst (listCommentsForPost localeLe postId incl w)) <->
     commentAt (state w) (Entry.ownerId e) (Entry.key e) = Some (Entry.item e) /\
     Comment.postId (Entry.item e) = postId /\
     (incl = false -> commentDeleted (Entry.item e) = false) /\
     Entry.ownerName e = getUserName (Entry.ownerId e) w).
Proof.
  split; [|split].
  - intros e.
    exact (proj2 (run_listAllGalleryEntries incl w _ _ (run_total _ _)) e).
  - intros go gid e.
    exact (proj2 (run_listPostsInGallery go gid incl w _ _ (run_total _ _)) e).
  - intros postId e.
    exact (run_listCommentsForPost postId incl w _ _ (run_total _ _) e).
Qed.

(* ------------------------------------------------------------------ *)
(** ** Creation *)

Lemma findGallery_unique (s : State) (gid o : string) (g : Gallery.t)
  (l : list string) :
  In o l -> galleryAt s o gid = Some g ->
  (forall o', o' <> o -> galleryAt s o' gid = None) ->
  findGallery s gid l = Some (Ctx.mk o gid g).
Proof.
  intros Hin Hg Hu. induction l as [|o' l IH]; simpl; [destruct Hin|].
  destruct (String.eqb_spec o' o) as [->|Hne].
  - now rewrite Hg.
  - rewrite (Hu o' Hne). apply IH. destruct Hin as [E|Hin]; [|exact Hin].
    now elim Hne.
Qed.

Lemma resolvedGallery_unique (s : State) (gid o : string) (g : Gallery.t)
  (hint : option string) :
  truthy gid = true -> galleryAt s o gid = Some g ->
  (forall o', o' <> o -> galleryAt s o' gid = None) ->
  resolvedGallery s (Some gid) hint = Some (Ctx.mk o gid g).
Proof.
  intros Ht Hg Hu. unfold resolvedGallery. simpl. rewrite Ht. simpl.
  assert (findGallery s gid (Dict.keys (userData s)) = Some (Ctx.mk o gid g))
    as F.
  { apply findGallery_unique; auto. apply in_keys_present.
    eapply galleryAt_present; eauto. }
  destruct (truthyO hint); [|exact F].
  destruct (String.eqb_spec (nullish hint "") o) as [->|Hne].
  - now rewrite Hg.
  - now rewrite (Hu _ Hne).
Qed.

(** X13.  [createGallery] by an actor who may manage the partition, which is
    not named like a member of [Object.prototype], stores a new gallery
    under the identifier it draws and returns it: the gallery is alive, its
    colour is in the normal form, no other gallery, no post and no comment
    is written, and when the identifier was not in use the gallery is what
    [resolveGalleryCtx] finds under it, whatever the hint, as long as the
    hint is not such a name either. *)
Theorem createGallery_created (w : World) (o : string) (d : GalleryData.t) :
  canManage o w = true ->
  inheritedName o = false ->
  let res := createGallery clock randomBytes o d w in
  let gid := nextId randomBytes "g_" w in
  exists g,
    fst res = Some g /\ Gallery.id g = gid /\ Gallery.deletedAt g = None /\
    isHexColor (Gallery.color g) = true /\
    (forall o' k',
       galleryAt (state (snd res)) o' k' =
       if String.eqb o o' && String.eqb gid k' then Some g
       else galleryAt (state w) o' k') /\
    samePosts w (snd res) /\ sameComments w (snd res) /\
    ((forall o', galleryAt (state w) o' gid = None) ->
     forall hint,
       inheritedName (nullish hint "") = false ->
       fst (resolveGalleryCtx (Some gid) hint (snd res))
       = Some (Ctx.mk o gid g)).
Proof.
  intros Hperm _ res gid. subst res.
  destruct (createGallery clock randomBytes o d w) as [r w'] eqn:Hr.
  change (run (createGallery clock randomBytes o d) w r w') in Hr.
  cbn [fst snd]. unfold createGallery in Hr.
  mstep Hr. rewrite Hperm in Hr. simpl in Hr.
  mstep Hr. mstep Hr. mstep Hr. mstep Hr. mstep Hr. mstep Hr. mprim Hr.
  fold gid.
  match goal with
  | |- exists g, Some ?G = Some g /\ _ => exists G
  end.
  assert (forall o' k',
    galleryAt
      (state
         (saved
            (setState (ticked (ticked (drawn (setState w (ensured (state w) o)))))
               (updated
                  (state (ticked (ticked (drawn (setState w (ensured (state w) o))))))
                  o
                  (withGalleries
                     (fun m => Dict.set m gid
                        (Gallery.mk gid
                           (trim (orElse (GalleryData.title d) "새 갤러리"))
                           (trim (orElse (GalleryData.desc d) ""))
                           (orElse (GalleryData.icon d) "🖼️")
                           (normalizeHex
                              (Some (orElse (GalleryData.color d) "#6EE7FF")))
                           (GalleryData.pinned d)
                           (clock (ticks w)) (clock (S (ticks w))) None)))))))
      o' k' =
    if String.eqb o o' && String.eqb gid k'
    then Some (Gallery.mk gid
                 (trim (orElse (GalleryData.title d) "새 갤러리"))
                 (trim (orElse (GalleryData.desc d) ""))
                 (orElse (GalleryData.icon d) "🖼️")
                 (normalizeHex (Some (orElse (GalleryData.color d) "#6EE7FF")))
                 (GalleryData.pinned d)
                 (clock (ticks w)) (clock (S (ticks w))) None)
    else galleryAt (state w) o' k') as G.
  { intros o' k'. simpl.
    rewrite galleryAt_putGallery by apply partAt_ensured_self.
    now rewrite galleryAt_ensured. }
  split; [reflexivity|]. split; [reflexivity|]. split; [reflexivity|].
  split; [apply normalizeHex_shape|]. split; [exact G|].
  split; [intros a k; simpl;
          now rewrite postAt_withGalleries, postAt_ensured|].
  split; [intros a k; simpl;
          now rewrite commentAt_withGalleries, commentAt_ensured|].
  intros Hfresh hint _.
  match goal with
  | |- fst (resolveGalleryCtx _ _ ?W) = _ =>
      destruct (run_resolveGalleryCtx (Some gid) hint W _ _ (run_total _ _))
        as [-> _]
  end.
  apply resolvedGallery_unique.
  - apply (safeId_truthy randomBytes "_" "g"%char).
  - rewrite G, !String.eqb_refl. reflexivity.
  - intros o' Hne. rewrite G.
    apply String.eqb_neq in Hne. rewrite String.eqb_sym in Hne.
    rewrite Hne. simpl. apply Hfresh.
Qed.

Lemma rejected_after_lookup {A : Type} (w : World) (s' : State)
  (t m : string) :
  sameEntities (state w) s' ->
  rejectedWith w t m (@None A, toasted (setState w s') t m).
Proof.
  intros (E1 & E2 & E3). unfold rejectedWith. simpl.
  split; [reflexivity|]. split; [reflexivity|].
  split; [exact E1|]. split; [exact E2|]. split; [exact E3|]. reflexivity.
Qed.

(** X14.  [createPost] by an actor who may manage the author's partition,
    with the author, the gallery and the gallery's owner addressed by
    ordinary keys and not by the name of a member of [Object.prototype],
    goes through exactly when the gallery addressed resolves and is not
    tombstoned.  Otherwise it returns nothing, shows the toast that asks for
    a valid gallery, writes no record and saves nothing.  When it goes
    through, the post
    returned is stored under the identifier drawn in the author's partition
    and saved; it is alive, and it records the partition the gallery was
    found in and the [id] field of that gallery. *)
Theorem createPost_needs_live_gallery (w : World) (a : string) (d : PostData.t) :
  canManage a w = true ->
  inheritedName a = false ->
  inheritedName (nullish (PostData.galleryId d) "") = false ->
  inheritedName (nullish (PostData.galleryOwnerId d) "") = false ->
  let res := createPost clock randomBytes a d w in
  let pid := nextId randomBytes "p_" w in
  match fst (resolveGalleryCtx (PostData.galleryId d)
                               (PostData.galleryOwnerId d) w) with
  | Some ctx =>
      if truthyO (Gallery.deletedAt (Ctx.item ctx)) then
        rejectedWith w "오류" "유효한 갤러리를 선택하세요." res
      else
        exists p,
          fst res = Some p /\ Post.id p = pid /\
          Post.galleryOwnerId p = Some (Ctx.ownerId ctx) /\
          Post.galleryId p = Gallery.id (Ctx.item ctx) /\
          galleryAt (state w) (Ctx.ownerId ctx) (Ctx.key ctx)
          = Some (Ctx.item ctx) /\
          Post.deletedAt p = None /\ Post.deletedByGallery p = false /\
          (forall a' k',
             postAt (state (snd res)) a' k' =
             if String.eqb a a' && String.eqb pid k' then Some p
             else postAt (state w) a' k') /\
          sameGalleries w (snd res) /\ sameComments w (snd res) /\
          isSaved (snd res)
  | None => rejectedWith w "오류" "유효한 갤러리를 선택하세요." res
  end.
Proof.
  intros Hperm _ _ _ res pid. subst res.
  rewrite (proj1 (run_resolveGalleryCtx _ _ _ _ _
                    (run_total (resolveGalleryCtx (PostData.galleryId d)
                                  (PostData.galleryOwnerId d)) w))).
  destruct (createPost clock randomBytes a d w) as [r w'] eqn:Hr.
  change (run (createPost clock randomBytes a d) w r w') in Hr.
  unfold createPost in Hr.
  mstep Hr. rewrite Hperm in Hr. simpl in Hr.
  mstep Hr. apply run_resolveGalleryCtx in R.
  destruct R as [-> (s2 & -> & SE & SR)].
  destruct (resolvedGallery (state w) (PostData.galleryId d)
                            (PostData.galleryOwnerId d)) as [c|] eqn:Ec.
  - destruct (truthyO (Gallery.deletedAt (Ctx.item c))).
    + mstep Hr. mprim Hr. now apply rejected_after_lookup.
    + mstep Hr. mstep Hr. mstep Hr. mstep Hr. mstep Hr. mstep Hr. mprim Hr.
      fold pid. destruct SE as (E1 & E2 & E3).
      eexists. split; [reflexivity|]. split; [reflexivity|].
      split; [reflexivity|]. split; [reflexivity|].
      split; [exact (proj2 (proj2 (resolvedGallery_sound _ _ _ _ Ec)))|].
      split; [reflexivity|]. split; [reflexivity|].
      split; [|split; [|split]].
      * intros a' k'. cbn [fst snd state saved setState ticked drawn].
        rewrite postAt_putPost by apply partAt_ensured_self.
        now rewrite postAt_ensured, E2.
      * intros o k. cbn [fst snd state saved setState ticked drawn].
        now rewrite galleryAt_withPosts, galleryAt_ensured, E1.
      * intros o k. cbn [fst snd state saved setState ticked drawn].
        now rewrite commentAt_withPosts, commentAt_ensured, E3.
      * reflexivity.
  - mstep Hr. mprim Hr. now apply rejected_after_lookup.
Qed.

(** X15.  [createComment] by an actor who may manage the author's partition,
    with the author and the post addressed by ordinary keys and not by the
    name of a member of [Object.prototype],
    goes through exactly when the post addressed resolves and is not
    tombstoned; otherwise it returns nothing, shows the toast that the post
    is not valid, writes no record and saves nothing.  When it goes through,
    the comment
    returned is alive, carries the post id given and the trimmed text, and
    is stored under the identifier drawn in the author's partition and
    saved. *)
Theorem createComment_needs_live_post (w : World) (a postId : string)
  (text : option string) :
  canManage a w = true ->
  inheritedName a = false -> inheritedName postId = false ->
  let res := createComment clock randomBytes a postId text w in
  let cid := nextId randomBytes "c_" w in
  match fst (resolvePostCtx (Some postId) None w) with
  | Some ctx =>
      if truthyO (Post.deletedAt (Ctx.item ctx)) then
        rejectedWith w "오류" "유효한 게시물이 아닙니다." res
      else
        exists c,
          fst res = Some c /\ Comment.id c = cid /\
          Comment.postId c = postId /\
          postAt (state w) (Ctx.ownerId ctx) postId = Some (Ctx.item ctx) /\
          Comment.text c = trim (orElse text "") /\
          Comment.deletedAt c = None /\
          (forall a' k',
             commentAt (state (snd res)) a' k' =
             if String.eqb a a' && String.eqb cid k' then Some c
             else commentAt (state w) a' k') /\
          sameGalleries w (snd res) /\ samePosts w (snd res) /\
          isSaved (snd res)
  | None => rejectedWith w "오류" "유효한 게시물이 아닙니다." res
  end.
Proof.
  intros Hperm _ _ res cid. subst res.
  rewrite (proj1 (run_resolvePostCtx _ _ _ _ _
                    (run_total (resolvePostCtx (Some postId) None) w))).
  destruct (createComment clock randomBytes a postId text w) as [r w'] eqn:Hr.
  change (run (createComment clock randomBytes a postId text) w r w') in Hr.
  unfold createComment in Hr.
  mstep Hr. rewrite Hperm in Hr. simpl in Hr.
  mstep Hr. apply run_resolvePostCtx in R.
  destruct R as [-> (s2 & -> & SE & SR)].
  destruct (resolvedPost (state w) (Some postId) None) as [c|] eqn:Ec.
  - destruct (truthyO (Post.deletedAt (Ctx.item c))).
    + mstep Hr. mprim Hr. now apply rejected_after_lookup.
    + mstep Hr. mstep Hr. mstep Hr. mstep Hr. mstep Hr. mstep Hr. mprim Hr.
      fold cid. destruct SE as (E1 & E2 & E3).
      eexists. split; [reflexivity|]. split; [reflexivity|].
      split; [reflexivity|].
      split.
      { destruct (resolvedPost_sound _ _ _ _ Ec) as (_ & K & P).
        rewrite K in P. exact P. }
      split; [reflexivity|]. split; [reflexivity|].
      split; [|split; [|split]].
      * intros a' k'. cbn [fst snd state saved setState ticked drawn].
        rewrite commentAt_putComment by apply partAt_ensured_self.
        now rewrite commentAt_ensured, E3.
      * intros o k. cbn [fst snd state saved setState ticked drawn].
        now rewrite galleryAt_withComments, galleryAt_ensured, E1.
      * intros o k. cbn [fst snd state saved setState ticked drawn].
        now rewrite postAt_withComments, postAt_ensured, E2.
      * reflexivity.
  - mstep Hr. mprim Hr. now apply rejected_after_lookup.
Qed.

(* ------------------------------------------------------------------ *)
(** ** Gallery statistics *)

Lemma ascii_compare_refl (c : ascii) : Ascii.compare c c = Eq.
Proof. unfold Ascii.compare. apply N.compare_refl. Qed.

Lemma string_compare_refl (s : string) : String.compare s s = Eq.
Proof.
  induction s as [|c s IH]; simpl; auto. now rewrite ascii_compare_refl.
Qed.

Lemma string_ltb_irrefl (s : string) : String.ltb s s = false.
Proof. unfold String.ltb. now rewrite string_compare_refl. Qed.

Lemma string_ltb_asym (s t : string) :
  String.ltb s t = true -> String.ltb t s = false.
Proof.
  unfold String.ltb. rewrite (String.compare_antisym s t).
  destruct (String.compare t s); simpl; auto; discriminate.
Qed.

Lemma string_compare_trans (s t u : string) :
  String.compare s t <> Lt -> String.compare t u <> Lt ->
  String.compare s u <> Lt.
Proof.
  revert t u. induction s as [|a s IH]; intros [|b t] [|c u]; simpl;
    try congruence.
  unfold Ascii.compare.
  destruct (N.compare_spec (N_of_ascii a) (N_of_ascii b)) as [E1|E1|E1];
    destruct (N.compare_spec (N_of_ascii b) (N_of_ascii c)) as [E2|E2|E2];
    try congruence;
    destruct (N.compare_spec (N_of_ascii a) (N_of_ascii c)) as [E3|E3|E3];
    try congruence; try lia; try (intros; discriminate).
  apply IH.
Qed.

Lemma string_ltb_trans (s t u : string) :
  String.ltb s t = false -> String.ltb t u = false -> String.ltb s u = false.
Proof.
  unfold String.ltb. intros H1 H2.
  assert (String.compare s u <> Lt) as H.
  { apply (string_compare_trans s t u).
    - destruct (String.compare s t); congruence.
    - destruct (String.compare t u); congruence. }
  destruct (String.compare s u); congruence.
Qed.

(** The fold of [computeGalleryMeta] returns the greatest stamp, or the
    start value when that is greater. *)
Lemma latest_fold (l : list (Entry.t Post.t)) :
  forall acc,
  let r := fold_left
             (fun acc x =>
                if String.ltb (stampOf (Entry.item x)) acc then acc
                else stampOf (Entry.item x)) l acc in
  (r = acc \/ exists e, In e l /\ stampOf (Entry.item e) = r) /\
  String.ltb r acc = false /\
  forall e, In e l -> String.ltb r (stampOf (Entry.item e)) = false.
Proof.
  induction l as [|x l IH]; intros acc; simpl.
  - split; [now left|]. split; [apply string_ltb_irrefl|]. intros e [].
  - destruct (String.ltb (stampOf (Entry.item x)) acc) eqn:E.
    + destruct (IH acc) as (H1 & H2 & H3). split; [|split].
      * destruct H1 as [H1|(e & He & H1)]; [now left|].
        right. exists e. auto.
      * exact H2.
      * intros e [<-|He]; [|now apply H3].
        apply (string_ltb_trans _ acc); [exact H2|].
        now apply string_ltb_asym.
    + destruct (IH (stampOf (Entry.item x))) as (H1 & H2 & H3).
      split; [|split].
      * right. destruct H1 as [H1|(e & He & H1)].
        -- exists x. split; [now left | now rewrite H1].
        -- exists e. auto.
      * apply (string_ltb_trans _ (stampOf (Entry.item x))); assumption.
      * intros e [<-|He]; [exact H2 | now apply H3].
Qed.

Lemma filter_flat_map {A B : Type} (p : B -> bool) (f : A -> list B)
  (l : list A) :
  filter p (flat_map f l) = flat_map (fun a => filter p (f a)) l.
Proof.
  induction l as [|a l IH]; simpl; auto. now rewrite filter_app, IH.
Qed.

Lemma filter_entriesOf {E : Type} (o n : string) (p keep : E -> bool)
  (m : Dict.t E) :
  filter (fun e => p (Entry.item e)) (entriesOf o n keep m)
  = entriesOf o n (fun x => keep x && p x) m.
Proof.
  unfold entriesOf. induction (Dict.entries m) as [|[k v] l IH]; simpl; auto.
  destruct (keep v) eqn:K; simpl.
  - destruct (p v); simpl; [now rewrite IH | exact IH].
  - exact IH.
Qed.

Lemma entriesOf_ext {E : Type} (o n : string) (f g : E -> bool) (m : Dict.t E) :
  (forall x, f x = g x) -> entriesOf o n f m = entriesOf o n g m.
Proof.
  intros H. unfold entriesOf. f_equal. apply filter_ext.
  intros [k v]. apply H.
Qed.

Lemma listPostsInGallery_flat (go gid : string) (incl : bool) (w : World) :
  fst (listPostsInGallery go gid incl w)
  = flat_map
      (fun o =>
         entriesOf o (getUserName o w)
           (fun p => postInGallery o go gid p
                     && negb (negb incl && truthyO (Post.deletedAt p)))
           (postsOf (normalizeUserData
                       (nullish (partAt (state w) o) defaultUserData))))
      (Dict.keys (userData (state w))).
Proof.
  pose proof (run_total (listPostsInGallery go gid incl) w) as Hr.
  unfold listPostsInGallery in Hr at 1.
  apply run_bind in Hr. destruct Hr as (s & w0 & H0 & Hr).
  apply run_gets in H0. destruct H0 as [-> ->].
  apply (run_listing_loop
           (fun authorId name ud =>
              entriesOf authorId name
                (fun p => postInGallery authorId go gid p
                          && negb (negb incl && truthyO (Post.deletedAt p)))
                (postsOf ud))) in Hr.
  - exact (proj2 Hr).
  - intros o Ho. now apply keys_present.
Qed.

Lemma live_of_all (go gid : string) (w : World) :
  filter (fun x => negb (truthyO (Post.deletedAt (Entry.item x))))
         (fst (listPostsInGallery go gid true w))
  = fst (listPostsInGallery go gid false w).
Proof.
  rewrite !listPostsInGallery_flat, filter_flat_map.
  apply flat_map_agree. intros o _.
  rewrite (filter_entriesOf o _
             (fun p => negb (truthyO (Post.deletedAt p)))).
  apply entriesOf_ext. intros p. simpl.
  now rewrite andb_true_r.
Qed.

Lemma computeGalleryMeta_eq (w : World) (go gid : string) :
  fst (computeGalleryMeta go gid w) =
  (List.length (fst (listPostsInGallery go gid false w)),
   List.length (filter (fun x => truthyO (Post.deletedAt (Entry.item x)))
                  (fst (listPostsInGallery go gid true w))),
   let latest :=
     fold_left
       (fun acc x =>
          if String.ltb (stampOf (Entry.item x)) acc then acc
          else stampOf (Entry.item x))
       (fst (listPostsInGallery go gid false w)) "" in
   if truthy latest then Some latest else None).
Proof.
  rewrite <- live_of_all.
  unfold computeGalleryMeta, bind, ret.
  destruct (listPostsInGallery go gid true w) as [posts w1]. reflexivity.
Qed.

(** X16.  [computeGalleryMeta] counts what [listPostsInGallery] lists:
    [postCount] is the number of posts of the gallery that are not
    tombstoned, [postCount] and [trashedCount] add up to the number of all
    its posts.  [latestAt] is the greatest [updatedAt || createdAt] among
    the posts that are not tombstoned, and [null] exactly when none of them
    has one. *)
Theorem computeGalleryMeta_counts (w : World) (go gid : string) :
  let meta := fst (computeGalleryMeta go gid w) in
  let live := fst (listPostsInGallery go gid false w) in
  let all := fst (listPostsInGallery go gid true w) in
  fst (fst meta) = List.length live /\
  fst (fst meta) + snd (fst meta) = List.length all /\
  (snd meta = None <->
   forall e, In e live -> stampOf (Entry.item e) = "") /\
  (forall t, snd meta = Some t ->
     (exists e, In e live /\ stampOf (Entry.item e) = t) /\
     forall e, In e live -> String.ltb t (stampOf (Entry.item e)) = false).
Proof.
  intros meta live all.
  subst meta. rewrite computeGalleryMeta_eq. cbn [fst snd].
  split; [reflexivity|]. split.
  { subst live. rewrite <- live_of_all. fold all.
    rewrite <- (filter_length
                  (fun x => negb (truthyO (Post.deletedAt (Entry.item x)))) all).
    f_equal. f_equal. apply filter_ext. intros x.
    now rewrite negb_involutive. }
  fold live.
  destruct (latest_fold live "") as (H1 & H2 & H3).
  cbv zeta in *.
  set (r := fold_left _ live "") in *.
  unfold truthy. split.
  - destruct (String.eqb_spec r "") as [E|E]; simpl.
    + split; [|reflexivity]. intros _ e He.
      specialize (H3 e He). rewrite E in H3.
      destruct (stampOf (Entry.item e)); [reflexivity | discriminate].
    + split; [discriminate|]. intros Hall. exfalso. apply E.
      destruct H1 as [H1|(e & He & H1)]; [exact H1|].
      now rewrite <- H1, (Hall e He).
  - intros t. destruct (String.eqb_spec r "") as [E|E]; simpl;
      [discriminate|].
    intros Ht. inversion Ht. subst t. split; [|exact H3].
    destruct H1 as [H1|H1]; [contradiction | exact H1].
Qed.

(** X17.  Once [deleteGallerySoft] has tombstoned a gallery, the gallery has
    no live post left: [listPostsInGallery] without [includeDeleted] is
    empty, and [computeGalleryMeta] reports [postCount] 0 and [latestAt]
    [null]. *)
Theorem deleteGallery_hides_posts (w : World) (o gid : string) (g : Gallery.t) :
  canManage o w = true ->
  galleryAt (state w) o gid = Some g ->
  galleryDeleted g = false ->
  let w' := snd (deleteGallerySoft clock o gid w) in
  fst (listPostsInGallery o gid false w') = [] /\
  fst (fst (fst (computeGalleryMeta o gid w'))) = 0 /\
  snd (fst (computeGalleryMeta o gid w')) = None.
Proof using clock_truthy.
  intros Hperm Hg Hd w'.
  destruct (deleteGallerySoft_ok clock clock_truthy w w' o gid g _ Hperm Hg Hd
              (run_total _ _)) as (_ & _ & _ & _ & _ & _ & HP).
  assert (fst (listPostsInGallery o gid false w') = []) as HL.
  { destruct (fst (listPostsInGallery o gid false w')) as [|e L] eqn:EL;
      [reflexivity|]. exfalso.
    assert (In e (fst (listPostsInGallery o gid false w'))) as Hin
      by (rewrite EL; now left).
    apply (proj2 (run_listPostsInGallery o gid false w' _ _ (run_total _ _)))
      in Hin.
    destruct Hin as (P1 & P2 & P3 & _). specialize (P3 eq_refl).
    specialize (HP (Entry.ownerId e) (Entry.key e)).
    unfold tombstoneRel in HP.
    destruct (postAt (state w) (Entry.ownerId e) (Entry.key e)) as [p|] eqn:Ep.
    - destruct (postInGallery (Entry.ownerId e) o gid p) eqn:Ei;
        destruct (postDeleted p) eqn:Edel; simpl in HP.
      + rewrite HP in P1. inversion P1. congruence.
      + destruct HP as (n & m & HP). rewrite HP in P1. inversion P1 as [E].
        rewrite <- E in P3. unfold postDeleted, tombstoned in P3.
        simpl in P3. rewrite clock_truthy in P3. discriminate.
      + rewrite HP in P1. inversion P1. congruence.
      + rewrite HP in P1. inversion P1. congruence.
    - rewrite HP in P1. discriminate. }
  split; [exact HL|].
  rewrite computeGalleryMeta_eq, HL. split; reflexivity.
Qed.

(* ------------------------------------------------------------------ *)
(** ** Accounts *)

Lemma signup_invalid (u p : string) (w : World) :
  isValidUsername u = false ->
  signup clock randomBytes pbkdf2 u p w
  = (false, toasted w "회원가입 실패" "아이디 형식이 올바르지 않습니다.").
Proof. intros Ev. unfold signup. rewrite Ev. reflexivity. Qed.

Lemma signup_taken (u p : string) (w : World) :
  isValidUsername u = true ->
  truthyAt (usernameIndex (state w)) u = true ->
  signup clock randomBytes pbkdf2 u p w
  = (false, toasted w "회원가입 실패" "이미 존재하는 아이디입니다.").
Proof.
  intros Ev Ei. unfold signup. rewrite Ev. simpl.
  unfold bind at 1, getState, gets. cbv beta. rewrite Ei. reflexivity.
Qed.

Lemma truthyAt_false (m : Dict.t string) (k : string) :
  truthyAt m k = false -> truthyO (Dict.get m k) = false.
Proof. unfold truthyAt. now destruct (Dict.get m k). Qed.

(** X18.  [signup] goes through exactly when the name has a valid shape and
    reading it on the index gives nothing truthy: the index holds no user id
    for it, and it is not a name the index inherits from [Object.prototype]
    without holding it.  It then registers one account, with the role
    "user", under the name given, touches no other account and no other
    name, leaves the session alone and saves.  Otherwise it returns [false],
    shows why (a name of bad shape, or a name taken, which is what an
    inherited name counts as) and changes nothing else.  The names are the
    strings of the embedding, of code units below 256. *)
Theorem signup_outcome (w : World) (u p : string) :
  let res := signup clock randomBytes pbkdf2 u p w in
  if isValidUsername u &&
     negb (match Dict.get (usernameIndex (state w)) u with
           | Some userId => truthy userId
           | None => inheritedName u
           end)
  then
    fst res = true /\
    exists userId user,
      Dict.get (usernameIndex (state (snd res))) u = Some userId /\
      Dict.get (users (state (snd res))) userId = Some user /\
      User.userId user = userId /\ User.username user = u /\
      User.role user = "user" /\
      (forall k, k <> userId ->
         Dict.get (users (state (snd res))) k = Dict.get (users (state w)) k) /\
      (forall n, n <> u ->
         Dict.get (usernameIndex (state (snd res))) n
         = Dict.get (usernameIndex (state w)) n) /\
      sameSession w (snd res) /\ isSaved (snd res)
  else
    fst res = false /\ state (snd res) = state w /\
    sameStored w (snd res) /\ sameSession w (snd res) /\
    toasts (snd res) =
    (toasts w ++
     [Toast.mk "회원가입 실패"
        (if isValidUsername u then "이미 존재하는 아이디입니다."
         else "아이디 형식이 올바르지 않습니다.")])%list.
Proof.
  intros res. subst res.
  change (match Dict.get (usernameIndex (state w)) u with
          | Some userId => truthy userId
          | None => inheritedName u
          end) with (truthyAt (usernameIndex (state w)) u).
  destruct (isValidUsername u) eqn:Ev; simpl.
  - destruct (truthyAt (usernameIndex (state w)) u) eqn:Ei; simpl.
    + rewrite (signup_taken u p w Ev Ei). repeat split; reflexivity.
    + rewrite (signup_run clock randomBytes pbkdf2 u p w Ev Ei).
      cbn [fst snd]. split; [reflexivity|].
      eexists. eexists. cbn [state toasted saved setState].
      destruct (sameRegistry_ensured
                  (mkState (version (state w))
                     (Dict.set (users (state w))
                        (fst (safeId randomBytes "u_" (drawn w)))
                        (User.mk (fst (safeId randomBytes "u_" (drawn w))) u
                           (bytesToB64 (randomBytes (draws w) SALT_BYTES))
                           (deriveHashB64 pbkdf2 p
                              (randomBytes (draws w) SALT_BYTES))
                           (clock (ticks w)) "user"))
                     (Dict.set (usernameIndex (state w)) u
                        (fst (safeId randomBytes "u_" (drawn w))))
                     (userData (state w)))
                  (fst (safeId randomBytes "u_" (drawn w))))
        as (_ & U & X & _).
      rewrite U, X. cbn [users usernameIndex].
      split; [apply Dict_get_set_eq|].
      split; [apply Dict_get_set_eq|].
      split; [reflexivity|]. split; [reflexivity|]. split; [reflexivity|].
      split; [intros k Hk; apply Dict_get_set_ne; congruence|].
      split; [intros n Hn; apply Dict_get_set_ne; congruence|].
      split; [split; reflexivity | reflexivity].
  - rewrite (signup_invalid u p w Ev). repeat split; reflexivity.
Qed.

(** X19.  The signup form registers nothing unless the two passwords typed
    are the same string of at least six characters and the name, trimmed,
    has a valid shape and is not taken: either the document, the stored
    copy and the session are what they were and one toast titled
    "회원가입 실패" was added, or all of this holds and the form did what
    [signup] does with the trimmed name. *)
Theorem submitSignup_policy (w : World) (signupId signupPw signupPw2 : string) :
  let w' := snd (submitSignup clock randomBytes pbkdf2
                   signupId signupPw signupPw2 w) in
  (state w' = state w /\ sameStored w w' /\ sameSession w w' /\
   exists message,
     toasts w' = (toasts w ++ [Toast.mk "회원가입 실패" message])%list)
  \/
  (signupPw = signupPw2 /\ 6 <= String.length signupPw /\
   isValidUsername (trim signupId) = true /\
   truthyO (Dict.get (usernameIndex (state w)) (trim signupId)) = false /\
   signup clock randomBytes pbkdf2 (trim signupId) signupPw w = (true, w')).
Proof.
  intros w'. subst w'. unfold submitSignup.
  destruct (String.eqb_spec signupPw signupPw2) as [E|E]; simpl.
  - destruct (Nat.ltb_spec (String.length signupPw) 6) as [L|L].
    + left. repeat split; try reflexivity. eexists. reflexivity.
    + set (u := trim signupId).
      destruct (isValidUsername u) eqn:Ev.
      * destruct (truthyAt (usernameIndex (state w)) u) eqn:Ei.
        -- left. rewrite !snd_then_ret. rewrite (signup_taken u signupPw w Ev Ei).
           repeat split; try reflexivity. eexists. reflexivity.
        -- right. split; [exact E|]. split; [exact L|].
           split; [reflexivity|]. split; [now apply truthyAt_false|].
           rewrite snd_then_ret.
           rewrite (signup_run clock randomBytes pbkdf2 u signupPw w Ev Ei).
           reflexivity.
      * left. rewrite !snd_then_ret. rewrite (signup_invalid u signupPw w Ev).
        repeat split; try reflexivity. eexists. reflexivity.
  - left. repeat split; try reflexivity. eexists. reflexivity.
Qed.

(* ------------------------------------------------------------------ *)
(** ** The remembered user *)

Lemma autoLogin_known (w : World) (uid : string) (user : User.t) :
  rememberedUser w = Some uid -> truthy uid = true ->
  Dict.get (users (state w)) uid = Some user ->
  viewState_userId (snd (autoLogin w)) = Some uid /\
  toasts (snd (autoLogin w)) =
  (toasts w ++
   [Toast.mk "자동 로그인"
      (String.append (User.username user) " 님으로 로그인되었습니다.")])%list.
Proof.
  intros Hr Ht Hu.
  pose proof (run_total autoLogin w) as R0. unfold autoLogin in R0 at 1.
  mstep R0. mstep R0. rewrite Hr in R0. simpl in R0.
  rewrite Ht, Hu in R0.
  mstep R0. apply run_modify in R. subst wx.
  mstep R0. mstep R0. apply run_enterApp in R.
  destruct R as (s' & -> & SE & SR). mstep R0. simpl in R0.
  destruct SR as (_ & U & _). simpl in U.
  rewrite U in R0.
  rewrite Hu in R0. mprim R0. rewrite R0. simpl. auto.
Qed.

Lemma autoLogin_unknown (w : World) :
  (if truthyO (rememberedUser w)
   then Dict.get (users (state w)) (nullish (rememberedUser w) "")
   else None) = None ->
  snd (autoLogin w)
  = mkWorld (state w) None (storedState w) (rememberedUser w) (toasts w)
            (ticks w) (draws w).
Proof.
  intros H.
  pose proof (run_total autoLogin w) as R0. unfold autoLogin in R0 at 1.
  mstep R0. mstep R0. rewrite H in R0.
  apply run_modify in R0. exact R0.
Qed.

(** X20.  A [login] that succeeds with "remember me" leaves the user id under
    the remember key, and the page-load handler then enters the application
    as that user and greets the account by name, in any world with that key
    and that user registry; without "remember me" the key is cleared and the
    handler stays at the login screen.  After [logout] the key is cleared and
    the handler stays at the login screen too. *)
Theorem remember_me (w : World) (u p : string) (remember : bool) :
  fst (login pbkdf2 u p remember w) = Some true ->
  let w1 := snd (login pbkdf2 u p remember w) in
  exists uid user,
    accountOf (state w) u = Some (uid, user) /\
    viewState_userId w1 = Some uid /\
    rememberedUser w1 = (if remember then Some uid else None) /\
    (forall w2,
       rememberedUser w2 = rememberedUser w1 ->
       users (state w2) = users (state w1) ->
       viewState_userId (snd (autoLogin w2))
       = (if remember then Some uid else None) /\
       (remember = true ->
        toasts (snd (autoLogin w2)) =
        (toasts w2 ++
         [Toast.mk "자동 로그인"
            (String.append (User.username user)
                           " 님으로 로그인되었습니다.")])%list)) /\
    rememberedUser (snd (logout w1)) = None /\
    viewState_userId (snd (logout w1)) = None /\
    viewState_userId (snd (autoLogin (snd (logout w1)))) = None.
Proof.
  intros Hok w1. subst w1. rewrite login_account in *.
  unfold loginRefused in *.
  destruct (accountOf (state w) u) as [[uid user]|] eqn:Ea;
    [|discriminate Hok].
  destruct (b64ToBytes (User.saltB64 user)) as [salt|]; [|discriminate Hok].
  destruct (String.eqb _ _); [|discriminate Hok].
  match goal with
  | |- context [snd (?m w)] =>
      pose proof (run_total m w) as Hr; apply login_enters in Hr;
      destruct Hr as (_ & V & R & _ & (_ & U & _))
  end.
  assert (truthy uid = true /\ Dict.get (users (state w)) uid = Some user)
    as [Ht Hu].
  { unfold accountOf in Ea.
    destruct (Dict.get (usernameIndex (state w)) u) as [uid'|];
      [|discriminate].
    destruct (truthy uid') eqn:T; [|discriminate].
    destruct (Dict.get (users (state w)) uid') as [user'|] eqn:G;
      [|discriminate].
    simpl in Ea. inversion Ea. subst. auto. }
  exists uid, user. split; [reflexivity|]. split; [exact V|].
  split; [exact R|]. split.
  - intros w2 R2 U2. rewrite R in R2. rewrite U in U2.
    destruct remember.
    + rewrite <- U2 in Hu.
      destruct (autoLogin_known w2 uid user R2 Ht Hu) as [A1 A2]. auto.
    + split; [|discriminate]. rewrite autoLogin_unknown; [reflexivity|].
      now rewrite R2.
  - split; [reflexivity|]. split; [reflexivity|].
    rewrite autoLogin_unknown; reflexivity.
Qed.

(* ------------------------------------------------------------------ *)
(** ** Bootstrap *)

Lemma bootstrap_run (w : World) :
  let s1 := withoutDemo (state w) in
  snd (ensureAdminAndRemoveDemo clock randomBytes pbkdf2 w) =
  match accountOf s1 "admin" with
  | Some (adminId, user) =>
      saved (setState w
               (ensured
                  (mkState (version s1)
                     (Dict.set (users s1) adminId (withRole user "admin"))
                     (usernameIndex s1) (userData s1))
                  adminId))
  | None =>
      let salt := randomBytes (draws w) SALT_BYTES in
      let userId := nextId randomBytes "u_" (drawn w) in
      saved (setState (ticked (drawn (drawn w)))
               (ensured
                  (mkState (version s1)
                     (Dict.set (users s1) userId
                        (User.mk userId "admin" (bytesToB64 salt)
                           (deriveHashB64 pbkdf2 "qwer0987@" salt)
                           (clock (ticks w)) "admin"))
                     (Dict.set (usernameIndex s1) "admin" userId)
                     (userData s1))
                  userId))
  end.
Proof.
  intros s1. subst s1.
  unfold ensureAdminAndRemoveDemo, withoutDemo, accountOf, ADMIN_NAME, ADMIN_PW.
  unfold bind at 1. unfold getState at 1, gets at 1. cbv beta iota.
  destruct (Dict.get (usernameIndex (state w)) "demo") as [demoId|];
    [destruct (truthy demoId)|].
  - unfold bind at 1. unfold bind at 1.
    unfold putState at 1, saveState at 1, modify. cbv beta iota.
    unfold bind at 1. unfold getState at 1, gets at 1. cbv beta iota.
    cbn [state users usernameIndex userData version].
    destruct (Dict.get (Dict.del (usernameIndex (state w)) "demo") "admin")
      as [adminId|]; [destruct (truthy adminId)|]; cbn [option_map];
      try (destruct (Dict.get (Dict.del (users (state w)) demoId) adminId)
             as [user|]; cbn [option_map]);
      reflexivity.
  - unfold bind at 1. unfold ret at 1. cbv beta iota.
    unfold bind at 1. unfold getState at 1, gets at 1. cbv beta iota.
    destruct (Dict.get (usernameIndex (state w)) "admin")
      as [adminId|]; [destruct (truthy adminId)|]; cbn [option_map];
      try (destruct (Dict.get (users (state w)) adminId)
             as [user|]; cbn [option_map]);
      reflexivity.
  - unfold bind at 1. unfold ret at 1. cbv beta iota.
    unfold bind at 1. unfold getState at 1, gets at 1. cbv beta iota.
    destruct (Dict.get (usernameIndex (state w)) "admin")
      as [adminId|]; [destruct (truthy adminId)|]; cbn [option_map];
      try (destruct (Dict.get (users (state w)) adminId)
             as [user|]; cbn [option_map]);
      reflexivity.
Qed.

Lemma accountOf_some (s : State) (u uid : string) (user : User.t) :
  accountOf s u = Some (uid, user) <->
  Dict.get (usernameIndex s) u = Some uid /\ truthy uid = true /\
  Dict.get (users s) uid = Some user.
Proof.
  unfold accountOf. split.
  - destruct (Dict.get (usernameIndex s) u) as [uid'|]; [|discriminate].
    destruct (truthy uid') eqn:T; [|discriminate].
    destruct (Dict.get (users s) uid') as [user'|] eqn:G; [|discriminate].
    simpl. intros H. inversion H. subst. auto.
  - intros (-> & -> & ->). reflexivity.
Qed.

Lemma accountOf_ensured (s : State) (o u : string) :
  accountOf (ensured s o) u = accountOf s u.
Proof. reflexivity. Qed.

Lemma withoutDemo_demo (s : State) :
  truthyO (Dict.get (usernameIndex (withoutDemo s)) "demo") = false.
Proof.
  unfold withoutDemo.
  destruct (Dict.get (usernameIndex s) "demo") as [d|] eqn:E.
  - destruct (truthy d) eqn:T.
    + simpl. rewrite Dict_get_del. reflexivity.
    + rewrite E. exact T.
  - rewrite E. reflexivity.
Qed.

Lemma accountOf_falsy (s : State) (u : string) :
  truthyO (Dict.get (usernameIndex s) u) = false -> accountOf s u = None.
Proof.
  unfold accountOf. destruct (Dict.get (usernameIndex s) u) as [d|]; auto.
  simpl. now intros ->.
Qed.

Lemma login_succeeds (w : World) (u p : string) (r : bool) (uid : string)
  (user : User.t) (salt : list ascii) :
  accountOf (state w) u = Some (uid, user) ->
  User.saltB64 user = bytesToB64 salt ->
  User.hashB64 user = deriveHashB64 pbkdf2 p salt ->
  fst (login pbkdf2 u p r w) = Some true /\
  viewState_userId (snd (login pbkdf2 u p r w)) = Some uid /\
  users (state (snd (login pbkdf2 u p r w))) = users (state w).
Proof.
  intros Ha Hs Hh. rewrite login_account, Ha, Hs, b64ToBytes_bytesToB64, Hh.
  rewrite String.eqb_refl.
  match goal with
  | |- context [snd (?m w)] =>
      pose proof (run_total m w) as Hr; apply login_enters in Hr;
      destruct Hr as (R & V & _ & _ & (_ & U & _))
  end.
  auto.
Qed.

(** X21.  Whatever document the page loads, after [ensureAdminAndRemoveDemo]
    the name "demo" logs nobody in, the name "admin" belongs to an account
    with the role "admin" that has a partition, and the document is saved.
    An account named "admin" that is there once "demo" is removed keeps
    its user id and its salt and hash, so its password is not reset; when
    there is none, the account is created and the password "qwer0987@"
    logs in to it as an administrator. *)
Theorem bootstrap_admin (w : World) :
  let w' := snd (ensureAdminAndRemoveDemo clock randomBytes pbkdf2 w) in
  (forall p r, fst (login pbkdf2 "demo" p r w') = Some false) /\
  (exists adminId user,
     accountOf (state w') "admin" = Some (adminId, user) /\
     User.role user = "admin" /\ partAt (state w') adminId <> None) /\
  isSaved w' /\
  match accountOf (withoutDemo (state w)) "admin" with
  | Some (adminId, user) =>
      accountOf (state w') "admin"
      = Some (adminId, withRole user "admin")
  | None =>
      forall r,
        fst (login pbkdf2 "admin" "qwer0987@" r w') = Some true /\
        isAdmin (snd (login pbkdf2 "admin" "qwer0987@" r w')) = true
  end.
Proof.
  intros w'. subst w'. rewrite bootstrap_run. cbv zeta.
  pose proof (withoutDemo_demo (state w)) as Hd.
  set (s1 := withoutDemo (state w)) in *.
  destruct (accountOf s1 "admin") as [[adminId user]|] eqn:Ea.
  - apply accountOf_some in Ea. destruct Ea as (Ei & Et & Eu).
    assert (accountOf
              (mkState (version s1)
                 (Dict.set (users s1) adminId (withRole user "admin"))
                 (usernameIndex s1) (userData s1)) "admin"
            = Some (adminId, withRole user "admin")) as Ha.
    { apply accountOf_some. simpl. split; [exact Ei|]. split; [exact Et|].
      apply Dict_get_set_eq. }
    split; [|split; [|split]].
    + intros p r. rewrite login_account.
      cbn [state saved setState]. rewrite accountOf_ensured.
      rewrite accountOf_falsy by exact Hd. reflexivity.
    + exists adminId, (withRole user "admin").
      cbn [state saved setState]. rewrite accountOf_ensured.
      split; [exact Ha|]. split; [reflexivity|].
      apply partAt_ensured_self.
    + reflexivity.
    + cbn [state saved setState]. now rewrite accountOf_ensured.
  - set (salt := randomBytes (draws w) SALT_BYTES).
    set (userId := nextId randomBytes "u_" (drawn w)).
    set (admin := User.mk userId "admin" (bytesToB64 salt)
                    (deriveHashB64 pbkdf2 "qwer0987@" salt)
                    (clock (ticks w)) "admin").
    assert (accountOf
              (mkState (version s1) (Dict.set (users s1) userId admin)
                 (Dict.set (usernameIndex s1) "admin" userId) (userData s1))
              "admin"
            = Some (userId, admin)) as Ha.
    { apply accountOf_some. simpl. split; [apply Dict_get_set_eq|].
      split; [apply (safeId_truthy randomBytes "_" "u"%char)|].
      apply Dict_get_set_eq. }
    split; [|split; [|split]].
    + intros p r. rewrite login_account.
      cbn [state saved setState ticked drawn]. rewrite accountOf_ensured.
      rewrite accountOf_falsy; [reflexivity|].
      cbn [usernameIndex]. rewrite Dict_get_set_ne by discriminate.
      exact Hd.
    + exists userId, admin.
      cbn [state saved setState ticked drawn]. rewrite accountOf_ensured.
      split; [exact Ha|]. split; [reflexivity|].
      apply partAt_ensured_self.
    + reflexivity.
    + intros r.
      match goal with
      | |- context [login pbkdf2 _ _ r ?W] =>
          destruct (login_succeeds W "admin" "qwer0987@" r userId admin salt)
            as (L1 & L2 & L3);
            [cbn [state saved setState ticked drawn];
             rewrite accountOf_ensured; exact Ha
            | reflexivity | reflexivity |]
      end.
      split; [exact L1|].
      unfold isAdmin. rewrite L2, L3. simpl.
      unfold userId. fold userId. rewrite Dict_get_set_eq. reflexivity.
Qed.

(* ------------------------------------------------------------------ *)
(** ** Partitions on demand *)




(* ------------------------------------------------------------------ *)
(** ** Tombstoned comments *)

Lemma updateComment_tombstone (w : World) (a' cid : string)
  (patch : CommentPatch.t) (a k : string) (c : Comment.t) :
  commentAt (state w) a k = Some c -> commentDeleted c = true ->
  commentAt (state (snd (updateComment clock a' cid patch w))) a k = Some c.
Proof.
  intros Hc Hd.
  destruct (updateComment clock a' cid patch w) as [r w'] eqn:Hr.
  change (run (updateComment clock a' cid patch) w r w') in Hr.
  cbn [snd]. unfold updateComment in Hr. mstep Hr.
  destruct (canManage a' w); simpl in Hr.
  - mstep Hr. rewrite get_comments_ensure in Hr.
    destruct (commentAt (state w) a' cid) as [c0|] eqn:E0.
    + destruct (truthyO (Comment.deletedAt c0)) eqn:T0.
      * mprim Hr. simpl. now rewrite commentAt_ensured.
      * mstep Hr. mstep Hr. mstep Hr. mprim Hr. simpl.
        rewrite commentAt_putComment by apply partAt_ensured_self.
        rewrite commentAt_ensured.
        destruct (String.eqb_spec a' a) as [->|]; simpl; [|exact Hc].
        destruct (String.eqb_spec cid k) as [->|]; [|exact Hc].
        rewrite Hc in E0. inversion E0. subst c0.
        unfold commentDeleted in Hd. congruence.
    + mprim Hr. simpl. now rewrite commentAt_ensured.
  - mstep Hr. mprim Hr. exact Hc.
Qed.

Lemma deleteCommentSoft_tombstone (w : World) (a' cid a k : string)
  (c : Comment.t) :
  commentAt (state w) a k = Some c -> commentDeleted c = true ->
  commentAt (state (snd (deleteCommentSoft clock a' cid w))) a k = Some c.
Proof.
  intros Hc Hd.
  destruct (deleteCommentSoft clock a' cid w) as [r w'] eqn:Hr.
  change (run (deleteCommentSoft clock a' cid) w r w') in Hr.
  cbn [snd]. unfold deleteCommentSoft in Hr. mstep Hr.
  destruct (canManage a' w); simpl in Hr.
  - mstep Hr. rewrite get_comments_ensure in Hr.
    destruct (commentAt (state w) a' cid) as [c0|] eqn:E0.
    + destruct (truthyO (Comment.deletedAt c0)) eqn:T0.
      * mprim Hr. simpl. now rewrite commentAt_ensured.
      * mstep Hr. mstep Hr. mstep Hr. mstep Hr. mprim Hr. simpl.
        rewrite commentAt_putComment by apply partAt_ensured_self.
        rewrite commentAt_ensured.
        destruct (String.eqb_spec a' a) as [->|]; simpl; [|exact Hc].
        destruct (String.eqb_spec cid k) as [->|]; [|exact Hc].
        rewrite Hc in E0. inversion E0. subst c0.
        unfold commentDeleted in Hd. congruence.
    + mprim Hr. simpl. now rewrite commentAt_ensured.
  - mstep Hr. mprim Hr. exact Hc.
Qed.

Lemma createComment_apart (w : World) (a' postId : string)
  (text : option string) (a k : string) :
  nextId randomBytes "c_" w <> k ->
  commentAt (state (snd (createComment clock randomBytes a' postId text w))) a k
  = commentAt (state w) a k.
Proof.
  intros Hk.
  destruct (createComment clock randomBytes a' postId text w) as [r w'] eqn:Hr.
  change (run (createComment clock randomBytes a' postId text) w r w') in Hr.
  cbn [snd]. unfold createComment in Hr. mstep Hr.
  destruct (canManage a' w); simpl in Hr.
  - mstep Hr. apply run_resolvePostCtx in R.
    destruct R as [-> (s2 & -> & (E1 & E2 & E3) & SR)].
    match type of Hr with
    | run (if ?b then _ else _) _ _ _ => destruct b
    end.
    + mstep Hr. mprim Hr. simpl. apply E3.
    + mstep Hr. mstep Hr. mstep Hr. mstep Hr. mstep Hr. mstep Hr. mprim Hr.
      simpl. rewrite commentAt_putComment by apply partAt_ensured_self.
      rewrite commentAt_ensured, E3.
      apply String.eqb_neq in Hk.
      match goal with
      | |- context [String.eqb (nextId randomBytes "c_" ?W) k] =>
          change (nextId randomBytes "c_" W) with (nextId randomBytes "c_" w)
      end.
      rewrite Hk, andb_false_r. reflexivity.
  - mstep Hr. mprim Hr. reflexivity.
Qed.

(* ------------------------------------------------------------------ *)
(** ** Edits *)

(** X23.  An edit of a live record by an actor who may manage its partition
    goes through and rewrites that record alone.  The record keeps its
    [id], its [createdAt] and its tombstone fields; a post stays in its
    gallery and a comment on its post.  A field the patch leaves [null]
    keeps its value, texts are trimmed, the colour of a gallery is brought
    to the normal form, and [updatedAt] is the time of the call. *)
Theorem edits_keep_identity (w : World) (o k : string) :
  canManage o w = true ->
  (forall g patch,
     galleryAt (state w) o k = Some g -> galleryDeleted g = false ->
     let res := updateGallery clock o k patch w in
     let g' := Gallery.mk (Gallery.id g)
                 (trim (nullish (GalleryPatch.title patch) (Gallery.title g)))
                 (trim (nullish (GalleryPatch.desc patch) (Gallery.desc g)))
                 (nullish (GalleryPatch.icon patch) (Gallery.icon g))
                 (normalizeHex
                    (Some (nullish (GalleryPatch.color patch) (Gallery.color g))))
                 (nullish (GalleryPatch.pinned patch) (Gallery.pinned g))
                 (Gallery.createdAt g) (clock (ticks w)) (Gallery.deletedAt g) in
     fst res = true /\ isHexColor (Gallery.color g') = true /\
     (forall o' k',
        galleryAt (state (snd res)) o' k' =
        if String.eqb o o' && String.eqb k k' then Some g'
        else galleryAt (state w) o' k') /\
     samePosts w (snd res) /\ sameComments w (snd res)) /\
  (forall p patch,
     postAt (state w) o k = Some p -> postDeleted p = false ->
     let res := updatePost clock o k patch w in
     let p' := Post.mk (Post.id p) (Post.galleryOwnerId p) (Post.galleryId p)
                 (trim (nullish (PostPatch.title patch) (Post.title p)))
                 (trim (nullish (PostPatch.content patch) (Post.content p)))
                 (Post.createdAt p) (clock (ticks w)) (Post.deletedAt p)
                 (Post.deletedByGallery p) in
     fst res = true /\
     (forall o' k',
        postAt (state (snd res)) o' k' =
        if String.eqb o o' && String.eqb k k' then Some p'
        else postAt (state w) o' k') /\
     sameGalleries w (snd res) /\ sameComments w (snd res)) /\
  (forall c patch,
     commentAt (state w) o k = Some c -> commentDeleted c = false ->
     let res := updateComment clock o k patch w in
     let c' := Comment.mk (Comment.id c) (Comment.postId c)
                 (trim (nullish (CommentPatch.text patch) (Comment.text c)))
                 (Comment.createdAt c) (clock (ticks w)) (Comment.deletedAt c) in
     fst res = true /\
     (forall o' k',
        commentAt (state (snd res)) o' k' =
        if String.eqb o o' && String.eqb k k' then Some c'
        else commentAt (state w) o' k') /\
     sameGalleries w (snd res) /\ samePosts w (snd res)).
Proof.
  intros Hperm. split; [|split].
  - intros g patch Hg Hd res g'. subst res.
    destruct (updateGallery clock o k patch w) as [r w'] eqn:Hr.
    change (run (updateGallery clock o k patch) w r w') in Hr.
    cbn [fst snd]. unfold updateGallery in Hr.
    mstep Hr. rewrite Hperm in Hr. simpl in Hr.
    mstep Hr. rewrite get_galleries_ensure, Hg in Hr.
    unfold galleryDeleted in Hd. rewrite Hd in Hr.
    mstep Hr. mstep Hr. mstep Hr. mprim Hr.
    split; [reflexivity|]. split; [apply normalizeHex_shape|].
    split; [|split].
    + intros o' k'. simpl.
      rewrite galleryAt_putGallery by apply partAt_ensured_self.
      now rewrite galleryAt_ensured.
    + intros a' k'. simpl. now rewrite postAt_withGalleries, postAt_ensured.
    + intros a' k'. simpl.
      now rewrite commentAt_withGalleries, commentAt_ensured.
  - intros p patch Hp Hd res p'. subst res.
    destruct (updatePost clock o k patch w) as [r w'] eqn:Hr.
    change (run (updatePost clock o k patch) w r w') in Hr.
    cbn [fst snd]. unfold updatePost in Hr.
    mstep Hr. rewrite Hperm in Hr. simpl in Hr.
    mstep Hr. rewrite get_posts_ensure, Hp in Hr.
    unfold postDeleted in Hd. rewrite Hd in Hr.
    mstep Hr. mstep Hr. mstep Hr. mprim Hr.
    split; [reflexivity|]. split; [|split].
    + intros o' k'. simpl.
      rewrite postAt_putPost by apply partAt_ensured_self.
      now rewrite postAt_ensured.
    + intros a' k'. simpl. now rewrite galleryAt_withPosts, galleryAt_ensured.
    + intros a' k'. simpl. now rewrite commentAt_withPosts, commentAt_ensured.
  - intros c patch Hc Hd res c'. subst res.
    destruct (updateComment clock o k patch w) as [r w'] eqn:Hr.
    change (run (updateComment clock o k patch) w r w') in Hr.
    cbn [fst snd]. unfold updateComment in Hr.
    mstep Hr. rewrite Hperm in Hr. simpl in Hr.
    mstep Hr. rewrite get_comments_ensure, Hc in Hr.
    unfold commentDeleted in Hd. rewrite Hd in Hr.
    mstep Hr. mstep Hr. mstep Hr. mprim Hr.
    split; [reflexivity|]. split; [|split].
    + intros o' k'. simpl.
      rewrite commentAt_putComment by apply partAt_ensured_self.
      now rewrite commentAt_ensured.
    + intros a' k'. simpl.
      now rewrite galleryAt_withComments, galleryAt_ensured.
    + intros a' k'. simpl. now rewrite postAt_withComments, postAt_ensured.
Qed.

(** X24.  [purgePost] on a post that exists, tombstoned or not, by an actor
    who may manage its author's partition removes that post and, in every
    partition, the comments whose [postId] is its key; every other
    comment, every other post and every gallery stay as they were. *)
Theorem purgePost_cascade (w : World) (a pid : string) (p : Post.t) :
  canManage a w = true ->
  postAt (state w) a pid = Some p ->
  let res := purgePost a pid w in
  fst res = true /\
  (forall a' k,
     postAt (state (snd res)) a' k =
     if String.eqb a a' && String.eqb pid k then None
     else postAt (state w) a' k) /\
  (forall a' k,
     commentAt (state (snd res)) a' k =
     match commentAt (state w) a' k with
     | Some c => if String.eqb (Comment.postId c) pid then None else Some c
     | None => None
     end) /\
  sameGalleries w (snd res) /\ sameAccounts w (snd res).
Proof.
  intros Hperm Hp res.
  destruct (purgePost_ok w (snd res) a pid p (fst res) Hperm Hp
              (run_total _ _)) as (R & _ & (V & U & X & _) & G & P & C).
  split; [exact R|]. split; [exact P|]. split; [exact C|].
  split; [exact G|]. repeat split; assumption.
Qed.

End More.

Unset Default Proof Using.

(* ------------------------------------------------------------------ *)
(** ** Invariants of a computation *)

Lemma keeps_ret {A : Type} (I : World -> Prop) (a : A) : keeps I (ret a).
Proof. intros w H. exact H. Qed.

Lemma keeps_bind {A B : Type} (I : World -> Prop) (m : M A) (k : A -> M B) :
  keeps I m -> (forall a, keeps I (k a)) -> keeps I (bind m k).
Proof.
  intros Hm Hk w H. unfold bind. specialize (Hm w H).
  destruct (m w) as [a w1]. now apply Hk.
Qed.

Lemma keeps_gets {A : Type} (I : World -> Prop) (f : World -> A) :
  keeps I (gets f).
Proof. intros w H. exact H. Qed.

Lemma keeps_forEach {A : Type} (I : World -> Prop) (l : list A)
  (body : A -> M unit) :
  (forall a, keeps I (body a)) -> keeps I (forEach l body).
Proof.
  intros Hb. induction l as [|a l IH]; simpl.
  - apply keeps_ret.
  - apply keeps_bind; auto.
Qed.

Lemma keeps_collect {B : Type} (I : World -> Prop) (l : list string)
  (body : string -> M (list B)) :
  (forall o, keeps I (body o)) -> keeps I (collect l body).
Proof.
  intros Hb. induction l as [|o l IH]; simpl.
  - apply keeps_ret.
  - apply keeps_bind; [auto|]. intros xs.
    apply keeps_bind; [auto|]. intros ys. apply keeps_ret.
Qed.

Lemma keeps_ensureUserData (I : World -> Prop) (o : string) :
  survivesEnsure I -> keeps I (ensureUserData o).
Proof. intros HI w H. exact (HI w o H). Qed.

Lemma keeps_updPartition (I : World -> Prop) (o : string)
  (f : UserData.t -> UserData.t) :
  (forall w, I w -> I (setState w (updated (state w) o f))) ->
  keeps I (updPartition o f).
Proof.
  intros HI w H.
  pose proof (run_total (updPartition o f) w) as R.
  apply run_updPartition in R. rewrite R. now apply HI.
Qed.

Lemma keeps_modify (I : World -> Prop) (f : World -> World) :
  (forall w, I w -> I (f w)) -> keeps I (modify f).
Proof. intros HI w H. exact (HI w H). Qed.

Lemma keeps_toast (I : World -> Prop) (t m : string) :
  survivesToast I -> keeps I (toast t m).
Proof. intros HI w H. exact (HI w t m H). Qed.

Lemma keeps_saveState (I : World -> Prop) :
  survivesSave I -> keeps I saveState.
Proof. intros HI w H. exact (HI w H). Qed.

Lemma keeps_nowISO (I : World -> Prop) (clock : nat -> string) :
  survivesClock I -> keeps I (nowISO clock).
Proof. intros [HI _] w H. exact (HI w H). Qed.

Lemma keeps_getRandomValues (I : World -> Prop)
  (randomBytes : nat -> nat -> list ascii) (n : nat) :
  survivesClock I -> keeps I (getRandomValues randomBytes n).
Proof. intros [_ HI] w H. exact (HI w H). Qed.

Lemma keeps_safeId (I : World -> Prop)
  (randomBytes : nat -> nat -> list ascii) (prefix : string) :
  survivesClock I -> keeps I (safeId randomBytes prefix).
Proof. intros [_ HI] w H. exact (HI w H). Qed.

Lemma post_ret {A : Type} (I : World -> Prop) (a : A)
  (Q : A -> World -> Prop) :
  (forall w, I w -> Q a w) -> post I (ret a) Q.
Proof. intros H w Hw. now apply H. Qed.

Lemma post_bind {A B : Type} (I : World -> Prop) (m : M A) (k : A -> M B)
  (Q : B -> World -> Prop) :
  keeps I m -> (forall a, post I (k a) Q) -> post I (bind m k) Q.
Proof.
  intros Hm Hk w H. unfold bind. specialize (Hm w H).
  destruct (m w) as [a w1]. now apply Hk.
Qed.

Lemma post_save {B : Type} (I : World -> Prop) (k : unit -> M B)
  (Q : B -> World -> Prop) :
  (forall u, post isSaved (k u) Q) -> post I (bind saveState k) Q.
Proof. intros Hk w _. unfold bind. simpl. apply Hk. reflexivity. Qed.

Section Keeps.

Variable I : World -> Prop.
Hypothesis HE : survivesEnsure I.
Hypothesis HGp : survivesPutGallery I.
Hypothesis HGd : survivesDelGallery I.
Hypothesis HPp : survivesPutPost I.
Hypothesis HPd : survivesDelPost I.
Hypothesis HCp : survivesPutComment I.
Hypothesis HCd : survivesDelComment I.
Hypothesis HT : survivesToast I.
Hypothesis HK : survivesClock I.
Hypothesis HS : survivesSave I.

Variable clock : nat -> string.
Variable randomBytes : nat -> nat -> list ascii.
Variable localeLe : string -> string -> bool.

Ltac keep :=
  repeat first
    [ apply keeps_ret
    | apply keeps_gets
    | apply keeps_ensureUserData; exact HE
    | apply keeps_toast; exact HT
    | apply keeps_saveState; exact HS
    | apply keeps_nowISO; exact HK
    | apply keeps_safeId; exact HK
    | apply keeps_getRandomValues; exact HK
    | apply keeps_updPartition; intros;
      first [ apply HGp; assumption | apply HGd; assumption
            | apply HPp; assumption | apply HPd; assumption
            | apply HCp; assumption | apply HCd; assumption ]
    | apply keeps_forEach; intros ?
    | apply keeps_collect; intros ?
    | assumption
    | apply keeps_bind; [|intros ?]
    | match goal with
      | |- keeps _ (if ?b then _ else _) => destruct b
      | |- keeps _ (match ?x with _ => _ end) => destruct x
      end ].

Lemma keeps_scanGalleries (gid : string) (l : list string) :
  keeps I (scanGalleries gid l).
Proof. induction l as [|o l IH]; simpl; keep. Qed.

Lemma keeps_scanPosts (pid : string) (l : list string) :
  keeps I (scanPosts pid l).
Proof. induction l as [|o l IH]; simpl; keep. Qed.

Lemma keeps_resolveGalleryCtx (gid hint : option string) :
  keeps I (resolveGalleryCtx gid hint).
Proof. unfold resolveGalleryCtx. keep; apply keeps_scanGalleries. Qed.

Lemma keeps_resolvePostCtx (pid hint : option string) :
  keeps I (resolvePostCtx pid hint).
Proof. unfold resolvePostCtx. keep; apply keeps_scanPosts. Qed.

Lemma keeps_listAllGalleryEntries (incl : bool) :
  keeps I (listAllGalleryEntries incl).
Proof. unfold listAllGalleryEntries. keep. Qed.

Lemma keeps_listPostsInGallery (go gid : string) (incl : bool) :
  keeps I (listPostsInGallery go gid incl).
Proof. unfold listPostsInGallery. keep. Qed.

Lemma keeps_listCommentsForPost (postId : string) (incl : bool) :
  keeps I (listCommentsForPost localeLe postId incl).
Proof. unfold listCommentsForPost. keep. Qed.

Lemma keeps_computeGalleryMeta (go gid : string) :
  keeps I (computeGalleryMeta go gid).
Proof.
  unfold computeGalleryMeta.
  apply keeps_bind; [apply keeps_listPostsInGallery | intros; apply keeps_ret].
Qed.

Lemma keeps_enterApp : keeps I enterApp.
Proof.
  unfold enterApp. keep; apply keeps_listAllGalleryEntries.
Qed.

Lemma keeps_purgeComments (hit : string -> bool) :
  keeps I (purgeComments hit).
Proof. unfold purgeComments. keep. Qed.

Lemma keeps_tombstoneByGallery (e : Entry.t Post.t) :
  keeps I (tombstoneByGallery clock e).
Proof. unfold tombstoneByGallery. keep. Qed.

Lemma keeps_restoreByGallery (e : Entry.t Post.t) :
  keeps I (restoreByGallery clock e).
Proof. unfold restoreByGallery. keep. Qed.

Ltac keepq :=
  first [ apply keeps_resolveGalleryCtx | apply keeps_resolvePostCtx
        | apply keeps_listPostsInGallery | apply keeps_purgeComments
        | apply keeps_tombstoneByGallery | apply keeps_restoreByGallery ].

Ltac keepop := keep; repeat (keepq; keep).

Lemma keeps_createGallery (o : string) (d : GalleryData.t) :
  keeps I (createGallery clock randomBytes o d).
Proof. unfold createGallery. keepop. Qed.

Lemma keeps_updateGallery (o gid : string) (patch : GalleryPatch.t) :
  keeps I (updateGallery clock o gid patch).
Proof. unfold updateGallery. keepop. Qed.

Lemma keeps_deleteGallerySoft (o gid : string) :
  keeps I (deleteGallerySoft clock o gid).
Proof. unfold deleteGallerySoft. keepop. Qed.

Lemma keeps_restoreGallery (o gid : string) :
  keeps I (restoreGallery clock o gid).
Proof. unfold restoreGallery. keepop. Qed.

Lemma keeps_purgeGallery (o gid : string) :
  keeps I (purgeGallery o gid).
Proof. unfold purgeGallery. keepop. Qed.

Lemma keeps_createPost (a : string) (d : PostData.t) :
  keeps I (createPost clock randomBytes a d).
Proof. unfold createPost. keepop. Qed.

Lemma keeps_updatePost (a pid : string) (patch : PostPatch.t) :
  keeps I (updatePost clock a pid patch).
Proof. unfold updatePost. keepop. Qed.

Lemma keeps_deletePostSoft (a pid : string) :
  keeps I (deletePostSoft clock a pid).
Proof. unfold deletePostSoft. keepop. Qed.

Lemma keeps_restorePost (a pid : string) :
  keeps I (restorePost clock a pid).
Proof. unfold restorePost. keepop. Qed.

Lemma keeps_purgePost (a pid : string) :
  keeps I (purgePost a pid).
Proof. unfold purgePost. keepop. Qed.

Lemma keeps_createComment (a postId : string) (text : option string) :
  keeps I (createComment clock randomBytes a postId text).
Proof. unfold createComment. keepop. Qed.

Lemma keeps_updateComment (a cid : string) (patch : CommentPatch.t) :
  keeps I (updateComment clock a cid patch).
Proof. unfold updateComment. keepop. Qed.

Lemma keeps_deleteCommentSoft (a cid : string) :
  keeps I (deleteCommentSoft clock a cid).
Proof. unfold deleteCommentSoft. keepop. Qed.

Hypothesis HV : survivesSession I.
Hypothesis HA : survivesAccounts I.

Variable pbkdf2 : string -> list ascii -> N -> nat -> list ascii.

Lemma keeps_login (u p : string) (remember : bool) :
  keeps I (login pbkdf2 u p remember).
Proof.
  unfold login, setViewUser, setRemembered.
  keep; try apply keeps_enterApp;
    apply keeps_modify; intros w0 H0;
    [ exact (HV w0 _ (rememberedUser w0) H0)
    | exact (HV w0 (viewState_userId w0) _ H0) ].
Qed.

Lemma keeps_signup (u p : string) :
  keeps I (signup clock randomBytes pbkdf2 u p).
Proof.
  unfold signup.
  destruct (negb (isValidUsername u)); [keep|].
  apply keeps_bind; [keep | intros s0].
  destruct (truthyAt (usernameIndex s0) u); [keep|].
  apply keeps_bind; [keep | intros salt].
  apply keeps_bind; [keep | intros userId].
  apply keeps_bind; [keep | intros createdAt].
  intros w0 H0.
  assert (keeps I (ensureUserData userId ;;; saveState ;;;
                   toast "회원가입" "계정이 생성되었습니다. 로그인하세요." ;;;
                   ret true)) as K by keep.
  apply (K _ (HA w0 _ _ H0)).
Qed.

Lemma keeps_logout : keeps I logout.
Proof.
  unfold logout, setViewUser, setRemembered.
  keep; apply keeps_modify; intros w0 H0;
    [ exact (HV w0 (viewState_userId w0) _ H0)
    | exact (HV w0 _ (rememberedUser w0) H0) ].
Qed.

(** The outcome of an operation, by its result: [QB] for the operations
    that return a boolean, [QO] for those that return the new record. *)
Variable QB : bool -> World -> Prop.
Hypothesis HQf : forall w, I w -> QB false w.
Hypothesis HQt : forall w, isSaved w -> QB true w.

Ltac keepm := solve [keepop].

Ltac postop :=
  repeat first
    [ apply post_ret; intros;
      first [ apply HQf; assumption | apply HQt; assumption
            | match goal with
              | H : forall w, I w -> _ None w |- _ None _ =>
                  apply H; assumption
              | H : forall e w, isSaved w -> _ (Some e) w |- _ (Some _) _ =>
                  apply H; assumption
              end ]
    | apply post_save; intros ?
    | apply post_bind; [keepm | intros ?]
    | match goal with
      | |- post _ (if ?b then _ else _) _ => destruct b
      | |- post _ (match ?x with _ => _ end) _ => destruct x
      end ].

Lemma post_updateGallery (o gid : string) (patch : GalleryPatch.t) :
  post I (updateGallery clock o gid patch) QB.
Proof. unfold updateGallery. postop. Qed.

Lemma post_deleteGallerySoft (o gid : string) :
  post I (deleteGallerySoft clock o gid) QB.
Proof. unfold deleteGallerySoft. postop. Qed.

Lemma post_restoreGallery (o gid : string) :
  post I (restoreGallery clock o gid) QB.
Proof. unfold restoreGallery. postop. Qed.

Lemma post_purgeGallery (o gid : string) :
  post I (purgeGallery o gid) QB.
Proof. unfold purgeGallery. postop. Qed.

Lemma post_updatePost (a pid : string) (patch : PostPatch.t) :
  post I (updatePost clock a pid patch) QB.
Proof. unfold updatePost. postop. Qed.

Lemma post_deletePostSoft (a pid : string) :
  post I (deletePostSoft clock a pid) QB.
Proof. unfold deletePostSoft. postop. Qed.

Lemma post_restorePost (a pid : string) :
  post I (restorePost clock a pid) QB.
Proof. unfold restorePost. postop. Qed.

Lemma post_purgePost (a pid : string) :
  post I (purgePost a pid) QB.
Proof. unfold purgePost. postop. Qed.

Lemma post_updateComment (a cid : string) (patch : CommentPatch.t) :
  post I (updateComment clock a cid patch) QB.
Proof. unfold updateComment. postop. Qed.

Lemma post_deleteCommentSoft (a cid : string) :
  post I (deleteCommentSoft clock a cid) QB.
Proof. unfold deleteCommentSoft. postop. Qed.

Lemma post_createGallery (o : string) (d : GalleryData.t)
  (Q : option Gallery.t -> World -> Prop) :
  (forall w, I w -> Q None w) ->
  (forall e w, isSaved w -> Q (Some e) w) ->
  post I (createGallery clock randomBytes o d) Q.
Proof. intros Hn Hs. unfold createGallery. postop. Qed.

Lemma post_createPost (a : string) (d : PostData.t)
  (Q : option Post.t -> World -> Prop) :
  (forall w, I w -> Q None w) ->
  (forall e w, isSaved w -> Q (Some e) w) ->
  post I (createPost clock randomBytes a d) Q.
Proof. intros Hn Hs. unfold createPost. postop. Qed.

Lemma post_createComment (a postId : string) (text : option string)
  (Q : option Comment.t -> World -> Prop) :
  (forall w, I w -> Q None w) ->
  (forall e w, isSaved w -> Q (Some e) w) ->
  post I (createComment clock randomBytes a postId text) Q.
Proof. intros Hn Hs. unfold createComment. postop. Qed.

End Keeps.

(* ------------------------------------------------------------------ *)
(** ** What a command may write *)

Section Frames.

Variable w : World.

Lemma accounts_setState (w0 : World) (s' : State) :
  sameRegistry (state w0) s' -> sameAccounts w w0 ->
  sameAccounts w (setState w0 s').
Proof.
  intros (V & U & X & _) (A1 & A2 & A3). unfold sameAccounts. simpl.
  rewrite V, U, X. auto.
Qed.

Lemma accounts_survive :
  survivesEnsure (sameAccounts w) /\
  survivesPutGallery (sameAccounts w) /\ survivesDelGallery (sameAccounts w) /\
  survivesPutPost (sameAccounts w) /\ survivesDelPost (sameAccounts w) /\
  survivesPutComment (sameAccounts w) /\ survivesDelComment (sameAccounts w) /\
  survivesToast (sameAccounts w) /\ survivesClock (sameAccounts w) /\
  survivesSave (sameAccounts w) /\ survivesSession (sameAccounts w).
Proof.
  split; [intros w0 o H; apply accounts_setState;
          [apply sameRegistry_ensured | exact H]|].
  do 6 (split; [intros w0 ? ? ? H || intros w0 ? ? H;
                apply accounts_setState;
                [apply sameRegistry_updated | exact H]|]).
  split; [intros w0 ? ? H; exact H|].
  split; [split; intros w0 H; exact H|].
  split; [intros w0 H; exact H | intros w0 ? ? H; exact H].
Qed.

Lemma session_survive :
  survivesEnsure (sameSession w) /\
  survivesPutGallery (sameSession w) /\ survivesDelGallery (sameSession w) /\
  survivesPutPost (sameSession w) /\ survivesDelPost (sameSession w) /\
  survivesPutComment (sameSession w) /\ survivesDelComment (sameSession w) /\
  survivesToast (sameSession w) /\ survivesClock (sameSession w) /\
  survivesSave (sameSession w) /\ survivesAccounts (sameSession w).
Proof.
  split; [intros w0 o H; exact H|].
  do 6 (split; [intros w0 ? ? ? H || intros w0 ? ? H; exact H|]).
  split; [intros w0 ? ? H; exact H|].
  split; [split; intros w0 H; exact H|].
  split; [intros w0 H; exact H | intros w0 ? ? H; exact H].
Qed.

Lemma stored_survive :
  survivesEnsure (sameStored w) /\
  survivesPutGallery (sameStored w) /\ survivesDelGallery (sameStored w) /\
  survivesPutPost (sameStored w) /\ survivesDelPost (sameStored w) /\
  survivesPutComment (sameStored w) /\ survivesDelComment (sameStored w) /\
  survivesToast (sameStored w) /\ survivesClock (sameStored w).
Proof.
  split; [intros w0 o H; exact H|].
  do 6 (split; [intros w0 ? ? ? H || intros w0 ? ? H; exact H|]).
  split; [intros w0 ? ? H; exact H|].
  split; intros w0 H; exact H.
Qed.

Lemma galleries_survive :
  survivesEnsure (sameGalleries w) /\
  survivesPutPost (sameGalleries w) /\ survivesDelPost (sameGalleries w) /\
  survivesPutComment (sameGalleries w) /\
  survivesDelComment (sameGalleries w) /\
  survivesToast (sameGalleries w) /\ survivesClock (sameGalleries w) /\
  survivesSave (sameGalleries w) /\ survivesSession (sameGalleries w) /\
  survivesAccounts (sameGalleries w).
Proof.
  unfold sameGalleries.
  split; [intros w0 o H o' k'; simpl; now rewrite galleryAt_ensured|].
  do 2 (split; [intros w0 ? ? ? H o' k' || intros w0 ? ? H o' k';
                simpl; now rewrite galleryAt_withPosts|]).
  do 2 (split; [intros w0 ? ? ? H o' k' || intros w0 ? ? H o' k';
                simpl; now rewrite galleryAt_withComments|]).
  split; [intros w0 ? ? H; exact H|].
  split; [split; intros w0 H; exact H|].
  split; [intros w0 H; exact H|].
  split; intros w0 ? ? H; exact H.
Qed.

Lemma posts_survive :
  survivesEnsure (samePosts w) /\
  survivesPutGallery (samePosts w) /\ survivesDelGallery (samePosts w) /\
  survivesPutComment (samePosts w) /\ survivesDelComment (samePosts w) /\
  survivesToast (samePosts w) /\ survivesClock (samePosts w) /\
  survivesSave (samePosts w) /\ survivesSession (samePosts w) /\
  survivesAccounts (samePosts w).
Proof.
  unfold samePosts.
  split; [intros w0 o H o' k'; simpl; now rewrite postAt_ensured|].
  do 2 (split; [intros w0 ? ? ? H o' k' || intros w0 ? ? H o' k';
                simpl; now rewrite postAt_withGalleries|]).
  do 2 (split; [intros w0 ? ? ? H o' k' || intros w0 ? ? H o' k';
                simpl; now rewrite postAt_withComments|]).
  split; [intros w0 ? ? H; exact H|].
  split; [split; intros w0 H; exact H|].
  split; [intros w0 H; exact H|].
  split; intros w0 ? ? H; exact H.
Qed.

Lemma comments_survive :
  survivesEnsure (sameComments w) /\
  survivesPutGallery (sameComments w) /\
  survivesDelGallery (sameComments w) /\
  survivesPutPost (sameComments w) /\ survivesDelPost (sameComments w) /\
  survivesToast (sameComments w) /\ survivesClock (sameComments w) /\
  survivesSave (sameComments w) /\ survivesSession (sameComments w) /\
  survivesAccounts (sameComments w).
Proof.
  unfold sameComments.
  split; [intros w0 o H o' k'; simpl; now rewrite commentAt_ensured|].
  do 2 (split; [intros w0 ? ? ? H o' k' || intros w0 ? ? H o' k';
                simpl; now rewrite commentAt_withGalleries|]).
  do 2 (split; [intros w0 ? ? ? H o' k' || intros w0 ? ? H o' k';
                simpl; now rewrite commentAt_withPosts|]).
  split; [intros w0 ? ? H; exact H|].
  split; [split; intros w0 H; exact H|].
  split; [intros w0 H; exact H|].
  split; intros w0 ? ? H; exact H.
Qed.

End Frames.

Section FrameTheorems.

Variable clock : nat -> string.
Variable randomBytes : nat -> nat -> list ascii.
Variable pbkdf2 : string -> list ascii -> N -> nat -> list ascii.

(** X25.  The stored copy is rewritten by a call that succeeds, and only by
    such a call: after each of the thirteen operations the stored document
    is the document in memory when the call returned [true] or a record,
    and what it was before when it returned [false] or [null]. *)
Theorem saves_iff_succeeds (w : World) :
  (forall o d, let res := createGallery clock randomBytes o d w in
               storedAfter w (isSome (fst res)) (snd res)) /\
  (forall o gid patch, let res := updateGallery clock o gid patch w in
                       storedAfter w (fst res) (snd res)) /\
  (forall o gid, let res := deleteGallerySoft clock o gid w in
                 storedAfter w (fst res) (snd res)) /\
  (forall o gid, let res := restoreGallery clock o gid w in
                 storedAfter w (fst res) (snd res)) /\
  (forall o gid, let res := purgeGallery o gid w in
                 storedAfter w (fst res) (snd res)) /\
  (forall a d, let res := createPost clock randomBytes a d w in
               storedAfter w (isSome (fst res)) (snd res)) /\
  (forall a pid patch, let res := updatePost clock a pid patch w in
                       storedAfter w (fst res) (snd res)) /\
  (forall a pid, let res := deletePostSoft clock a pid w in
                 storedAfter w (fst res) (snd res)) /\
  (forall a pid, let res := restorePost clock a pid w in
                 storedAfter w (fst res) (snd res)) /\
  (forall a pid, let res := purgePost a pid w in
                 storedAfter w (fst res) (snd res)) /\
  (forall a postId text,
     let res := createComment clock randomBytes a postId text w in
     storedAfter w (isSome (fst res)) (snd res)) /\
  (forall a cid patch, let res := updateComment clock a cid patch w in
                       storedAfter w (fst res) (snd res)) /\
  (forall a cid, let res := deleteCommentSoft clock a cid w in
                 storedAfter w (fst res) (snd res)).
Proof.
  destruct (stored_survive w)
    as (HE & HGp & HGd & HPp & HPd & HCp & HCd & HT & HK).
  assert (forall w1, sameStored w w1 -> storedAfter w false w1) as Qf
    by (intros w1 H; exact H).
  assert (forall w1, isSaved w1 -> storedAfter w true w1) as Qt
    by (intros w1 H; exact H).
  assert (sameStored w w) as R by reflexivity.
  repeat split; intros.
  - apply (post_createGallery _ HE HGp HT HK clock randomBytes o d
             (fun r => storedAfter w (isSome r))); auto.
  - apply (post_updateGallery _ HE HGp HT HK clock _ Qf Qt); exact R.
  - apply (post_deleteGallerySoft _ HE HGp HPp HT HK clock _ Qf Qt); exact R.
  - apply (post_restoreGallery _ HE HGp HPp HT HK clock _ Qf Qt); exact R.
  - apply (post_purgeGallery _ HE HGd HPd HCd HT _ Qf Qt); exact R.
  - apply (post_createPost _ HE HPp HT HK clock randomBytes a d
             (fun r => storedAfter w (isSome r))); auto.
  - apply (post_updatePost _ HE HPp HT HK clock _ Qf Qt); exact R.
  - apply (post_deletePostSoft _ HE HPp HT HK clock _ Qf Qt); exact R.
  - apply (post_restorePost _ HE HPp HT HK clock _ Qf Qt); exact R.
  - apply (post_purgePost _ HE HPd HCd HT _ Qf Qt); exact R.
  - apply (post_createComment _ HE HCp HT HK clock randomBytes a postId text
             (fun r => storedAfter w (isSome r))); auto.
  - apply (post_updateComment _ HE HCp HT HK clock _ Qf Qt); exact R.
  - apply (post_deleteCommentSoft _ HE HCp HT HK clock _ Qf Qt); exact R.
Qed.

End FrameTheorems.

(* ------------------------------------------------------------------ *)
(** ** What a command never removes *)

Lemma get_set_some {V : Type} (m : Dict.t V) (k k' : string) (v : V) :
  Dict.get m k' <> None -> Dict.get (Dict.set m k v) k' <> None.
Proof.
  rewrite Dict_get_set. destruct (String.eqb k k'); [discriminate | auto].
Qed.

Section Kept.

Variable w : World.

Lemma keptGalleries_step (w0 : World) (s' : State) :
  (forall o k, galleryAt (state w0) o k <> None -> galleryAt s' o k <> None) ->
  keptGalleries w w0 -> keptGalleries w (setState w0 s').
Proof. intros H K o k Hk. simpl. apply H. now apply K. Qed.

Lemma keptPosts_step (w0 : World) (s' : State) :
  (forall a k, postAt (state w0) a k <> None -> postAt s' a k <> None) ->
  keptPosts w w0 -> keptPosts w (setState w0 s').
Proof. intros H K o k Hk. simpl. apply H. now apply K. Qed.

Lemma keptComments_step (w0 : World) (s' : State) :
  (forall a k, commentAt (state w0) a k <> None -> commentAt s' a k <> None) ->
  keptComments w w0 -> keptComments w (setState w0 s').
Proof. intros H K o k Hk. simpl. apply H. now apply K. Qed.

Lemma keptPartitions_step (w0 : World) (s' : State) :
  sameRegistry (state w0) s' ->
  keptPartitions w w0 -> keptPartitions w (setState w0 s').
Proof. intros (_ & _ & _ & H) K o Ho. simpl. apply H. now apply K. Qed.

Lemma put_keeps_gallery (s : State) (o k o' k' : string) (g : Gallery.t) :
  galleryAt s o' k' <> None ->
  galleryAt (updated s o (withGalleries (fun m => Dict.set m k g))) o' k'
  <> None.
Proof.
  intros H. rewrite galleryAt_withGalleries.
  destruct (String.eqb o o') eqn:E; [|exact H].
  apply String.eqb_eq in E. subst o'. unfold galleryAt, partAt in *.
  destruct (Dict.get (userData s) o); [|exact H]. now apply get_set_some.
Qed.

Lemma put_keeps_post (s : State) (o k o' k' : string) (p : Post.t) :
  postAt s o' k' <> None ->
  postAt (updated s o (withPosts (fun m => Dict.set m k p))) o' k' <> None.
Proof.
  intros H. rewrite postAt_withPosts.
  destruct (String.eqb o o') eqn:E; [|exact H].
  apply String.eqb_eq in E. subst o'. unfold postAt, partAt in *.
  destruct (Dict.get (userData s) o); [|exact H]. now apply get_set_some.
Qed.

Lemma put_keeps_comment (s : State) (o k o' k' : string) (c : Comment.t) :
  commentAt s o' k' <> None ->
  commentAt (updated s o (withComments (fun m => Dict.set m k c))) o' k'
  <> None.
Proof.
  intros H. rewrite commentAt_withComments.
  destruct (String.eqb o o') eqn:E; [|exact H].
  apply String.eqb_eq in E. subst o'. unfold commentAt, partAt in *.
  destruct (Dict.get (userData s) o); [|exact H]. now apply get_set_some.
Qed.

Lemma keptGalleries_survive :
  survivesEnsure (keptGalleries w) /\
  survivesPutGallery (keptGalleries w) /\
  survivesPutPost (keptGalleries w) /\ survivesDelPost (keptGalleries w) /\
  survivesPutComment (keptGalleries w) /\
  survivesDelComment (keptGalleries w) /\
  survivesToast (keptGalleries w) /\ survivesClock (keptGalleries w) /\
  survivesSave (keptGalleries w) /\ survivesSession (keptGalleries w) /\
  survivesAccounts (keptGalleries w).
Proof.
  split; [intros w0 o H; apply keptGalleries_step; [|exact H];
          intros; now rewrite galleryAt_ensured|].
  split; [intros w0 ? ? ? H; apply keptGalleries_step; [|exact H];
          intros; now apply put_keeps_gallery|].
  split; [intros w0 ? ? ? H; apply keptGalleries_step; [|exact H];
          intros; now rewrite galleryAt_withPosts|].
  split; [intros w0 ? ? H; apply keptGalleries_step; [|exact H];
          intros; now rewrite galleryAt_withPosts|].
  split; [intros w0 ? ? ? H; apply keptGalleries_step; [|exact H];
          intros; now rewrite galleryAt_withComments|].
  split; [intros w0 ? ? H; apply keptGalleries_step; [|exact H];
          intros; now rewrite galleryAt_withComments|].
  split; [intros w0 ? ? H; exact H|].
  split; [split; intros w0 H; exact H|].
  split; [intros w0 H; exact H|].
  split; intros w0 ? ? H; exact H.
Qed.

Lemma keptPosts_survive :
  survivesEnsure (keptPosts w) /\
  survivesPutGallery (keptPosts w) /\ survivesDelGallery (keptPosts w) /\
  survivesPutPost (keptPosts w) /\
  survivesPutComment (keptPosts w) /\ survivesDelComment (keptPosts w) /\
  survivesToast (keptPosts w) /\ survivesClock (keptPosts w) /\
  survivesSave (keptPosts w) /\ survivesSession (keptPosts w) /\
  survivesAccounts (keptPosts w).
Proof.
  split; [intros w0 o H; apply keptPosts_step; [|exact H];
          intros; now rewrite postAt_ensured|].
  split; [intros w0 ? ? ? H; apply keptPosts_step; [|exact H];
          intros; now rewrite postAt_withGalleries|].
  split; [intros w0 ? ? H; apply keptPosts_step; [|exact H];
          intros; now rewrite postAt_withGalleries|].
  split; [intros w0 ? ? ? H; apply keptPosts_step; [|exact H];
          intros; now apply put_keeps_post|].
  split; [intros w0 ? ? ? H; apply keptPosts_step; [|exact H];
          intros; now rewrite postAt_withComments|].
  split; [intros w0 ? ? H; apply keptPosts_step; [|exact H];
          intros; now rewrite postAt_withComments|].
  split; [intros w0 ? ? H; exact H|].
  split; [split; intros w0 H; exact H|].
  split; [intros w0 H; exact H|].
  split; intros w0 ? ? H; exact H.
Qed.

Lemma keptComments_survive :
  survivesEnsure (keptComments w) /\
  survivesPutGallery (keptComments w) /\
  survivesDelGallery (keptComments w) /\
  survivesPutPost (keptComments w) /\ survivesDelPost (keptComments w) /\
  survivesPutComment (keptComments w) /\
  survivesToast (keptComments w) /\ survivesClock (keptComments w) /\
  survivesSave (keptComments w) /\ survivesSession (keptComments w) /\
  survivesAccounts (keptComments w).
Proof.
  split; [intros w0 o H; apply keptComments_step; [|exact H];
          intros; now rewrite commentAt_ensured|].
  split; [intros w0 ? ? ? H; apply keptComments_step; [|exact H];
          intros; now rewrite commentAt_withGalleries|].
  split; [intros w0 ? ? H; apply keptComments_step; [|exact H];
          intros; now rewrite commentAt_withGalleries|].
  split; [intros w0 ? ? ? H; apply keptComments_step; [|exact H];
          intros; now rewrite commentAt_withPosts|].
  split; [intros w0 ? ? H; apply keptComments_step; [|exact H];
          intros; now rewrite commentAt_withPosts|].
  split; [intros w0 ? ? ? H; apply keptComments_step; [|exact H];
          intros; now apply put_keeps_comment|].
  split; [intros w0 ? ? H; exact H|].
  split; [split; intros w0 H; exact H|].
  split; [intros w0 H; exact H|].
  split; intros w0 ? ? H; exact H.
Qed.

Lemma keptPartitions_survive :
  survivesEnsure (keptPartitions w) /\
  survivesPutGallery (keptPartitions w) /\
  survivesDelGallery (keptPartitions w) /\
  survivesPutPost (keptPartitions w) /\ survivesDelPost (keptPartitions w) /\
  survivesPutComment (keptPartitions w) /\
  survivesDelComment (keptPartitions w) /\
  survivesToast (keptPartitions w) /\ survivesClock (keptPartitions w) /\
  survivesSave (keptPartitions w) /\ survivesSession (keptPartitions w) /\
  survivesAccounts (keptPartitions w).
Proof.
  split; [intros w0 o H; apply keptPartitions_step;
          [apply sameRegistry_ensured | exact H]|].
  do 3 (split; [intros w0 ? ? ? H; apply keptPartitions_step;
                [apply sameRegistry_updated | exact H]|];
        split; [intros w0 ? ? H; apply keptPartitions_step;
                [apply sameRegistry_updated | exact H]|]).
  split; [intros w0 ? ? H; exact H|].
  split; [split; intros w0 H; exact H|].
  split; [intros w0 H; exact H|].
  split; intros w0 ? ? H; exact H.
Qed.

End Kept.

Section CommandFrames.

Variable clock : nat -> string.
Variable randomBytes : nat -> nat -> list ascii.
Variable pbkdf2 : string -> list ascii -> N -> nat -> list ascii.

Ltac by_keeps :=
  first
    [ apply keeps_createGallery | apply keeps_updateGallery
    | apply keeps_deleteGallerySoft | apply keeps_restoreGallery
    | apply keeps_purgeGallery | apply keeps_createPost
    | apply keeps_updatePost | apply keeps_deletePostSoft
    | apply keeps_restorePost | apply keeps_purgePost
    | apply keeps_createComment | apply keeps_updateComment
    | apply keeps_deleteCommentSoft | apply keeps_signup
    | apply keeps_login | apply keeps_logout ];
  try assumption.

(** X26.  Only [signup] writes the accounts, and only [login] and [logout]
    write the session and the remembered user. *)
Theorem accounts_and_session_frame (c : Command) (w : World) :
  let w' := snd (exec clock randomBytes pbkdf2 c w) in
  match c with
  | Signup _ _ => sameSession w w'
  | Login _ _ _ | Logout => sameAccounts w w'
  | _ => sameAccounts w w' /\ sameSession w w'
  end.
Proof.
  destruct (accounts_survive w)
    as (HE & HGp & HGd & HPp & HPd & HCp & HCd & HT & HK & HS & HV).
  destruct (session_survive w)
    as (HE' & HGp' & HGd' & HPp' & HPd' & HCp' & HCd' & HT' & HK' & HS' & HA').
  assert (sameAccounts w w) as RA by (repeat split).
  assert (sameSession w w) as RS by (repeat split).
  destruct c; cbv zeta; cbn [exec]; rewrite ?snd_then_ret.
  1-13: split.
  all: by_keeps.
Qed.

(** X27.  A command writes records of its own kind and, by its cascade, of the
    kinds below: the commands on posts and on comments leave every gallery
    as it is, the commands on comments and the creation and update of a
    gallery leave every post as it is, and only the commands on comments and
    the two purges touch a comment.  [signup], [login] and [logout] touch
    none. *)
Theorem entity_frame (c : Command) (w : World) :
  let w' := snd (exec clock randomBytes pbkdf2 c w) in
  (match c with
   | CreateGallery _ _ | UpdateGallery _ _ _ | DeleteGallerySoft _ _
   | RestoreGallery _ _ | PurgeGallery _ _ => True
   | _ => sameGalleries w w'
   end) /\
  (match c with
   | DeleteGallerySoft _ _ | RestoreGallery _ _ | PurgeGallery _ _
   | CreatePost _ _ | UpdatePost _ _ _ | DeletePostSoft _ _
   | RestorePost _ _ | PurgePost _ _ => True
   | _ => samePosts w w'
   end) /\
  (match c with
   | PurgeGallery _ _ | PurgePost _ _ | CreateComment _ _ _
   | UpdateComment _ _ _ | DeleteCommentSoft _ _ => True
   | _ => sameComments w w'
   end).
Proof.
  destruct (galleries_survive w)
    as (GE & GPp & GPd & GCp & GCd & GT & GK & GS & GV & GA).
  destruct (posts_survive w)
    as (PE & PGp & PGd & PCp & PCd & PT & PK & PS & PV & PA).
  destruct (comments_survive w)
    as (CE & CGp & CGd & CPp & CPd & CT & CK & CS & CV & CA).
  assert (sameGalleries w w) as RG by (intros ? ?; reflexivity).
  assert (samePosts w w) as RP by (intros ? ?; reflexivity).
  assert (sameComments w w) as RC by (intros ? ?; reflexivity).
  destruct c; cbv zeta; cbn [exec]; rewrite ?snd_then_ret;
    (split; [|split]); try exact Logic.I; by_keeps.
Qed.

(** X28.  Nothing but a purge removes a record, and no command removes a
    partition: a gallery that exists still exists after any command other
    than [purgeGallery], a post or a comment after any command other than
    the two purges, and a partition after any command. *)
Theorem only_purge_removes (c : Command) (w : World) :
  let w' := snd (exec clock randomBytes pbkdf2 c w) in
  keptPartitions w w' /\
  (match c with
   | PurgeGallery _ _ => True
   | _ => keptGalleries w w'
   end) /\
  (match c with
   | PurgeGallery _ _ | PurgePost _ _ => True
   | _ => keptPosts w w' /\ keptComments w w'
   end).
Proof.
  destruct (keptPartitions_survive w)
    as (NE & NGp & NGd & NPp & NPd & NCp & NCd & NT & NK & NS & NV & NA).
  destruct (keptGalleries_survive w)
    as (GE & GGp & GPp & GPd & GCp & GCd & GT & GK & GS & GV & GA).
  destruct (keptPosts_survive w)
    as (PE & PGp & PGd & PPp & PCp & PCd & PT & PK & PS & PV & PA).
  destruct (keptComments_survive w)
    as (CE & CGp & CGd & CPp & CPd & CCp & CT & CK & CS & CV & CA).
  assert (keptPartitions w w) as RN by (intros ? H; exact H).
  assert (keptGalleries w w) as RG by (intros ? ? H; exact H).
  assert (keptPosts w w) as RP by (intros ? ? H; exact H).
  assert (keptComments w w) as RC by (intros ? ? H; exact H).
  destruct c; cbv zeta; cbn [exec]; rewrite ?snd_then_ret;
    (split; [|split; [|try split]]); try exact Logic.I; by_keeps.
Qed.

Lemma tombstoneStays_survive (a k : string) (c : Comment.t) :
  survivesEnsure (tombstoneStays a k c) /\
  survivesPutGallery (tombstoneStays a k c) /\
  survivesDelGallery (tombstoneStays a k c) /\
  survivesPutPost (tombstoneStays a k c) /\
  survivesDelPost (tombstoneStays a k c) /\
  survivesDelComment (tombstoneStays a k c) /\
  survivesToast (tombstoneStays a k c) /\
  survivesClock (tombstoneStays a k c) /\
  survivesSave (tombstoneStays a k c).
Proof.
  unfold tombstoneStays.
  split; [intros w0 o H; simpl; now rewrite commentAt_ensured|].
  split; [intros w0 ? ? ? H; simpl; now rewrite commentAt_withGalleries|].
  split; [intros w0 ? ? H; simpl; now rewrite commentAt_withGalleries|].
  split; [intros w0 ? ? ? H; simpl; now rewrite commentAt_withPosts|].
  split; [intros w0 ? ? H; simpl; now rewrite commentAt_withPosts|].
  split.
  { intros w0 o' k' H. simpl. rewrite commentAt_delComment.
    destruct (String.eqb o' a && String.eqb k' k); auto. }
  split; [intros w0 ? ? H; exact H|].
  split; [split; intros w0 H; exact H|].
  intros w0 H; exact H.
Qed.

(** X29.  A tombstoned comment is final.  No command edits it, deletes it
    again or brings it back: after any command it is stored as it was,
    unless one of the two purges removed it; this for every identifier but
    the one the next comment would be given. *)
Theorem comment_tombstone_final (cmd : Command) (w : World) (a k : string)
  (c : Comment.t) :
  commentAt (state w) a k = Some c ->
  commentDeleted c = true ->
  nextId randomBytes "c_" w <> k ->
  let w' := snd (exec clock randomBytes pbkdf2 cmd w) in
  match cmd with
  | PurgeGallery _ _ | PurgePost _ _ =>
      commentAt (state w') a k = Some c \/ commentAt (state w') a k = None
  | _ => commentAt (state w') a k = Some c
  end.
Proof.
  intros Hc Hd Hk.
  destruct (comments_survive w)
    as (CE & CGp & CGd & CPp & CPd & CT & CK & CS & CV & CA).
  destruct (tombstoneStays_survive a k c)
    as (TE & TGp & TGd & TPp & TPd & TCd & TT & TK & TS).
  assert (sameComments w w) as RC by (intros ? ?; reflexivity).
  assert (tombstoneStays a k c w) as RT by (left; exact Hc).
  destruct cmd; cbv zeta; cbn [exec]; rewrite ?snd_then_ret.
  11: rewrite createComment_apart by exact Hk; exact Hc.
  11: now apply updateComment_tombstone.
  11: now apply deleteCommentSoft_tombstone.
  5: change (tombstoneStays a k c (snd (purgeGallery ownerId gid w)));
     by_keeps.
  9: change (tombstoneStays a k c (snd (purgePost authorId pid w)));
     by_keeps.
  all: rewrite <- Hc;
    match goal with
    | |- commentAt (state (snd (?m ?w0))) _ _ = _ =>
        cut (sameComments w0 (snd (m w0))); [intros S; apply S|]
    end; by_keeps.
Qed.

End CommandFrames.

(* ------------------------------------------------------------------ *)
(** ** Calls that find nothing to do *)

Lemma ensure_then {B : Type} (o : string) (k : UserData.t -> M B) (w : World) :
  (ud <- ensureUserData o ;; k ud) w =
  k (normalizeUserData (nullish (partAt (state w) o) defaultUserData))
    (setState w (ensured (state w) o)).
Proof. reflexivity. Qed.

Lemma permitted_then {B : Type} (o : string) (denied granted : M B)
  (w : World) :
  canManage o w = true ->
  (ok <- gets (canManage o) ;; if negb ok then denied else granted) w
  = granted w.
Proof. intros H. unfold bind, gets. now rewrite H. Qed.

Lemma refused_ensured (w : World) (o : string) :
  refusedAt w o (false, setState w (ensured (state w) o)).
Proof.
  unfold refusedAt. cbn [fst snd state setState toasts ticks draws].
  split; [reflexivity|]. split; [reflexivity|]. split; [reflexivity|].
  split; [reflexivity|]. split; [reflexivity|].
  split; [split; reflexivity|]. split; [repeat split|].
  split; [intros o' k; apply galleryAt_ensured|].
  split; [intros o' k; apply postAt_ensured|].
  split; [intros o' k; apply commentAt_ensured|].
  split.
  - intros o' Hne. rewrite partAt_ensured.
    destruct (String.eqb_spec o o') as [E|E]; [now elim Hne | reflexivity].
  - eexists. rewrite partAt_ensured, String.eqb_refl.
    split; [reflexivity | apply normalizeUserData_fills].
Qed.

Section Refusals.

Variable clock : nat -> string.

Ltac refuse := exact (refused_ensured _ _).

Ltac enter H :=
  unfold updateGallery, deleteGallerySoft, restoreGallery,
    purgeGallery, updatePost, deletePostSoft, restorePost, purgePost,
    updateComment, deleteCommentSoft;
  rewrite (permitted_then _ _ _ _ H), ensure_then,
    ?get_galleries_ensure, ?get_posts_ensure, ?get_comments_ensure.

(** X30.  A call on a record that is missing, or that is tombstoned when it
    should be alive or alive when it should be tombstoned, fails silently:
    it returns [false] without a toast and without saving, and does nothing
    but ensure the partition it addresses.  The partition and the record
    are addressed by ordinary keys, not by the name of a member of
    [Object.prototype]. *)
Theorem silent_refusals (w : World) (o k : string) :
  canManage o w = true ->
  inheritedName o = false -> inheritedName k = false ->
  ((match galleryAt (state w) o k with
    | Some g => galleryDeleted g = true
    | None => True
    end ->
    (forall patch, refusedAt w o (updateGallery clock o k patch w)) /\
    refusedAt w o (deleteGallerySoft clock o k w)) /\
   (match galleryAt (state w) o k with
    | Some g => galleryDeleted g = false
    | None => True
    end -> refusedAt w o (restoreGallery clock o k w)) /\
   (galleryAt (state w) o k = None -> refusedAt w o (purgeGallery o k w))) /\
  ((match postAt (state w) o k with
    | Some p => postDeleted p = true
    | None => True
    end ->
    (forall patch, refusedAt w o (updatePost clock o k patch w)) /\
    refusedAt w o (deletePostSoft clock o k w)) /\
   (match postAt (state w) o k with
    | Some p => postDeleted p = false
    | None => True
    end -> refusedAt w o (restorePost clock o k w)) /\
   (postAt (state w) o k = None -> refusedAt w o (purgePost o k w))) /\
  (match commentAt (state w) o k with
   | Some c => commentDeleted c = true
   | None => True
   end ->
   (forall patch, refusedAt w o (updateComment clock o k patch w)) /\
   refusedAt w o (deleteCommentSoft clock o k w)).
Proof.
  intros Hperm _ _. split; [|split].
  - split; [|split].
    + intros H. split; [intros patch|]; enter Hperm;
        destruct (galleryAt (state w) o k) as [g|]; try refuse;
        unfold galleryDeleted in H; rewrite H; refuse.
    + intros H. enter Hperm.
      destruct (galleryAt (state w) o k) as [g|]; try refuse.
      unfold galleryDeleted in H. rewrite H. refuse.
    + intros H. enter Hperm. rewrite H. refuse.
  - split; [|split].
    + intros H. split; [intros patch|]; enter Hperm;
        destruct (postAt (state w) o k) as [p|]; try refuse;
        unfold postDeleted in H; rewrite H; refuse.
    + intros H. enter Hperm.
      destruct (postAt (state w) o k) as [p|]; try refuse.
      unfold postDeleted in H. rewrite H. refuse.
    + intros H. enter Hperm. rewrite H. refuse.
  - intros H. split; [intros patch|]; enter Hperm;
      destruct (commentAt (state w) o k) as [c|]; try refuse;
      unfold commentDeleted in H; rewrite H; refuse.
Qed.

End Refusals.

(* ------------------------------------------------------------------ *)
(** ** Instances of the further properties *)

Lemma hexToRgb_rgbToHex_witness :
  hexToRgb (Some (rgbToHex 18 171 255)) = (18, 171, 255)%Z.
Proof.
  apply hexToRgb_rgbToHex; split; intro H; discriminate H.
Defined.

Lemma safeId_shape_witness :
  exists body,
    fst (safeId Demo.randomBytes "g_" Demo.wFresh) = String.append "g_" body /\
    String.length body = 16 /\ forallbS isUrlSafe body = true.
Proof. exact (safeId_shape Demo.randomBytes "g_" Demo.wFresh eq_refl). Defined.

Lemma safeId_injective_witness :
  Demo.randomBytes (draws Demo.wAlice) 12 = Demo.randomBytes (draws Demo.wBob) 12.
Proof.
  exact (safeId_injective Demo.randomBytes "p_" Demo.wAlice Demo.wBob
           eq_refl eq_refl eq_refl).
Defined.

Lemma deletePost_restorePost_witness :
  fst (deletePostSoft Demo.clock "u_bob" "p1" Demo.wBob) = true /\
  fst (restorePost Demo.clock "u_bob" "p1"
         (snd (deletePostSoft Demo.clock "u_bob" "p1" Demo.wBob))) = true.
Proof.
  destruct (deletePost_restorePost Demo.clock Demo_clock_truthy Demo.wBob
              "u_bob" "p1" Demo.pDay1 (Ctx.mk "u_alice" "g1" Demo.gTrip)
              eq_refl eq_refl eq_refl eq_refl eq_refl)
    as (H1 & H2 & _).
  split; [exact H1 | exact H2].
Defined.

Lemma Demo_unflagged (a k : string) (p : Post.t) :
  postAt (state Demo.wAlice) a k = Some p ->
  postInGallery a "u_alice" "g1" p = true ->
  Post.deletedByGallery p = false.
Proof.
  intros H _. apply postAt_in in H. destruct H as (ud & Hu & Hp).
  members Hu; members Hp; reflexivity.
Qed.

Lemma deleteGallery_restoreGallery_witness :
  exists t,
    postAt (state
              (snd (restoreGallery Demo.clock "u_alice" "g1"
                      (snd (deleteGallerySoft Demo.clock "u_alice" "g1"
                              Demo.wAlice))))) "u_bob" "p1"
    = Some (restored Demo.pDay1 t).
Proof.
  destruct (deleteGallery_restoreGallery Demo.clock Demo_clock_truthy
              Demo.wAlice "u_alice" "g1" Demo.gTrip eq_refl eq_refl eq_refl
              Demo_unflagged)
    as (_ & _ & _ & _ & H & _).
  exact (H "u_bob" "p1").
Defined.

Lemma resolution_finds_witness :
  fst (resolveGalleryCtx (Some "g1") (Some "u_alice") Demo.wBob)
  = Some (Ctx.mk "u_alice" "g1" Demo.gTrip) /\
  (fst (resolvePostCtx (Some "p0") None Demo.wBob) = None <->
   truthyO (Some "p0") = false \/
   forall o, postAt (state Demo.wBob) o "p0" = None).
Proof.
  destruct (resolution_finds Demo.wBob (Some "g1") (Some "u_alice")
              eq_refl eq_refl) as [(_ & _ & H & _) _].
  destruct (resolution_finds Demo.wBob (Some "p0") None eq_refl eq_refl)
    as [_ (H' & _)].
  split; [exact (H Demo.gTrip eq_refl eq_refl eq_refl) | exact H'].
Defined.

Lemma createGallery_created_witness :
  exists g,
    fst (createGallery Demo.clock Demo.randomBytes "u_alice" Tour.newGallery
           Demo.wAlice) = Some g /\
    Gallery.deletedAt g = None /\ isHexColor (Gallery.color g) = true.
Proof.
  destruct (createGallery_created Demo.clock Demo.randomBytes Demo.wAlice
              "u_alice" Tour.newGallery eq_refl eq_refl)
    as (g & H1 & _ & H3 & H4 & _).
  exists g. split; [exact H1|]. split; [exact H3 | exact H4].
Defined.

Lemma createPost_needs_live_gallery_witness :
  exists p,
    fst (createPost Demo.clock Demo.randomBytes "u_bob" Tour.newPost Demo.wBob)
    = Some p /\
    Post.galleryOwnerId p = Some "u_alice" /\ Post.galleryId p = "g1".
Proof.
  pose proof (createPost_needs_live_gallery Demo.clock Demo.randomBytes
                Demo.wBob "u_bob" Tour.newPost
                eq_refl eq_refl eq_refl eq_refl) as H.
  cbv zeta in H.
  change (fst (resolveGalleryCtx (PostData.galleryId Tour.newPost)
                 (PostData.galleryOwnerId Tour.newPost) Demo.wBob))
    with (Some (Ctx.mk "u_alice" "g1" Demo.gTrip)) in H.
  cbv beta iota in H.
  change (truthyO (Gallery.deletedAt
                     (Ctx.item (Ctx.mk "u_alice" "g1" Demo.gTrip))))
    with false in H.
  cbv beta iota in H.
  destruct H as (p & H1 & _ & H3 & H4 & _).
  exists p. split; [exact H1|]. split; [exact H3 | exact H4].
Defined.

Lemma createComment_needs_live_post_witness :
  exists c,
    fst (createComment Demo.clock Demo.randomBytes "u_alice" "p1" (Some " Hi ")
           Demo.wAlice) = Some c /\
    Comment.postId c = "p1" /\ Comment.deletedAt c = None.
Proof.
  pose proof (createComment_needs_live_post Demo.clock Demo.randomBytes
                Demo.wAlice "u_alice" "p1" (Some " Hi ")
                eq_refl eq_refl eq_refl) as H.
  cbv zeta in H.
  change (fst (resolvePostCtx (Some "p1") None Demo.wAlice))
    with (Some (Ctx.mk "u_bob" "p1" Demo.pDay1)) in H.
  cbv beta iota in H.
  change (truthyO (Post.deletedAt (Ctx.item (Ctx.mk "u_bob" "p1" Demo.pDay1))))
    with false in H.
  cbv beta iota in H.
  destruct H as (c & H1 & _ & H3 & _ & _ & H6 & _).
  exists c. split; [exact H1|]. split; [exact H3 | exact H6].
Defined.

Lemma deleteGallery_hides_posts_witness :
  fst (listPostsInGallery "u_alice" "g1" false
         (snd (deleteGallerySoft Demo.clock "u_alice" "g1" Demo.wAlice)))
  = [].
Proof.
  exact (proj1 (deleteGallery_hides_posts Demo.clock Demo_clock_truthy
                  Demo.wAlice "u_alice" "g1" Demo.gTrip
                  eq_refl eq_refl eq_refl)).
Defined.

Lemma remember_me_witness :
  exists uid,
    rememberedUser (snd (login Demo.pbkdf2 "alice" "pw" true Demo.wStory1))
    = Some uid /\
    viewState_userId
      (snd (autoLogin
              (snd (login Demo.pbkdf2 "alice" "pw" true Demo.wStory1))))
    = Some uid.
Proof.
  destruct (remember_me Demo.pbkdf2 Demo.wStory1 "alice" "pw" true eq_refl)
    as (uid & user & _ & _ & H3 & H4 & _).
  exists uid. split; [exact H3|].
  exact (proj1 (H4 _ eq_refl eq_refl)).
Defined.

Lemma comment_tombstone_final_witness :
  commentAt (state Tour.wQuiet) "u_alice" "c1" = Some Tour.cGone /\
  commentAt
    (state (snd (exec Demo.clock Demo.randomBytes Demo.pbkdf2
                   (UpdateComment "u_alice" "c1"
                      (CommentPatch.mk (Some "Nicer")))
                   Tour.wQuiet)))
    "u_alice" "c1"
  = Some Tour.cGone.
Proof.
  split; [reflexivity|].
  refine (comment_tombstone_final Demo.clock Demo.randomBytes Demo.pbkdf2
            (UpdateComment "u_alice" "c1" (CommentPatch.mk (Some "Nicer")))
            Tour.wQuiet "u_alice" "c1" Tour.cGone eq_refl eq_refl _).
  intro H. discriminate H.
Defined.

Lemma silent_refusals_witness :
  refusedAt Demo.wAlice "u_alice"
    (purgeGallery "u_alice" "g0" Demo.wAlice) /\
  refusedAt Demo.wBob "u_bob"
    (restorePost Demo.clock "u_bob" "p1" Demo.wBob).
Proof.
  split.
  - exact (proj2 (proj2 (proj1
             (silent_refusals Demo.clock Demo.wAlice "u_alice" "g0"
                eq_refl eq_refl eq_refl)))
             eq_refl).
  - exact (proj1 (proj2 (proj1 (proj2
             (silent_refusals Demo.clock Demo.wBob "u_bob" "p1"
                eq_refl eq_refl eq_refl))))
             eq_refl).
Defined.

Lemma edits_keep_identity_witness :
  fst (updateGallery Demo.clock "u_alice" "g1"
         (GalleryPatch.mk (Some " Journey ") None None (Some "ff8800") None)
         Demo.wAlice) = true.
Proof.
  exact (proj1 (proj1 (edits_keep_identity Demo.clock Demo.wAlice
                         "u_alice" "g1" eq_refl)
                  Demo.gTrip
                  (GalleryPatch.mk (Some " Journey ") None None
                                   (Some "ff8800") None)
                  eq_refl eq_refl)).
Defined.

Lemma purgePost_cascade_witness :
  fst (purgePost "u_bob" "p1" Demo.wBob) = true /\
  commentAt (state (snd (purgePost "u_bob" "p1" Demo.wBob))) "u_alice" "c1"
  = None.
Proof.
  destruct (purgePost_cascade Demo.wBob "u_bob" "p1" Demo.pDay1
              eq_refl eq_refl)
    as (H1 & _ & H3 & _).
  split; [exact H1|]. exact (H3 "u_alice" "c1").
Defined.
